(** * PingPong: a shallow embedding of the simulation core of game.hpp

    The repository holds two near-duplicate sources, [src/game.hpp] and
    [src/include/game.hpp].  Code that is textually the same in both is
    embedded once; where the two files differ, the definition taken from
    [src/game.hpp] lives in a module whose name starts with [Root_] and the
    one taken from [src/include/game.hpp] in a module whose name starts
    with [Incl_].

    Numbers.  Every C++ [float] is modelled by an exact rational ([Q]):
    arithmetic is exact, there is no rounding, no infinity and no NaN, and
    a literal such as [0.0001f] stands for the rational it denotes in
    decimal.  What is proved of such a computation is what the [float]
    computation yields up to rounding, as long as no result leaves the
    range of [float]; the statements are chosen accordingly, and where a
    result can leave that range, in the code that moves a paddle, the
    code is embedded a second time on floats with their infinities and
    NaN (the modules whose names start with [IEEE]).  Fixed-width
    integers are [Z]; where the source can wrap ([u32 score]) the
    wrap-around is written out.  Conversions from float
    to integer that are undefined in C++ when out of range are taken at
    their mathematical value, and a division by zero, an infinity or a
    NaN in C++, is zero here (the divisors that are variables in the code
    are [RAND_MAX], a paddle's [height], 12 once [init] has run, the
    burst's [lifetime], 1, and a [vel.x] tested to be away from zero).

    Effects.  Member functions become functions on records; [float &]
    out-parameters are returned; [rand()] reads from an explicit list of
    future draws; the [Player *] back-pointers of the ball are handles
    into the pair of players owned by the window, and dereferencing a
    null handle yields [None].  Calls into [audio::] only start sounds and
    are left out of the loop; [audio::SoundPool] is embedded on its own,
    with the sound a [play] starts as its result.  The keyboard part of
    an iteration (the reset of [changed], then [process_button] on the
    queued messages) is embedded in [Keys]; the loop takes the button
    states it leaves as its input.

    Main loop.  [Window::mainloop] is embedded as a function from the
    buttons and the [dt] of one iteration to the next state of everything
    the loop keeps between iterations, the function-local statics
    included; the pixel buffer is threaded through the drawing functions
    themselves but not through the loop, whose drawing calls change
    nothing else. *)

From Stdlib Require Import ZArith QArith Qabs Qround Lia Lqa.
From Stdlib Require Import List Bool Ascii String.
From stdpp Require Import base list.

Open Scope Z_scope.
Open Scope Q_scope.

(** ** Float arithmetic on rationals *)

Module Float.

(** [a < b] as the boolean the C++ comparison yields. *)
Definition ltb (a b : Q) : bool := negb (Qle_bool b a).
Definition leb (a b : Q) : bool := Qle_bool a b.

(** [fabsf] *)
Definition fabsf (a : Q) : Q := Qabs a.

(** Truncation toward zero, as a float-to-int cast does. *)
Definition trunc (a : Q) : Z := Z.quot (Qnum a) (Zpos (Qden a)).

(** [std::fmod x y]: [x - n*y] with [n] the quotient [x/y] truncated
    toward zero, so the result carries the sign of [x]. *)
Definition fmod (a b : Q) : Q := a - inject_Z (trunc (a / b)) * b.

(** [std::round] and [std::lroundf]: nearest integer, halves away from
    zero. *)
Definition lroundf (a : Q) : Z :=
  if Qle_bool 0 a then Qfloor (a + (1 # 2)) else Qceiling (a - (1 # 2)).
Definition round (a : Q) : Q := inject_Z (lroundf a).

(** [static_cast<u8>] of a float: truncation, reduced to eight bits. *)
Definition to_u8 (a : Q) : Z := (trunc a mod 256)%Z.

Definition of_int (n : Z) : Q := inject_Z n.

End Float.

Notation "a <? b" := (Float.ltb a b) : Q_scope.
Notation "a <=? b" := (Float.leb a b) : Q_scope.
Notation "a >? b" := (Float.ltb b a) : Q_scope.
Notation "a >=? b" := (Float.leb b a) : Q_scope.

(** [u32] arithmetic. *)
Definition u32_max : Z := 4294967295%Z.
Definition u32_wrap (n : Z) : Z := (n mod 4294967296)%Z.

(** ** namespace utils *)

Module utils.

(** [utils::clamp(min, value, max)] at [float]. *)
Definition clamp (min value max : Q) : Q :=
  if value <? min then min else if value >? max then max else value.

(** [utils::clamp(min, value, max)] at [i32]. *)
Definition clampZ (min value max : Z) : Z :=
  if (value <? min)%Z then min else if (value >? max)%Z then max else value.

(** [utils::round_to(value, decimals)] of [src/include/game.hpp]:
    [std::round(value * scale) / scale] with [scale = 10^decimals]. *)
Definition round_to (value : Q) (decimals : Z) : Q :=
  let scale := inject_Z (10 ^ decimals) in
  Float.round (value * scale) / scale.

End utils.

(** ** namespace objects: Vector2 *)

Module Vector2.
Record t : Type := mk { x : Q; y : Q }.
End Vector2.

(** ** namespace render *)

Module render.

(** [RenderState]: [memory] is [None] for [nullptr], otherwise the pixel
    buffer, row-major, one [u32] per pixel.  The window procedure
    allocates [width * height] pixels; a write past the end of the list
    leaves it as it is. *)
Record RenderState : Type := mkRenderState {
  memory : option (list Z);
  width : Z;
  height : Z
}.

(** [Renderer::clear_screen] *)
Definition clear_screen (color : Z) (rs : RenderState) : RenderState :=
  match memory rs with
  | None => rs
  | Some m =>
      let n := Z.to_nat (width rs * height rs) in
      mkRenderState
        (Some (foldl (fun px i => <[i := color]> px) m (seq 0 n)))
        (width rs) (height rs)
  end.

(** The inner [for] of [render_rect_pixels]: one row from [x0] to [x1]. *)
Definition fill_row (x0 x1 yy w : Z) (color : Z) (px : list Z) : list Z :=
  foldl (fun acc xx => <[Z.to_nat (xx + yy * w) := color]> acc) px
        (seqZ x0 (x1 - x0)).

(** [Renderer::render_rect_pixels] *)
Definition render_rect_pixels (x0 y0 x1 y1 : Z) (color : Z)
    (rs : RenderState) : RenderState :=
  let x0 := utils.clampZ 0 x0 (width rs) in
  let x1 := utils.clampZ 0 x1 (width rs) in
  let y0 := utils.clampZ 0 y0 (height rs) in
  let y1 := utils.clampZ 0 y1 (height rs) in
  match memory rs with
  | None => rs
  | Some m =>
      mkRenderState
        (Some (foldl (fun acc yy => fill_row x0 x1 yy (width rs) color acc)
                     m (seqZ y0 (y1 - y0))))
        (width rs) (height rs)
  end.

(** [Renderer::render_rect] *)
Definition render_rect (x y half_x half_y : Q) (color : Z)
    (rs : RenderState) : RenderState :=
  if ((height rs =? 0) || (width rs =? 0))%Z then rs
  else
    let scale := Float.of_int (height rs) * 0.01 in
    let x := x * scale in
    let y := y * scale in
    let half_x := half_x * scale in
    let half_y := half_y * scale in
    let x := x + Float.of_int (width rs) * 0.5 in
    let y := y + Float.of_int (height rs) * 0.5 in
    let x0 := Float.lroundf (x - half_x) in
    let x1 := Float.lroundf (x + half_x) in
    let y0 := Float.lroundf (y - half_y) in
    let y1 := Float.lroundf (y + half_y) in
    render_rect_pixels x0 y0 x1 y1 color rs.

End render.

(** ** The 5x7 font and glyph rendering *)

Module font.

(** Character codes of the [char] literals the source compares with. *)
Definition SPACE : Z := 32.
Definition EXCLAM : Z := 33.
Definition PERCENT : Z := 37.
Definition MINUS : Z := 45.
Definition CH_0 : Z := 48.
Definition CH_9 : Z := 57.
Definition COLON : Z := 58.
Definition CH_A : Z := 65.
Definition CH_Z : Z := 90.

(** Rows shared by both tables: digits at 0..9, letters at 10..35 and
    the space at 36. *)
Definition FONT_common : list (list Z) :=
  [ [0x0E; 0x11; 0x13; 0x15; 0x19; 0x11; 0x0E];
    [0x04; 0x0C; 0x04; 0x04; 0x04; 0x04; 0x0E];
    [0x0E; 0x11; 0x01; 0x02; 0x04; 0x08; 0x1F];
    [0x0E; 0x11; 0x01; 0x06; 0x01; 0x11; 0x0E];
    [0x02; 0x06; 0x0A; 0x12; 0x1F; 0x02; 0x02];
    [0x1F; 0x10; 0x1E; 0x01; 0x01; 0x11; 0x0E];
    [0x06; 0x08; 0x10; 0x1E; 0x11; 0x11; 0x0E];
    [0x1F; 0x01; 0x02; 0x04; 0x08; 0x08; 0x08];
    [0x0E; 0x11; 0x11; 0x0E; 0x11; 0x11; 0x0E];
    [0x0E; 0x11; 0x11; 0x0F; 0x01; 0x02; 0x0C];
    [0x0E; 0x11; 0x11; 0x1F; 0x11; 0x11; 0x11];
    [0x1E; 0x11; 0x11; 0x1E; 0x11; 0x11; 0x1E];
    [0x0E; 0x11; 0x10; 0x10; 0x10; 0x11; 0x0E];
    [0x1C; 0x12; 0x11; 0x11; 0x11; 0x12; 0x1C];
    [0x1F; 0x10; 0x10; 0x1C; 0x10; 0x10; 0x1F];
    [0x1F; 0x10; 0x10; 0x1C; 0x10; 0x10; 0x10];
    [0x0E; 0x11; 0x10; 0x17; 0x11; 0x11; 0x0F];
    [0x11; 0x11; 0x11; 0x1F; 0x11; 0x11; 0x11];
    [0x0E; 0x04; 0x04; 0x04; 0x04; 0x04; 0x0E];
    [0x07; 0x02; 0x02; 0x02; 0x02; 0x12; 0x0C];
    [0x11; 0x12; 0x14; 0x18; 0x14; 0x12; 0x11];
    [0x10; 0x10; 0x10; 0x10; 0x10; 0x10; 0x1F];
    [0x11; 0x1B; 0x15; 0x15; 0x11; 0x11; 0x11];
    [0x11; 0x19; 0x15; 0x13; 0x11; 0x11; 0x11];
    [0x0E; 0x11; 0x11; 0x11; 0x11; 0x11; 0x0E];
    [0x1E; 0x11; 0x11; 0x1E; 0x10; 0x10; 0x10];
    [0x0E; 0x11; 0x11; 0x11; 0x15; 0x12; 0x0D];
    [0x1E; 0x11; 0x11; 0x1E; 0x14; 0x12; 0x11];
    [0x0F; 0x10; 0x10; 0x0E; 0x01; 0x01; 0x1E];
    [0x1F; 0x04; 0x04; 0x04; 0x04; 0x04; 0x04];
    [0x11; 0x11; 0x11; 0x11; 0x11; 0x11; 0x0E];
    [0x11; 0x11; 0x11; 0x0A; 0x0A; 0x04; 0x04];
    [0x11; 0x11; 0x11; 0x15; 0x15; 0x1B; 0x11];
    [0x11; 0x11; 0x0A; 0x04; 0x0A; 0x11; 0x11];
    [0x11; 0x11; 0x0A; 0x04; 0x04; 0x04; 0x04];
    [0x1F; 0x01; 0x02; 0x04; 0x08; 0x10; 0x1F];
    [0x00; 0x00; 0x00; 0x00; 0x00; 0x00; 0x00] ]%Z.

(** The glyph with no bit set. *)
Definition blank : list Z := [0; 0; 0; 0; 0; 0; 0]%Z.

(** The drawing loops of [render_glyph_5x7], common to both files:
    rows [ry = 0..6], columns [rx = 0..4], bit [W - 1 - rx] of the row
    decides whether a block is drawn. *)
Definition draw_glyph (glyph : list Z) (cx cy pixel_size : Q) (color : Z)
    (rs : render.RenderState) : render.RenderState :=
  let W := 5%Z in
  let H := 7%Z in
  let total_w := Float.of_int W * pixel_size in
  let total_h := Float.of_int H * pixel_size in
  let start_x := cx - total_w * 0.5 + pixel_size * 0.5 in
  let start_y := cy - total_h * 0.5 + pixel_size * 0.5 in
  foldl (fun rs1 ry =>
    let row := nth (Z.to_nat ry) glyph 0%Z in
    foldl (fun rs2 rx =>
      let on := Z.testbit (Z.shiftr row (W - 1 - rx)) 0 in
      if on then
        let px := start_x + Float.of_int rx * pixel_size in
        let py := start_y + Float.of_int ry * pixel_size in
        render.render_rect px py (pixel_size * 0.5) (pixel_size * 0.5)
                           color rs2
      else rs2) rs1 (seqZ 0 W)) rs (seqZ 0 H).

(** A string as the [char] values it holds ([char] is signed here). *)
Definition char_of_ascii (a : ascii) : Z :=
  let n := Z.of_N (N_of_ascii a) in
  if (n <? 128)%Z then n else (n - 256)%Z.

Definition chars_of_string (s : string) : list Z :=
  map char_of_ascii (list_ascii_of_string s).

(** The loop of [render_text], for a glyph renderer [glyph] that may
    fail. *)
Definition render_text_with
    (glyph : Z -> Q -> Q -> Q -> Z -> render.RenderState ->
             option render.RenderState)
    (s : list Z) (cx cy pixel_size spacing : Q) (color : Z)
    (rs : render.RenderState) : option render.RenderState :=
  match s with
  | [] => Some rs
  | _ =>
      let n := Float.of_int (Z.of_nat (length s)) in
      let glyph_w := 5 * pixel_size in
      let total := n * glyph_w + (n - 1) * spacing in
      let start_x := cx - total * 0.5 + glyph_w * 0.5 in
      foldl (fun acc i =>
               match acc with
               | None => None
               | Some rs1 =>
                   let gx := start_x + Float.of_int i * (glyph_w + spacing) in
                   glyph (nth (Z.to_nat i) s 0%Z) gx cy pixel_size color rs1
               end)
            (Some rs) (seqZ 0 (Z.of_nat (length s)))
  end.

End font.

(** Glyph selection and rendering of [src/game.hpp]. *)
Module Root_render.

Definition FONT_5x7 : list (list Z) := font.FONT_common.

(** The index computed by [render_glyph_5x7] for the [char] [c]. *)
Definition glyph_index (c : Z) : Z :=
  let c := if ((c <? font.SPACE) || (c >? font.CH_Z))%Z
           then font.SPACE else c in
  if ((c >=? font.CH_0) && (c <=? font.CH_9))%Z then (c - font.CH_0) + 0
  else if ((c >=? font.CH_A) && (c <=? font.CH_Z))%Z
       then 10 + (c - font.CH_A)
  else 10 + 26.

(** [Renderer::render_glyph_5x7]; [None] stands for a read outside
    [FONT_5x7]. *)
Definition render_glyph_5x7 (c : Z) (cx cy pixel_size : Q) (color : Z)
    (rs : render.RenderState) : option render.RenderState :=
  if ((render.height rs =? 0) || (render.width rs =? 0))%Z then Some rs
  else
    let idx := glyph_index c in
    if (idx <? 0)%Z then None
    else
      match FONT_5x7 !! Z.to_nat idx with
      | None => None
      | Some glyph => Some (font.draw_glyph glyph cx cy pixel_size color rs)
      end.

Definition render_text := font.render_text_with render_glyph_5x7.

(** The characters this file's table has a glyph for: digits, capital
    letters and the space. *)
Definition supported (c : Z) : bool :=
  (((font.CH_0 <=? c) && (c <=? font.CH_9)) ||
   ((font.CH_A <=? c) && (c <=? font.CH_Z)) ||
   (c =? font.SPACE))%Z.

End Root_render.

(** Glyph selection and rendering of [src/include/game.hpp]. *)
Module Incl_render.

Definition FONT_5x7 : list (list Z) :=
  font.FONT_common ++
  [ [0x19; 0x1A; 0x04; 0x08; 0x13; 0x03; 0x00];
    [0x00; 0x04; 0x00; 0x00; 0x04; 0x00; 0x00];
    [0x00; 0x00; 0x00; 0x0E; 0x00; 0x00; 0x00];
    [0x04; 0x04; 0x04; 0x04; 0x00; 0x04; 0x00] ]%Z.

Definition glyph_index (c : Z) : Z :=
  let c := if ((c <? font.SPACE) || (c >? font.CH_Z))%Z
           then font.SPACE else c in
  if ((c >=? font.CH_0) && (c <=? font.CH_9))%Z then (c - font.CH_0) + 0
  else if ((c >=? font.CH_A) && (c <=? font.CH_Z))%Z
       then 10 + (c - font.CH_A)
  else if (c =? font.PERCENT)%Z then 37
  else if (c =? font.COLON)%Z then 38
  else if (c =? font.MINUS)%Z then 39
  else if (c =? font.EXCLAM)%Z then 40
  else 36.

Definition render_glyph_5x7 (c : Z) (cx cy pixel_size : Q) (color : Z)
    (rs : render.RenderState) : option render.RenderState :=
  if ((render.height rs =? 0) || (render.width rs =? 0))%Z then Some rs
  else
    let idx := glyph_index c in
    if (idx <? 0)%Z then None
    else
      match FONT_5x7 !! Z.to_nat idx with
      | None => None
      | Some glyph => Some (font.draw_glyph glyph cx cy pixel_size color rs)
      end.

Definition render_text := font.render_text_with render_glyph_5x7.

(** The characters this file's table has a glyph for: digits, capital
    letters, the space and the four signs [% : - !]. *)
Definition supported (c : Z) : bool :=
  (((font.CH_0 <=? c) && (c <=? font.CH_9)) ||
   ((font.CH_A <=? c) && (c <=? font.CH_Z)) ||
   (c =? font.SPACE) || (c =? font.PERCENT) || (c =? font.COLON) ||
   (c =? font.MINUS) || (c =? font.EXCLAM))%Z.

End Incl_render.

(** ** namespace input *)

Module input.

Record ButtonState : Type := mkButtonState {
  is_down_ : bool;
  changed : bool
}.

(** [enum Key].  [BUTTON_F11], [BUTTON_PAUSE] and [BUTTON_ESC] exist in
    [src/include/game.hpp] only. *)
Inductive Key : Type :=
| BUTTON_LEFT_ARROW | BUTTON_UP_ARROW | BUTTON_RIGHT_ARROW
| BUTTON_DOWN_ARROW
| BUTTON_LEFT | BUTTON_UP | BUTTON_RIGHT | BUTTON_DOWN
| BUTTON_ENTER
| BUTTON_F11 | BUTTON_PAUSE | BUTTON_ESC.

(** The global [buttons] array, indexed by key. *)
Definition Buttons : Type := Key -> ButtonState.

Definition is_changed (b : Buttons) (key : Key) : bool := changed (b key).
Definition is_down (b : Buttons) (key : Key) : bool := is_down_ (b key).
Definition is_pressed (b : Buttons) (key : Key) : bool :=
  is_down b key && is_changed b key.
Definition is_released (b : Buttons) (key : Key) : bool :=
  negb (is_down b key) && is_changed b key.

End input.

(** ** [rand()] as an explicit source of draws *)

Module Rand.

(** A computation that consumes draws: the list is what [rand()] will
    return from now on; once it is used up [rand()] returns 0. *)
Definition M (A : Type) : Type := list Z -> A * list Z.

Definition ret {A : Type} (a : A) : M A := fun s => (a, s).

Definition bind {A B : Type} (m : M A) (k : A -> M B) : M B :=
  fun s => let (a, s') := m s in k a s'.

Definition rand : M Z :=
  fun s => match s with
           | [] => (0%Z, [])
           | r :: s' => (r, s')
           end.

End Rand.

Notation "'draw' x '<-' m ';' k" := (Rand.bind m (fun x => k))
  (at level 10, x name, m at level 100, k at level 200).

(** ** namespace objects *)

(** [enum AIDifficulty].  The main loop casts an [i32] to it, so any
    integer can arrive where a difficulty is expected. *)
Module AIDifficulty.
Definition Easy : Z := 0.
Definition Medium : Z := 1.
Definition Hard : Z := 2.
Definition VeryHard : Z := 3.
Definition Unbeatable : Z := 4.
End AIDifficulty.

Module PlayerController.

Record t : Type := mk {
  pos : Vector2.t;
  dp : Q;
  ddp_speed : Q;
  damping : Q
}.

Definition init (x_ : Q) (damping_ : Q) (c : t) : t :=
  mk (Vector2.mk x_ 0) 0 1400 damping_.

Definition update_pos_y (dt ddp : Q) (c : t) : t :=
  mk (Vector2.mk (Vector2.x (pos c))
                 (Vector2.y (pos c) + dp c * dt + ddp * dt * dt * 0.5))
     (dp c) (ddp_speed c) (damping c).

Definition update_dp (dt ddp : Q) (c : t) : t :=
  mk (pos c) (dp c + ddp * dt) (ddp_speed c) (damping c).

(** [update_ddp_damping(float &ddp)]: the new [ddp]. *)
Definition update_ddp_damping (ddp : Q) (c : t) : Q :=
  ddp - dp c * damping c.

(** [update(dt, float &ddp)]: the controller afterwards and the final
    [ddp]. *)
Definition update (dt ddp : Q) (c : t) : t * Q :=
  let ddp := update_ddp_damping ddp c in
  let c := update_pos_y dt ddp c in
  let c := update_dp dt ddp c in
  (c, ddp).

Definition move_left (ddp : Q) (c : t) : Q := ddp - ddp_speed c.
Definition move_up (ddp : Q) (c : t) : Q := ddp - ddp_speed c.
Definition move_right (ddp : Q) (c : t) : Q := ddp + ddp_speed c.
Definition move_down (ddp : Q) (c : t) : Q := ddp + ddp_speed c.

Definition set_pos_y (v : Q) (c : t) : t :=
  mk (Vector2.mk (Vector2.x (pos c)) v) (dp c) (ddp_speed c) (damping c).

Definition set_dp (v : Q) (c : t) : t :=
  mk (pos c) v (ddp_speed c) (damping c).

End PlayerController.

Module Player.

(** [struct Player].  The [renderer] pointer is the window's one
    renderer, whose state the drawing functions take and return.
    [pulse_timer] is a member in [src/include/game.hpp] only; the code
    of [src/game.hpp] neither reads nor writes it. *)
Record t : Type := mk {
  controller : PlayerController.t;
  arrow_controls : bool;
  ai_mode : bool;
  width : Q;
  height : Q;
  color : Z;
  score : Z;
  pulse_timer : Q
}.

Definition set_controller (c : PlayerController.t) (p : t) : t :=
  mk c (arrow_controls p) (ai_mode p) (width p) (height p) (color p)
     (score p) (pulse_timer p).

Definition set_score (s : Z) (p : t) : t :=
  mk (controller p) (arrow_controls p) (ai_mode p) (width p) (height p)
     (color p) s (pulse_timer p).

Definition set_pulse_timer (v : Q) (p : t) : t :=
  mk (controller p) (arrow_controls p) (ai_mode p) (width p) (height p)
     (color p) (score p) v.

(** [score++] on a [u32]. *)
Definition increment_score (p : t) : t :=
  set_score (u32_wrap (score p + 1)) p.

(** [handle_input(dt, float &ddp)] *)
Definition handle_input (b : input.Buttons) (dt ddp : Q) (p : t) : Q :=
  let ddp :=
    if input.is_down b (if arrow_controls p then input.BUTTON_UP_ARROW
                        else input.BUTTON_UP)
    then PlayerController.move_up ddp (controller p) else ddp in
  if input.is_down b (if arrow_controls p then input.BUTTON_DOWN_ARROW
                      else input.BUTTON_DOWN)
  then PlayerController.move_down ddp (controller p) else ddp.

Definition TOP : Q := 50.
Definition BOTTOM : Q := -50.
Definition HIGH_VY : Q := 100.

(** The fold of a projected height back between the walls, as written
    inside [predict_ball]. *)
Definition fold_y (proj_y : Q) : Q :=
  let span := TOP - BOTTOM in
  let shifted := proj_y - BOTTOM in
  let cycle := Float.fmod shifted (2 * span) in
  let cycle := if cycle <? 0 then cycle + 2 * span else cycle in
  if cycle <=? span then BOTTOM + cycle else TOP - (cycle - span).

Section AI.

(** [RAND_MAX] comes from [<cstdlib>]. *)
Variable RAND_MAX : Z.

(** [static_cast<float>(rand()) / RAND_MAX] *)
Definition rand_unit : Rand.M Q :=
  draw r <- Rand.rand;
  Rand.ret (Float.of_int r / Float.of_int RAND_MAX).

(** The condition [will_predict] of [predict_ball]. *)
Definition will_predict (ball_vel : Vector2.t) (paddle_x : Q) : bool :=
  (Float.fabsf (Vector2.y ball_vel) >? HIGH_VY) &&
  (Float.fabsf (Vector2.x ball_vel) >? 0.0001) &&
  (((paddle_x >=? 0) && (Vector2.x ball_vel >? 0)) ||
   ((paddle_x <? 0) && (Vector2.x ball_vel <? 0))).

(** The [switch (level)] of [predict_ball], from the folded height
    [final_y]; the result is the new [target_y]. *)
Definition perturb (level : Z) (final_y target_y : Q) : Rand.M Q :=
  if (level =? 1)%Z then
    draw u <- rand_unit;
    let inacurracy := u * 12 - 16 in
    let final_y := final_y + inacurracy in
    draw r <- Rand.rand;
    let final_y := if (r mod 15 =? 0)%Z then TOP else final_y in
    Rand.ret (final_y + inacurracy)
  else if (level =? 2)%Z then
    draw u <- rand_unit;
    let inacurracy := u * 12 - 10 in
    let final_y := final_y + inacurracy in
    draw r <- Rand.rand;
    let final_y := if (r mod 5 =? 0)%Z then TOP else final_y in
    Rand.ret (final_y + inacurracy)
  else if (level =? 3)%Z then
    Rand.ret (final_y + 10)
  else Rand.ret target_y.

(** [predict_ball(self, ball_vel, ball_pos, paddle_x, float &target_y,
    level)]: the new [target_y]. *)
Definition predict_ball (ball_vel ball_pos : Vector2.t)
    (paddle_x target_y : Q) (level : Z) : Rand.M Q :=
  if will_predict ball_vel paddle_x then
    let t := (paddle_x - Vector2.x ball_pos) / Vector2.x ball_vel in
    if t >? 0 then
      let proj_y := Vector2.y ball_pos + Vector2.y ball_vel * t in
      perturb level (fold_y proj_y) target_y
    else Rand.ret (Vector2.y ball_pos)
  else Rand.ret target_y.

(** [smash_ball(dist_x, target_y, paddle_y, ball_vel, controller,
    float &ddp)] *)
Definition smash_ball (dist_x target_y paddle_y : Q)
    (ball_vel : Vector2.t) (c : PlayerController.t) (ddp : Q) : Q :=
  if dist_x <=? 10 then
    let diff := target_y - paddle_y in
    if Float.fabsf diff <? 1 then
      if Vector2.y ball_vel >? 0 then PlayerController.move_down ddp c
      else PlayerController.move_up ddp c
    else
      let dir := if diff >? 0 then 1%Z else (-1)%Z in
      if (dir >? 0)%Z then PlayerController.move_down ddp c
      else PlayerController.move_up ddp c
  else ddp.

(** [follow_ball(target_y, paddle_y, controller, float &ddp)] *)
Definition follow_ball (target_y paddle_y : Q) (c : PlayerController.t)
    (ddp : Q) : Q :=
  let diff := target_y - paddle_y in
  if diff >? 5 then PlayerController.move_down ddp c
  else if diff <? -5 then PlayerController.move_up ddp c
  else ddp.

(** [run_ai_mode(self, ball_pos, ball_vel, float &ddp, difficulty)],
    called with [self = *this]. *)
Definition run_ai_mode (ball_pos ball_vel : Vector2.t) (ddp : Q)
    (difficulty : Z) (p : t) : Rand.M Q :=
  let c := controller p in
  let self_x := Vector2.x (PlayerController.pos c) in
  if negb (((self_x >? 0) && (Vector2.x ball_pos >? 0)) ||
           ((self_x <? 0) && (Vector2.x ball_pos <? 0)))
  then Rand.ret ddp
  else
    let paddle_x := self_x in
    let paddle_y := Vector2.y (PlayerController.pos c) in
    let dist_x := Float.fabsf (paddle_x - Vector2.x ball_pos) in
    let target_y := Vector2.y ball_pos in
    if (difficulty =? AIDifficulty.Easy)%Z then
      Rand.ret (follow_ball target_y paddle_y c ddp)
    else if (difficulty =? AIDifficulty.Medium)%Z then
      let ddp := smash_ball dist_x target_y paddle_y ball_vel c ddp in
      Rand.ret (follow_ball target_y paddle_y c ddp)
    else if (difficulty =? AIDifficulty.Hard)%Z then
      draw target_y <- predict_ball ball_vel ball_pos paddle_x target_y 1;
      let ddp := smash_ball dist_x target_y paddle_y ball_vel c ddp in
      Rand.ret (follow_ball target_y paddle_y c ddp)
    else if (difficulty =? AIDifficulty.VeryHard)%Z then
      draw target_y <- predict_ball ball_vel ball_pos paddle_x target_y 2;
      let ddp := smash_ball dist_x target_y paddle_y ball_vel c ddp in
      Rand.ret (follow_ball target_y paddle_y c ddp)
    else if (difficulty =? AIDifficulty.Unbeatable)%Z then
      draw target_y <- predict_ball ball_vel ball_pos paddle_x target_y 3;
      let ddp := smash_ball dist_x target_y paddle_y ball_vel c ddp in
      Rand.ret (follow_ball target_y paddle_y c ddp)
    else Rand.ret ddp.

End AI.

(** [reset()] *)
Definition reset (p : t) : t :=
  set_controller
    (PlayerController.set_dp 0
       (PlayerController.set_pos_y 0 (controller p))) p.

(** [add_collision()] *)
Definition add_collision (p : t) : t :=
  let p :=
    if Vector2.y (PlayerController.pos (controller p)) + height p >? 50
    then
      let c := PlayerController.set_pos_y (50 - height p) (controller p) in
      set_controller
        (PlayerController.set_dp (PlayerController.dp c * -0.5) c) p
    else p in
  if Vector2.y (PlayerController.pos (controller p)) - height p <? -50
  then
    let c := PlayerController.set_pos_y (-50 + height p) (controller p) in
    set_controller
      (PlayerController.set_dp (PlayerController.dp c * -0.5) c) p
  else p.

(** Whether one of the two tests of [add_collision] holds for [p]. *)
Definition clamp_fires (p : t) : bool :=
  (Vector2.y (PlayerController.pos (controller p)) + height p >? 50) ||
  (Vector2.y (PlayerController.pos (controller p)) - height p <? -50).

(** The statements that open [update] in both files: [ddp] starts at 0,
    the driver ([run_ai_mode] or [handle_input]) adds to it, and the
    controller integrates. *)
Definition drive (RAND_MAX : Z) (b : input.Buttons) (dt : Q)
    (ball_pos ball_vel : Vector2.t) (difficulty : Z) (p : t)
    : Rand.M t :=
  let ddp := 0 in
  draw ddp <-
    (if ai_mode p
     then run_ai_mode RAND_MAX ball_pos ball_vel ddp difficulty p
     else Rand.ret (handle_input b dt ddp p));
  Rand.ret
    (set_controller (fst (PlayerController.update dt ddp (controller p))) p).

End Player.

(** [Player::init] and [Player::update] of [src/game.hpp]. *)
Module Root_Player.

(** [init(x, ai_mode_, speed, damping)] *)
Definition init (x_ : Q) (ai_mode_ : bool) (speed damping : Q)
    (p : Player.t) : Player.t :=
  let c := PlayerController.init x_ damping (Player.controller p) in
  let c := PlayerController.mk (PlayerController.pos c)
             (PlayerController.dp c) speed (PlayerController.damping c) in
  Player.mk c (Player.arrow_controls p) ai_mode_ 2 12
    (if Player.arrow_controls p then 0x004DABF7 else 0x00FF6B6B)%Z
    (Player.score p) (Player.pulse_timer p).

(** What [update] does to the player, before it draws the paddle. *)
Definition step (RAND_MAX : Z) (b : input.Buttons) (dt : Q)
    (ball_pos ball_vel : Vector2.t) (difficulty : Z) (p : Player.t)
    : Rand.M Player.t :=
  draw p <- Player.drive RAND_MAX b dt ball_pos ball_vel difficulty p;
  Rand.ret (Player.add_collision p).

(** [update(dt, ball_pos, ball_vel, difficulty)] *)
Definition update (RAND_MAX : Z) (b : input.Buttons) (dt : Q)
    (ball_pos ball_vel : Vector2.t) (difficulty : Z) (p : Player.t)
    (rs : render.RenderState) : Rand.M (Player.t * render.RenderState) :=
  draw p <- step RAND_MAX b dt ball_pos ball_vel difficulty p;
  let c := Player.controller p in
  Rand.ret
    (p, render.render_rect (Vector2.x (PlayerController.pos c))
          (Vector2.y (PlayerController.pos c)) (Player.width p)
          (Player.height p) (Player.color p) rs).

End Root_Player.

(** [Player::init], [Player::lighten_color] and [Player::update] of
    [src/include/game.hpp]. *)
Module Incl_Player.

Definition init (x_ : Q) (ai_mode_ : bool) (speed damping : Q)
    (p : Player.t) : Player.t :=
  let c := PlayerController.init x_ (damping * 9) (Player.controller p) in
  let c := PlayerController.mk (PlayerController.pos c)
             (PlayerController.dp c) (speed * 1700)
             (PlayerController.damping c) in
  Player.mk c (Player.arrow_controls p) ai_mode_ 2 12
    (if Player.arrow_controls p then 0x004DABF7 else 0x00FF6B6B)%Z
    (Player.score p) (Player.pulse_timer p).

(** [lighten_color(c, intensity)] *)
Definition lighten_color (c : Z) (intensity : Q) : Z :=
  let r := Z.land (Z.shiftr c 16) 0xFF in
  let g := Z.land (Z.shiftr c 8) 0xFF in
  let b := Z.land c 0xFF in
  let r := Float.to_u8 (Float.of_int r + Float.of_int (255 - r) * intensity) in
  let g := Float.to_u8 (Float.of_int g + Float.of_int (255 - g) * intensity) in
  let b := Float.to_u8 (Float.of_int b + Float.of_int (255 - b) * intensity) in
  Z.lor (Z.lor (Z.shiftl r 16) (Z.shiftl g 8)) b.

(** What [update] does to the player, before it draws the paddle. *)
Definition step (RAND_MAX : Z) (b : input.Buttons) (dt : Q)
    (ball_pos ball_vel : Vector2.t) (difficulty : Z) (p : Player.t)
    : Rand.M Player.t :=
  draw p <- Player.drive RAND_MAX b dt ball_pos ball_vel difficulty p;
  let p := Player.add_collision p in
  Rand.ret
    (if Player.pulse_timer p >? 0 then
       let pt := Player.pulse_timer p - dt in
       Player.set_pulse_timer (if pt <? 0 then 0 else pt) p
     else p).

(** [update(dt, ball_pos, ball_vel, difficulty)] *)
Definition update (RAND_MAX : Z) (b : input.Buttons) (dt : Q)
    (ball_pos ball_vel : Vector2.t) (difficulty : Z) (p : Player.t)
    (rs : render.RenderState) : Rand.M (Player.t * render.RenderState) :=
  draw p <- step RAND_MAX b dt ball_pos ball_vel difficulty p;
  let t := Player.pulse_timer p / 0.5 in
  let final_color :=
    if t >? 0 then lighten_color (Player.color p) t else Player.color p in
  let c := Player.controller p in
  Rand.ret
    (p, render.render_rect (Vector2.x (PlayerController.pos c))
          (Vector2.y (PlayerController.pos c)) (Player.width p)
          (Player.height p) final_color rs).

End Incl_Player.

(** ** Floats with their infinities and NaN

    The rest of the file computes with exact rationals: what a [float]
    computation yields, up to rounding, as long as no result leaves the
    range of [float].  This part keeps the other values of a [float] as
    well, for the code that moves a paddle.  A result too large for a
    [float] becomes an infinity, and the operations on infinities and
    NaN are those of IEEE 754; a result within the range keeps its exact
    value. *)

Module IEEE.

Inductive t : Type :=
| Num (q : Q)
| PInf
| NInf
| NaN.

(** An exact result of this size or more rounds to an infinity in
    binary32: [2^128 - 2^103], half a unit in the last place above
    [FLT_MAX]. *)
Definition LIMIT : Q := 340282356779733661637539395458142568448.

(** The [float] an exact result becomes. *)
Definition round (q : Q) : t :=
  if LIMIT <=? q then PInf
  else if q <=? - LIMIT then NInf
  else Num q.

Definition opp (a : t) : t :=
  match a with
  | Num q => Num (- q)
  | PInf => NInf
  | NInf => PInf
  | NaN => NaN
  end.

Definition add (a b : t) : t :=
  match a, b with
  | NaN, _ => NaN
  | _, NaN => NaN
  | Num p, Num q => round (p + q)
  | PInf, NInf => NaN
  | NInf, PInf => NaN
  | PInf, _ => PInf
  | _, PInf => PInf
  | NInf, _ => NInf
  | _, NInf => NInf
  end.

Definition sub (a b : t) : t := add a (opp b).

(** An infinity times the number [q]. *)
Definition scale_inf (positive : bool) (q : Q) : t :=
  if Qeq_bool q 0 then NaN
  else if Bool.eqb positive (0 <? q) then PInf else NInf.

Definition mul (a b : t) : t :=
  match a, b with
  | NaN, _ => NaN
  | _, NaN => NaN
  | Num p, Num q => round (p * q)
  | Num p, PInf => scale_inf true p
  | Num p, NInf => scale_inf false p
  | PInf, Num q => scale_inf true q
  | NInf, Num q => scale_inf false q
  | PInf, PInf => PInf
  | NInf, NInf => PInf
  | PInf, NInf => NInf
  | NInf, PInf => NInf
  end.

(** [a < b]; false as soon as one side is NaN. *)
Definition ltb (a b : t) : bool :=
  match a, b with
  | NaN, _ => false
  | _, NaN => false
  | Num p, Num q => p <? q
  | NInf, NInf => false
  | NInf, _ => true
  | _, NInf => false
  | PInf, _ => false
  | Num _, PInf => true
  end.

(** [a > b] *)
Definition gtb (a b : t) : bool := ltb b a.

Definition is_nan (a : t) : bool :=
  match a with
  | NaN => true
  | _ => false
  end.

(** A number between [lo] and [hi]. *)
Definition between (lo hi : Q) (a : t) : Prop :=
  match a with
  | Num q => lo <= q <= hi
  | _ => False
  end.

(** A number of size at most [10^k]. *)
Definition bound (k : nat) : Q := inject_Z (10 ^ Z.of_nat k).

Definition small (k : nat) (q : Q) : Prop := - bound k <= q <= bound k.

Definition within (k : nat) (a : t) : Prop :=
  match a with
  | Num q => small k q
  | _ => False
  end.

End IEEE.

(** [struct PlayerController] on these floats. *)
Module IEEE_PlayerController.

Record t : Type := mk {
  pos_x : IEEE.t;
  pos_y : IEEE.t;
  dp : IEEE.t;
  ddp_speed : IEEE.t;
  damping : IEEE.t
}.

Definition update_pos_y (dt ddp : IEEE.t) (c : t) : t :=
  mk (pos_x c)
     (IEEE.add (IEEE.add (pos_y c) (IEEE.mul (dp c) dt))
        (IEEE.mul (IEEE.mul (IEEE.mul ddp dt) dt) (IEEE.Num 0.5)))
     (dp c) (ddp_speed c) (damping c).

Definition update_dp (dt ddp : IEEE.t) (c : t) : t :=
  mk (pos_x c) (pos_y c) (IEEE.add (dp c) (IEEE.mul ddp dt))
     (ddp_speed c) (damping c).

Definition update_ddp_damping (ddp : IEEE.t) (c : t) : IEEE.t :=
  IEEE.sub ddp (IEEE.mul (dp c) (damping c)).

(** [update(dt, float &ddp)]: the controller afterwards and the final
    [ddp]. *)
Definition update (dt ddp : IEEE.t) (c : t) : t * IEEE.t :=
  let ddp := update_ddp_damping ddp c in
  let c := update_pos_y dt ddp c in
  let c := update_dp dt ddp c in
  (c, ddp).

Definition set_pos_y (v : IEEE.t) (c : t) : t :=
  mk (pos_x c) v (dp c) (ddp_speed c) (damping c).

Definition set_dp (v : IEEE.t) (c : t) : t :=
  mk (pos_x c) (pos_y c) v (ddp_speed c) (damping c).

(** The controller whose members are the numbers of [c]. *)
Definition of_exact (c : PlayerController.t) : t :=
  mk (IEEE.Num (Vector2.x (PlayerController.pos c)))
     (IEEE.Num (Vector2.y (PlayerController.pos c)))
     (IEEE.Num (PlayerController.dp c))
     (IEEE.Num (PlayerController.ddp_speed c))
     (IEEE.Num (PlayerController.damping c)).

End IEEE_PlayerController.

(** [struct Player] on these floats: the members the arithmetic of
    [update] reads and writes. *)
Module IEEE_Player.

Record t : Type := mk {
  controller : IEEE_PlayerController.t;
  height : IEEE.t
}.

Definition set_controller (c : IEEE_PlayerController.t) (p : t) : t :=
  mk c (height p).

(** [add_collision()] *)
Definition add_collision (p : t) : t :=
  let p :=
    if IEEE.gtb (IEEE.add (IEEE_PlayerController.pos_y (controller p))
                          (height p)) (IEEE.Num 50)
    then
      let c := IEEE_PlayerController.set_pos_y
                 (IEEE.sub (IEEE.Num 50) (height p)) (controller p) in
      set_controller
        (IEEE_PlayerController.set_dp
           (IEEE.mul (IEEE_PlayerController.dp c) (IEEE.Num (-0.5))) c) p
    else p in
  if IEEE.ltb (IEEE.sub (IEEE_PlayerController.pos_y (controller p))
                        (height p)) (IEEE.Num (-50))
  then
    let c := IEEE_PlayerController.set_pos_y
               (IEEE.add (IEEE.Num (-50)) (height p)) (controller p) in
    set_controller
      (IEEE_PlayerController.set_dp
         (IEEE.mul (IEEE_PlayerController.dp c) (IEEE.Num (-0.5))) c) p
  else p.

(** Whether one of the two tests of [add_collision] holds for [p]. *)
Definition clamp_fires (p : t) : bool :=
  IEEE.gtb (IEEE.add (IEEE_PlayerController.pos_y (controller p))
                     (height p)) (IEEE.Num 50) ||
  IEEE.ltb (IEEE.sub (IEEE_PlayerController.pos_y (controller p))
                     (height p)) (IEEE.Num (-50)).

(** The paddle as [controller.update(dt, ddp)] leaves it, [ddp] being
    the value the driver ([run_ai_mode] or [handle_input]) has left in
    the local of [update]. *)
Definition integrate (ddp dt : IEEE.t) (p : t) : t :=
  set_controller (fst (IEEE_PlayerController.update dt ddp (controller p))) p.

(** [update] of both files from the call of [controller.update] to the
    end of [add_collision]. *)
Definition update (ddp dt : IEEE.t) (p : t) : t :=
  add_collision (integrate ddp dt p).

Definition of_exact (p : Player.t) : t :=
  mk (IEEE_PlayerController.of_exact (Player.controller p))
     (IEEE.Num (Player.height p)).

End IEEE_Player.

(** The two [Player] objects of the window, and handles to them: what a
    [Player *] of the ball can point to. *)
Module Players.

Inductive Id : Type := P1 | P2.

Record t : Type := mk { player1 : Player.t; player2 : Player.t }.

Definition get (i : Id) (ps : t) : Player.t :=
  match i with P1 => player1 ps | P2 => player2 ps end.

Definition set (i : Id) (p : Player.t) (ps : t) : t :=
  match i with
  | P1 => mk p (player2 ps)
  | P2 => mk (player1 ps) p
  end.

Definition modify (i : Id) (f : Player.t -> Player.t) (ps : t) : t :=
  set i (f (get i ps)) ps.

Definition eqb (i j : Id) : bool :=
  match i, j with
  | P1, P1 | P2, P2 => true
  | _, _ => false
  end.

(** The score of the player [i] names. *)
Definition score (i : Id) (ps : t) : Z := Player.score (get i ps).

End Players.

Module BallController.

(** [struct BallController]; a null [Player *] is [None]. *)
Record t : Type := mk {
  pos : Vector2.t;
  player1 : option Players.Id;
  player2 : option Players.Id;
  vel : Vector2.t;
  size : Q;
  scored : bool;
  winner : Z
}.

(** [init(player1, player2)] *)
Definition init (p1 p2 : option Players.Id) (b : t) : t :=
  mk (Vector2.mk 0 0) p1 p2 (Vector2.mk 95 0) 1.2 false 0.

(** [update_physics(dt)] *)
Definition update_physics (dt : Q) (b : t) : t :=
  mk (Vector2.mk (Vector2.x (pos b) + Vector2.x (vel b) * dt)
                 (Vector2.y (pos b) + Vector2.y (vel b) * dt))
     (player1 b) (player2 b) (vel b) (size b) (scored b) (winner b).

(** The two wall tests that open [add_collision] in both files. *)
Definition bounce_walls (b : t) : t :=
  let b :=
    if Vector2.y (pos b) + size b >? 50 then
      mk (Vector2.mk (Vector2.x (pos b)) (50 - size b))
         (player1 b) (player2 b)
         (Vector2.mk (Vector2.x (vel b)) (- Vector2.y (vel b)))
         (size b) (scored b) (winner b)
    else b in
  if Vector2.y (pos b) - size b <? -50 then
    mk (Vector2.mk (Vector2.x (pos b)) (-50 + size b))
       (player1 b) (player2 b)
       (Vector2.mk (Vector2.x (vel b)) (- Vector2.y (vel b)))
       (size b) (scored b) (winner b)
  else b.

(** The goal branches: [scored = true], the [winner] and the clamped
    [pos.x]. *)
Definition goal (w : Z) (x_ : Q) (b : t) : t :=
  mk (Vector2.mk x_ (Vector2.y (pos b))) (player1 b) (player2 b) (vel b)
     (size b) true w.

(** [overlap_x && overlap_y] for a paddle at [(px, py)]. *)
Definition overlaps (px py width height : Q) (b : t) : bool :=
  (Float.fabsf (Vector2.x (pos b) - px) <=? width + size b) &&
  (Float.fabsf (Vector2.y (pos b) - py) <=? height + size b).

(** Whether [add_collision], run for the paddle [player], reaches its
    collision response: no goal after the wall tests, and overlap. *)
Definition paddle_hit (player : Player.t) (b : t) : bool :=
  let b := bounce_walls b in
  negb (Vector2.x (pos b) + size b >? 80) &&
  negb (Vector2.x (pos b) - size b <? -80) &&
  overlaps (Vector2.x (PlayerController.pos (Player.controller player)))
           (Vector2.y (PlayerController.pos (Player.controller player)))
           (Player.width player) (Player.height player) b.

(** The ball flush against the paddle face, on the side it came from. *)
Definition flush_x (px width : Q) (b : t) : Q :=
  if Vector2.x (vel b) <? 0 then px + width + size b
  else px - width - size b.

End BallController.

(** [BallController::add_collision] and [BallController::update] of
    [src/game.hpp]. *)
Module Root_BallController.

Import BallController.

(** [add_collision(const Player &player, Ball &ball)], called with
    [player] bound to the object the handle [pid] names.  [None] is the
    dereference of a null [player1] or [player2]. *)
Definition add_collision (pid : Players.Id) (b : t) (ps : Players.t)
    : option (t * Players.t) :=
  let b := bounce_walls b in
  if Vector2.x (pos b) + size b >? 80 then
    match player1 b with
    | None => None
    | Some q =>
        Some (goal 1 (80 + size b) b,
              Players.modify q Player.increment_score ps)
    end
  else if Vector2.x (pos b) - size b <? -80 then
    match player2 b with
    | None => None
    | Some q =>
        Some (goal 2 (-80 - size b) b,
              Players.modify q Player.increment_score ps)
    end
  else
    let player := Players.get pid ps in
    let px := Vector2.x (PlayerController.pos (Player.controller player)) in
    let py := Vector2.y (PlayerController.pos (Player.controller player)) in
    let width := Player.width player in
    let height := Player.height player in
    let dp := PlayerController.dp (Player.controller player) in
    if overlaps px py width height b then
      let pos_x := flush_x px width b in
      let vel_x := - Vector2.x (vel b) + 0.0001 in
      let hit := (Vector2.y (pos b) - py) / height in
      let hit_influence := hit * 38 in
      let paddle_influence := dp * 0.20 in
      let vel_y := Vector2.y (vel b) + (hit_influence + paddle_influence) in
      Some (mk (Vector2.mk pos_x (Vector2.y (pos b))) (player1 b)
               (player2 b) (Vector2.mk vel_x vel_y) (size b) (scored b)
               (winner b), ps)
    else Some (b, ps).

(** [update(dt, ball)] *)
Definition update (dt : Q) (b : t) (ps : Players.t)
    : option (t * Players.t) :=
  if scored b then Some (b, ps)
  else
    let b := update_physics dt b in
    match (match player1 b with
           | Some pid => add_collision pid b ps
           | None => Some (b, ps)
           end) with
    | None => None
    | Some (b, ps) =>
        if scored b then Some (b, ps)
        else
          match player2 b with
          | Some pid => add_collision pid b ps
          | None => Some (b, ps)
          end
    end.

End Root_BallController.

(** [BallController::add_collision] and [BallController::update] of
    [src/include/game.hpp]. *)
Module Incl_BallController.

Import BallController.

(** [add_collision(Player *player, Ball &ball)] *)
Definition add_collision (player : option Players.Id) (b : t)
    (ps : Players.t) : option (t * Players.t) :=
  match player with
  | None => Some (b, ps)
  | Some pid =>
      let b := bounce_walls b in
      if Vector2.x (pos b) + size b >? 80 then
        match player1 b with
        | None => None
        | Some q =>
            Some (goal 1 (80 + size b) b,
                  Players.modify q Player.increment_score ps)
        end
      else if Vector2.x (pos b) - size b <? -80 then
        match player2 b with
        | None => None
        | Some q =>
            Some (goal 2 (-80 - size b) b,
                  Players.modify q Player.increment_score ps)
        end
      else
        let pl := Players.get pid ps in
        let px := Vector2.x (PlayerController.pos (Player.controller pl)) in
        let py := Vector2.y (PlayerController.pos (Player.controller pl)) in
        let width := Player.width pl in
        let height := Player.height pl in
        let dp := PlayerController.dp (Player.controller pl) in
        if overlaps px py width height b then
          let pos_x := flush_x px width b in
          let ps := Players.modify pid (Player.set_pulse_timer 0.5) ps in
          let vel_x := - Vector2.x (vel b) + 0.0001 in
          let hit := (Vector2.y (pos b) - py) / height in
          let hit_influence := hit * 38 in
          let paddle_influence := dp * 0.20 in
          let vel_y :=
            Vector2.y (vel b) +
            (hit_influence + paddle_influence + 0.0001) in
          Some (mk (Vector2.mk pos_x (Vector2.y (pos b))) (player1 b)
                   (player2 b) (Vector2.mk vel_x vel_y) (size b) (scored b)
                   (winner b), ps)
        else Some (b, ps)
  end.

(** [update(dt, ball)] *)
Definition update (dt : Q) (b : t) (ps : Players.t)
    : option (t * Players.t) :=
  if scored b then Some (b, ps)
  else
    let b := update_physics dt b in
    match (match player1 b with
           | Some _ => add_collision (player1 b) b ps
           | None => Some (b, ps)
           end) with
    | None => None
    | Some (b, ps) =>
        if scored b then Some (b, ps)
        else
          match player2 b with
          | Some _ => add_collision (player2 b) b ps
          | None => Some (b, ps)
          end
    end.

End Incl_BallController.

Module Ball.

(** [struct Ball]; its [renderer] is the window's renderer. *)
Record t : Type := mk {
  controller : BallController.t;
  color : Z
}.

(** [reset()] *)
Definition reset (b : t) : t :=
  let c := controller b in
  mk (BallController.mk
        (Vector2.mk 0 0)
        (BallController.player1 c) (BallController.player2 c)
        (Vector2.mk (- Vector2.x (BallController.vel c)) 0)
        (BallController.size c) false 0)
     (color b).

(** [render()] *)
Definition render (b : t) (rs : render.RenderState) : render.RenderState :=
  let c := controller b in
  render.render_rect (Vector2.x (BallController.pos c))
    (Vector2.y (BallController.pos c)) (BallController.size c)
    (BallController.size c) (color b) rs.

End Ball.

(** [Ball::init] of [src/game.hpp]. *)
Module Root_Ball.
Definition init (speed : Q) (b : Ball.t) : Ball.t :=
  let c := BallController.init (Some Players.P1) (Some Players.P2)
             (Ball.controller b) in
  Ball.mk (BallController.mk (BallController.pos c)
             (BallController.player1 c) (BallController.player2 c)
             (Vector2.mk speed (Vector2.y (BallController.vel c)))
             (BallController.size c) (BallController.scored c)
             (BallController.winner c))
          0x0000FFFF%Z.
End Root_Ball.

(** [Ball::init] of [src/include/game.hpp]. *)
Module Incl_Ball.
Definition init (speed : Q) (b : Ball.t) : Ball.t :=
  let c := BallController.init (Some Players.P1) (Some Players.P2)
             (Ball.controller b) in
  Ball.mk (BallController.mk (BallController.pos c)
             (BallController.player1 c) (BallController.player2 c)
             (Vector2.mk (speed * 100) (Vector2.y (BallController.vel c)))
             (BallController.size c) (BallController.scored c)
             (BallController.winner c))
          0x0000FFFF%Z.
End Incl_Ball.

Module Particle.
Record t : Type := mk { pos : Vector2.t; vel : Vector2.t; life : Q }.
End Particle.

Module ParticleBurst.

(** [struct ParticleBurst]; [renderer] is [true] when the pointer is
    not null. *)
Record t : Type := mk {
  particles : list Particle.t;
  active : bool;
  renderer : bool;
  count : Z;
  lifetime : Q;
  pos : Vector2.t;
  speed_min : Q;
  speed_max : Q
}.

(** The member initialisers, as [ParticleBurst(render::Renderer &r)]
    leaves them ([pos] starts at the origin here). *)
Definition initial : t :=
  mk [] false true 80 1 (Vector2.mk 0 0) 30 80.

Definition set_particles (l : list Particle.t) (a : bool) (b : t) : t :=
  mk l a (renderer b) (count b) (lifetime b) (pos b) (speed_min b)
     (speed_max b).

Section Start.

(** [RAND_MAX], [std::cos] and [std::sin] come from the C library. *)
Variable RAND_MAX : Z.
Variables cosf sinf : Q -> Q.

(** One iteration of the loop of [start]. *)
Definition spawn (x_ y_ : Q) (b : t) : Rand.M Particle.t :=
  draw u <- Player.rand_unit RAND_MAX;
  let angle := u * 2 * 3.14159265 in
  draw v <- Player.rand_unit RAND_MAX;
  let speed := speed_min b + v * (speed_max b - speed_min b) in
  draw w <- Player.rand_unit RAND_MAX;
  Rand.ret (Particle.mk (Vector2.mk x_ y_)
              (Vector2.mk (cosf angle * speed) (sinf angle * speed))
              (lifetime b * (0.5 + w * 0.5))).

Fixpoint spawn_n (n : nat) (x_ y_ : Q) (b : t)
    : Rand.M (list Particle.t) :=
  match n with
  | O => Rand.ret []
  | S n' =>
      draw p <- spawn x_ y_ b;
      draw l <- spawn_n n' x_ y_ b;
      Rand.ret (p :: l)
  end.

(** [start(x, y)] *)
Definition start (x_ y_ : Q) (b : t) : Rand.M t :=
  if negb (renderer b) then Rand.ret b
  else
    draw l <- spawn_n (Z.to_nat (count b)) x_ y_ b;
    Rand.ret (mk l true (renderer b) (count b) (lifetime b)
                 (Vector2.mk x_ y_) (speed_min b) (speed_max b)).

End Start.

(** The body of the [for] in [update]. *)
Definition advance (dt : Q) (p : Particle.t) : Particle.t :=
  Particle.mk
    (Vector2.mk
       (Vector2.x (Particle.pos p) + Vector2.x (Particle.vel p) * dt)
       (Vector2.y (Particle.pos p) + Vector2.y (Particle.vel p) * dt))
    (Particle.vel p) (Particle.life p - dt).

(** The predicate given to [std::remove_if]. *)
Definition dead (p : Particle.t) : bool := Particle.life p <=? 0.

(** [update(dt)] *)
Definition update (dt : Q) (b : t) : t :=
  if negb (active b) then b
  else
    let l := List.map (advance dt) (particles b) in
    let l := List.filter (fun p => negb (dead p)) l in
    set_particles l (match l with [] => false | _ => active b end) b.

(** [render()] *)
Definition render (b : t) (rs : render.RenderState) : render.RenderState :=
  if negb (active b) || negb (renderer b) then rs
  else
    foldl (fun rs1 p =>
      let a := utils.clamp 0 (Particle.life p / lifetime b) 1 in
      let right := Vector2.x (pos b) >? 0 in
      let r := Float.to_u8 ((if right then 77 else 255) * a) in
      let g := Float.to_u8 ((if right then 171 else 107) * a) in
      let bl := Float.to_u8 ((if right then 247 else 107) * a) in
      let color := Z.lor (Z.lor (Z.shiftl r 16) (Z.shiftl g 8)) bl in
      render.render_rect (Vector2.x (Particle.pos p))
        (Vector2.y (Particle.pos p)) 1 1 color rs1)
      rs (particles b).

(** [finished()] *)
Definition finished (b : t) : bool := negb (active b).

End ParticleBurst.

Module FlashEffect.

Record t : Type := mk {
  renderer : bool;
  alpha : Q;
  active : bool;
  fade_speed : Q
}.

Definition start (f : t) : t := mk (renderer f) 1 true (fade_speed f).

Definition update (dt : Q) (f : t) : t :=
  if negb (active f) then f
  else
    let a := alpha f - dt * fade_speed f in
    if a <=? 0 then mk (renderer f) 0 false (fade_speed f)
    else mk (renderer f) a (active f) (fade_speed f).

Definition finished (f : t) : bool := negb (active f).

(** The colour [render()] computes; its local [a] is never used. *)
Definition color (f : t) : Z :=
  let r := Float.to_u8 (255 * (0.3 + 0.7 * alpha f)) in
  Z.lor (Z.lor (Z.shiftl r 16) (Z.shiftl r 8)) r.

(** [render()] *)
Definition render (f : t) (rs : render.RenderState) : render.RenderState :=
  if negb (active f) || negb (renderer f) then rs
  else render.render_rect 0 0 100 100 (color f) rs.

End FlashEffect.

(** ** namespace window: the Settings screen of the main loop *)

(** [std::max] and [std::min] as the library defines them. *)
Definition fmax (a b : Q) : Q := if a <? b then b else a.
Definition fmin (a b : Q) : Q := if b <? a then b else a.

Inductive MenuState : Type :=
| MENU_MAIN | MENU_SETTINGS | MENU_PLAYING | MENU_BACK.

(** The [MENU_SETTINGS] branch of [Window::mainloop] in [src/game.hpp]:
    the function-local statics, and the locals of [mainloop] the branch
    assigns. *)
Module Root_Settings.

Record t : Type := mk {
  settings_index : Z;
  _ball_speed : Q;
  _paddle_speed : Q;
  _paddle_damping : Q;
  _ai_difficulty : Z;
  ball_speed : Q;
  paddle_speed : Q;
  paddle_damping : Q;
  ai_difficulty : Z;
  menu_state : MenuState
}.

(** The statics at their initialisers, and the locals as [mainloop]
    declares them; [i32 ai_difficulty] has no initialiser, and [uninit]
    is the value it holds until the Settings screen assigns it. *)
Definition initial (uninit : Z) : t :=
  mk 0 1 1 1.4 1 95 1600 11 uninit MENU_MAIN.

(** [setting_labels.size()] *)
Definition n_labels : Z := 5.

Definition nav_up (b : input.Buttons) (s : t) : t :=
  if input.is_pressed b input.BUTTON_UP_ARROW ||
     input.is_pressed b input.BUTTON_UP
  then
    let i := (settings_index s - 1)%Z in
    let i := if (i <? 0)%Z then (n_labels - 1)%Z else i in
    mk i (_ball_speed s) (_paddle_speed s) (_paddle_damping s)
       (_ai_difficulty s) (ball_speed s) (paddle_speed s)
       (paddle_damping s) (ai_difficulty s) (menu_state s)
  else s.

Definition nav_down (b : input.Buttons) (s : t) : t :=
  if input.is_pressed b input.BUTTON_DOWN_ARROW ||
     input.is_pressed b input.BUTTON_DOWN
  then
    let i := (settings_index s + 1)%Z in
    let i := if (i >=? n_labels)%Z then 0%Z else i in
    mk i (_ball_speed s) (_paddle_speed s) (_paddle_damping s)
       (_ai_difficulty s) (ball_speed s) (paddle_speed s)
       (paddle_damping s) (ai_difficulty s) (menu_state s)
  else s.

Definition set_values (bs ps pd : Q) (ai : Z) (s : t) : t :=
  mk (settings_index s) bs ps pd ai (ball_speed s) (paddle_speed s)
     (paddle_damping s) (ai_difficulty s) (menu_state s).

Definition press_left (b : input.Buttons) (s : t) : t :=
  if input.is_pressed b input.BUTTON_LEFT_ARROW then
    if (settings_index s =? 0)%Z then
      set_values (fmax 0.5 (_ball_speed s - 0.1)) (_paddle_speed s)
                 (_paddle_damping s) (_ai_difficulty s) s
    else if (settings_index s =? 1)%Z then
      set_values (_ball_speed s) (fmax 0.5 (_paddle_speed s - 0.1))
                 (_paddle_damping s) (_ai_difficulty s) s
    else if (settings_index s =? 2)%Z then
      set_values (_ball_speed s) (_paddle_speed s)
                 (fmax 0.8 (_paddle_damping s - 0.1)) (_ai_difficulty s) s
    else if (settings_index s =? 3)%Z then
      set_values (_ball_speed s) (_paddle_speed s) (_paddle_damping s)
                 (Z.max 0 (_ai_difficulty s - 1)) s
    else s
  else s.

Definition press_right (b : input.Buttons) (s : t) : t :=
  if input.is_pressed b input.BUTTON_RIGHT_ARROW then
    if (settings_index s =? 0)%Z then
      set_values (fmin 3.0 (_ball_speed s + 0.1)) (_paddle_speed s)
                 (_paddle_damping s) (_ai_difficulty s) s
    else if (settings_index s =? 1)%Z then
      set_values (_ball_speed s) (fmin 3.0 (_paddle_speed s + 0.1))
                 (_paddle_damping s) (_ai_difficulty s) s
    else if (settings_index s =? 2)%Z then
      set_values (_ball_speed s) (_paddle_speed s)
                 (fmin 2.0 (_paddle_damping s + 0.1)) (_ai_difficulty s) s
    else if (settings_index s =? 3)%Z then
      set_values (_ball_speed s) (_paddle_speed s) (_paddle_damping s)
                 (Z.min 4 (_ai_difficulty s + 1)) s
    else s
  else s.

Definition press_enter (b : input.Buttons) (s : t) : t :=
  if input.is_pressed b input.BUTTON_ENTER then
    if (settings_index s =? n_labels - 1)%Z then
      mk (settings_index s) (_ball_speed s) (_paddle_speed s)
         (_paddle_damping s) (_ai_difficulty s) (ball_speed s)
         (paddle_speed s) (paddle_damping s) (ai_difficulty s) MENU_MAIN
    else s
  else s.

(** The assignments that close the branch. *)
Definition publish (s : t) : t :=
  mk (settings_index s) (_ball_speed s) (_paddle_speed s)
     (_paddle_damping s) (_ai_difficulty s)
     (_ball_speed s * 95) (_paddle_speed s * 1600)
     (_paddle_damping s * 8) (_ai_difficulty s) (menu_state s).

(** One pass through the branch, for the buttons of this iteration. *)
Definition frame (b : input.Buttons) (s : t) : t :=
  publish (press_enter b (press_right b (press_left b
    (nav_down b (nav_up b s))))).

(** The branch run once per element of [bs], oldest first. *)
Definition run (bs : list input.Buttons) (s : t) : t :=
  foldl (fun acc b => frame b acc) s bs.

End Root_Settings.

(** [struct Config] of [src/include/game.hpp], without the JSON mirror
    [data] of its members, and the globals of [namespace audio] the
    Settings screen assigns. *)
Module Config.

Record t : Type := mk {
  paddle_speed : Q;
  paddle_damping : Q;
  ball_speed : Q;
  game_duration_secs : Q;
  ai_difficulty : Z;
  audio_enabled : bool;
  music_volume : Q;
  sfx_volume : Q
}.

(** The default member initialisers. *)
Definition default : t := mk 1 1 1.4 30 1 false 1 1.

Definition set_paddle_speed (v : Q) (c : t) : t :=
  mk (utils.round_to v 1) (paddle_damping c) (ball_speed c)
     (game_duration_secs c) (ai_difficulty c) (audio_enabled c)
     (music_volume c) (sfx_volume c).

Definition set_paddle_damping (v : Q) (c : t) : t :=
  mk (paddle_speed c) (utils.round_to v 1) (ball_speed c)
     (game_duration_secs c) (ai_difficulty c) (audio_enabled c)
     (music_volume c) (sfx_volume c).

Definition set_ball_speed (v : Q) (c : t) : t :=
  mk (paddle_speed c) (paddle_damping c) (utils.round_to v 1)
     (game_duration_secs c) (ai_difficulty c) (audio_enabled c)
     (music_volume c) (sfx_volume c).

Definition set_ai_difficulty (v : Z) (c : t) : t :=
  mk (paddle_speed c) (paddle_damping c) (ball_speed c)
     (game_duration_secs c) v (audio_enabled c)
     (music_volume c) (sfx_volume c).

Definition set_music_enabled (v : bool) (c : t) : t :=
  mk (paddle_speed c) (paddle_damping c) (ball_speed c)
     (game_duration_secs c) (ai_difficulty c) v
     (music_volume c) (sfx_volume c).

Definition set_music_volume (v : Q) (c : t) : t :=
  mk (paddle_speed c) (paddle_damping c) (ball_speed c)
     (game_duration_secs c) (ai_difficulty c) (audio_enabled c)
     (utils.round_to v 1) (sfx_volume c).

Definition set_sfx_volume (v : Q) (c : t) : t :=
  mk (paddle_speed c) (paddle_damping c) (ball_speed c)
     (game_duration_secs c) (ai_difficulty c) (audio_enabled c)
     (music_volume c) (utils.round_to v 1).

(** [set_game_duration_secs(u16 value)] *)
Definition set_game_duration_secs (v : Z) (c : t) : t :=
  mk (paddle_speed c) (paddle_damping c) (ball_speed c)
     (Float.of_int v) (ai_difficulty c) (audio_enabled c)
     (music_volume c) (sfx_volume c).

(** What [save_to_file] does to the members before it writes them. *)
Definition save_to_file (c : t) : t :=
  mk (utils.round_to (paddle_speed c) 1)
     (utils.round_to (paddle_damping c) 1)
     (utils.round_to (ball_speed c) 1)
     (game_duration_secs c) (ai_difficulty c) (audio_enabled c)
     (utils.round_to (music_volume c) 1)
     (utils.round_to (sfx_volume c) 1).

End Config.

(** The [MENU_SETTINGS] branch of [Window::mainloop] in
    [src/include/game.hpp]. *)
Module Incl_Settings.

Record t : Type := mk {
  settings_index : Z;
  _ball_speed : Q;
  _paddle_speed : Q;
  _paddle_damping : Q;
  _game_duration_secs : Z;
  _ai_difficulty : Z;
  game_config : Config.t;
  menu_state : MenuState
}.

Definition u16_wrap (n : Z) : Z := (n mod 65536)%Z.

(** The statics, initialised from [game_config] the first time the
    branch runs. *)
Definition initial (cfg : Config.t) : t :=
  mk 0 (Config.ball_speed cfg) (Config.paddle_speed cfg)
     (Config.paddle_damping cfg)
     (u16_wrap (Float.trunc (Config.game_duration_secs cfg)))
     (Config.ai_difficulty cfg) cfg MENU_SETTINGS.

Definition n_labels : Z := 9.

Definition set_index (i : Z) (s : t) : t :=
  mk i (_ball_speed s) (_paddle_speed s) (_paddle_damping s)
     (_game_duration_secs s) (_ai_difficulty s) (game_config s)
     (menu_state s).

Definition set_values (bs ps pd : Q) (gd ai : Z) (s : t) : t :=
  mk (settings_index s) bs ps pd gd ai (game_config s) (menu_state s).

Definition set_config (cfg : Config.t) (s : t) : t :=
  mk (settings_index s) (_ball_speed s) (_paddle_speed s)
     (_paddle_damping s) (_game_duration_secs s) (_ai_difficulty s) cfg
     (menu_state s).

Definition nav_up (b : input.Buttons) (s : t) : t :=
  if input.is_pressed b input.BUTTON_UP_ARROW ||
     input.is_pressed b input.BUTTON_UP
  then
    let i := (settings_index s - 1)%Z in
    set_index (if (i <? 0)%Z then (n_labels - 1)%Z else i) s
  else s.

Definition nav_down (b : input.Buttons) (s : t) : t :=
  if input.is_pressed b input.BUTTON_DOWN_ARROW ||
     input.is_pressed b input.BUTTON_DOWN
  then
    let i := (settings_index s + 1)%Z in
    set_index (if (i >=? n_labels)%Z then 0%Z else i) s
  else s.

Definition press_left (b : input.Buttons) (s : t) : t :=
  if input.is_pressed b input.BUTTON_LEFT_ARROW then
    let i := settings_index s in
    let cfg := game_config s in
    if (i =? 0)%Z then
      set_values (fmax 0.5 (utils.round_to (_ball_speed s - 0.1) 1))
        (_paddle_speed s) (_paddle_damping s) (_game_duration_secs s)
        (_ai_difficulty s) s
    else if (i =? 1)%Z then
      set_values (_ball_speed s)
        (fmax 0.5 (utils.round_to (_paddle_speed s - 0.1) 1))
        (_paddle_damping s) (_game_duration_secs s) (_ai_difficulty s) s
    else if (i =? 2)%Z then
      set_values (_ball_speed s) (_paddle_speed s)
        (fmax 0.8 (utils.round_to (_paddle_damping s - 0.1) 1))
        (_game_duration_secs s) (_ai_difficulty s) s
    else if (i =? 3)%Z then
      set_values (_ball_speed s) (_paddle_speed s) (_paddle_damping s)
        (_game_duration_secs s) (Z.max 0 (_ai_difficulty s - 1)) s
    else if (i =? 4)%Z then
      set_config (Config.set_music_enabled false cfg) s
    else if (i =? 5)%Z then
      let newVol :=
        fmax 0.0 (utils.round_to (Config.music_volume cfg - 0.1) 1) in
      set_config (Config.set_music_volume newVol cfg) s
    else if (i =? 6)%Z then
      let newVol :=
        fmax 0.0 (utils.round_to (Config.sfx_volume cfg - 0.1) 1) in
      set_config (Config.set_sfx_volume newVol cfg) s
    else if (i =? 7)%Z then
      set_values (_ball_speed s) (_paddle_speed s) (_paddle_damping s)
        (u16_wrap (Z.max 5 (_game_duration_secs s - 1)))
        (_ai_difficulty s) s
    else s
  else s.

Definition press_right (b : input.Buttons) (s : t) : t :=
  if input.is_pressed b input.BUTTON_RIGHT_ARROW then
    let i := settings_index s in
    let cfg := game_config s in
    if (i =? 0)%Z then
      set_values (fmin 3.0 (utils.round_to (_ball_speed s + 0.1) 1))
        (_paddle_speed s) (_paddle_damping s) (_game_duration_secs s)
        (_ai_difficulty s) s
    else if (i =? 1)%Z then
      set_values (_ball_speed s)
        (fmin 3.0 (utils.round_to (_paddle_speed s + 0.1) 1))
        (_paddle_damping s) (_game_duration_secs s) (_ai_difficulty s) s
    else if (i =? 2)%Z then
      set_values (_ball_speed s) (_paddle_speed s)
        (fmin 2.0 (utils.round_to (_paddle_damping s + 0.1) 1))
        (_game_duration_secs s) (_ai_difficulty s) s
    else if (i =? 3)%Z then
      set_values (_ball_speed s) (_paddle_speed s) (_paddle_damping s)
        (_game_duration_secs s) (Z.min 4 (_ai_difficulty s + 1)) s
    else if (i =? 4)%Z then
      set_config (Config.set_music_enabled true cfg) s
    else if (i =? 5)%Z then
      let newVol :=
        fmin 1.0 (utils.round_to (Config.music_volume cfg + 0.1) 1) in
      set_config (Config.set_music_volume newVol cfg) s
    else if (i =? 6)%Z then
      let newVol :=
        fmin 1.0 (utils.round_to (Config.sfx_volume cfg + 0.1) 1) in
      set_config (Config.set_sfx_volume newVol cfg) s
    else if (i =? 7)%Z then
      set_values (_ball_speed s) (_paddle_speed s) (_paddle_damping s)
        (u16_wrap (Z.min 600 (_game_duration_secs s + 1)))
        (_ai_difficulty s) s
    else s
  else s.

(** The [if (is_pressed(BUTTON_ENTER)) ... else ...] that closes the
    branch. *)
Definition press_enter (b : input.Buttons) (s : t) : t :=
  if input.is_pressed b input.BUTTON_ENTER then
    if (settings_index s =? n_labels - 1)%Z then
      let cfg := game_config s in
      let cfg := Config.set_ball_speed (_ball_speed s) cfg in
      let cfg := Config.set_paddle_speed (_paddle_speed s) cfg in
      let cfg := Config.set_paddle_damping (_paddle_damping s) cfg in
      let cfg := Config.set_ai_difficulty (_ai_difficulty s) cfg in
      let cfg :=
        Config.set_game_duration_secs (_game_duration_secs s) cfg in
      let cfg := Config.save_to_file cfg in
      mk (settings_index s) (_ball_speed s) (_paddle_speed s)
         (_paddle_damping s) (_game_duration_secs s) (_ai_difficulty s)
         cfg MENU_MAIN
    else s
  else
    let cfg := game_config s in
    set_config
      (Config.mk (_paddle_speed s) (_paddle_damping s) (_ball_speed s)
         (Float.of_int (_game_duration_secs s)) (_ai_difficulty s)
         (Config.audio_enabled cfg) (Config.music_volume cfg)
         (Config.sfx_volume cfg)) s.

Definition frame (b : input.Buttons) (s : t) : t :=
  press_enter b (press_right b (press_left b (nav_down b (nav_up b s)))).

Definition run (bs : list input.Buttons) (s : t) : t :=
  foldl (fun acc b => frame b acc) s bs.

End Incl_Settings.

(** ** What the main loop does to the particle burst

    [Window::mainloop] touches [particle_burst] in three ways.  When the
    ball has scored it calls [start]; while the celebration runs it calls
    [update]; and in [src/include/game.hpp] only, the Restart and
    Main-Menu entries of the pause menu assign [particle_burst.active =
    false] and leave the particles where they are. *)
Module Burst.

Inductive Source : Type := Root | Incl.

Inductive Op : Type :=
| Start (x_ y_ : Q)
| Update (dt : Q)
| Deactivate.

(** [particle_burst.active = false;] *)
Definition deactivate (b : ParticleBurst.t) : ParticleBurst.t :=
  ParticleBurst.set_particles (ParticleBurst.particles b) false b.

(** The operations a source file contains. *)
Definition performs (src : Source) (o : Op) : bool :=
  match o, src with
  | Deactivate, Root => false
  | _, _ => true
  end.

Section Run.

Variable RAND_MAX : Z.
Variables cosf sinf : Q -> Q.

Definition step (o : Op) (b : ParticleBurst.t)
    : Rand.M ParticleBurst.t :=
  match o with
  | Start x_ y_ => ParticleBurst.start RAND_MAX cosf sinf x_ y_ b
  | Update dt => Rand.ret (ParticleBurst.update dt b)
  | Deactivate => Rand.ret (deactivate b)
  end.

Fixpoint run (ops : list Op) (b : ParticleBurst.t)
    : Rand.M ParticleBurst.t :=
  match ops with
  | [] => Rand.ret b
  | o :: ops' => draw b' <- step o b; run ops' b'
  end.

(** [update] called once for each element of [dts], oldest first. *)
Definition updates (dts : list Q) (b : ParticleBurst.t)
    : ParticleBurst.t :=
  foldl (fun acc dt => ParticleBurst.update dt acc) b dts.

End Run.

(** The time accumulated by a list of updates. *)
Definition elapsed (dts : list Q) : Q := foldr Qplus 0 dts.

End Burst.

(** ** The main loop of [src/game.hpp]

    One iteration of [while (running)] in [Window::mainloop], for the
    buttons and the [dt] of that iteration, on everything the loop keeps
    between iterations except the pixels: calls that only draw
    ([world.draw], [render_text], [render_rect], [Ball::render],
    [ParticleBurst::render], [FlashEffect::render]) are left out, and
    [Player::update] and [Ball::update] are taken through what they do to
    the player and to the ball.  An iteration in which the render state
    is not usable runs none of this and leaves everything as it is.
    [None] is the dereference of a null player pointer. *)
Module Root_Window.

Record t : Type := mk {
  settings : Root_Settings.t;
  menu_index : Z;
  players : Players.t;
  ball : Ball.t;
  particle_burst : ParticleBurst.t;
  flash : FlashEffect.t;
  in_celebration : bool;
  celebration_time : Q;
  running : bool;
  draws : list Z
}.

Definition set_settings (v : Root_Settings.t) (w : t) : t :=
  mk v (menu_index w) (players w) (ball w) (particle_burst w) (flash w)
     (in_celebration w) (celebration_time w) (running w) (draws w).

Definition set_menu_index (v : Z) (w : t) : t :=
  mk (settings w) v (players w) (ball w) (particle_burst w) (flash w)
     (in_celebration w) (celebration_time w) (running w) (draws w).

Definition set_players (v : Players.t) (w : t) : t :=
  mk (settings w) (menu_index w) v (ball w) (particle_burst w) (flash w)
     (in_celebration w) (celebration_time w) (running w) (draws w).

Definition set_ball (v : Ball.t) (w : t) : t :=
  mk (settings w) (menu_index w) (players w) v (particle_burst w) (flash w)
     (in_celebration w) (celebration_time w) (running w) (draws w).

Definition set_particle_burst (v : ParticleBurst.t) (w : t) : t :=
  mk (settings w) (menu_index w) (players w) (ball w) v (flash w)
     (in_celebration w) (celebration_time w) (running w) (draws w).

Definition set_flash (v : FlashEffect.t) (w : t) : t :=
  mk (settings w) (menu_index w) (players w) (ball w) (particle_burst w) v
     (in_celebration w) (celebration_time w) (running w) (draws w).

Definition set_in_celebration (v : bool) (w : t) : t :=
  mk (settings w) (menu_index w) (players w) (ball w) (particle_burst w)
     (flash w) v (celebration_time w) (running w) (draws w).

Definition set_celebration_time (v : Q) (w : t) : t :=
  mk (settings w) (menu_index w) (players w) (ball w) (particle_burst w)
     (flash w) (in_celebration w) v (running w) (draws w).

Definition set_running (v : bool) (w : t) : t :=
  mk (settings w) (menu_index w) (players w) (ball w) (particle_burst w)
     (flash w) (in_celebration w) (celebration_time w) v (draws w).

Definition set_draws (v : list Z) (w : t) : t :=
  mk (settings w) (menu_index w) (players w) (ball w) (particle_burst w)
     (flash w) (in_celebration w) (celebration_time w) (running w) v.

(** The window as constructed, with [uninit] in [ai_difficulty] and
    [ds] the values [rand()] is going to return.  The members of the
    players and of the ball that the source gives no initialiser (a
    player's controller, [width], [height] and [color]; the ball's
    [pos] and [vel]) hold 0 here; [init] assigns them when a match
    starts. *)
Definition initial (uninit : Z) (ds : list Z) : t :=
  mk (Root_Settings.initial uninit) 0
     (Players.mk
        (Player.mk (PlayerController.mk (Vector2.mk 0 0) 0 0 0) false true
                   0 0 0 0 0)
        (Player.mk (PlayerController.mk (Vector2.mk 0 0) 0 0 0) true true
                   0 0 0 0 0))
     (Ball.mk (BallController.mk (Vector2.mk 0 0) None None (Vector2.mk 0 0)
                 1.2 false 0) 0x0000FFFF%Z)
     ParticleBurst.initial
     (FlashEffect.mk true 0 false 3)
     false 0 true ds.

Definition set_menu_state (m : MenuState) (w : t) : t :=
  let s := settings w in
  set_settings
    (Root_Settings.mk (Root_Settings.settings_index s)
       (Root_Settings._ball_speed s) (Root_Settings._paddle_speed s)
       (Root_Settings._paddle_damping s) (Root_Settings._ai_difficulty s)
       (Root_Settings.ball_speed s) (Root_Settings.paddle_speed s)
       (Root_Settings.paddle_damping s) (Root_Settings.ai_difficulty s) m) w.

(** [menu_items.size()] *)
Definition n_items : Z := 4.

(** The start of a match from the main menu; [ai2] is the [ai_mode] of
    [player2]. *)
Definition start_match (ai2 : bool) (w : t) : t :=
  let s := settings w in
  let p1 := Root_Player.init (-70) false (Root_Settings.paddle_speed s)
              (Root_Settings.paddle_damping s) (Players.player1 (players w)) in
  let p2 := Root_Player.init 70 ai2 (Root_Settings.paddle_speed s)
              (Root_Settings.paddle_damping s) (Players.player2 (players w)) in
  let p1 := Player.set_score 0
              (Player.mk (Player.controller p1) (Player.arrow_controls p1)
                 false (Player.width p1) (Player.height p1) (Player.color p1)
                 (Player.score p1) (Player.pulse_timer p1)) in
  let p2 := Player.set_score 0
              (Player.mk (Player.controller p2) (Player.arrow_controls p2)
                 ai2 (Player.width p2) (Player.height p2) (Player.color p2)
                 (Player.score p2) (Player.pulse_timer p2)) in
  set_menu_state MENU_PLAYING
    (set_ball (Root_Ball.init (Root_Settings.ball_speed s) (ball w))
       (set_players (Players.mk p1 p2) w)).

(** The [MENU_MAIN] branch. *)
Definition main_menu (b : input.Buttons) (w : t) : t :=
  let w :=
    if input.is_pressed b input.BUTTON_UP_ARROW ||
       input.is_pressed b input.BUTTON_UP
    then
      let i := (menu_index w - 1)%Z in
      set_menu_index (if (i <? 0)%Z then (n_items - 1)%Z else i) w
    else w in
  let w :=
    if input.is_pressed b input.BUTTON_DOWN_ARROW ||
       input.is_pressed b input.BUTTON_DOWN
    then
      let i := (menu_index w + 1)%Z in
      set_menu_index (if (i >=? n_items)%Z then 0%Z else i) w
    else w in
  if input.is_pressed b input.BUTTON_ENTER then
    if (menu_index w =? 0)%Z then start_match true w
    else if (menu_index w =? 1)%Z then start_match false w
    else if (menu_index w =? 2)%Z then set_menu_state MENU_SETTINGS w
    else if (menu_index w =? 3)%Z then set_running false w
    else w
  else w.

Section Playing.

Variable RAND_MAX : Z.
Variables cosf sinf : Q -> Q.

(** [player1.update(...); player2.update(...);] *)
Definition update_players (b : input.Buttons) (dt : Q) (difficulty : Z)
    (w : t) : t :=
  let c := Ball.controller (ball w) in
  let (p1, d1) :=
    Root_Player.step RAND_MAX b dt (BallController.pos c)
      (BallController.vel c) difficulty (Players.player1 (players w))
      (draws w) in
  let (p2, d2) :=
    Root_Player.step RAND_MAX b dt (BallController.pos c)
      (BallController.vel c) difficulty (Players.player2 (players w)) d1 in
  set_draws d2 (set_players (Players.mk p1 p2) w).

(** The [if (!in_celebration) ... else ...] of the [MENU_PLAYING]
    branch. *)
Definition play_or_celebrate (b : input.Buttons) (dt : Q) (w : t)
    : option t :=
  if negb (in_celebration w) then
    let w :=
      update_players b dt (Root_Settings.ai_difficulty (settings w)) w in
    match Root_BallController.update dt (Ball.controller (ball w))
            (players w) with
    | None => None
    | Some (c, ps) =>
        let w := set_players ps
                   (set_ball (Ball.mk c (Ball.color (ball w))) w) in
        if BallController.scored c then
          let w := set_celebration_time 0 (set_in_celebration true w) in
          let px := Vector2.x (BallController.pos c) in
          let py := Vector2.y (BallController.pos c) in
          let (pb, d) :=
            ParticleBurst.start RAND_MAX cosf sinf px py (particle_burst w)
              (draws w) in
          Some (set_flash (FlashEffect.start (flash w))
                  (set_draws d (set_particle_burst pb w)))
        else Some w
    end
  else
    let w := set_celebration_time (celebration_time w + dt) w in
    let w := set_flash (FlashEffect.update dt (flash w)) w in
    let w := set_particle_burst
               (ParticleBurst.update dt (particle_burst w)) w in
    if FlashEffect.finished (flash w) &&
       ParticleBurst.finished (particle_burst w)
    then
      let w := set_ball (Ball.reset (ball w)) w in
      let w := set_players
                 (Players.mk (Player.reset (Players.player1 (players w)))
                             (Player.reset (Players.player2 (players w)))) w in
      Some (set_in_celebration false w)
    else Some w.

(** The [MENU_PLAYING] branch. *)
Definition playing (b : input.Buttons) (dt : Q) (w : t) : option t :=
  match play_or_celebrate b dt w with
  | None => None
  | Some w =>
      let w :=
        if in_celebration w
        then update_players b dt AIDifficulty.Medium w
        else w in
      Some (if input.is_pressed b input.BUTTON_ENTER
            then set_menu_state MENU_MAIN w else w)
  end.

(** One iteration of the loop. *)
Definition frame (b : input.Buttons) (dt : Q) (w : t) : option t :=
  match Root_Settings.menu_state (settings w) with
  | MENU_MAIN => Some (main_menu b w)
  | MENU_SETTINGS => Some (set_settings (Root_Settings.frame b (settings w)) w)
  | MENU_PLAYING => playing b dt w
  | MENU_BACK => Some w
  end.

(** The loop, for the buttons and [dt] of each iteration in turn; it
    stops when [running] is false. *)
Fixpoint steps (inputs : list (input.Buttons * Q)) (w : t) : option t :=
  match inputs with
  | [] => Some w
  | (b, dt) :: rest =>
      if running w then
        match frame b dt w with
        | None => None
        | Some w' => steps rest w'
        end
      else Some w
  end.

(** The states the program can be in. *)
Definition reachable (w : t) : Prop :=
  exists (uninit : Z) (ds : list Z) (inputs : list (input.Buttons * Q)),
    steps inputs (initial uninit ds) = Some w.

End Playing.

End Root_Window.

(** ** The main loop of [src/include/game.hpp]

    As for [src/game.hpp]: one iteration of the loop on everything but
    the pixels, the sounds and the window itself ([toggle_fullscreen]).
    The statics of the Settings screen take their first values from
    [game_config], which nothing else assigns, so they are set when the
    window is. *)
Module Incl_Window.

Record t : Type := mk {
  settings : Incl_Settings.t;
  menu_index : Z;
  players : Players.t;
  ball : Ball.t;
  particle_burst : ParticleBurst.t;
  flash : FlashEffect.t;
  running : bool;
  game_running : bool;
  paused : bool;
  confirm_modal : bool;
  paused_index : Z;
  in_countdown : bool;
  countdown_time : Q;
  countdown_value : Z;
  game_time_elapsed : Q;
  game_timer_active : bool;
  time_up_state : bool;
  time_up_delay : Q;
  tick_timer : Q;
  in_celebration : bool;
  celebration_time : Q;
  draws : list Z
}.

Definition set_settings (v : Incl_Settings.t) (w : t) : t :=
  mk v (menu_index w) (players w) (ball w) (particle_burst w) (flash w)
     (running w) (game_running w) (paused w) (confirm_modal w) (paused_index
     w) (in_countdown w) (countdown_time w) (countdown_value w)
     (game_time_elapsed w) (game_timer_active w) (time_up_state w)
     (time_up_delay w) (tick_timer w) (in_celebration w) (celebration_time
     w) (draws w).

Definition set_menu_index (v : Z) (w : t) : t :=
  mk (settings w) v (players w) (ball w) (particle_burst w) (flash w)
     (running w) (game_running w) (paused w) (confirm_modal w) (paused_index
     w) (in_countdown w) (countdown_time w) (countdown_value w)
     (game_time_elapsed w) (game_timer_active w) (time_up_state w)
     (time_up_delay w) (tick_timer w) (in_celebration w) (celebration_time
     w) (draws w).

Definition set_players (v : Players.t) (w : t) : t :=
  mk (settings w) (menu_index w) v (ball w) (particle_burst w) (flash w)
     (running w) (game_running w) (paused w) (confirm_modal w) (paused_index
     w) (in_countdown w) (countdown_time w) (countdown_value w)
     (game_time_elapsed w) (game_timer_active w) (time_up_state w)
     (time_up_delay w) (tick_timer w) (in_celebration w) (celebration_time
     w) (draws w).

Definition set_ball (v : Ball.t) (w : t) : t :=
  mk (settings w) (menu_index w) (players w) v (particle_burst w) (flash w)
     (running w) (game_running w) (paused w) (confirm_modal w) (paused_index
     w) (in_countdown w) (countdown_time w) (countdown_value w)
     (game_time_elapsed w) (game_timer_active w) (time_up_state w)
     (time_up_delay w) (tick_timer w) (in_celebration w) (celebration_time
     w) (draws w).

Definition set_particle_burst (v : ParticleBurst.t) (w : t) : t :=
  mk (settings w) (menu_index w) (players w) (ball w) v (flash w) (running
     w) (game_running w) (paused w) (confirm_modal w) (paused_index w)
     (in_countdown w) (countdown_time w) (countdown_value w)
     (game_time_elapsed w) (game_timer_active w) (time_up_state w)
     (time_up_delay w) (tick_timer w) (in_celebration w) (celebration_time
     w) (draws w).

Definition set_flash (v : FlashEffect.t) (w : t) : t :=
  mk (settings w) (menu_index w) (players w) (ball w) (particle_burst w) v
     (running w) (game_running w) (paused w) (confirm_modal w) (paused_index
     w) (in_countdown w) (countdown_time w) (countdown_value w)
     (game_time_elapsed w) (game_timer_active w) (time_up_state w)
     (time_up_delay w) (tick_timer w) (in_celebration w) (celebration_time
     w) (draws w).

Definition set_running (v : bool) (w : t) : t :=
  mk (settings w) (menu_index w) (players w) (ball w) (particle_burst w)
     (flash w) v (game_running w) (paused w) (confirm_modal w) (paused_index
     w) (in_countdown w) (countdown_time w) (countdown_value w)
     (game_time_elapsed w) (game_timer_active w) (time_up_state w)
     (time_up_delay w) (tick_timer w) (in_celebration w) (celebration_time
     w) (draws w).

Definition set_game_running (v : bool) (w : t) : t :=
  mk (settings w) (menu_index w) (players w) (ball w) (particle_burst w)
     (flash w) (running w) v (paused w) (confirm_modal w) (paused_index w)
     (in_countdown w) (countdown_time w) (countdown_value w)
     (game_time_elapsed w) (game_timer_active w) (time_up_state w)
     (time_up_delay w) (tick_timer w) (in_celebration w) (celebration_time
     w) (draws w).

Definition set_paused (v : bool) (w : t) : t :=
  mk (settings w) (menu_index w) (players w) (ball w) (particle_burst w)
     (flash w) (running w) (game_running w) v (confirm_modal w)
     (paused_index w) (in_countdown w) (countdown_time w) (countdown_value
     w) (game_time_elapsed w) (game_timer_active w) (time_up_state w)
     (time_up_delay w) (tick_timer w) (in_celebration w) (celebration_time
     w) (draws w).

Definition set_confirm_modal (v : bool) (w : t) : t :=
  mk (settings w) (menu_index w) (players w) (ball w) (particle_burst w)
     (flash w) (running w) (game_running w) (paused w) v (paused_index w)
     (in_countdown w) (countdown_time w) (countdown_value w)
     (game_time_elapsed w) (game_timer_active w) (time_up_state w)
     (time_up_delay w) (tick_timer w) (in_celebration w) (celebration_time
     w) (draws w).

Definition set_paused_index (v : Z) (w : t) : t :=
  mk (settings w) (menu_index w) (players w) (ball w) (particle_burst w)
     (flash w) (running w) (game_running w) (paused w) (confirm_modal w) v
     (in_countdown w) (countdown_time w) (countdown_value w)
     (game_time_elapsed w) (game_timer_active w) (time_up_state w)
     (time_up_delay w) (tick_timer w) (in_celebration w) (celebration_time
     w) (draws w).

Definition set_in_countdown (v : bool) (w : t) : t :=
  mk (settings w) (menu_index w) (players w) (ball w) (particle_burst w)
     (flash w) (running w) (game_running w) (paused w) (confirm_modal w)
     (paused_index w) v (countdown_time w) (countdown_value w)
     (game_time_elapsed w) (game_timer_active w) (time_up_state w)
     (time_up_delay w) (tick_timer w) (in_celebration w) (celebration_time
     w) (draws w).

Definition set_countdown_time (v : Q) (w : t) : t :=
  mk (settings w) (menu_index w) (players w) (ball w) (particle_burst w)
     (flash w) (running w) (game_running w) (paused w) (confirm_modal w)
     (paused_index w) (in_countdown w) v (countdown_value w)
     (game_time_elapsed w) (game_timer_active w) (time_up_state w)
     (time_up_delay w) (tick_timer w) (in_celebration w) (celebration_time
     w) (draws w).

Definition set_countdown_value (v : Z) (w : t) : t :=
  mk (settings w) (menu_index w) (players w) (ball w) (particle_burst w)
     (flash w) (running w) (game_running w) (paused w) (confirm_modal w)
     (paused_index w) (in_countdown w) (countdown_time w) v
     (game_time_elapsed w) (game_timer_active w) (time_up_state w)
     (time_up_delay w) (tick_timer w) (in_celebration w) (celebration_time
     w) (draws w).

Definition set_game_time_elapsed (v : Q) (w : t) : t :=
  mk (settings w) (menu_index w) (players w) (ball w) (particle_burst w)
     (flash w) (running w) (game_running w) (paused w) (confirm_modal w)
     (paused_index w) (in_countdown w) (countdown_time w) (countdown_value
     w) v (game_timer_active w) (time_up_state w) (time_up_delay w)
     (tick_timer w) (in_celebration w) (celebration_time w) (draws w).

Definition set_game_timer_active (v : bool) (w : t) : t :=
  mk (settings w) (menu_index w) (players w) (ball w) (particle_burst w)
     (flash w) (running w) (game_running w) (paused w) (confirm_modal w)
     (paused_index w) (in_countdown w) (countdown_time w) (countdown_value
     w) (game_time_elapsed w) v (time_up_state w) (time_up_delay w)
     (tick_timer w) (in_celebration w) (celebration_time w) (draws w).

Definition set_time_up_state (v : bool) (w : t) : t :=
  mk (settings w) (menu_index w) (players w) (ball w) (particle_burst w)
     (flash w) (running w) (game_running w) (paused w) (confirm_modal w)
     (paused_index w) (in_countdown w) (countdown_time w) (countdown_value
     w) (game_time_elapsed w) (game_timer_active w) v (time_up_delay w)
     (tick_timer w) (in_celebration w) (celebration_time w) (draws w).

Definition set_time_up_delay (v : Q) (w : t) : t :=
  mk (settings w) (menu_index w) (players w) (ball w) (particle_burst w)
     (flash w) (running w) (game_running w) (paused w) (confirm_modal w)
     (paused_index w) (in_countdown w) (countdown_time w) (countdown_value
     w) (game_time_elapsed w) (game_timer_active w) (time_up_state w) v
     (tick_timer w) (in_celebration w) (celebration_time w) (draws w).

Definition set_tick_timer (v : Q) (w : t) : t :=
  mk (settings w) (menu_index w) (players w) (ball w) (particle_burst w)
     (flash w) (running w) (game_running w) (paused w) (confirm_modal w)
     (paused_index w) (in_countdown w) (countdown_time w) (countdown_value
     w) (game_time_elapsed w) (game_timer_active w) (time_up_state w)
     (time_up_delay w) v (in_celebration w) (celebration_time w) (draws w).

Definition set_in_celebration (v : bool) (w : t) : t :=
  mk (settings w) (menu_index w) (players w) (ball w) (particle_burst w)
     (flash w) (running w) (game_running w) (paused w) (confirm_modal w)
     (paused_index w) (in_countdown w) (countdown_time w) (countdown_value
     w) (game_time_elapsed w) (game_timer_active w) (time_up_state w)
     (time_up_delay w) (tick_timer w) v (celebration_time w) (draws w).

Definition set_celebration_time (v : Q) (w : t) : t :=
  mk (settings w) (menu_index w) (players w) (ball w) (particle_burst w)
     (flash w) (running w) (game_running w) (paused w) (confirm_modal w)
     (paused_index w) (in_countdown w) (countdown_time w) (countdown_value
     w) (game_time_elapsed w) (game_timer_active w) (time_up_state w)
     (time_up_delay w) (tick_timer w) (in_celebration w) v (draws w).

Definition set_draws (v : list Z) (w : t) : t :=
  mk (settings w) (menu_index w) (players w) (ball w) (particle_burst w)
     (flash w) (running w) (game_running w) (paused w) (confirm_modal w)
     (paused_index w) (in_countdown w) (countdown_time w) (countdown_value
     w) (game_time_elapsed w) (game_timer_active w) (time_up_state w)
     (time_up_delay w) (tick_timer w) (in_celebration w) (celebration_time
     w) v.

(** The window after [init], with [cfg] the configuration [init] has
    loaded and [ds] the values [rand()] is going to return.  The members
    of the players and of the ball that the source gives no initialiser
    (a player's controller, [width], [height], [color] and
    [pulse_timer]; the ball's [pos] and [vel]) hold 0 here; [init]
    assigns them when a match starts, [pulse_timer] apart, which a
    paddle hit assigns. *)
Definition initial (cfg : Config.t) (ds : list Z) : t :=
  mk (Incl_Settings.mk 0 (Config.ball_speed cfg) (Config.paddle_speed cfg)
        (Config.paddle_damping cfg)
        (Incl_Settings.u16_wrap (Float.trunc (Config.game_duration_secs cfg)))
        (Config.ai_difficulty cfg) cfg MENU_MAIN)
     0
     (Players.mk
        (Player.mk (PlayerController.mk (Vector2.mk 0 0) 0 0 0) false true
                   0 0 0 0 0)
        (Player.mk (PlayerController.mk (Vector2.mk 0 0) 0 0 0) true true
                   0 0 0 0 0))
     (Ball.mk (BallController.mk (Vector2.mk 0 0) None None (Vector2.mk 0 0)
                 1.2 false 0) 0x0000FFFF%Z)
     ParticleBurst.initial
     (FlashEffect.mk true 0 false 3)
     true false false false 0
     false 0 3
     0 false false 0 0
     false 0 ds.

Definition game_config (w : t) : Config.t :=
  Incl_Settings.game_config (settings w).

Definition menu_state (w : t) : MenuState :=
  Incl_Settings.menu_state (settings w).

Definition set_menu_state (m : MenuState) (w : t) : t :=
  let s := settings w in
  set_settings
    (Incl_Settings.mk (Incl_Settings.settings_index s)
       (Incl_Settings._ball_speed s) (Incl_Settings._paddle_speed s)
       (Incl_Settings._paddle_damping s)
       (Incl_Settings._game_duration_secs s)
       (Incl_Settings._ai_difficulty s) (Incl_Settings.game_config s) m) w.

Definition n_items : Z := 4.

(** [paused_items.size()] *)
Definition n_paused : Z := 3.

Definition u64_wrap (n : Z) : Z := (n mod 18446744073709551616)%Z.

(** The start of a match from the main menu; [ai2] is the [ai_mode] of
    [player2]. *)
Definition start_match (ai2 : bool) (w : t) : t :=
  let cfg := game_config w in
  let p1 := Incl_Player.init (-70) false (Config.paddle_speed cfg)
              (Config.paddle_damping cfg) (Players.player1 (players w)) in
  let p2 := Incl_Player.init 70 ai2 (Config.paddle_speed cfg)
              (Config.paddle_damping cfg) (Players.player2 (players w)) in
  let p1 := Player.set_score 0
              (Player.mk (Player.controller p1) (Player.arrow_controls p1)
                 false (Player.width p1) (Player.height p1) (Player.color p1)
                 (Player.score p1) (Player.pulse_timer p1)) in
  let p2 := Player.set_score 0
              (Player.mk (Player.controller p2) (Player.arrow_controls p2)
                 ai2 (Player.width p2) (Player.height p2) (Player.color p2)
                 (Player.score p2) (Player.pulse_timer p2)) in
  let w := set_players (Players.mk p1 p2) w in
  let w := set_ball (Incl_Ball.init (Config.ball_speed cfg) (ball w)) w in
  let w := set_countdown_value 3 w in
  let w := set_countdown_time 0 w in
  let w := set_in_countdown true w in
  set_menu_state MENU_PLAYING w.

(** The [MENU_MAIN] branch. *)
Definition main_menu (b : input.Buttons) (w : t) : t :=
  let w :=
    if input.is_pressed b input.BUTTON_UP_ARROW ||
       input.is_pressed b input.BUTTON_UP
    then
      let i := (menu_index w - 1)%Z in
      set_menu_index (if (i <? 0)%Z then (n_items - 1)%Z else i) w
    else w in
  let w :=
    if input.is_pressed b input.BUTTON_DOWN_ARROW ||
       input.is_pressed b input.BUTTON_DOWN
    then
      let i := (menu_index w + 1)%Z in
      set_menu_index (if (i >=? n_items)%Z then 0%Z else i) w
    else w in
  if input.is_pressed b input.BUTTON_ENTER then
    if (menu_index w =? 0)%Z then start_match true w
    else if (menu_index w =? 1)%Z then start_match false w
    else if (menu_index w =? 2)%Z then set_menu_state MENU_SETTINGS w
    else if (menu_index w =? 3)%Z then set_running false w
    else w
  else w.

(** The [if (in_countdown)] block. *)
Definition countdown (dt : Q) (w : t) : t :=
  let w := set_countdown_time (countdown_time w + dt) w in
  let w :=
    if countdown_time w >=? 0.35 then
      set_countdown_value (countdown_value w - 1) (set_countdown_time 0 w)
    else w in
  if (countdown_value w <? 0)%Z then
    let w := set_in_countdown false w in
    let w := set_game_running true w in
    let w := set_paused false w in
    let w := set_game_timer_active true w in
    let w := set_game_time_elapsed 0 w in
    set_time_up_state false w
  else w.

(** [particle_burst.active = false; flash.active = false;] *)
Definition stop_effects (w : t) : t :=
  let f := flash w in
  set_flash (FlashEffect.mk (FlashEffect.renderer f) (FlashEffect.alpha f)
               false (FlashEffect.fade_speed f))
    (set_particle_burst (Burst.deactivate (particle_burst w)) w).

Definition reset_objects (w : t) : t :=
  set_ball (Ball.reset (ball w))
    (set_players
       (Players.mk (Player.reset (Players.player1 (players w)))
                   (Player.reset (Players.player2 (players w)))) w).

(** The Restart entry of the pause menu. *)
Definition restart (w : t) : t :=
  let w := reset_objects w in
  let w := set_players
             (Players.mk (Player.set_score 0 (Players.player1 (players w)))
                         (Player.set_score 0 (Players.player2 (players w))))
             w in
  let w := stop_effects w in
  let w := set_in_celebration false w in
  let w := set_countdown_value 3 w in
  let w := set_countdown_time 0 w in
  let w := set_in_countdown true w in
  let w := set_game_time_elapsed 0 w in
  let w := set_game_timer_active true w in
  let w := set_game_running false w in
  let w := set_paused false w in
  let w := set_confirm_modal false w in
  set_menu_state MENU_PLAYING w.

(** The Main-Menu entry of the pause menu. *)
Definition to_main_menu (w : t) : t :=
  let w := reset_objects w in
  let w := stop_effects w in
  let w := set_game_running false w in
  let w := set_paused false w in
  let w := set_in_countdown false w in
  let w := set_confirm_modal false w in
  set_menu_state MENU_MAIN w.

(** What follows the three-way [if] of the [MENU_PLAYING] branch: the
    Escape key and the pause menu's Enter. *)
Definition pause_keys (b : input.Buttons) (w : t) : t :=
  let w :=
    if input.is_pressed b input.BUTTON_ESC
    then set_confirm_modal (negb (confirm_modal w)) w else w in
  if confirm_modal w then
    if input.is_pressed b input.BUTTON_ENTER ||
       input.is_pressed b input.BUTTON_PAUSE
    then
      if (paused_index w =? 0)%Z then set_confirm_modal false w
      else if (paused_index w =? 1)%Z then restart w
      else if (paused_index w =? 2)%Z then to_main_menu w
      else w
    else w
  else w.

(** The block guarded by [game_timer_active && ...]. *)
Definition match_clock (dt : Q) (w : t) : t :=
  if game_timer_active w && negb (paused w) && negb (confirm_modal w) &&
     negb (in_countdown w) && negb (time_up_state w)
  then
    let w := set_game_time_elapsed (game_time_elapsed w + dt) w in
    let duration := Config.game_duration_secs (game_config w) in
    let time_left := fmax 0.0 (duration - game_time_elapsed w) in
    let minutes := Z.quot (Float.trunc time_left) 60 in
    let seconds := Z.rem (Float.trunc time_left) 60 in
    let w :=
      if ((minutes =? 0) && (seconds <=? 5))%Z then
        let w := set_tick_timer (tick_timer w + dt) w in
        if tick_timer w >=? 1 then set_tick_timer 0 w else w
      else w in
    if game_time_elapsed w >=? duration then
      set_time_up_delay 0 (set_time_up_state true
                             (set_game_timer_active false w))
    else w
  else w.

Section Playing.

Variable RAND_MAX : Z.
Variables cosf sinf : Q -> Q.

Definition update_players (b : input.Buttons) (dt : Q) (difficulty : Z)
    (w : t) : t :=
  let c := Ball.controller (ball w) in
  let (p1, d1) :=
    Incl_Player.step RAND_MAX b dt (BallController.pos c)
      (BallController.vel c) difficulty (Players.player1 (players w))
      (draws w) in
  let (p2, d2) :=
    Incl_Player.step RAND_MAX b dt (BallController.pos c)
      (BallController.vel c) difficulty (Players.player2 (players w)) d1 in
  set_draws d2 (set_players (Players.mk p1 p2) w).

(** The [else if (in_celebration)] block. *)
Definition celebrate (b : input.Buttons) (dt : Q) (w : t) : t :=
  let w := set_celebration_time (celebration_time w + dt) w in
  let w := set_flash (FlashEffect.update dt (flash w)) w in
  let w := set_particle_burst
             (ParticleBurst.update dt (particle_burst w)) w in
  let w :=
    if FlashEffect.finished (flash w) &&
       ParticleBurst.finished (particle_burst w)
    then
      let w := set_ball (Ball.reset (ball w)) w in
      let w := set_players
                 (Players.mk (Player.reset (Players.player1 (players w)))
                             (Player.reset (Players.player2 (players w)))) w in
      set_in_celebration false w
    else w in
  update_players b dt AIDifficulty.Medium w.

(** The pause menu on screen: the [if (confirm_modal)] block. *)
Definition pause_menu (b : input.Buttons) (w : t) : t :=
  let w :=
    if input.is_pressed b input.BUTTON_UP_ARROW ||
       input.is_pressed b input.BUTTON_UP
    then
      set_paused_index
        (u64_wrap (paused_index w - 1 + n_paused) mod n_paused)%Z w
    else w in
  if input.is_pressed b input.BUTTON_DOWN_ARROW ||
     input.is_pressed b input.BUTTON_DOWN
  then set_paused_index (u64_wrap (paused_index w + 1) mod n_paused)%Z w
  else w.

(** The game proper: the [else] of [if (confirm_modal)].  The boolean is
    true when the block ends in [continue]. *)
Definition play (b : input.Buttons) (dt : Q) (w : t) : option (t * bool) :=
  match
    (if negb (time_up_state w) then
       let w :=
         update_players b dt (Config.ai_difficulty (game_config w)) w in
       match Incl_BallController.update dt (Ball.controller (ball w))
               (players w) with
       | None => None
       | Some (c, ps) =>
           Some (set_players ps
                   (set_ball (Ball.mk c (Ball.color (ball w))) w))
       end
     else Some w)
  with
  | None => None
  | Some w =>
      let w := match_clock dt w in
      let after_time_up :=
        if time_up_state w then
          let w := set_time_up_delay (time_up_delay w + dt) w in
          if time_up_delay w >=? 2.5 then
            (set_time_up_state false (set_menu_state MENU_MAIN w), true)
          else (w, false)
        else (w, false) in
      let (w, skip) := after_time_up in
      if skip then Some (w, true)
      else
        let c := Ball.controller (ball w) in
        if negb (time_up_state w) && BallController.scored c then
          let w := set_celebration_time 0 (set_in_celebration true w) in
          let px := Vector2.x (BallController.pos c) in
          let py := Vector2.y (BallController.pos c) in
          let (pb, d) :=
            ParticleBurst.start RAND_MAX cosf sinf px py (particle_burst w)
              (draws w) in
          Some (set_flash (FlashEffect.start (flash w))
                  (set_draws d (set_particle_burst pb w)), false)
        else Some (w, false)
  end.

(** The [MENU_PLAYING] branch. *)
Definition playing (b : input.Buttons) (dt : Q) (w : t) : option t :=
  match
    (if in_countdown w then Some (countdown dt w, false)
     else if in_celebration w then Some (celebrate b dt w, false)
     else if confirm_modal w then Some (pause_menu b w, false)
     else play b dt w)
  with
  | None => None
  | Some (w, true) => Some w
  | Some (w, false) => Some (pause_keys b w)
  end.

(** One iteration of the loop. *)
Definition frame (b : input.Buttons) (dt : Q) (w : t) : option t :=
  match menu_state w with
  | MENU_MAIN => Some (main_menu b w)
  | MENU_SETTINGS => Some (set_settings (Incl_Settings.frame b (settings w)) w)
  | MENU_PLAYING => playing b dt w
  | MENU_BACK => Some w
  end.

Fixpoint steps (inputs : list (input.Buttons * Q)) (w : t) : option t :=
  match inputs with
  | [] => Some w
  | (b, dt) :: rest =>
      if running w then
        match frame b dt w with
        | None => None
        | Some w' => steps rest w'
        end
      else Some w
  end.

(** The states the program can be in. *)
Definition reachable (w : t) : Prop :=
  exists (cfg : Config.t) (ds : list Z) (inputs : list (input.Buttons * Q)),
    steps inputs (initial cfg ds) = Some w.

End Playing.

End Incl_Window.

(** ** States of a match, as the main menu sets them up *)

Module Scenario.

(** A [Player] as constructed, before [init] gives its members values
    (taken as zero here). *)
Definition constructed (arrow_controls_ : bool) : Player.t :=
  Player.mk (PlayerController.mk (Vector2.mk 0 0) 0 0 0) arrow_controls_
            true 0 0 0 0 0.

(** "PLAY VS AI" in [src/game.hpp], with the speeds [mainloop] starts
    with. *)
Definition root_players : Players.t :=
  Players.mk
    (Root_Player.init (-70) false 1600 11 (constructed false))
    (Root_Player.init 70 true 1600 11 (constructed true)).

(** "PLAY VS AI" in [src/include/game.hpp], with the default [Config]. *)
Definition incl_players : Players.t :=
  Players.mk
    (Incl_Player.init (-70) false (Config.paddle_speed Config.default)
       (Config.paddle_damping Config.default) (constructed false))
    (Incl_Player.init 70 true (Config.paddle_speed Config.default)
       (Config.paddle_damping Config.default) (constructed true)).

(** A ball in play at [(x, y)] with velocity [(vx, vy)]. *)
Definition ball_at (x_ y_ vx vy : Q) : BallController.t :=
  BallController.mk (Vector2.mk x_ y_) (Some Players.P1) (Some Players.P2)
                    (Vector2.mk vx vy) 1.2 false 0.

(** No key is down. *)
Definition no_buttons : input.Buttons :=
  fun _ => input.mkButtonState false false.

(** Exactly the key [k] went down in this iteration. *)
Definition key_eqb (a b : input.Key) : bool :=
  match a, b with
  | input.BUTTON_LEFT_ARROW, input.BUTTON_LEFT_ARROW
  | input.BUTTON_UP_ARROW, input.BUTTON_UP_ARROW
  | input.BUTTON_RIGHT_ARROW, input.BUTTON_RIGHT_ARROW
  | input.BUTTON_DOWN_ARROW, input.BUTTON_DOWN_ARROW
  | input.BUTTON_LEFT, input.BUTTON_LEFT
  | input.BUTTON_UP, input.BUTTON_UP
  | input.BUTTON_RIGHT, input.BUTTON_RIGHT
  | input.BUTTON_DOWN, input.BUTTON_DOWN
  | input.BUTTON_ENTER, input.BUTTON_ENTER
  | input.BUTTON_F11, input.BUTTON_F11
  | input.BUTTON_PAUSE, input.BUTTON_PAUSE
  | input.BUTTON_ESC, input.BUTTON_ESC => true
  | _, _ => false
  end.

Definition pressed (k : input.Key) : input.Buttons :=
  fun k' => input.mkButtonState (key_eqb k k') (key_eqb k k').

(** A session of [src/include/game.hpp]: "PLAY VS AI"; the countdown;
    Escape, Down and Escape again, which leaves the pause menu on its
    Restart entry; one second of play, in which the ball crosses the
    right goal line and the celebration starts; then Escape and Enter
    while the celebration runs. *)
Definition pause_during_celebration : list (input.Buttons * Q) :=
  [ (pressed input.BUTTON_ENTER, 0.01);
    (no_buttons, 0.4); (no_buttons, 0.4); (no_buttons, 0.4);
    (no_buttons, 0.4);
    (pressed input.BUTTON_ESC, 0.01);
    (pressed input.BUTTON_DOWN, 0.01);
    (pressed input.BUTTON_ESC, 0.01);
    (no_buttons, 1);
    (pressed input.BUTTON_ESC, 0.01);
    (pressed input.BUTTON_ENTER, 0.01) ].

(** [RAND_MAX] of the C runtime on Windows. *)
Definition RAND_MAX : Z := 32767.

(** Polynomial stand-ins for [std::cos] and [std::sin], to run [start]
    on concrete values. *)
Definition cos_poly (a : Q) : Q := 1 - a * a / 2.
Definition sin_poly (a : Q) : Q := a - a * a * a / 6.

End Scenario.

(** ** namespace audio: SoundPool *)

Module SoundPool.

(** [struct SoundPool]: [sounds] holds the handles of the copies of one
    effect that loaded. *)
Record t : Type := mk {
  sounds : list Z;
  next : nat;
  cooldown : Q;
  timer : Q
}.


(** [update(dt)] *)
Definition update (dt : Q) (p : t) : t :=
  mk (sounds p) (next p) (cooldown p) (timer p + dt).

(** [play()]: the pool afterwards and the sound it has started, if any.
    [None] is a read outside [sounds]. *)
Definition play (p : t) : option (t * option Z) :=
  if timer p <? cooldown p then Some (p, None)
  else
    match sounds p with
    | [] => Some (p, None)
    | _ :: _ =>
        match sounds p !! next p with
        | None => None
        | Some s =>
            Some (mk (sounds p) ((next p + 1) mod length (sounds p))%nat
                     (cooldown p) 0, Some s)
        end
    end.

(** What the program does with a pool: [audio::update] once an
    iteration, [play_effect] when something happens. *)
Inductive Op : Type :=
| Update (dt : Q)
| Play.

(** The operations in order, with the sounds started, oldest first. *)
Fixpoint run (ops : list Op) (p : t) (started : list Z)
    : option (t * list Z) :=
  match ops with
  | [] => Some (p, started)
  | Update dt :: rest => run rest (update dt p) started
  | Play :: rest =>
      match play p with
      | None => None
      | Some (p', None) => run rest p' started
      | Some (p', Some s) => run rest p' (started ++ [s])
      end
  end.


End SoundPool.

(** ** Keyboard messages *)

Module Keys.

(** A [WM_KEYDOWN] or [WM_KEYUP] message: its [wParam] (a 64-bit
    unsigned value) and whether it is [WM_KEYDOWN]. *)
Record Msg : Type := mkMsg { wParam : Z; key_down : bool }.

(** [static_cast<i32>] of a [WPARAM]. *)
Definition to_i32 (w : Z) : Z :=
  ((w + 2147483648) mod 4294967296 - 2147483648)%Z.

(** The map [kb] of [src/game.hpp]. *)
Definition Root_kb : list (Z * input.Key) :=
  [ (0x25, input.BUTTON_LEFT_ARROW); (0x26, input.BUTTON_UP_ARROW);
    (0x27, input.BUTTON_RIGHT_ARROW); (0x28, input.BUTTON_DOWN_ARROW);
    (0x5A, input.BUTTON_UP); (0x53, input.BUTTON_DOWN);
    (0x51, input.BUTTON_LEFT); (0x44, input.BUTTON_RIGHT);
    (0x0D, input.BUTTON_ENTER) ]%Z.

(** The map [kb] of [src/include/game.hpp]. *)
Definition Incl_kb : list (Z * input.Key) :=
  [ (0x25, input.BUTTON_LEFT_ARROW); (0x26, input.BUTTON_UP_ARROW);
    (0x27, input.BUTTON_RIGHT_ARROW); (0x28, input.BUTTON_DOWN_ARROW);
    (0x5A, input.BUTTON_UP); (0x53, input.BUTTON_DOWN);
    (0x51, input.BUTTON_LEFT); (0x44, input.BUTTON_RIGHT);
    (0x0D, input.BUTTON_ENTER); (0x7A, input.BUTTON_F11);
    (0x50, input.BUTTON_PAUSE); (0x1B, input.BUTTON_ESC) ]%Z.

(** [kb.find(code)]; the codes of the initialiser are distinct. *)
Fixpoint find (kb : list (Z * input.Key)) (code : Z) : option input.Key :=
  match kb with
  | [] => None
  | (c, k) :: kb' => if (c =? code)%Z then Some k else find kb' code
  end.

#[global] Instance Key_eq_dec : EqDecision input.Key.
Proof. solve_decision. Defined.

(** [buttons[k] = v], the other entries as they were. *)
Definition set_button (k : input.Key) (v : input.ButtonState)
    (b : input.Buttons) : input.Buttons :=
  fun k' => if decide (k' = k) then v else b k'.

(** [process_button(message)] *)
Definition process_button (kb : list (Z * input.Key)) (message : Msg)
    (b : input.Buttons) : input.Buttons :=
  match find kb (to_i32 (wParam message)) with
  | Some k => set_button k (input.mkButtonState (key_down message) true) b
  | None => b
  end.

(** The [for] that opens each frame: [buttons[i].changed = false]. *)
Definition reset_changed (b : input.Buttons) : input.Buttons :=
  fun k => input.mkButtonState (input.is_down_ (b k)) false.

(** The input part of one frame of the main loop: the reset, then
    [process_button] on the keyboard messages of the queue in order. *)
Definition poll (kb : list (Z * input.Key)) (msgs : list Msg)
    (b : input.Buttons) : input.Buttons :=
  foldl (fun b message => process_button kb message b)
        (reset_changed b) msgs.

(** Whether the last message of [msgs] that [kb] maps to [k] is a
    key-down, if there is such a message. *)
Definition last_for (kb : list (Z * input.Key)) (k : input.Key)
    (msgs : list Msg) : option bool :=
  foldl (fun acc message =>
           match find kb (to_i32 (wParam message)) with
           | Some k' => if decide (k = k') then Some (key_down message)
                        else acc
           | None => acc
           end) None msgs.

End Keys.

(** ** The playing field *)

Module Field.

(** A paddle that does not reach past the walls at [y = 50] and
    [y = -50], for a half-height the field has room for. *)
Definition paddle_inside (p : Player.t) : Prop :=
  0 <= Player.height p <= 50 /\
  -50 + Player.height p
    <= Vector2.y (PlayerController.pos (Player.controller p))
    <= 50 - Player.height p.

(** A ball that does not reach past the walls. *)
Definition ball_inside (c : BallController.t) : Prop :=
  0 <= BallController.size c <= 50 /\
  -50 + BallController.size c
    <= Vector2.y (BallController.pos c)
    <= 50 - BallController.size c.

(** Two players that differ in [score] and [pulse_timer] at most. *)
Definition same_paddle (p q : Player.t) : Prop :=
  Player.controller q = Player.controller p /\
  Player.arrow_controls q = Player.arrow_controls p /\
  Player.ai_mode q = Player.ai_mode p /\
  Player.width q = Player.width p /\
  Player.height q = Player.height p /\
  Player.color q = Player.color p.

Definition same_paddles (ps qs : Players.t) : Prop :=
  same_paddle (Players.player1 ps) (Players.player1 qs) /\
  same_paddle (Players.player2 ps) (Players.player2 qs).

(** Both pointers of the ball are set, as [Ball::init] sets them. *)
Definition linked (c : BallController.t) : Prop :=
  BallController.player1 c = Some Players.P1 /\
  BallController.player2 c = Some Players.P2.

End Field.

(** ** What the main loops keep *)

Module Kept.

(** [src/game.hpp]: the cursor of the Settings screen within its list,
    the statics within the bounds of their [std::max] and [std::min], and
    the values handed to a match within what those bounds give. *)
Definition root_values (s : Root_Settings.t) : Prop :=
  (0 <= Root_Settings.settings_index s < Root_Settings.n_labels)%Z /\
  0.5 <= Root_Settings._ball_speed s <= 3 /\
  0.5 <= Root_Settings._paddle_speed s <= 3 /\
  0.8 <= Root_Settings._paddle_damping s <= 2 /\
  (0 <= Root_Settings._ai_difficulty s <= 4)%Z /\
  47.5 <= Root_Settings.ball_speed s <= 285 /\
  800 <= Root_Settings.paddle_speed s <= 4800 /\
  6.4 <= Root_Settings.paddle_damping s <= 16.

(** A configuration within the bounds the Settings screen of
    [src/include/game.hpp] works with. *)
Definition config_in_range (c : Config.t) : Prop :=
  0.5 <= Config.paddle_speed c <= 3 /\
  0.8 <= Config.paddle_damping c <= 2 /\
  0.5 <= Config.ball_speed c <= 3 /\
  5 <= Config.game_duration_secs c <= 600 /\
  (0 <= Config.ai_difficulty c <= 4)%Z /\
  0 <= Config.music_volume c <= 1 /\
  0 <= Config.sfx_volume c <= 1.

(** [src/include/game.hpp]: the cursor within its list, the statics
    and the configuration within the bounds. *)
Definition incl_values (s : Incl_Settings.t) : Prop :=
  (0 <= Incl_Settings.settings_index s < Incl_Settings.n_labels)%Z /\
  0.5 <= Incl_Settings._ball_speed s <= 3 /\
  0.5 <= Incl_Settings._paddle_speed s <= 3 /\
  0.8 <= Incl_Settings._paddle_damping s <= 2 /\
  (5 <= Incl_Settings._game_duration_secs s <= 600)%Z /\
  (0 <= Incl_Settings._ai_difficulty s <= 4)%Z /\
  config_in_range (Incl_Settings.game_config s).

(** The objects of a match: once a match is on the ball's pointers are
    set, and ball and paddles do not reach past the walls. *)
Definition field (playing : Prop) (ball : Ball.t) (ps : Players.t) : Prop :=
  (playing -> Field.linked (Ball.controller ball)) /\
  Field.ball_inside (Ball.controller ball) /\
  Field.paddle_inside (Players.player1 ps) /\
  Field.paddle_inside (Players.player2 ps).

Definition root_field (w : Root_Window.t) : Prop :=
  field (Root_Settings.menu_state (Root_Window.settings w) = MENU_PLAYING)
        (Root_Window.ball w) (Root_Window.players w).

Definition incl_field (w : Incl_Window.t) : Prop :=
  field (Incl_Window.menu_state w = MENU_PLAYING)
        (Incl_Window.ball w) (Incl_Window.players w).

(** The cursors of the menus within their lists. *)
Definition root_cursors (w : Root_Window.t) : Prop :=
  (0 <= Root_Window.menu_index w < Root_Window.n_items)%Z.

Definition incl_cursors (w : Incl_Window.t) : Prop :=
  (0 <= Incl_Window.menu_index w < Incl_Window.n_items)%Z /\
  (0 <= Incl_Window.paused_index w < Incl_Window.n_paused)%Z /\
  (0 <= Incl_Settings.settings_index (Incl_Window.settings w)
      < Incl_Settings.n_labels)%Z.

(** What a step of the loop may do to the cursors, the settings and the
    objects of a match, apart from what it does to the objects: the
    menu's cursor stays, the settings change in their [menu_state] at
    most, and the pause menu's cursor stays within its list. *)
Definition incl_step (w w' : Incl_Window.t) : Prop :=
  Incl_Window.menu_index w' = Incl_Window.menu_index w /\
  (exists m, Incl_Window.settings w' =
             Incl_Window.settings (Incl_Window.set_menu_state m w)) /\
  ((0 <= Incl_Window.paused_index w < 3)%Z ->
   (0 <= Incl_Window.paused_index w' < 3)%Z).

(** A paddle as [init] sizes it, whose speed, friction and acceleration
    are numbers of size at most a million. *)
Definition moderate_paddle (p : Player.t) : Prop :=
  Player.height p = 12 /\
  IEEE.small 6 (PlayerController.dp (Player.controller p)) /\
  IEEE.small 6 (PlayerController.ddp_speed (Player.controller p)) /\
  IEEE.small 6 (PlayerController.damping (Player.controller p)).

(** The objects of a match and the length of a tick, of sizes at which
    no [float] operation of an iteration can leave the range of
    [float]. *)
Definition moderate (ball : Ball.t) (ps : Players.t) (dt : Q) : Prop :=
  0 <= dt /\ IEEE.small 6 dt /\
  moderate_paddle (Players.player1 ps) /\
  moderate_paddle (Players.player2 ps) /\
  IEEE.small 6 (Vector2.x (BallController.pos (Ball.controller ball))) /\
  IEEE.small 6 (Vector2.x (BallController.vel (Ball.controller ball))) /\
  IEEE.small 6 (Vector2.y (BallController.vel (Ball.controller ball))).

End Kept.

(** ** Button states of a tick *)

Module Buttons.

(** No key went down in this tick (keys may be held). *)
Definition idle (b : input.Buttons) : Prop :=
  forall k, input.is_pressed b k = false.

End Buttons.

(** ** Which pixels a rectangle touches *)

Module Pixels.

(** The indices the inner [for] of [render_rect_pixels] writes in row
    [yy], in the order it writes them. *)
Definition row_indices (x0 x1 yy w : Z) : list Z :=
  List.map (fun xx => (xx + yy * w)%Z) (seqZ x0 (x1 - x0)).

(** The indices the two loops write, for bounds already clamped. *)
Definition rect_indices (x0 y0 x1 y1 w : Z) : list Z :=
  concat (List.map (fun yy => row_indices x0 x1 yy w) (seqZ y0 (y1 - y0))).

(** The indices [render_rect_pixels] writes when asked for
    [[x0, x1) x [y0, y1)]. *)
Definition touched (x0 y0 x1 y1 : Z) (rs : render.RenderState) : list Z :=
  rect_indices (utils.clampZ 0 x0 (render.width rs))
               (utils.clampZ 0 y0 (render.height rs))
               (utils.clampZ 0 x1 (render.width rs))
               (utils.clampZ 0 y1 (render.height rs))
               (render.width rs).

(** [color] written at each index of [l] in turn. *)
Definition paint (color : Z) (l : list Z) (px : list Z) : list Z :=
  foldl (fun acc i => <[Z.to_nat i := color]> acc) px l.

(** Width, height and number of pixels of a render state. *)
Definition shape (rs : render.RenderState) : Z * Z * option nat :=
  (render.width rs, render.height rs,
   match render.memory rs with
   | None => None
   | Some m => Some (length m)
   end).

(** The pixel at column [x_] and row [y_]. *)
Definition pixel (x_ y_ : Z) (rs : render.RenderState) : option Z :=
  match render.memory rs with
  | None => None
  | Some m => m !! Z.to_nat (x_ + y_ * render.width rs)
  end.

(** A buffer of exactly [width * height] pixels, as [WM_SIZE] allocates
    it. *)
Definition allocated (rs : render.RenderState) : Prop :=
  (0 <= render.width rs)%Z /\ (0 <= render.height rs)%Z /\
  exists m, render.memory rs = Some m /\
            Z.of_nat (length m) = (render.width rs * render.height rs)%Z.

(** What a drawing call may do to a render state: keep its width, its
    height and the size of its buffer, and leave every pixel as it was or
    set it to [color]. *)
Definition only_paints (color : Z) (rs rs' : render.RenderState) : Prop :=
  shape rs' = shape rs /\
  match render.memory rs, render.memory rs' with
  | Some m, Some m' => forall n : nat, m' !! n = m !! n \/ m' !! n = Some color
  | None, None => True
  | _, _ => False
  end.

End Pixels.

(** ** Particles in flight *)

Module Flight.

(** The particles of [l] whose life exceeds [t], in their order, each
    moved along its velocity for the time [t]. *)
Definition after (t : Q) (l : list Particle.t) : list Particle.t :=
  List.map (ParticleBurst.advance t)
           (List.filter (fun p => t <? Particle.life p) l).

(** The burst is active exactly when it holds a particle. *)
Definition linked (b : ParticleBurst.t) : Prop :=
  ParticleBurst.active b =
  match ParticleBurst.particles b with [] => false | _ => true end.

(** [q] is [p] later on: the same velocity, and no more life. *)
Definition older (p q : Particle.t) : Prop :=
  Particle.vel q = Particle.vel p /\ Particle.life q <= Particle.life p.

(** [l'] is what is left of [l]: some particles gone, the others older,
    in the same order. *)
Inductive left_of : list Particle.t -> list Particle.t -> Prop :=
| left_nil : left_of [] []
| left_keep p q l l' : older p q -> left_of l l' -> left_of (p :: l) (q :: l')
| left_drop p l l' : left_of l l' -> left_of (p :: l) l'.

End Flight.

(** ** Vocabulary of the statements *)

(** The three ways out of [add_collision], for a ball whose two pointers
    are set.  [add] is the function of either file. *)
Definition add_collision_outcome
    (b : BallController.t) (ps : Players.t) (p1 p2 : Players.Id)
    (r : option (BallController.t * Players.t)) : Prop :=
  let b0 := BallController.bounce_walls b in
  let edge_r := Vector2.x (BallController.pos b0) + BallController.size b0 in
  let edge_l := Vector2.x (BallController.pos b0) - BallController.size b0 in
  exists b' ps',
    r = Some (b', ps') /\
    BallController.player1 b' = Some p1 /\
    BallController.player2 b' = Some p2 /\
    ((80 < edge_r /\
      BallController.scored b' = true /\ BallController.winner b' = 1%Z /\
      Vector2.x (BallController.pos b') == 80 + BallController.size b /\
      forall i, Players.score i ps' =
                if Players.eqb i p1 then u32_wrap (Players.score i ps + 1)
                else Players.score i ps)
     \/
     (edge_r <= 80 /\ edge_l < -80 /\
      BallController.scored b' = true /\ BallController.winner b' = 2%Z /\
      Vector2.x (BallController.pos b') == -80 - BallController.size b /\
      forall i, Players.score i ps' =
                if Players.eqb i p2 then u32_wrap (Players.score i ps + 1)
                else Players.score i ps)
     \/
     (edge_r <= 80 /\ -80 <= edge_l /\
      BallController.scored b' = BallController.scored b /\
      BallController.winner b' = BallController.winner b /\
      forall i, Players.score i ps' = Players.score i ps)).

(** What one ball tick does about goals, as a predicate on the result
    [r] of [update dt b ps]. *)
Definition update_outcome (dt : Q)
    (b : BallController.t) (ps : Players.t) (p1 p2 : Players.Id)
    (r : option (BallController.t * Players.t)) : Prop :=
  let b0 := BallController.bounce_walls (BallController.update_physics dt b) in
  let edge_r := Vector2.x (BallController.pos b0) + BallController.size b in
  let edge_l := Vector2.x (BallController.pos b0) - BallController.size b in
  exists b' ps',
    r = Some (b', ps') /\
    ~ (BallController.winner b' = 1%Z /\ BallController.winner b' = 2%Z) /\
    (BallController.scored b' = true ->
       (BallController.winner b' = 1%Z /\
        forall i, Players.score i ps' =
                  if Players.eqb i p1 then u32_wrap (Players.score i ps + 1)
                  else Players.score i ps)
       \/
       (BallController.winner b' = 2%Z /\
        forall i, Players.score i ps' =
                  if Players.eqb i p2 then u32_wrap (Players.score i ps + 1)
                  else Players.score i ps)) /\
    (BallController.scored b' = false ->
       BallController.winner b' = BallController.winner b /\
       forall i, Players.score i ps' = Players.score i ps) /\
    (80 < edge_r ->
       BallController.scored b' = true /\ BallController.winner b' = 1%Z /\
       Vector2.x (BallController.pos b') == 80 + BallController.size b) /\
    (edge_r <= 80 -> edge_l < -80 ->
       BallController.scored b' = true /\ BallController.winner b' = 2%Z /\
       Vector2.x (BallController.pos b') == -80 - BallController.size b).

(** What holds of one character, as a test that can be run. *)
Definition glyph_check (c : Z) : bool :=
  ((0 <=? Root_render.glyph_index c) && (Root_render.glyph_index c <? 37) &&
   (0 <=? Incl_render.glyph_index c) && (Incl_render.glyph_index c <? 41) &&
   (Root_render.supported c || (Root_render.glyph_index c =? 36)) &&
   (Incl_render.supported c || (Incl_render.glyph_index c =? 36)))%Z.

(** Where the settings the claim speaks of stand. *)
Definition root_in_range (s : Root_Settings.t) : Prop :=
  0.5 <= Root_Settings._ball_speed s <= 3.0 /\
  (0 <= Root_Settings._ai_difficulty s <= 4)%Z.

Definition incl_statics_in_range (s : Incl_Settings.t) : Prop :=
  0.5 <= Incl_Settings._ball_speed s <= 3.0 /\
  (0 <= Incl_Settings._ai_difficulty s <= 4)%Z.

Definition incl_in_range (s : Incl_Settings.t) : Prop :=
  0.5 <= Incl_Settings._ball_speed s <= 3.0 /\
  (0 <= Incl_Settings._ai_difficulty s <= 4)%Z /\
  0.5 <= Config.ball_speed (Incl_Settings.game_config s) <= 3.0 /\
  (0 <= Config.ai_difficulty (Incl_Settings.game_config s) <= 4)%Z.

(** The fields [start] and [update] never assign, and the link between
    [active] and the particles that the burst's own functions keep. *)
Definition settled (b : ParticleBurst.t) : Prop :=
  ParticleBurst.renderer b = true /\
  ParticleBurst.count b = 80%Z /\
  ParticleBurst.lifetime b = 1.

Definition exact_link (b : ParticleBurst.t) : Prop :=
  ParticleBurst.active b = true <-> ParticleBurst.particles b <> [].

Definition loose_link (b : ParticleBurst.t) : Prop :=
  ParticleBurst.active b = true -> ParticleBurst.particles b <> [].

(** What [rand()] may return. *)
Definition in_rand_range (RAND_MAX : Z) (r : Z) : Prop :=
  (0 <= r <= RAND_MAX)%Z.

(** What an iteration can have done to the burst: nothing, or a run of
    operations the source file performs. *)
Definition burst_moved (RAND_MAX : Z) (cosf sinf : Q -> Q)
    (src : Burst.Source) (b b' : ParticleBurst.t) : Prop :=
  exists (ops : list Burst.Op) (ds : list Z),
    forallb (Burst.performs src) ops = true /\
    b' = fst (Burst.run RAND_MAX cosf sinf ops b ds).

(** What the main loops keep true of the burst. *)
Definition burst_inv (src : Burst.Source) (b : ParticleBurst.t) : Prop :=
  settled b /\ loose_link b /\ (src = Burst.Root -> exact_link b).

(** * Properties *)

(** ** Comparisons on rationals *)

Lemma ltb_true (a b : Q) : (a <? b) = true <-> a < b.
Proof.
  unfold Float.ltb. rewrite negb_true_iff.
  split; intro H.
  - apply Qnot_le_lt. intro Hle. apply Qle_bool_iff in Hle. congruence.
  - destruct (Qle_bool b a) eqn:E; [|reflexivity].
    apply Qle_bool_iff in E. exfalso. apply (Qlt_not_le _ _ H E).
Qed.

Lemma ltb_false (a b : Q) : (a <? b) = false <-> b <= a.
Proof.
  unfold Float.ltb. rewrite negb_false_iff. apply Qle_bool_iff.
Qed.

Lemma leb_true (a b : Q) : (a <=? b) = true <-> a <= b.
Proof. apply Qle_bool_iff. Qed.

Lemma leb_false (a b : Q) : (a <=? b) = false <-> b < a.
Proof.
  unfold Float.leb. split; intro H.
  - apply Qnot_le_lt. intro Hle. apply Qle_bool_iff in Hle. congruence.
  - destruct (Qle_bool a b) eqn:E; [|reflexivity].
    apply Qle_bool_iff in E. exfalso. apply (Qlt_not_le _ _ H E).
Qed.

(** Case analysis on the first comparison found in the goal. *)
Ltac float_case :=
  match goal with
  | |- context [Float.ltb ?a ?b] =>
      let H := fresh "Hcmp" in
      destruct (Float.ltb a b) eqn:H;
      [apply ltb_true in H | apply ltb_false in H]
  | |- context [Float.leb ?a ?b] =>
      let H := fresh "Hcmp" in
      destruct (Float.leb a b) eqn:H;
      [apply leb_true in H | apply leb_false in H]
  end.

(** ** Ball.reset *)

(** C10 as stated fails in its consequence: the serve need not change
    side.  The first serve goes to the right; the ball comes back off
    the right paddle; the left paddle, at 30, is out of its way; the
    ball crosses the left goal line moving left, and [reset] sends the
    next serve to the right again. *)
Lemma serve_direction_repeats :
  let ps :=
    Players.modify Players.P1
      (fun p => Player.set_controller
                  (PlayerController.set_pos_y 30 (Player.controller p)) p)
      Scenario.root_players in
  let b0 := Scenario.ball_at 0 0 95 0 in
  exists b1 ps1 b2 ps2 b3 ps3,
    Root_BallController.update 0.74 b0 ps = Some (b1, ps1) /\
    Root_BallController.update 1.5 b1 ps1 = Some (b2, ps2) /\
    Root_BallController.update 0.1 b2 ps2 = Some (b3, ps3) /\
    Vector2.x (BallController.vel b1) == -94.9999 /\
    BallController.scored b2 = false /\
    BallController.scored b3 = true /\
    BallController.winner b3 = 2%Z /\
    0 < Vector2.x (BallController.vel b0) /\
    0 < Vector2.x (BallController.vel
                     (Ball.controller (Ball.reset (Ball.mk b3 0)))).
Proof.
  cbv zeta.
  destruct (Root_BallController.update 0.74 (Scenario.ball_at 0 0 95 0) _)
    as [[b1 ps1]|] eqn:E1; [|vm_compute in E1; discriminate].
  destruct (Root_BallController.update 1.5 b1 ps1)
    as [[b2 ps2]|] eqn:E2;
    [|vm_compute in E1; inversion E1; subst; vm_compute in E2; discriminate].
  destruct (Root_BallController.update 0.1 b2 ps2)
    as [[b3 ps3]|] eqn:E3;
    [|vm_compute in E1; inversion E1; subst; vm_compute in E2;
      inversion E2; subst; vm_compute in E3; discriminate].
  exists b1, ps1, b2, ps2, b3, ps3.
  split; [reflexivity|]. split; [exact E2|]. split; [exact E3|].
  vm_compute in E1. inversion E1; subst. clear E1.
  vm_compute in E2. inversion E2; subst. clear E2.
  vm_compute in E3. inversion E3; subst. clear E3.
  repeat split; vm_compute; reflexivity.
Qed.

(** C10, amended.  After [Ball::reset] the ball is at the origin,
    [vel.y] is 0, [scored] is false, [winner] is 0, and [vel.x] is the
    negation of the value it had before, whatever it was, bias of
    earlier paddle bounces included: the function takes no speed and
    reads none, and everything else it leaves as it was.  So the serve
    goes to the right exactly when the ball was moving to the left at
    the reset, whichever way the serve before went; a ball with no
    horizontal speed is served with none; and two resets in a row give
    back the [vel.x] before them. *)
Theorem ball_reset_spec (b : Ball.t) :
  let c := Ball.controller b in
  let c' := Ball.controller (Ball.reset b) in
  BallController.pos c' = Vector2.mk 0 0 /\
  Vector2.y (BallController.vel c') = 0 /\
  BallController.scored c' = false /\
  BallController.winner c' = 0%Z /\
  Vector2.x (BallController.vel c') = - Vector2.x (BallController.vel c) /\
  Qabs (Vector2.x (BallController.vel c')) ==
    Qabs (Vector2.x (BallController.vel c)) /\
  BallController.size c' = BallController.size c /\
  BallController.player1 c' = BallController.player1 c /\
  BallController.player2 c' = BallController.player2 c /\
  Ball.color (Ball.reset b) = Ball.color b /\
  (0 < Vector2.x (BallController.vel c') <->
   Vector2.x (BallController.vel c) < 0) /\
  (Vector2.x (BallController.vel c') < 0 <->
   0 < Vector2.x (BallController.vel c)) /\
  (Vector2.x (BallController.vel c') == 0 <->
   Vector2.x (BallController.vel c) == 0) /\
  Vector2.x (BallController.vel (Ball.controller (Ball.reset (Ball.reset b))))
    == Vector2.x (BallController.vel c).
Proof.
  cbn. repeat split; try reflexivity; try apply Qabs_opp; intros; lra.
Qed.

(** ** The trajectory fold of predict_ball *)

(** C3 as stated fails at its first value: 130 folds to -30, not to 30. *)
Lemma fold_y_130_is_not_30 :
  Player.fold_y 130 == -30 /\ ~ Player.fold_y 130 == 30.
Proof. split; vm_compute; congruence. Qed.

(** C3, amended.  With [TOP = 50], [BOTTOM = -50] and [span = 100], the
    fold written in [predict_ball] sends a projected height of 130 to
    -30, of 60 to 40 and of 150 to -50. *)
Theorem fold_y_values :
  Player.TOP == 50 /\ Player.BOTTOM == -50 /\
  Player.fold_y 130 == -30 /\
  Player.fold_y 60 == 40 /\
  Player.fold_y 150 == -50.
Proof. repeat split; vm_compute; reflexivity. Qed.

(** ** The collision response of the ball *)

(** What [add_collision] computes when its collision response runs, in
    terms of the ball [b0] left by the wall tests. *)
Lemma root_add_collision_hit (pid : Players.Id) (b : BallController.t)
    (ps : Players.t) :
  BallController.paddle_hit (Players.get pid ps) b = true ->
  let b0 := BallController.bounce_walls b in
  let pl := Players.get pid ps in
  let c := Player.controller pl in
  Root_BallController.add_collision pid b ps =
  Some (BallController.mk
          (Vector2.mk
             (BallController.flush_x (Vector2.x (PlayerController.pos c))
                (Player.width pl) b0)
             (Vector2.y (BallController.pos b0)))
          (BallController.player1 b0) (BallController.player2 b0)
          (Vector2.mk
             (- Vector2.x (BallController.vel b0) + 0.0001)
             (Vector2.y (BallController.vel b0) +
              ((Vector2.y (BallController.pos b0) -
                Vector2.y (PlayerController.pos c)) / Player.height pl * 38 +
               PlayerController.dp c * 0.20)))
          (BallController.size b0) (BallController.scored b0)
          (BallController.winner b0), ps).
Proof.
  unfold BallController.paddle_hit, Root_BallController.add_collision.
  intros H. cbv zeta.
  apply andb_prop in H as [H Hov]. apply andb_prop in H as [H1 H2].
  apply negb_true_iff in H1, H2.
  rewrite H1, H2, Hov. reflexivity.
Qed.

Lemma incl_add_collision_hit (pid : Players.Id) (b : BallController.t)
    (ps : Players.t) :
  BallController.paddle_hit (Players.get pid ps) b = true ->
  let b0 := BallController.bounce_walls b in
  let pl := Players.get pid ps in
  let c := Player.controller pl in
  Incl_BallController.add_collision (Some pid) b ps =
  Some (BallController.mk
          (Vector2.mk
             (BallController.flush_x (Vector2.x (PlayerController.pos c))
                (Player.width pl) b0)
             (Vector2.y (BallController.pos b0)))
          (BallController.player1 b0) (BallController.player2 b0)
          (Vector2.mk
             (- Vector2.x (BallController.vel b0) + 0.0001)
             (Vector2.y (BallController.vel b0) +
              ((Vector2.y (BallController.pos b0) -
                Vector2.y (PlayerController.pos c)) / Player.height pl * 38 +
               PlayerController.dp c * 0.20 + 0.0001)))
          (BallController.size b0) (BallController.scored b0)
          (BallController.winner b0),
        Players.modify pid (Player.set_pulse_timer 0.5) ps).
Proof.
  unfold BallController.paddle_hit, Incl_BallController.add_collision.
  intros H. cbv zeta.
  apply andb_prop in H as [H Hov]. apply andb_prop in H as [H1 H2].
  apply negb_true_iff in H1, H2.
  rewrite H1, H2, Hov. reflexivity.
Qed.

(** The wall tests leave [vel.x] as it was. *)
Lemma bounce_walls_vel_x (b : BallController.t) :
  Vector2.x (BallController.vel (BallController.bounce_walls b)) =
  Vector2.x (BallController.vel b).
Proof.
  unfold BallController.bounce_walls.
  repeat (float_case; cbn); reflexivity.
Qed.

(** C2 as stated fails: a ball that meets the right paddle with
    [vel.x = 0.0001] leaves the collision response with [vel.x] equal to
    zero, in both files. *)
Lemma paddle_bounce_can_stall :
  let b := Scenario.ball_at 67 0 0.0001 0 in
  BallController.paddle_hit
    (Players.get Players.P2 Scenario.root_players) b = true /\
  (exists b', Root_BallController.add_collision Players.P2 b
                Scenario.root_players = Some (b', Scenario.root_players) /\
              Vector2.x (BallController.vel b') == 0) /\
  BallController.paddle_hit
    (Players.get Players.P2 Scenario.incl_players) b = true /\
  (exists b' ps', Incl_BallController.add_collision (Some Players.P2) b
                Scenario.incl_players = Some (b', ps') /\
              Vector2.x (BallController.vel b') == 0).
Proof.
  intro b. split; [vm_compute; reflexivity|]. split.
  - eexists. split; [vm_compute; reflexivity|]. vm_compute. reflexivity.
  - split; [vm_compute; reflexivity|].
    eexists. eexists. split; [vm_compute; reflexivity|]. vm_compute.
    reflexivity.
Qed.

(** C2, amended.  Whenever the collision response of [add_collision]
    runs, in either file, the new [vel.x] is [-v + 0.0001] for the old
    value [v]; it is zero exactly when [v] is [0.0001], and so nonzero for
    every other [v] (every [v <= 0] among them). *)
Theorem paddle_bounce_vel_x (pid : Players.Id) (b : BallController.t)
    (ps : Players.t) :
  BallController.paddle_hit (Players.get pid ps) b = true ->
  exists b1 ps1 b2 ps2,
    Root_BallController.add_collision pid b ps = Some (b1, ps1) /\
    Incl_BallController.add_collision (Some pid) b ps = Some (b2, ps2) /\
    Vector2.x (BallController.vel b1) =
      - Vector2.x (BallController.vel b) + 0.0001 /\
    Vector2.x (BallController.vel b2) =
      - Vector2.x (BallController.vel b) + 0.0001 /\
    (Vector2.x (BallController.vel b1) == 0 <->
       Vector2.x (BallController.vel b) == 0.0001) /\
    (Vector2.x (BallController.vel b2) == 0 <->
       Vector2.x (BallController.vel b) == 0.0001) /\
    (Vector2.x (BallController.vel b) <= 0 ->
       0 < Vector2.x (BallController.vel b1) /\
       0 < Vector2.x (BallController.vel b2)).
Proof.
  intros H.
  do 4 eexists.
  split; [apply (root_add_collision_hit _ _ _ H)|].
  split; [apply (incl_add_collision_hit _ _ _ H)|].
  cbn. rewrite bounce_walls_vel_x.
  repeat split; try reflexivity; intros; lra.
Qed.

(** The theorem at a ball that meets the right paddle at full speed. *)
Lemma paddle_bounce_vel_x_witness :
  let b := Scenario.ball_at 67 0 95 0 in
  let ps := Scenario.root_players in
  BallController.paddle_hit (Players.get Players.P2 ps) b = true /\
  exists b1 ps1 b2 ps2,
    Root_BallController.add_collision Players.P2 b ps = Some (b1, ps1) /\
    Incl_BallController.add_collision (Some Players.P2) b ps = Some (b2, ps2) /\
    Vector2.x (BallController.vel b1) =
      - Vector2.x (BallController.vel b) + 0.0001 /\
    Vector2.x (BallController.vel b2) =
      - Vector2.x (BallController.vel b) + 0.0001 /\
    (Vector2.x (BallController.vel b1) == 0 <->
       Vector2.x (BallController.vel b) == 0.0001) /\
    (Vector2.x (BallController.vel b2) == 0 <->
       Vector2.x (BallController.vel b) == 0.0001) /\
    (Vector2.x (BallController.vel b) <= 0 ->
       0 < Vector2.x (BallController.vel b1) /\
       0 < Vector2.x (BallController.vel b2)).
Proof.
  intros b ps. split.
  - vm_compute. reflexivity.
  - apply (paddle_bounce_vel_x Players.P2 b ps). vm_compute. reflexivity.
Defined.

(** C5 as stated fails: on the same state the two files leave the ball
    with different [vel.y]. *)
Lemma variants_differ_on_vel_y :
  let b := Scenario.ball_at 67 3 95 0 in
  let ps := Scenario.root_players in
  exists b1 ps1 b2 ps2,
    Root_BallController.add_collision Players.P2 b ps = Some (b1, ps1) /\
    Incl_BallController.add_collision (Some Players.P2) b ps = Some (b2, ps2) /\
    Vector2.y (BallController.vel b1) == 19 # 2 /\
    Vector2.y (BallController.vel b2) == (19 # 2) + 0.0001 /\
    ~ Vector2.y (BallController.vel b1) == Vector2.y (BallController.vel b2).
Proof.
  intros b ps. do 4 eexists.
  split; [vm_compute; reflexivity|].
  split; [vm_compute; reflexivity|].
  repeat split; vm_compute; congruence.
Qed.

(** C5, amended.  Run on the same state, the [add_collision] of the two
    files either both dereference a null pointer or both return; they
    then agree on the ball's position, on [vel.x], [scored] and [winner]
    and on both scores.  When the collision response runs, both set
    [vel.x] to [-vel.x + 0.0001]; [src/game.hpp] adds to [vel.y] exactly
    [((ball.y - paddle.y) / paddle.height) * 38 + paddle.dp * 0.20],
    whereas [src/include/game.hpp] adds that term plus [0.0001] (and
    sets the paddle's [pulse_timer]).  When it does not run the two
    results are the same. *)
Theorem variants_agree_up_to_vel_y_bias (pid : Players.Id)
    (b : BallController.t) (ps : Players.t) :
  match Root_BallController.add_collision pid b ps,
        Incl_BallController.add_collision (Some pid) b ps with
  | Some (b1, ps1), Some (b2, ps2) =>
      BallController.pos b1 = BallController.pos b2 /\
      Vector2.x (BallController.vel b1) = Vector2.x (BallController.vel b2) /\
      BallController.scored b1 = BallController.scored b2 /\
      BallController.winner b1 = BallController.winner b2 /\
      (forall i, Player.score (Players.get i ps1) =
                 Player.score (Players.get i ps2)) /\
      (if BallController.paddle_hit (Players.get pid ps) b then
         let b0 := BallController.bounce_walls b in
         let pl := Players.get pid ps in
         let term :=
           (Vector2.y (BallController.pos b0) -
            Vector2.y (PlayerController.pos (Player.controller pl)))
           / Player.height pl * 38 +
           PlayerController.dp (Player.controller pl) * 0.20 in
         Vector2.x (BallController.vel b1) =
           - Vector2.x (BallController.vel b) + 0.0001 /\
         Vector2.y (BallController.vel b1) =
           Vector2.y (BallController.vel b0) + term /\
         Vector2.y (BallController.vel b2) =
           Vector2.y (BallController.vel b0) + (term + 0.0001) /\
         Vector2.y (BallController.vel b2) ==
           Vector2.y (BallController.vel b1) + 0.0001
       else b1 = b2 /\ ps1 = ps2)
  | None, None => True
  | _, _ => False
  end.
Proof.
  destruct (BallController.paddle_hit (Players.get pid ps) b) eqn:Hhit.
  - rewrite (root_add_collision_hit _ _ _ Hhit),
            (incl_add_collision_hit _ _ _ Hhit).
    cbn. rewrite bounce_walls_vel_x.
    repeat split; try reflexivity.
    + intros []; destruct pid; reflexivity.
    + ring.
  - unfold Root_BallController.add_collision,
           Incl_BallController.add_collision.
    unfold BallController.paddle_hit in Hhit. cbv zeta in *.
    destruct (Vector2.x (BallController.pos (BallController.bounce_walls b)) +
              BallController.size (BallController.bounce_walls b) >? 80)
      eqn:H1.
    { destruct (BallController.player1 (BallController.bounce_walls b));
        [|exact I]. repeat split; reflexivity. }
    destruct (Vector2.x (BallController.pos (BallController.bounce_walls b)) -
              BallController.size (BallController.bounce_walls b) <? -80)
      eqn:H2.
    { destruct (BallController.player2 (BallController.bounce_walls b));
        [|exact I]. repeat split; reflexivity. }
    cbn in Hhit. rewrite Hhit. repeat split; reflexivity.
Qed.

(** ** Goals *)

Lemma bounce_walls_keeps (b : BallController.t) :
  let b0 := BallController.bounce_walls b in
  BallController.player1 b0 = BallController.player1 b /\
  BallController.player2 b0 = BallController.player2 b /\
  BallController.scored b0 = BallController.scored b /\
  BallController.winner b0 = BallController.winner b /\
  BallController.size b0 = BallController.size b /\
  Vector2.x (BallController.pos b0) = Vector2.x (BallController.pos b).
Proof.
  unfold BallController.bounce_walls.
  repeat (float_case; cbn); repeat split; reflexivity.
Qed.

Lemma score_modify_increment (q i : Players.Id) (ps : Players.t) :
  Players.score i (Players.modify q Player.increment_score ps) =
  if Players.eqb i q then u32_wrap (Players.score i ps + 1)
  else Players.score i ps.
Proof. destruct q, i; reflexivity. Qed.

Lemma score_modify_pulse (q i : Players.Id) (v : Q) (ps : Players.t) :
  Players.score i (Players.modify q (Player.set_pulse_timer v) ps) =
  Players.score i ps.
Proof. destruct q, i; reflexivity. Qed.

Lemma root_add_collision_outcome (pid p1 p2 : Players.Id)
    (b : BallController.t) (ps : Players.t) :
  BallController.player1 b = Some p1 ->
  BallController.player2 b = Some p2 ->
  add_collision_outcome b ps p1 p2
    (Root_BallController.add_collision pid b ps).
Proof.
  intros Hp1 Hp2. unfold add_collision_outcome. cbv zeta.
  destruct (bounce_walls_keeps b) as (K1 & K2 & K3 & K4 & K5 & K6).
  cbv zeta in *.
  destruct (BallController.paddle_hit (Players.get pid ps) b) eqn:Hhit.
  - rewrite (root_add_collision_hit _ _ _ Hhit).
    unfold BallController.paddle_hit in Hhit. cbv zeta in Hhit.
    apply andb_prop in Hhit as [Hg _]. apply andb_prop in Hg as [G1 G2].
    apply negb_true_iff in G1, G2.
    apply ltb_false in G1, G2.
    do 2 eexists. split; [reflexivity|]. cbn.
    rewrite K1, K2, K3, K4. repeat split; try assumption.
    right. right. repeat split; assumption.
  - unfold Root_BallController.add_collision. cbv zeta.
    unfold BallController.paddle_hit in Hhit. cbv zeta in Hhit.
    destruct (Vector2.x (BallController.pos (BallController.bounce_walls b)) +
              BallController.size (BallController.bounce_walls b) >? 80)
      eqn:G1.
    { rewrite K1, Hp1. do 2 eexists. split; [reflexivity|]. cbn.
      rewrite K1, K2, K5. repeat split; try assumption.
      left. apply ltb_true in G1. rewrite K5 in G1.
      repeat split; try assumption; try reflexivity.
      intro i. apply score_modify_increment. }
    destruct (Vector2.x (BallController.pos (BallController.bounce_walls b)) -
              BallController.size (BallController.bounce_walls b) <? -80)
      eqn:G2.
    { rewrite K2, Hp2. do 2 eexists. split; [reflexivity|]. cbn.
      rewrite K1, K2, K5. repeat split; try assumption.
      right. left. apply ltb_false in G1. apply ltb_true in G2.
      rewrite K5 in G1, G2.
      repeat split; try assumption; try reflexivity.
      intro i. apply score_modify_increment. }
    cbn in Hhit. rewrite Hhit.
    do 2 eexists. split; [reflexivity|].
    rewrite K1, K2, K3, K4. repeat split; try assumption.
    right. right. apply ltb_false in G1, G2.
    repeat split; assumption || reflexivity.
Qed.

Lemma incl_add_collision_outcome (pid p1 p2 : Players.Id)
    (b : BallController.t) (ps : Players.t) :
  BallController.player1 b = Some p1 ->
  BallController.player2 b = Some p2 ->
  add_collision_outcome b ps p1 p2
    (Incl_BallController.add_collision (Some pid) b ps).
Proof.
  intros Hp1 Hp2. unfold add_collision_outcome. cbv zeta.
  destruct (bounce_walls_keeps b) as (K1 & K2 & K3 & K4 & K5 & K6).
  cbv zeta in *.
  destruct (BallController.paddle_hit (Players.get pid ps) b) eqn:Hhit.
  - rewrite (incl_add_collision_hit _ _ _ Hhit).
    unfold BallController.paddle_hit in Hhit. cbv zeta in Hhit.
    apply andb_prop in Hhit as [Hg _]. apply andb_prop in Hg as [G1 G2].
    apply negb_true_iff in G1, G2.
    apply ltb_false in G1, G2.
    do 2 eexists. split; [reflexivity|]. cbn.
    rewrite K1, K2, K3, K4. repeat split; try assumption.
    right. right. repeat split; try assumption.
    intro i. apply score_modify_pulse.
  - unfold Incl_BallController.add_collision. cbv zeta.
    unfold BallController.paddle_hit in Hhit. cbv zeta in Hhit.
    destruct (Vector2.x (BallController.pos (BallController.bounce_walls b)) +
              BallController.size (BallController.bounce_walls b) >? 80)
      eqn:G1.
    { rewrite K1, Hp1. do 2 eexists. split; [reflexivity|]. cbn.
      rewrite K1, K2, K5. repeat split; try assumption.
      left. apply ltb_true in G1. rewrite K5 in G1.
      repeat split; try assumption; try reflexivity.
      intro i. apply score_modify_increment. }
    destruct (Vector2.x (BallController.pos (BallController.bounce_walls b)) -
              BallController.size (BallController.bounce_walls b) <? -80)
      eqn:G2.
    { rewrite K2, Hp2. do 2 eexists. split; [reflexivity|]. cbn.
      rewrite K1, K2, K5. repeat split; try assumption.
      right. left. apply ltb_false in G1. apply ltb_true in G2.
      rewrite K5 in G1, G2.
      repeat split; try assumption; try reflexivity.
      intro i. apply score_modify_increment. }
    cbn in Hhit. rewrite Hhit.
    do 2 eexists. split; [reflexivity|].
    rewrite K1, K2, K3, K4. repeat split; try assumption.
    right. right. apply ltb_false in G1, G2.
    repeat split; assumption || reflexivity.
Qed.

Lemma u32_increment (s : Z) :
  (0 <= s < u32_max)%Z -> u32_wrap (s + 1) = (s + 1)%Z.
Proof.
  unfold u32_max, u32_wrap. intros H. apply Z.mod_small. lia.
Qed.

Ltac close_update_outcome p1 p2 :=
  match goal with
  | H1 : add_collision_outcome ?b1 ?ps ?p1 ?p2 ?r |- _ =>
      let b' := fresh "b'" in
      let ps' := fresh "ps'" in
      let E := fresh "E" in
      let Q1 := fresh "Q1" in
      let Q2 := fresh "Q2" in
      let C := fresh "C" in
      destruct H1 as (b' & ps' & E & Q1 & Q2 & C); cbv zeta in C
  end.

Lemma root_update_outcome (dt : Q) (b : BallController.t) (ps : Players.t)
    (p1 p2 : Players.Id) :
  BallController.scored b = false ->
  BallController.player1 b = Some p1 ->
  BallController.player2 b = Some p2 ->
  update_outcome dt b ps p1 p2 (Root_BallController.update dt b ps).
Proof.
  intros Hs Hp1 Hp2.
  unfold update_outcome, Root_BallController.update. cbv zeta.
  rewrite Hs.
  set (bp := BallController.update_physics dt b).
  assert (Hbp1 : BallController.player1 bp = Some p1) by exact Hp1.
  assert (Hbp2 : BallController.player2 bp = Some p2) by exact Hp2.
  assert (Hbps : BallController.scored bp = false) by exact Hs.
  assert (Hbpw : BallController.winner bp = BallController.winner b)
    by reflexivity.
  assert (Hbpz : BallController.size bp = BallController.size b)
    by reflexivity.
  destruct (bounce_walls_keeps bp) as (_ & _ & _ & _ & K5 & _).
  cbv zeta in K5. rewrite Hbpz in K5.
  rewrite Hbp1.
  pose proof (root_add_collision_outcome p1 p1 p2 bp ps Hbp1 Hbp2) as H1.
  close_update_outcome p1 p2. rewrite K5, Hbpz, Hbps, Hbpw in C.
  rewrite E.
  destruct C as [(G & S & W & X & Sc) | [(G1 & G2 & S & W & X & Sc)
                                       | (G1 & G2 & S & W & Sc)]].
  - rewrite S. do 2 eexists. split; [reflexivity|].
    split; [intros [A B]; congruence|].
    split; [intros _; left; split; assumption|].
    split; [intros F; congruence|].
    split; [intros _; repeat split; assumption|].
    intros F. exfalso. apply (Qlt_not_le _ _ G F).
  - rewrite S. do 2 eexists. split; [reflexivity|].
    split; [intros [A B]; congruence|].
    split; [intros _; right; split; assumption|].
    split; [intros F; congruence|].
    split; [intros F; exfalso; apply (Qlt_not_le _ _ F G1)|].
    intros _ _. repeat split; assumption.
  - rewrite S. rewrite Q2.
    pose proof (root_add_collision_outcome p2 p1 p2 b' ps' Q1 Q2) as H2.
    close_update_outcome p1 p2. rewrite E0.
    do 2 eexists. split; [reflexivity|].
    split; [intros [A B]; congruence|].
    destruct C as [(G & S' & W' & X & Sc') | [(G1' & G2' & S' & W' & X & Sc')
                                       | (G1' & G2' & S' & W' & Sc')]].
    + split; [intros _; left; split; [assumption|]|].
      { intro i. rewrite Sc', !Sc. reflexivity. }
      split; [intros F; congruence|].
      split; [intros F; exfalso; apply (Qlt_not_le _ _ F G1)|].
      intros _ F. exfalso. apply (Qlt_not_le _ _ F G2).
    + split; [intros _; right; split; [assumption|]|].
      { intro i. rewrite Sc', !Sc. reflexivity. }
      split; [intros F; congruence|].
      split; [intros F; exfalso; apply (Qlt_not_le _ _ F G1)|].
      intros _ F. exfalso. apply (Qlt_not_le _ _ F G2).
    + split; [intros F; congruence|].
      split.
      { intros _. split; [congruence|]. intro i. rewrite Sc', Sc.
        reflexivity. }
      split; [intros F; exfalso; apply (Qlt_not_le _ _ F G1)|].
      intros _ F. exfalso. apply (Qlt_not_le _ _ F G2).
Qed.

Lemma incl_update_outcome (dt : Q) (b : BallController.t) (ps : Players.t)
    (p1 p2 : Players.Id) :
  BallController.scored b = false ->
  BallController.player1 b = Some p1 ->
  BallController.player2 b = Some p2 ->
  update_outcome dt b ps p1 p2 (Incl_BallController.update dt b ps).
Proof.
  intros Hs Hp1 Hp2.
  unfold update_outcome, Incl_BallController.update. cbv zeta.
  rewrite Hs.
  set (bp := BallController.update_physics dt b).
  assert (Hbp1 : BallController.player1 bp = Some p1) by exact Hp1.
  assert (Hbp2 : BallController.player2 bp = Some p2) by exact Hp2.
  assert (Hbps : BallController.scored bp = false) by exact Hs.
  assert (Hbpw : BallController.winner bp = BallController.winner b)
    by reflexivity.
  assert (Hbpz : BallController.size bp = BallController.size b)
    by reflexivity.
  destruct (bounce_walls_keeps bp) as (_ & _ & _ & _ & K5 & _).
  cbv zeta in K5. rewrite Hbpz in K5.
  rewrite !Hbp1.
  pose proof (incl_add_collision_outcome p1 p1 p2 bp ps Hbp1 Hbp2) as H1.
  close_update_outcome p1 p2. rewrite K5, Hbpz, Hbps, Hbpw in C.
  rewrite E.
  destruct C as [(G & S & W & X & Sc) | [(G1 & G2 & S & W & X & Sc)
                                       | (G1 & G2 & S & W & Sc)]].
  - rewrite S. do 2 eexists. split; [reflexivity|].
    split; [intros [A B]; congruence|].
    split; [intros _; left; split; assumption|].
    split; [intros F; congruence|].
    split; [intros _; repeat split; assumption|].
    intros F. exfalso. apply (Qlt_not_le _ _ G F).
  - rewrite S. do 2 eexists. split; [reflexivity|].
    split; [intros [A B]; congruence|].
    split; [intros _; right; split; assumption|].
    split; [intros F; congruence|].
    split; [intros F; exfalso; apply (Qlt_not_le _ _ F G1)|].
    intros _ _. repeat split; assumption.
  - rewrite S. rewrite !Q2.
    pose proof (incl_add_collision_outcome p2 p1 p2 b' ps' Q1 Q2) as H2.
    close_update_outcome p1 p2. rewrite E0.
    do 2 eexists. split; [reflexivity|].
    split; [intros [A B]; congruence|].
    destruct C as [(G & S' & W' & X & Sc') | [(G1' & G2' & S' & W' & X & Sc')
                                       | (G1' & G2' & S' & W' & Sc')]].
    + split; [intros _; left; split; [assumption|]|].
      { intro i. rewrite Sc', !Sc. reflexivity. }
      split; [intros F; congruence|].
      split; [intros F; exfalso; apply (Qlt_not_le _ _ F G1)|].
      intros _ F. exfalso. apply (Qlt_not_le _ _ F G2).
    + split; [intros _; right; split; [assumption|]|].
      { intro i. rewrite Sc', !Sc. reflexivity. }
      split; [intros F; congruence|].
      split; [intros F; exfalso; apply (Qlt_not_le _ _ F G1)|].
      intros _ F. exfalso. apply (Qlt_not_le _ _ F G2).
    + split; [intros F; congruence|].
      split.
      { intros _. split; [congruence|]. intro i. rewrite Sc', Sc.
        reflexivity. }
      split; [intros F; exfalso; apply (Qlt_not_le _ _ F G1)|].
      intros _ F. exfalso. apply (Qlt_not_le _ _ F G2).
Qed.

(** C4.  One call of [BallController::update] on a ball that has not
    scored and whose two player pointers are set, in either file: it
    returns; [winner] is never both 1 and 2; if the ball comes out scored
    then either [winner] is 1 and the score of the player [player1]
    points to has gone up by one while every other score is as before,
    or [winner] is 2 and the same holds for [player2]; if it does not
    come out scored, [winner] and all scores are as before.  After the
    move and the wall tests, a right edge beyond 80 gives [winner = 1]
    with the ball put at [80 + size], and otherwise a left edge beyond
    -80 gives [winner = 2] with the ball put at [-80 - size].  The
    increment is the one of a [u32]: plus one below the maximum. *)
Theorem ball_update_scores_once
    (upd : Q -> BallController.t -> Players.t ->
           option (BallController.t * Players.t))
    (dt : Q) (b : BallController.t) (ps : Players.t) (p1 p2 : Players.Id) :
  upd = Root_BallController.update \/ upd = Incl_BallController.update ->
  BallController.scored b = false ->
  BallController.player1 b = Some p1 ->
  BallController.player2 b = Some p2 ->
  let b0 := BallController.bounce_walls (BallController.update_physics dt b) in
  let edge_r := Vector2.x (BallController.pos b0) + BallController.size b in
  let edge_l := Vector2.x (BallController.pos b0) - BallController.size b in
  exists b' ps',
    upd dt b ps = Some (b', ps') /\
    ~ (BallController.winner b' = 1%Z /\ BallController.winner b' = 2%Z) /\
    (BallController.scored b' = true ->
       (BallController.winner b' = 1%Z /\
        forall i, Players.score i ps' =
                  if Players.eqb i p1 then u32_wrap (Players.score i ps + 1)
                  else Players.score i ps)
       \/
       (BallController.winner b' = 2%Z /\
        forall i, Players.score i ps' =
                  if Players.eqb i p2 then u32_wrap (Players.score i ps + 1)
                  else Players.score i ps)) /\
    (BallController.scored b' = false ->
       BallController.winner b' = BallController.winner b /\
       forall i, Players.score i ps' = Players.score i ps) /\
    (80 < edge_r ->
       BallController.scored b' = true /\ BallController.winner b' = 1%Z /\
       Vector2.x (BallController.pos b') == 80 + BallController.size b) /\
    (edge_r <= 80 -> edge_l < -80 ->
       BallController.scored b' = true /\ BallController.winner b' = 2%Z /\
       Vector2.x (BallController.pos b') == -80 - BallController.size b) /\
    (forall s, (0 <= s < u32_max)%Z -> u32_wrap (s + 1) = (s + 1)%Z).
Proof.
  intros Hupd Hs Hp1 Hp2. cbv zeta.
  assert (H : update_outcome dt b ps p1 p2 (upd dt b ps)).
  { destruct Hupd as [-> | ->].
    - apply root_update_outcome; assumption.
    - apply incl_update_outcome; assumption. }
  destruct H as (b' & ps' & E & A1 & A2 & A3 & A4 & A5).
  exists b', ps'. repeat split; try assumption.
  - apply A3; assumption.
  - apply A3; assumption.
  - apply A4; assumption.
  - apply A4; assumption.
  - apply A4; assumption.
  - apply A5; assumption.
  - apply A5; assumption.
  - apply A5; assumption.
  - apply u32_increment; assumption.
Qed.

(** The theorem at a ball half a unit from the right goal line: one tick
    of a sixtieth of a second scores for player 1 and puts the ball at
    81.2. *)
Lemma ball_update_scores_once_witness :
  let b := Scenario.ball_at 79.5 0 50 0 in
  let ps := Scenario.root_players in
  let dt := 1 # 60 in
  BallController.scored b = false /\
  BallController.player1 b = Some Players.P1 /\
  BallController.player2 b = Some Players.P2 /\
  exists b' ps',
    Root_BallController.update dt b ps = Some (b', ps') /\
    BallController.scored b' = true /\
    BallController.winner b' = 1%Z /\
    Vector2.x (BallController.pos b') == 81.2 /\
    Players.score Players.P1 ps' = 1%Z /\
    Players.score Players.P2 ps' = 0%Z.
Proof.
  intros b ps dt.
  split; [reflexivity|]. split; [reflexivity|]. split; [reflexivity|].
  destruct (ball_update_scores_once Root_BallController.update dt b ps
              Players.P1 Players.P2 (or_introl eq_refl) eq_refl eq_refl
              eq_refl)
    as (b' & ps' & E & _ & A2 & _ & A4 & _).
  assert (G : 80 < Vector2.x (BallController.pos
                (BallController.bounce_walls
                   (BallController.update_physics dt b))) +
              BallController.size b) by (vm_compute; reflexivity).
  destruct (A4 G) as (S & W & X).
  exists b', ps'. split; [exact E|]. split; [exact S|]. split; [exact W|].
  split; [rewrite X; vm_compute; reflexivity|].
  destruct (A2 S) as [[_ Sc] | [W2 _]]; [|congruence].
  split; rewrite Sc; reflexivity.
Defined.

(** ** The paddle between the walls *)


Lemma drive_height (RAND_MAX : Z) (bt : input.Buttons) (dt : Q)
    (ball_pos ball_vel : Vector2.t) (difficulty : Z) (p : Player.t)
    (draws : list Z) :
  Player.height (fst (Player.drive RAND_MAX bt dt ball_pos ball_vel
                        difficulty p draws)) = Player.height p.
Proof.
  unfold Player.drive, Rand.bind, Rand.ret.
  destruct (if Player.ai_mode p then _ else _) as [ddp s']. reflexivity.
Qed.

Lemma root_update_is_add_collision (RAND_MAX : Z) (bt : input.Buttons)
    (dt : Q) (ball_pos ball_vel : Vector2.t) (difficulty : Z) (p : Player.t)
    (rs : render.RenderState) (draws : list Z) :
  fst (fst (Root_Player.update RAND_MAX bt dt ball_pos ball_vel difficulty
              p rs draws)) =
  Player.add_collision
    (fst (Player.drive RAND_MAX bt dt ball_pos ball_vel difficulty p draws)).
Proof.
  unfold Root_Player.update, Root_Player.step, Rand.bind, Rand.ret.
  destruct (Player.drive _ _ _ _ _ _ _ _) as [m s']. reflexivity.
Qed.

Lemma incl_update_is_add_collision (RAND_MAX : Z) (bt : input.Buttons)
    (dt : Q) (ball_pos ball_vel : Vector2.t) (difficulty : Z) (p : Player.t)
    (rs : render.RenderState) (draws : list Z) :
  Player.controller
    (fst (fst (Incl_Player.update RAND_MAX bt dt ball_pos ball_vel
                 difficulty p rs draws))) =
  Player.controller
    (Player.add_collision
       (fst (Player.drive RAND_MAX bt dt ball_pos ball_vel difficulty p
               draws))).
Proof.
  unfold Incl_Player.update, Incl_Player.step, Rand.bind, Rand.ret.
  destruct (Player.drive _ _ _ _ _ _ _ _) as [m s']. cbn.
  destruct (Player.pulse_timer (Player.add_collision m) >? 0); reflexivity.
Qed.

(** ** The paddle between the walls, on floats *)

Lemma round_num (q : Q) :
  - IEEE.LIMIT < q < IEEE.LIMIT -> IEEE.round q = IEEE.Num q.
Proof.
  intros [A B]. unfold IEEE.round.
  assert (E1 : (IEEE.LIMIT <=? q) = false) by (apply leb_false; exact B).
  assert (E2 : (q <=? - IEEE.LIMIT) = false) by (apply leb_false; exact A).
  rewrite E1, E2. reflexivity.
Qed.

Lemma bound_pos (k : nat) : 1 <= IEEE.bound k.
Proof.
  unfold IEEE.bound. change 1 with (inject_Z 1). rewrite <- Zle_Qle.
  assert (0 < 10 ^ Z.of_nat k)%Z by (apply Z.pow_pos_nonneg; lia). lia.
Qed.

Lemma bound_add (j k : nat) :
  IEEE.bound (j + k) == IEEE.bound j * IEEE.bound k.
Proof.
  unfold IEEE.bound. rewrite <- inject_Z_mult, Nat2Z.inj_add.
  rewrite Z.pow_add_r by lia. reflexivity.
Qed.

Lemma bound_succ (k : nat) : IEEE.bound (S k) == 10 * IEEE.bound k.
Proof.
  change (S k) with (1 + k)%nat. rewrite bound_add. reflexivity.
Qed.

Lemma bound_le (j k : nat) : (j <= k)%nat -> IEEE.bound j <= IEEE.bound k.
Proof.
  intros H. unfold IEEE.bound. rewrite <- Zle_Qle.
  apply Z.pow_le_mono_r; lia.
Qed.

Lemma small_le (j k : nat) (q : Q) :
  (j <= k)%nat -> IEEE.small j q -> IEEE.small k q.
Proof.
  intros H [A B]. pose proof (bound_le j k H). split; lra.
Qed.

Lemma small_mul (j k : nat) (p q : Q) :
  IEEE.small j p -> IEEE.small k q -> IEEE.small (j + k) (p * q).
Proof.
  intros [A1 A2] [B1 B2]. unfold IEEE.small. rewrite bound_add.
  pose proof (bound_pos j). pose proof (bound_pos k).
  set (a := IEEE.bound j) in *. set (b := IEEE.bound k) in *.
  clearbody a b. split; nra.
Qed.

Lemma small_add (k : nat) (p q : Q) :
  IEEE.small k p -> IEEE.small k q -> IEEE.small (S k) (p + q).
Proof.
  intros [A1 A2] [B1 B2]. unfold IEEE.small. rewrite bound_succ.
  pose proof (bound_pos k). split; lra.
Qed.

Lemma small_opp (k : nat) (q : Q) : IEEE.small k q -> IEEE.small k (- q).
Proof. intros [A B]. split; lra. Qed.

Lemma small_limit (k : nat) (q : Q) :
  (k <= 37)%nat -> IEEE.small k q -> - IEEE.LIMIT < q < IEEE.LIMIT.
Proof.
  intros H S. apply (small_le k 37 q H) in S. destruct S as [A B].
  assert (L : IEEE.bound 37 < IEEE.LIMIT) by reflexivity.
  split; lra.
Qed.

Lemma mul_num (j k : nat) (p q : Q) :
  (j + k <= 37)%nat -> IEEE.small j p -> IEEE.small k q ->
  IEEE.mul (IEEE.Num p) (IEEE.Num q) = IEEE.Num (p * q) /\
  IEEE.small (j + k) (p * q).
Proof.
  intros H A B. pose proof (small_mul j k p q A B) as S.
  split; [|exact S]. apply round_num, (small_limit _ _ H S).
Qed.

Lemma add_num (k : nat) (p q : Q) :
  (S k <= 37)%nat -> IEEE.small k p -> IEEE.small k q ->
  IEEE.add (IEEE.Num p) (IEEE.Num q) = IEEE.Num (p + q) /\
  IEEE.small (S k) (p + q).
Proof.
  intros H A B. pose proof (small_add k p q A B) as S.
  split; [|exact S]. apply round_num, (small_limit _ _ H S).
Qed.

Lemma sub_num (k : nat) (p q : Q) :
  (S k <= 37)%nat -> IEEE.small k p -> IEEE.small k q ->
  IEEE.sub (IEEE.Num p) (IEEE.Num q) = IEEE.Num (p - q) /\
  IEEE.small (S k) (p - q).
Proof.
  intros H A B. apply small_opp in B.
  apply (add_num k p (- q) H A B).
Qed.

(** With every input a number of size at most a million, no operation
    of [controller.update] leaves the range of [float]: its results are
    the numbers the exact computation gives. *)
Lemma integrate_exact (c : PlayerController.t) (ddp dt : Q) :
  IEEE.small 6 (Vector2.y (PlayerController.pos c)) ->
  IEEE.small 6 (PlayerController.dp c) ->
  IEEE.small 6 (PlayerController.damping c) ->
  IEEE.small 6 ddp -> IEEE.small 6 dt ->
  fst (IEEE_PlayerController.update (IEEE.Num dt) (IEEE.Num ddp)
         (IEEE_PlayerController.of_exact c)) =
  IEEE_PlayerController.of_exact (fst (PlayerController.update dt ddp c)) /\
  IEEE.small 26 (Vector2.y (PlayerController.pos
                              (fst (PlayerController.update dt ddp c)))) /\
  IEEE.small 20 (PlayerController.dp (fst (PlayerController.update dt ddp c))).
Proof.
  intros Hy Hdp Hdm Hddp Hdt.
  unfold IEEE_PlayerController.update, PlayerController.update.
  unfold IEEE_PlayerController.update_ddp_damping,
    PlayerController.update_ddp_damping,
    IEEE_PlayerController.update_pos_y, PlayerController.update_pos_y,
    IEEE_PlayerController.update_dp, PlayerController.update_dp,
    IEEE_PlayerController.of_exact.
  cbn [fst IEEE_PlayerController.dp IEEE_PlayerController.damping
       IEEE_PlayerController.pos_x IEEE_PlayerController.pos_y
       IEEE_PlayerController.ddp_speed
       PlayerController.pos PlayerController.dp PlayerController.damping
       PlayerController.ddp_speed Vector2.x Vector2.y].
  set (y := Vector2.y (PlayerController.pos c)) in *.
  set (dp := PlayerController.dp c) in *.
  set (dm := PlayerController.damping c) in *.
  destruct (mul_num 6 6 dp dm) as [E1 S1]; [lia|assumption|assumption|].
  rewrite E1.
  destruct (sub_num 12 ddp (dp * dm)) as [E2 S2];
    [lia|apply (small_le 6); [lia|assumption]|exact S1|].
  rewrite E2.
  destruct (mul_num 6 6 dp dt) as [E3 S3]; [lia|assumption|assumption|].
  rewrite E3.
  destruct (add_num 12 y (dp * dt)) as [E4 S4];
    [lia|apply (small_le 6); [lia|assumption]|exact S3|].
  rewrite E4.
  destruct (mul_num 13 6 (ddp - dp * dm) dt) as [E5 S5];
    [lia|exact S2|assumption|].
  rewrite E5.
  destruct (mul_num 19 6 ((ddp - dp * dm) * dt) dt) as [E6 S6];
    [lia|exact S5|assumption|].
  rewrite E6.
  assert (Hh : IEEE.small 0 0.5) by (split; discriminate).
  destruct (mul_num 25 0 ((ddp - dp * dm) * dt * dt) 0.5) as [E7 S7];
    [lia|exact S6|exact Hh|].
  rewrite E7.
  destruct (add_num 25 (y + dp * dt) ((ddp - dp * dm) * dt * dt * 0.5))
    as [E8 S8];
    [lia|apply (small_le 13); [lia|exact S4]|exact S7|].
  rewrite E8.
  destruct (add_num 19 dp ((ddp - dp * dm) * dt)) as [E9 S9];
    [lia|apply (small_le 6); [lia|assumption]|exact S5|].
  rewrite E9.
  split; [reflexivity|]. split; [exact S8|exact S9].
Qed.

Lemma round_cases (q : Q) :
  (IEEE.round q = IEEE.PInf /\ IEEE.LIMIT <= q) \/
  (IEEE.round q = IEEE.NInf /\ q <= - IEEE.LIMIT) \/
  (IEEE.round q = IEEE.Num q /\ - IEEE.LIMIT < q < IEEE.LIMIT).
Proof.
  unfold IEEE.round.
  destruct (IEEE.LIMIT <=? q) eqn:E1;
    [apply leb_true in E1; left; split; [reflexivity|exact E1]|].
  apply leb_false in E1.
  destruct (q <=? - IEEE.LIMIT) eqn:E2;
    [apply leb_true in E2; right; left; split; [reflexivity|exact E2]|].
  apply leb_false in E2. right; right. split; [reflexivity|split; lra].
Qed.

Lemma limit_value : IEEE.LIMIT == 340282356779733661637539395458142568448.
Proof. reflexivity. Qed.

(** The first test of [add_collision] on a number: [y + 12 > 50]. *)
Lemma test_top (y : Q) :
  IEEE.gtb (IEEE.add (IEEE.Num y) (IEEE.Num 12)) (IEEE.Num 50) = (38 <? y).
Proof.
  pose proof limit_value as LL.
  change (IEEE.add (IEEE.Num y) (IEEE.Num 12)) with (IEEE.round (y + 12)).
  destruct (round_cases (y + 12)) as [[E L]|[[E L]|[E L]]]; rewrite E.
  - symmetry. apply ltb_true. lra.
  - symmetry. apply ltb_false. lra.
  - unfold IEEE.gtb, IEEE.ltb.
    destruct (50 <? y + 12) eqn:C;
      [apply ltb_true in C|apply ltb_false in C]; symmetry;
      [apply ltb_true|apply ltb_false]; lra.
Qed.

(** The second test on a number: [y - 12 < -50]. *)
Lemma test_bottom (y : Q) :
  IEEE.ltb (IEEE.sub (IEEE.Num y) (IEEE.Num 12)) (IEEE.Num (-50)) =
  (y <? -38).
Proof.
  pose proof limit_value as LL.
  change (IEEE.sub (IEEE.Num y) (IEEE.Num 12)) with (IEEE.round (y + - 12)).
  destruct (round_cases (y + - 12)) as [[E L]|[[E L]|[E L]]]; rewrite E.
  - symmetry. apply ltb_false. lra.
  - symmetry. apply ltb_true. lra.
  - unfold IEEE.ltb.
    destruct (y + - 12 <? -50) eqn:C;
      [apply ltb_true in C|apply ltb_false in C]; symmetry;
      [apply ltb_true|apply ltb_false]; lra.
Qed.

(** What [add_collision] does to a paddle of height 12, whatever
    [float] its [pos.y] holds. *)
Lemma ieee_add_collision_spec (p : IEEE_Player.t) :
  IEEE_Player.height p = IEEE.Num 12 ->
  let q := IEEE_Player.add_collision p in
  let y_of r := IEEE_PlayerController.pos_y (IEEE_Player.controller r) in
  let dp_of r := IEEE_PlayerController.dp (IEEE_Player.controller r) in
  (IEEE.is_nan (y_of p) = true -> q = p) /\
  (IEEE.is_nan (y_of p) = false ->
   IEEE.between (-50 + 12) (50 - 12) (y_of q)) /\
  (IEEE_Player.clamp_fires p = true ->
   dp_of q = IEEE.mul (dp_of p) (IEEE.Num (-0.5)) /\
   (IEEE.between (50 - 12) (50 - 12) (y_of q) \/
    IEEE.between (-50 + 12) (-50 + 12) (y_of q))) /\
  (IEEE_Player.clamp_fires p = false -> q = p).
Proof.
  intros Hh. destruct p as [[px py dp sp dm] h]. cbn in Hh. subst h.
  cbv zeta. unfold IEEE_Player.add_collision, IEEE_Player.clamp_fires.
  cbn [IEEE_Player.controller IEEE_Player.height
       IEEE_PlayerController.pos_y IEEE_PlayerController.dp].
  destruct py as [y| | |].
  - rewrite test_top.
    destruct (38 <? y) eqn:C1; [apply ltb_true in C1|apply ltb_false in C1].
    + cbn [IEEE_Player.set_controller IEEE_Player.controller
           IEEE_Player.height IEEE_PlayerController.set_dp
           IEEE_PlayerController.set_pos_y IEEE_PlayerController.pos_y
           IEEE_PlayerController.dp IEEE_PlayerController.pos_x
           IEEE_PlayerController.ddp_speed IEEE_PlayerController.damping
           orb].
      change (IEEE.sub (IEEE.Num 50) (IEEE.Num 12)) with (IEEE.Num (50 - 12)).
      rewrite test_bottom.
      change (50 - 12 <? -38) with false.
      cbn [IEEE_Player.controller IEEE_PlayerController.pos_y
           IEEE_PlayerController.dp IEEE.is_nan IEEE.between].
      split; [discriminate|]. split; [intros _; split; discriminate|].
      split; [|discriminate].
      intros _. split; [reflexivity|]. left. split; discriminate.
    + cbn [IEEE_Player.controller IEEE_Player.height
           IEEE_PlayerController.pos_y orb].
      rewrite !test_bottom.
      destruct (y <? -38) eqn:C2; [apply ltb_true in C2|apply ltb_false in C2].
      * cbn [IEEE_Player.set_controller IEEE_Player.controller
             IEEE_Player.height IEEE_PlayerController.set_dp
             IEEE_PlayerController.set_pos_y IEEE_PlayerController.pos_y
             IEEE_PlayerController.dp IEEE_PlayerController.pos_x
             IEEE_PlayerController.ddp_speed IEEE_PlayerController.damping].
        change (IEEE.add (IEEE.Num (-50)) (IEEE.Num 12))
          with (IEEE.Num (-50 + 12)).
        cbn [IEEE.is_nan IEEE.between].
        split; [discriminate|]. split; [intros _; split; discriminate|].
        split; [|discriminate].
        intros _. split; [reflexivity|]. right. split; discriminate.
      * cbn [IEEE_Player.controller IEEE_PlayerController.pos_y
             IEEE.is_nan IEEE.between].
        split; [discriminate|]. split; [intros _; lra|].
        split; [discriminate|reflexivity].
  - cbn. split; [discriminate|]. split; [intros _; split; discriminate|].
    split; [|discriminate].
    intros _. split; [reflexivity|]. left. split; discriminate.
  - cbn. split; [discriminate|]. split; [intros _; split; discriminate|].
    split; [|discriminate].
    intros _. split; [reflexivity|]. right. split; discriminate.
  - cbn. split; [reflexivity|]. split; [discriminate|].
    split; [discriminate|reflexivity].
Qed.

(** C1, amended.  [Player::update] of either file from the call of
    [controller.update] on, for a paddle of height 12, whatever [float]
    the driver (the AI or the keyboard) has left in [ddp] and whatever
    floats [dt] and the members of the controller hold, infinities and
    NaN included.  When the [pos.y] that [controller.update] computes
    is NaN, both tests of [add_collision] are false and the paddle
    keeps that [pos.y]; otherwise [pos.y] ends within
    [[-50 + 12, 50 - 12]].  Whenever one of the two tests holds, [pos.y]
    is set to the wall, 38 or -38, and [dp] is replaced by [dp * -0.5f];
    when none holds, [add_collision] changes nothing.  When [pos.y],
    [dp], [damping], [dt] and the [ddp] of the driver are numbers of
    size at most a million, no operation of [controller.update] leaves
    the range of [float]: it computes the numbers the exact computation
    gives, [pos.y] is not NaN, and the paddle ends between the walls. *)
Theorem paddle_stays_between_walls (p : IEEE_Player.t) (ddp dt : IEEE.t) :
  IEEE_Player.height p = IEEE.Num 12 ->
  let y_of r := IEEE_PlayerController.pos_y (IEEE_Player.controller r) in
  let dp_of r := IEEE_PlayerController.dp (IEEE_Player.controller r) in
  let mid := IEEE_Player.integrate ddp dt p in
  let after := IEEE_Player.update ddp dt p in
  (IEEE.is_nan (y_of mid) = true -> after = mid) /\
  (IEEE.is_nan (y_of mid) = false ->
   IEEE.between (-50 + 12) (50 - 12) (y_of after)) /\
  (IEEE_Player.clamp_fires mid = true ->
   dp_of after = IEEE.mul (dp_of mid) (IEEE.Num (-0.5)) /\
   (IEEE.between (50 - 12) (50 - 12) (y_of after) \/
    IEEE.between (-50 + 12) (-50 + 12) (y_of after))) /\
  (IEEE_Player.clamp_fires mid = false -> after = mid) /\
  (forall (e : Player.t) (a t : Q),
     p = IEEE_Player.of_exact e -> ddp = IEEE.Num a -> dt = IEEE.Num t ->
     IEEE.small 6 (Vector2.y (PlayerController.pos (Player.controller e))) ->
     IEEE.small 6 (PlayerController.dp (Player.controller e)) ->
     IEEE.small 6 (PlayerController.damping (Player.controller e)) ->
     IEEE.small 6 a -> IEEE.small 6 t ->
     mid = IEEE_Player.of_exact
             (Player.set_controller
                (fst (PlayerController.update t a (Player.controller e))) e) /\
     IEEE.is_nan (y_of mid) = false /\
     IEEE.between (-50 + 12) (50 - 12) (y_of after)).
Proof.
  intros Hh. cbv zeta.
  assert (Hm : IEEE_Player.height (IEEE_Player.integrate ddp dt p)
               = IEEE.Num 12) by exact Hh.
  destruct (ieee_add_collision_spec _ Hm) as (A1 & A2 & A3 & A4).
  cbv zeta in A1, A2, A3, A4.
  split; [exact A1|]. split; [exact A2|]. split; [exact A3|].
  split; [exact A4|].
  intros e a t -> -> -> Hy Hdp Hdm Ha Ht.
  destruct (integrate_exact (Player.controller e) a t Hy Hdp Hdm Ha Ht)
    as (E & _).
  assert (Em : IEEE_Player.integrate (IEEE.Num a) (IEEE.Num t)
                 (IEEE_Player.of_exact e) =
               IEEE_Player.of_exact
                 (Player.set_controller
                    (fst (PlayerController.update t a (Player.controller e)))
                    e)).
  { unfold IEEE_Player.integrate, IEEE_Player.of_exact.
    cbn [IEEE_Player.controller IEEE_Player.height
         IEEE_Player.set_controller].
    rewrite E. reflexivity. }
  assert (Nn : IEEE.is_nan
                 (IEEE_PlayerController.pos_y
                    (IEEE_Player.controller
                       (IEEE_Player.integrate (IEEE.Num a) (IEEE.Num t)
                          (IEEE_Player.of_exact e)))) = false)
    by (rewrite Em; reflexivity).
  split; [exact Em|]. split; [exact Nn|exact (A2 Nn)].
Qed.

(** The theorem at the left paddle of a match, at rest in the middle,
    with its Down key held for a one-second tick: it ends between the
    walls. *)
Lemma paddle_stays_between_walls_witness :
  let p := IEEE_Player.of_exact
             (Players.get Players.P1 Scenario.root_players) in
  let after := IEEE_Player.update (IEEE.Num 1600) (IEEE.Num 1) p in
  IEEE_Player.height p = IEEE.Num 12 /\
  IEEE.between (-50 + 12) (50 - 12)
    (IEEE_PlayerController.pos_y (IEEE_Player.controller after)).
Proof.
  intros p after. split; [reflexivity|].
  destruct (paddle_stays_between_walls p (IEEE.Num 1600) (IEEE.Num 1)
              eq_refl) as (_ & B & _).
  apply B. reflexivity.
Defined.

(** C1 as stated fails on a paddle that moves fast enough.  A paddle of
    height 12 at [pos.y = 38] with [dp = -2.5e22] and [damping = 11],
    no key down ([ddp = 0]), in a tick of [dt = 1e20]: [dp * dt]
    is too large for a [float] and becomes minus infinity, the
    acceleration term becomes plus infinity, and their sum is NaN; both
    comparisons of [add_collision] are false, and [pos.y] is left at
    NaN. *)
Lemma paddle_escapes_as_nan :
  let c := IEEE_PlayerController.mk (IEEE.Num (-70)) (IEEE.Num 38)
             (IEEE.Num (-25000000000000000000000)) (IEEE.Num 1600)
             (IEEE.Num 11) in
  let p := IEEE_Player.mk c (IEEE.Num 12) in
  let after :=
    IEEE_Player.update (IEEE.Num 0) (IEEE.Num 100000000000000000000) p in
  IEEE.mul (IEEE_PlayerController.dp c) (IEEE.Num 100000000000000000000)
    = IEEE.NInf /\
  IEEE_PlayerController.pos_y (IEEE_Player.controller after) = IEEE.NaN /\
  ~ IEEE.between (-50 + 12) (50 - 12)
      (IEEE_PlayerController.pos_y (IEEE_Player.controller after)).
Proof.
  intros c p after.
  assert (E : IEEE_PlayerController.pos_y (IEEE_Player.controller after)
              = IEEE.NaN) by (vm_compute; reflexivity).
  split; [vm_compute; reflexivity|]. split; [exact E|].
  rewrite E. intros F. exact F.
Qed.

(** ** The error the AI adds to its prediction *)

(** [rand() / RAND_MAX] lies in [[0, 1]]. *)
Lemma rand_unit_range (RAND_MAX r : Z) :
  (0 < RAND_MAX)%Z -> (0 <= r <= RAND_MAX)%Z ->
  0 <= Float.of_int r / Float.of_int RAND_MAX <= 1.
Proof.
  intros HM Hr. unfold Float.of_int.
  assert (HMq : 0 < inject_Z RAND_MAX).
  { replace 0 with (inject_Z 0) by reflexivity. rewrite <- Zlt_Qlt. exact HM. }
  split.
  - apply Qle_shift_div_l; [exact HMq|].
    rewrite Qmult_0_l. replace 0 with (inject_Z 0) by reflexivity.
    rewrite <- Zle_Qle. lia.
  - apply Qle_shift_div_r; [exact HMq|].
    rewrite Qmult_1_l. rewrite <- Zle_Qle. lia.
Qed.

Lemma predict_ball_fires (RAND_MAX : Z) (ball_vel ball_pos : Vector2.t)
    (paddle_x target_y : Q) (level : Z) :
  Player.will_predict ball_vel paddle_x = true ->
  0 < (paddle_x - Vector2.x ball_pos) / Vector2.x ball_vel ->
  Player.predict_ball RAND_MAX ball_vel ball_pos paddle_x target_y level =
  Player.perturb RAND_MAX level
    (Player.fold_y
       (Vector2.y ball_pos +
        Vector2.y ball_vel *
        ((paddle_x - Vector2.x ball_pos) / Vector2.x ball_vel)))
    target_y.
Proof.
  intros Hw Ht. unfold Player.predict_ball. rewrite Hw.
  apply ltb_true in Ht. rewrite Ht. reflexivity.
Qed.

(** C9.  When the predictor fires (the condition [will_predict] holds and
    the time to reach the paddle is positive), with [r1] and [r2] the two
    values [rand()] returns next and [folded] the folded projection:
    at Hard (level 1), if [r2 % 15] is not 0, the error
    [r1 / RAND_MAX * 12 - 16] lies in [[-16, -4]] and the new [target_y]
    is [folded] plus that error twice, hence between 32 and 8 below
    [folded]; at VeryHard (level 2), if [r2 % 5] is not 0, the error
    [r1 / RAND_MAX * 12 - 10] lies in [[-10, 2]] and the new [target_y]
    is [folded] plus that error twice. *)
Theorem prediction_error_is_doubled (RAND_MAX r1 r2 : Z) (rest : list Z)
    (ball_vel ball_pos : Vector2.t) (paddle_x target_y : Q) :
  (0 < RAND_MAX)%Z -> (0 <= r1 <= RAND_MAX)%Z ->
  Player.will_predict ball_vel paddle_x = true ->
  0 < (paddle_x - Vector2.x ball_pos) / Vector2.x ball_vel ->
  let folded :=
    Player.fold_y
      (Vector2.y ball_pos +
       Vector2.y ball_vel *
       ((paddle_x - Vector2.x ball_pos) / Vector2.x ball_vel)) in
  let target level :=
    fst (Player.predict_ball RAND_MAX ball_vel ball_pos paddle_x target_y
           level (r1 :: r2 :: rest)) in
  let unit := Float.of_int r1 / Float.of_int RAND_MAX in
  ((r2 mod 15 <> 0)%Z ->
     let inacurracy := unit * 12 - 16 in
     -16 <= inacurracy <= -4 /\
     target 1%Z = folded + inacurracy + inacurracy /\
     folded - 32 <= target 1%Z <= folded - 8 /\
     target 1%Z < folded) /\
  ((r2 mod 5 <> 0)%Z ->
     let inacurracy := unit * 12 - 10 in
     -10 <= inacurracy <= 2 /\
     target 2%Z = folded + inacurracy + inacurracy /\
     folded - 20 <= target 2%Z <= folded + 4).
Proof.
  intros HM Hr Hw Ht. cbv beta zeta.
  rewrite !(predict_ball_fires _ _ _ _ _ _ Hw Ht).
  pose proof (rand_unit_range RAND_MAX r1 HM Hr) as Hu.
  split; intros Hm.
  - unfold Player.perturb, Player.rand_unit, Rand.bind, Rand.ret, Rand.rand.
    cbn.
    apply Z.eqb_neq in Hm. rewrite Hm.
    cbn. repeat split; try reflexivity; lra.
  - unfold Player.perturb, Player.rand_unit, Rand.bind, Rand.ret, Rand.rand.
    cbn.
    apply Z.eqb_neq in Hm. rewrite Hm.
    cbn. repeat split; try reflexivity; lra.
Qed.

(** The theorem at a ball leaving the centre toward the right paddle. *)
Lemma prediction_error_is_doubled_witness :
  let RAND_MAX := 32767%Z in
  let ball_vel := Vector2.mk 95 150 in
  let ball_pos := Vector2.mk 0 0 in
  let paddle_x := 70 in
  let draws := [16000; 1; 7]%Z in
  let folded := Player.fold_y (0 + 150 * ((70 - 0) / 95)) in
  ((0 < RAND_MAX)%Z /\ (0 <= 16000 <= RAND_MAX)%Z /\
   Player.will_predict ball_vel paddle_x = true /\
   0 < (paddle_x - Vector2.x ball_pos) / Vector2.x ball_vel /\
   (1 mod 15 <> 0)%Z /\ (1 mod 5 <> 0)%Z) /\
  (folded - 32 <=
     fst (Player.predict_ball RAND_MAX ball_vel ball_pos paddle_x 0 1 draws)
     <= folded - 8) /\
  (folded - 20 <=
     fst (Player.predict_ball RAND_MAX ball_vel ball_pos paddle_x 0 2 draws)
     <= folded + 4).
Proof.
  intros RAND_MAX ball_vel ball_pos paddle_x draws folded.
  assert (H1 : (0 < RAND_MAX)%Z) by reflexivity.
  assert (H2 : (0 <= 16000 <= RAND_MAX)%Z) by (split; discriminate).
  assert (H3 : Player.will_predict ball_vel paddle_x = true) by reflexivity.
  assert (H4 : 0 < (paddle_x - Vector2.x ball_pos) / Vector2.x ball_vel)
    by reflexivity.
  assert (H5 : (1 mod 15 <> 0)%Z) by discriminate.
  assert (H6 : (1 mod 5 <> 0)%Z) by discriminate.
  split; [exact (conj H1 (conj H2 (conj H3 (conj H4 (conj H5 H6)))))|].
  destruct (prediction_error_is_doubled RAND_MAX 16000 1 [7%Z] ball_vel
              ball_pos paddle_x 0 H1 H2 H3 H4) as [Hard VeryHard].
  split.
  - exact (proj1 (proj2 (proj2 (Hard H5)))).
  - exact (proj2 (proj2 (VeryHard H6))).
Defined.

(** ** Glyph selection *)

(** Drawing the blank glyph changes nothing. *)
Lemma draw_blank_glyph (cx cy pixel_size : Q) (color : Z)
    (rs : render.RenderState) :
  font.draw_glyph font.blank cx cy pixel_size color rs = rs.
Proof. reflexivity. Qed.

(** A boolean property checked on every integer of [[lo, lo + n)] holds
    on that range. *)
Lemma check_range (P : Z -> bool) (lo n : Z) :
  forallb P (seqZ lo n) = true ->
  forall c, (lo <= c < lo + n)%Z -> P c = true.
Proof.
  intros H c Hc.
  rewrite forallb_forall in H. apply H.
  apply list_elem_of_In, elem_of_seqZ. exact Hc.
Qed.

(** Characters below the space or above [Z] are treated as the space. *)
Lemma root_glyph_index_outside (c : Z) :
  (c < 32 \/ 90 < c)%Z -> Root_render.glyph_index c = 36%Z.
Proof.
  intros H. unfold Root_render.glyph_index, font.SPACE, font.CH_Z.
  assert (E : ((c <? 32) || (c >? 90))%Z = true).
  { rewrite Z.gtb_ltb. destruct (Z.ltb_spec c 32), (Z.ltb_spec 90 c);
      cbn; try reflexivity; lia. }
  rewrite E. reflexivity.
Qed.

Lemma incl_glyph_index_outside (c : Z) :
  (c < 32 \/ 90 < c)%Z -> Incl_render.glyph_index c = 36%Z.
Proof.
  intros H. unfold Incl_render.glyph_index, font.SPACE, font.CH_Z.
  assert (E : ((c <? 32) || (c >? 90))%Z = true).
  { rewrite Z.gtb_ltb. destruct (Z.ltb_spec c 32), (Z.ltb_spec 90 c);
      cbn; try reflexivity; lia. }
  rewrite E. reflexivity.
Qed.

Lemma outside_unsupported (c : Z) :
  (c < 32 \/ 90 < c)%Z ->
  Root_render.supported c = false /\ Incl_render.supported c = false.
Proof.
  intros H.
  unfold Root_render.supported, Incl_render.supported, font.SPACE,
    font.CH_0, font.CH_9, font.CH_A, font.CH_Z, font.PERCENT, font.COLON,
    font.MINUS, font.EXCLAM.
  split.
  - destruct H as [H | H].
    + replace (48 <=? c)%Z with false by (symmetry; apply Z.leb_gt; lia).
      replace (65 <=? c)%Z with false by (symmetry; apply Z.leb_gt; lia).
      replace (c =? 32)%Z with false by (symmetry; apply Z.eqb_neq; lia).
      reflexivity.
    + replace (c <=? 57)%Z with false by (symmetry; apply Z.leb_gt; lia).
      replace (c <=? 90)%Z with false by (symmetry; apply Z.leb_gt; lia).
      replace (c =? 32)%Z with false by (symmetry; apply Z.eqb_neq; lia).
      rewrite !andb_false_r. reflexivity.
  - replace (c =? 32)%Z with false by (symmetry; apply Z.eqb_neq; lia).
    replace (c =? 37)%Z with false by (symmetry; apply Z.eqb_neq; lia).
    replace (c =? 58)%Z with false by (symmetry; apply Z.eqb_neq; lia).
    replace (c =? 45)%Z with false by (symmetry; apply Z.eqb_neq; lia).
    replace (c =? 33)%Z with false by (symmetry; apply Z.eqb_neq; lia).
    destruct H as [H | H].
    + replace (48 <=? c)%Z with false by (symmetry; apply Z.leb_gt; lia).
      replace (65 <=? c)%Z with false by (symmetry; apply Z.leb_gt; lia).
      reflexivity.
    + replace (c <=? 57)%Z with false by (symmetry; apply Z.leb_gt; lia).
      replace (c <=? 90)%Z with false by (symmetry; apply Z.leb_gt; lia).
      rewrite !andb_false_r. reflexivity.
Qed.

Lemma glyph_check_all (c : Z) : glyph_check c = true.
Proof.
  destruct (Z.lt_ge_cases c 32) as [H | H].
  - unfold glyph_check.
    rewrite root_glyph_index_outside, incl_glyph_index_outside by lia.
    destruct (outside_unsupported c (or_introl H)) as [-> ->]. reflexivity.
  - destruct (Z.lt_ge_cases 90 c) as [H' | H'].
    + unfold glyph_check.
      rewrite root_glyph_index_outside, incl_glyph_index_outside by lia.
      destruct (outside_unsupported c (or_intror H')) as [-> ->].
      reflexivity.
    + apply (check_range glyph_check 32 59); [vm_compute; reflexivity|lia].
Qed.

(** C8.  For every [char] value [c] (indeed every integer), in both
    files: the index [render_glyph_5x7] computes lies within [FONT_5x7]
    (37 rows in [src/game.hpp], 41 in [src/include/game.hpp]), so the
    call returns and never reads outside the table; and if [c] is not a
    supported character, the row selected is the blank glyph and the call
    leaves the render state, pixel buffer included, exactly as it was. *)
Theorem glyph_lookup_is_safe (c : Z) :
  (0 <= Root_render.glyph_index c <
     Z.of_nat (length Root_render.FONT_5x7))%Z /\
  (0 <= Incl_render.glyph_index c <
     Z.of_nat (length Incl_render.FONT_5x7))%Z /\
  (forall cx cy pixel_size color rs,
      exists rs1 rs2,
        Root_render.render_glyph_5x7 c cx cy pixel_size color rs = Some rs1 /\
        Incl_render.render_glyph_5x7 c cx cy pixel_size color rs = Some rs2) /\
  (Root_render.supported c = false ->
     Root_render.FONT_5x7 !! Z.to_nat (Root_render.glyph_index c) =
       Some font.blank /\
     forall cx cy pixel_size color rs,
       Root_render.render_glyph_5x7 c cx cy pixel_size color rs = Some rs) /\
  (Incl_render.supported c = false ->
     Incl_render.FONT_5x7 !! Z.to_nat (Incl_render.glyph_index c) =
       Some font.blank /\
     forall cx cy pixel_size color rs,
       Incl_render.render_glyph_5x7 c cx cy pixel_size color rs = Some rs).
Proof.
  pose proof (glyph_check_all c) as H. unfold glyph_check in H.
  repeat (apply andb_prop in H as [H ?]).
  repeat match goal with
         | X : (_ <=? _)%Z = true |- _ => apply Z.leb_le in X
         | X : (_ <? _)%Z = true |- _ => apply Z.ltb_lt in X
         end.
  assert (L1 : length Root_render.FONT_5x7 = 37%nat) by reflexivity.
  assert (L2 : length Incl_render.FONT_5x7 = 41%nat) by reflexivity.
  assert (R1 : exists g, Root_render.FONT_5x7 !!
                           Z.to_nat (Root_render.glyph_index c) = Some g).
  { apply lookup_lt_is_Some_2. rewrite L1. lia. }
  assert (R2 : exists g, Incl_render.FONT_5x7 !!
                           Z.to_nat (Incl_render.glyph_index c) = Some g).
  { apply lookup_lt_is_Some_2. rewrite L2. lia. }
  destruct R1 as [g1 R1]. destruct R2 as [g2 R2].
  split; [rewrite L1; lia|]. split; [rewrite L2; lia|].
  split.
  { intros. unfold Root_render.render_glyph_5x7,
      Incl_render.render_glyph_5x7. cbv zeta.
    destruct ((render.height rs =? 0) || (render.width rs =? 0))%Z.
    - eauto.
    - replace (Root_render.glyph_index c <? 0)%Z with false
        by (symmetry; apply Z.ltb_ge; lia).
      replace (Incl_render.glyph_index c <? 0)%Z with false
        by (symmetry; apply Z.ltb_ge; lia).
      rewrite R1, R2. eauto. }
  split.
  - intros U.
    match goal with
    | X : (Root_render.supported c || _)%bool = true |- _ =>
        rewrite U in X; cbn in X; apply Z.eqb_eq in X; rename X into I
    end.
    split; [rewrite I; reflexivity|].
    intros. unfold Root_render.render_glyph_5x7. cbv zeta. rewrite I.
    destruct ((render.height rs =? 0) || (render.width rs =? 0))%Z;
      reflexivity.
  - intros U.
    match goal with
    | X : (Incl_render.supported c || _)%bool = true |- _ =>
        rewrite U in X; cbn in X; apply Z.eqb_eq in X; rename X into I
    end.
    split; [rewrite I; reflexivity|].
    intros. unfold Incl_render.render_glyph_5x7. cbv zeta. rewrite I.
    destruct ((render.height rs =? 0) || (render.width rs =? 0))%Z;
      reflexivity.
Qed.

(** The theorem at a lower-case letter, at a [char] with its high bit
    set, and at the percent sign, which only the second file draws. *)
Lemma glyph_lookup_is_safe_witness :
  let rs := render.mkRenderState (Some [0; 0; 0; 0]%Z) 2 2 in
  (Root_render.supported 97 = false /\
   Root_render.render_glyph_5x7 97 0 0 1 0xFFFFFF rs = Some rs) /\
  (Incl_render.supported (-23) = false /\
   Incl_render.render_glyph_5x7 (-23) 0 0 1 0xFFFFFF rs = Some rs) /\
  (Root_render.supported 37 = false /\ Incl_render.supported 37 = true /\
   Root_render.render_glyph_5x7 37 0 0 1 0xFFFFFF rs = Some rs).
Proof.
  intro rs.
  split; [split; [reflexivity|]|split; [split; [reflexivity|]|]].
  - exact (proj2 (proj1 (proj2 (proj2 (proj2 (glyph_lookup_is_safe 97))))
                   eq_refl) 0 0 1 0xFFFFFF%Z rs).
  - exact (proj2 (proj2 (proj2 (proj2 (proj2 (glyph_lookup_is_safe (-23)))))
                   eq_refl) 0 0 1 0xFFFFFF%Z rs).
  - split; [reflexivity|]. split; [reflexivity|].
    exact (proj2 (proj1 (proj2 (proj2 (proj2 (glyph_lookup_is_safe 37))))
                   eq_refl) 0 0 1 0xFFFFFF%Z rs).
Defined.

(** ** The Settings screen *)

Lemma fmax_spec (a b : Q) : a <= fmax a b /\ b <= fmax a b /\
  (fmax a b = a \/ fmax a b = b).
Proof.
  unfold fmax. float_case.
  - split; [lra|]. split; [lra|]. right. reflexivity.
  - split; [lra|]. split; [lra|]. left. reflexivity.
Qed.

Lemma fmin_spec (a b : Q) : fmin a b <= a /\ fmin a b <= b /\
  (fmin a b = a \/ fmin a b = b).
Proof.
  unfold fmin. float_case.
  - split; [lra|]. split; [lra|]. right. reflexivity.
  - split; [lra|]. split; [lra|]. left. reflexivity.
Qed.

Lemma fmax_range (lo hi a b : Q) :
  lo <= a -> a <= hi -> b <= hi -> lo <= fmax a b <= hi.
Proof.
  intros. destruct (fmax_spec a b) as (A & B & [E | E]); rewrite E in *; lra.
Qed.

Lemma fmin_range (lo hi a b : Q) :
  lo <= a -> a <= hi -> lo <= b -> lo <= fmin a b <= hi.
Proof.
  intros. destruct (fmin_spec a b) as (A & B & [E | E]); rewrite E in *; lra.
Qed.

Lemma root_frame_in_range (b : input.Buttons) (s : Root_Settings.t) :
  root_in_range s -> root_in_range (Root_Settings.frame b s).
Proof.
  unfold root_in_range, Root_Settings.frame.
  intros [Hb Ha].
  assert (N : Root_Settings._ball_speed
                (Root_Settings.nav_down b (Root_Settings.nav_up b s)) =
              Root_Settings._ball_speed s /\
              Root_Settings._ai_difficulty
                (Root_Settings.nav_down b (Root_Settings.nav_up b s)) =
              Root_Settings._ai_difficulty s).
  { unfold Root_Settings.nav_down, Root_Settings.nav_up.
    destruct (_ || _); destruct (_ || _); split; reflexivity. }
  destruct N as [N1 N2].
  set (s1 := Root_Settings.nav_down b (Root_Settings.nav_up b s)) in *.
  rewrite <- N1 in Hb. rewrite <- N2 in Ha. clearbody s1.
  assert (L : 0.5 <= Root_Settings._ball_speed
                         (Root_Settings.press_left b s1) <= 3.0 /\
              (0 <= Root_Settings._ai_difficulty
                      (Root_Settings.press_left b s1) <= 4)%Z).
  { unfold Root_Settings.press_left.
    destruct (input.is_pressed b input.BUTTON_LEFT_ARROW); [|auto].
    repeat match goal with
           | |- context [(?a =? ?c)%Z] => destruct (a =? c)%Z
           end; cbn; auto.
    - split; [|exact Ha]. apply fmax_range; lra.
    - split; [exact Hb|]. lia. }
  destruct L as [Lb La].
  set (s2 := Root_Settings.press_left b s1) in *. clearbody s2.
  assert (R : 0.5 <= Root_Settings._ball_speed
                         (Root_Settings.press_right b s2) <= 3.0 /\
              (0 <= Root_Settings._ai_difficulty
                      (Root_Settings.press_right b s2) <= 4)%Z).
  { unfold Root_Settings.press_right.
    destruct (input.is_pressed b input.BUTTON_RIGHT_ARROW); [|auto].
    repeat match goal with
           | |- context [(?a =? ?c)%Z] => destruct (a =? c)%Z
           end; cbn; auto.
    - split; [|exact La]. apply fmin_range; lra.
    - split; [exact Lb|]. lia. }
  set (s3 := Root_Settings.press_right b s2) in *. clearbody s3.
  unfold Root_Settings.publish, Root_Settings.press_enter.
  destruct (input.is_pressed b input.BUTTON_ENTER); [|exact R].
  destruct (_ =? _)%Z; exact R.
Qed.

Lemma root_run_in_range (bs : list input.Buttons) (s : Root_Settings.t) :
  root_in_range s -> root_in_range (Root_Settings.run bs s).
Proof.
  revert s. induction bs as [|b bs IH]; intros s H; [exact H|].
  cbn. apply IH. apply root_frame_in_range. exact H.
Qed.

(** Rounding to the nearest integer does not cross an integer bound. *)
Lemma lroundf_le (a : Q) (n : Z) : a <= inject_Z n -> (Float.lroundf a <= n)%Z.
Proof.
  intros H. unfold Float.lroundf.
  destruct (Qle_bool 0 a).
  - destruct (Z.le_gt_cases (Qfloor (a + (1 # 2))) n) as [L | G]; [exact L|].
    exfalso.
    assert (G' : (n + 1 <= Qfloor (a + (1 # 2)))%Z) by lia.
    rewrite Zle_Qle, inject_Z_plus in G'.
    pose proof (Qfloor_le (a + (1 # 2))) as F.
    change (inject_Z 1) with 1 in G'. lra.
  - destruct (Z.le_gt_cases (Qceiling (a - (1 # 2))) n) as [L | G]; [exact L|].
    exfalso.
    assert (G' : (n <= Qceiling (a - (1 # 2)) - 1)%Z) by lia.
    rewrite Zle_Qle in G'.
    pose proof (Qceiling_lt (a - (1 # 2))) as F. lra.
Qed.

Lemma lroundf_ge (a : Q) (n : Z) : inject_Z n <= a -> (n <= Float.lroundf a)%Z.
Proof.
  intros H. unfold Float.lroundf.
  destruct (Qle_bool 0 a).
  - destruct (Z.le_gt_cases n (Qfloor (a + (1 # 2)))) as [L | G]; [exact L|].
    exfalso.
    assert (G' : (Qfloor (a + (1 # 2)) + 1 <= n)%Z) by lia.
    rewrite Zle_Qle in G'.
    pose proof (Qlt_floor (a + (1 # 2))) as F. lra.
  - destruct (Z.le_gt_cases n (Qceiling (a - (1 # 2)))) as [L | G]; [exact L|].
    exfalso.
    assert (G' : (Qceiling (a - (1 # 2)) + 1 <= n)%Z) by lia.
    rewrite Zle_Qle, inject_Z_plus in G'.
    pose proof (Qle_ceiling (a - (1 # 2))) as F.
    change (inject_Z 1) with 1 in G'. lra.
Qed.

(** [round_to v 1] stays between two bounds given in tenths. *)
Lemma round_to_range (v : Q) (lo hi : Z) :
  inject_Z lo <= v * 10 <= inject_Z hi ->
  inject_Z lo <= utils.round_to v 1 * 10 <= inject_Z hi.
Proof.
  intros [L H]. unfold utils.round_to, Float.round.
  change (inject_Z (10 ^ 1)) with 10.
  pose proof (lroundf_le (v * 10) hi H) as U.
  pose proof (lroundf_ge (v * 10) lo L) as D.
  rewrite Zle_Qle in U, D.
  assert (E : inject_Z (Float.lroundf (v * 10)) / 10 * 10 ==
              inject_Z (Float.lroundf (v * 10))) by (field; discriminate).
  rewrite E. split; assumption.
Qed.

Lemma round_to_keeps_range (v : Q) :
  0.5 <= v <= 3.0 -> 0.5 <= utils.round_to v 1 <= 3.0.
Proof.
  intros H.
  destruct (round_to_range v 5 30) as [A B].
  { change (inject_Z 5) with 5. change (inject_Z 30) with 30. lra. }
  change (inject_Z 5) with 5 in A. change (inject_Z 30) with 30 in B. lra.
Qed.

Lemma incl_nav_in_range (b : input.Buttons) (s : Incl_Settings.t) :
  incl_in_range s ->
  incl_in_range (Incl_Settings.nav_down b (Incl_Settings.nav_up b s)).
Proof.
  unfold incl_in_range, Incl_Settings.nav_down, Incl_Settings.nav_up.
  intros H. destruct (_ || _); destruct (_ || _); exact H.
Qed.

Lemma incl_left_in_range (b : input.Buttons) (s : Incl_Settings.t) :
  incl_in_range s -> incl_in_range (Incl_Settings.press_left b s).
Proof.
  unfold incl_in_range, Incl_Settings.press_left.
  intros (Hb & Ha & Cb & Ca).
  destruct (input.is_pressed b input.BUTTON_LEFT_ARROW); [|auto].
  cbv zeta.
  repeat match goal with
         | |- context [(?a =? ?c)%Z] => destruct (a =? c)%Z
         end; cbn; auto.
  - split; [|auto].
    destruct (round_to_range (Incl_Settings._ball_speed s - 0.1) 4 30)
      as [A B].
    { change (inject_Z 4) with 4. change (inject_Z 30) with 30. lra. }
    change (inject_Z 30) with 30 in B.
    apply fmax_range; lra.
  - split; [exact Hb|]. split; [lia|auto].
Qed.

Lemma incl_right_in_range (b : input.Buttons) (s : Incl_Settings.t) :
  incl_in_range s -> incl_in_range (Incl_Settings.press_right b s).
Proof.
  unfold incl_in_range, Incl_Settings.press_right.
  intros (Hb & Ha & Cb & Ca).
  destruct (input.is_pressed b input.BUTTON_RIGHT_ARROW); [|auto].
  cbv zeta.
  repeat match goal with
         | |- context [(?a =? ?c)%Z] => destruct (a =? c)%Z
         end; cbn; auto.
  - split; [|auto].
    destruct (round_to_range (Incl_Settings._ball_speed s + 0.1) 6 31)
      as [A B].
    { change (inject_Z 6) with 6. change (inject_Z 31) with 31. lra. }
    change (inject_Z 6) with 6 in A.
    apply fmin_range; lra.
  - split; [exact Hb|]. split; [lia|auto].
Qed.

Lemma incl_enter_in_range (b : input.Buttons) (s : Incl_Settings.t) :
  incl_in_range s -> incl_in_range (Incl_Settings.press_enter b s).
Proof.
  unfold incl_in_range, Incl_Settings.press_enter.
  intros (Hb & Ha & Cb & Ca).
  destruct (input.is_pressed b input.BUTTON_ENTER).
  - destruct (_ =? _)%Z; [|auto]. cbn.
    split; [exact Hb|]. split; [exact Ha|]. split; [|exact Ha].
    apply round_to_keeps_range, round_to_keeps_range. exact Hb.
  - cbn. auto.
Qed.

Lemma incl_frame_in_range (b : input.Buttons) (s : Incl_Settings.t) :
  incl_in_range s -> incl_in_range (Incl_Settings.frame b s).
Proof.
  intros H. unfold Incl_Settings.frame.
  apply incl_enter_in_range, incl_right_in_range, incl_left_in_range,
    incl_nav_in_range, H.
Qed.

Lemma incl_run_in_range (bs : list input.Buttons) (s : Incl_Settings.t) :
  incl_in_range s -> incl_in_range (Incl_Settings.run bs s).
Proof.
  revert s. induction bs as [|b bs IH]; intros s H; [exact H|].
  cbn. apply IH. apply incl_frame_in_range. exact H.
Qed.

Lemma incl_statics_frame (b : input.Buttons) (s : Incl_Settings.t) :
  incl_statics_in_range s -> incl_statics_in_range (Incl_Settings.frame b s).
Proof.
  unfold incl_statics_in_range, Incl_Settings.frame. intros [Hb Ha].
  assert (N : Incl_Settings._ball_speed
                (Incl_Settings.nav_down b (Incl_Settings.nav_up b s)) =
              Incl_Settings._ball_speed s /\
              Incl_Settings._ai_difficulty
                (Incl_Settings.nav_down b (Incl_Settings.nav_up b s)) =
              Incl_Settings._ai_difficulty s).
  { unfold Incl_Settings.nav_down, Incl_Settings.nav_up.
    destruct (_ || _); destruct (_ || _); split; reflexivity. }
  destruct N as [N1 N2].
  set (s1 := Incl_Settings.nav_down b (Incl_Settings.nav_up b s)) in *.
  rewrite <- N1 in Hb. rewrite <- N2 in Ha. clearbody s1.
  assert (L : incl_statics_in_range (Incl_Settings.press_left b s1)).
  { unfold incl_statics_in_range, Incl_Settings.press_left.
    destruct (input.is_pressed b input.BUTTON_LEFT_ARROW); [|auto].
    cbv zeta.
    repeat match goal with
           | |- context [(?a =? ?c)%Z] => destruct (a =? c)%Z
           end; cbn; auto.
    - split; [|auto].
      destruct (round_to_range (Incl_Settings._ball_speed s1 - 0.1) 4 30)
        as [A B].
      { change (inject_Z 4) with 4. change (inject_Z 30) with 30. lra. }
      change (inject_Z 30) with 30 in B.
      apply fmax_range; lra.
    - split; [exact Hb|]. lia. }
  destruct L as [Lb La].
  set (s2 := Incl_Settings.press_left b s1) in *. clearbody s2.
  assert (R : incl_statics_in_range (Incl_Settings.press_right b s2)).
  { unfold incl_statics_in_range, Incl_Settings.press_right.
    destruct (input.is_pressed b input.BUTTON_RIGHT_ARROW); [|auto].
    cbv zeta.
    repeat match goal with
           | |- context [(?a =? ?c)%Z] => destruct (a =? c)%Z
           end; cbn; auto.
    - split; [|auto].
      destruct (round_to_range (Incl_Settings._ball_speed s2 + 0.1) 6 31)
        as [A B].
      { change (inject_Z 6) with 6. change (inject_Z 31) with 31. lra. }
      change (inject_Z 6) with 6 in A.
      apply fmin_range; lra.
    - split; [exact Lb|]. lia. }
  set (s3 := Incl_Settings.press_right b s2) in *. clearbody s3.
  unfold incl_statics_in_range in *. unfold Incl_Settings.press_enter.
  destruct (input.is_pressed b input.BUTTON_ENTER).
  - destruct (_ =? _)%Z; exact R.
  - exact R.
Qed.

Lemma incl_statics_run (bs : list input.Buttons) (s : Incl_Settings.t) :
  incl_statics_in_range s -> incl_statics_in_range (Incl_Settings.run bs s).
Proof.
  revert s. induction bs as [|b bs IH]; intros s H; [exact H|].
  cbn. apply IH. apply incl_statics_frame. exact H.
Qed.

(** The main loops touch the Settings statics on the Settings screen
    only. *)
Lemma root_frame_settings (RAND_MAX : Z) (cosf sinf : Q -> Q)
    (bt : input.Buttons) (dt : Q) (w w' : Root_Window.t) :
  Root_Window.frame RAND_MAX cosf sinf bt dt w = Some w' ->
  root_in_range (Root_Window.settings w) ->
  root_in_range (Root_Window.settings w').
Proof.
  unfold Root_Window.frame.
  destruct (Root_Settings.menu_state (Root_Window.settings w)).
  - intros H I. inversion H; subst. clear H.
    unfold Root_Window.main_menu.
    repeat match goal with
           | |- context [if ?c then _ else _] => destruct c
           end; exact I.
  - intros H I. inversion H; subst. cbn. apply root_frame_in_range, I.
  - unfold Root_Window.playing. intros H I.
    destruct (Root_Window.play_or_celebrate _ _ _ _ _ _) as [w1|] eqn:P;
      [|discriminate].
    assert (E : Root_Window.settings w1 = Root_Window.settings w).
    { unfold Root_Window.play_or_celebrate in P.
      destruct (negb (Root_Window.in_celebration w)).
      - unfold Root_Window.update_players in P.
        destruct (Root_Player.step _ _ _ _ _ _ _ _) as [p1 d1].
        destruct (Root_Player.step _ _ _ _ _ _ _ _) as [p2 d2].
        cbn -[ParticleBurst.start] in P.
        destruct (Root_BallController.update dt _ _) as [[c ps]|];
          [|discriminate].
        destruct (BallController.scored c).
        + cbn -[ParticleBurst.start] in P.
          destruct (ParticleBurst.start _ _ _ _ _ _ _) as [pb d].
          inversion P. reflexivity.
        + inversion P. reflexivity.
      - cbn -[ParticleBurst.update FlashEffect.update] in P.
        destruct (_ && _); inversion P; reflexivity. }
    inversion H; subst. clear H.
    assert (E2 : Root_Window.settings
                   (if Root_Window.in_celebration w1
                    then Root_Window.update_players RAND_MAX bt dt
                           AIDifficulty.Medium w1
                    else w1) = Root_Window.settings w1).
    { destruct (Root_Window.in_celebration w1); [|reflexivity].
      unfold Root_Window.update_players.
      destruct (Root_Player.step _ _ _ _ _ _ _ _) as [p1 d1].
      destruct (Root_Player.step _ _ _ _ _ _ _ _) as [p2 d2]. reflexivity. }
    destruct (input.is_pressed bt input.BUTTON_ENTER).
    + unfold root_in_range, Root_Window.set_menu_state. cbn.
      rewrite E2, E. exact I.
    + rewrite E2, E. exact I.
  - intros H I. inversion H; subst. exact I.
Qed.

Lemma root_steps_settings (RAND_MAX : Z) (cosf sinf : Q -> Q)
    (inputs : list (input.Buttons * Q)) (w w' : Root_Window.t) :
  Root_Window.steps RAND_MAX cosf sinf inputs w = Some w' ->
  root_in_range (Root_Window.settings w) ->
  root_in_range (Root_Window.settings w').
Proof.
  revert w. induction inputs as [|[bt dt] rest IH]; intros w H I.
  - inversion H; subst. exact I.
  - cbn in H. destruct (Root_Window.running w).
    + destruct (Root_Window.frame RAND_MAX cosf sinf bt dt w) as [w1|] eqn:F;
        [|discriminate].
      apply (IH w1 H). eapply root_frame_settings; [exact F|exact I].
    + inversion H; subst. exact I.
Qed.

Lemma incl_update_players_settings (RAND_MAX : Z) (bt : input.Buttons)
    (dt : Q) (d : Z) (w : Incl_Window.t) :
  Incl_Window.settings (Incl_Window.update_players RAND_MAX bt dt d w) =
  Incl_Window.settings w.
Proof.
  unfold Incl_Window.update_players.
  destruct (Incl_Player.step _ _ _ _ _ _ _ _) as [p1 d1].
  destruct (Incl_Player.step _ _ _ _ _ _ _ _) as [p2 d2]. reflexivity.
Qed.

Lemma incl_pause_keys_settings (bt : input.Buttons) (w : Incl_Window.t) :
  incl_in_range (Incl_Window.settings w) ->
  incl_in_range (Incl_Window.settings (Incl_Window.pause_keys bt w)).
Proof.
  intros I. unfold Incl_Window.pause_keys. cbv zeta.
  repeat match goal with
         | |- context [if ?c then _ else _] => destruct c
         end; exact I.
Qed.

Lemma incl_play_settings (RAND_MAX : Z) (cosf sinf : Q -> Q)
    (bt : input.Buttons) (dt : Q) (w w' : Incl_Window.t) (skip : bool) :
  Incl_Window.play RAND_MAX cosf sinf bt dt w = Some (w', skip) ->
  incl_in_range (Incl_Window.settings w) ->
  incl_in_range (Incl_Window.settings w').
Proof.
  unfold Incl_Window.play. intros H I.
  match type of H with
  | match ?X with _ => _ end = _ => destruct X as [w1|] eqn:U
  end; [|discriminate].
  assert (E1 : Incl_Window.settings w1 = Incl_Window.settings w).
  { destruct (negb (Incl_Window.time_up_state w)).
    - destruct (Incl_BallController.update dt _ _) as [[c ps]|];
        [|discriminate].
      inversion U; subst. cbn. apply incl_update_players_settings.
    - inversion U; subst. reflexivity. }
  clear U. rewrite <- E1 in I. clear E1.
  assert (E2 : Incl_Window.settings (Incl_Window.match_clock dt w1) =
               Incl_Window.settings w1).
  { unfold Incl_Window.match_clock. cbv zeta.
    repeat match goal with
           | |- context [if ?c then _ else _] => destruct c
           end; reflexivity. }
  set (w2 := Incl_Window.match_clock dt w1) in *.
  rewrite <- E2 in I. clearbody w2. clear E2.
  cbv zeta in H.
  destruct (Incl_Window.time_up_state w2) eqn:T.
  - destruct (Incl_Window.time_up_delay _ >=? 2.5).
    + inversion H; subst. exact I.
    + cbn -[ParticleBurst.start] in H. rewrite T in H.
      cbn -[ParticleBurst.start] in H. inversion H; subst. exact I.
  - cbn -[ParticleBurst.start] in H. rewrite T in H.
    cbn -[ParticleBurst.start] in H.
    destruct (BallController.scored _).
    + destruct (ParticleBurst.start _ _ _ _ _ _ _) as [pb d].
      inversion H; subst. exact I.
    + inversion H; subst. exact I.
Qed.

Lemma incl_frame_settings (RAND_MAX : Z) (cosf sinf : Q -> Q)
    (bt : input.Buttons) (dt : Q) (w w' : Incl_Window.t) :
  Incl_Window.frame RAND_MAX cosf sinf bt dt w = Some w' ->
  incl_in_range (Incl_Window.settings w) ->
  incl_in_range (Incl_Window.settings w').
Proof.
  unfold Incl_Window.frame.
  destruct (Incl_Window.menu_state w).
  - intros H I. inversion H; subst. clear H.
    unfold Incl_Window.main_menu.
    repeat match goal with
           | |- context [if ?c then _ else _] => destruct c
           end; exact I.
  - intros H I. inversion H; subst. cbn. apply incl_frame_in_range, I.
  - unfold Incl_Window.playing. intros H I.
    match type of H with
    | match ?X with _ => _ end = _ => destruct X as [[w1 skip]|] eqn:U
    end; [|discriminate].
    assert (I1 : incl_in_range (Incl_Window.settings w1)).
    { destruct (Incl_Window.in_countdown w).
      { inversion U; subst. unfold Incl_Window.countdown. cbv zeta.
        repeat match goal with
               | |- context [if ?c then _ else _] => destruct c
               end; exact I. }
      destruct (Incl_Window.in_celebration w).
      { inversion U; subst. unfold Incl_Window.celebrate. cbv zeta.
        rewrite incl_update_players_settings.
        destruct (_ && _); exact I. }
      destruct (Incl_Window.confirm_modal w).
      { inversion U; subst. unfold Incl_Window.pause_menu.
        repeat match goal with
               | |- context [if ?c then _ else _] => destruct c
               end; exact I. }
      eapply incl_play_settings; [exact U|exact I]. }
    destruct skip; inversion H; subst; [exact I1|].
    apply incl_pause_keys_settings, I1.
  - intros H I. inversion H; subst. exact I.
Qed.

Lemma incl_steps_settings (RAND_MAX : Z) (cosf sinf : Q -> Q)
    (inputs : list (input.Buttons * Q)) (w w' : Incl_Window.t) :
  Incl_Window.steps RAND_MAX cosf sinf inputs w = Some w' ->
  incl_in_range (Incl_Window.settings w) ->
  incl_in_range (Incl_Window.settings w').
Proof.
  revert w. induction inputs as [|[bt dt] rest IH]; intros w H I.
  - inversion H; subst. exact I.
  - cbn in H. destruct (Incl_Window.running w).
    + destruct (Incl_Window.frame RAND_MAX cosf sinf bt dt w) as [w1|] eqn:F;
        [|discriminate].
      apply (IH w1 H). eapply incl_frame_settings; [exact F|exact I].
    + inversion H; subst. exact I.
Qed.

(** C7 as stated fails in [src/include/game.hpp] when the configuration
    file holds values outside the ranges, which [load_from_file] stores
    as they are: from a ball speed of 7 and a difficulty of 9 the
    statics start at 7 and 9, and one press of Left on the ball-speed
    row gives 6.9. *)
Lemma settings_leave_range_from_file :
  let cfg := Config.mk 1 1 7 30 9 false 1 1 in
  let s0 := Incl_Settings.initial cfg in
  let s1 := Incl_Settings.run [Scenario.pressed input.BUTTON_LEFT_ARROW] s0 in
  Incl_Settings._ball_speed s0 == 7 /\
  Incl_Settings._ai_difficulty s0 = 9%Z /\
  Incl_Settings._ball_speed s1 == 6.9 /\
  Incl_Settings._ai_difficulty s1 = 9%Z /\
  ~ (0.5 <= Incl_Settings._ball_speed s1 <= 3.0) /\
  ~ (0 <= Incl_Settings._ai_difficulty s1 <= 4)%Z.
Proof.
  cbv zeta.
  split; [reflexivity|]. split; [reflexivity|].
  split; [vm_compute; reflexivity|]. split; [reflexivity|].
  split.
  - intros [_ H]. vm_compute in H. apply H. reflexivity.
  - intros [_ H]. vm_compute in H. apply H. reflexivity.
Qed.

(** C7, amended.  Whatever buttons are pressed, iteration after
    iteration, on the Settings screen.  In [src/game.hpp]: from the initial values of the
    statics (ball speed 1.0, difficulty 1), and from any other values
    within the ranges, the ball-speed setting stays within [[0.5, 3.0]]
    and the difficulty within [[0, 4]]; once the screen has run, the
    values handed to the game are that setting times 95 and that
    difficulty.  In [src/include/game.hpp]: from any values within the
    ranges the two statics stay within them; the statics start from the
    configuration, so from a configuration within the ranges, as the
    default one (1.4 and 1) is, the statics and the configuration they
    are copied to stay within the ranges.  The same holds along the
    whole main loop, which assigns these values on the Settings screen
    only: in every state [src/game.hpp] can reach, and in every state
    [src/include/game.hpp] can reach from a configuration within the
    ranges.  (Nothing in [src/include/game.hpp] brings a configuration
    into the ranges: [load_from_file] stores the values of the file as
    they are.) *)
Theorem settings_stay_in_range (presses : list input.Buttons) :
  (forall uninit : Z,
   let s := Root_Settings.run presses (Root_Settings.initial uninit) in
   0.5 <= Root_Settings._ball_speed s <= 3.0 /\
   (0 <= Root_Settings._ai_difficulty s <= 4)%Z /\
   (presses <> [] ->
    Root_Settings.ball_speed s = Root_Settings._ball_speed s * 95 /\
    Root_Settings.ai_difficulty s = Root_Settings._ai_difficulty s)) /\
  (forall s0 : Root_Settings.t,
   0.5 <= Root_Settings._ball_speed s0 <= 3.0 ->
   (0 <= Root_Settings._ai_difficulty s0 <= 4)%Z ->
   let s := Root_Settings.run presses s0 in
   0.5 <= Root_Settings._ball_speed s <= 3.0 /\
   (0 <= Root_Settings._ai_difficulty s <= 4)%Z) /\
  (forall s0 : Incl_Settings.t,
   0.5 <= Incl_Settings._ball_speed s0 <= 3.0 ->
   (0 <= Incl_Settings._ai_difficulty s0 <= 4)%Z ->
   let s := Incl_Settings.run presses s0 in
   0.5 <= Incl_Settings._ball_speed s <= 3.0 /\
   (0 <= Incl_Settings._ai_difficulty s <= 4)%Z) /\
  (forall cfg : Config.t,
     0.5 <= Config.ball_speed cfg <= 3.0 ->
     (0 <= Config.ai_difficulty cfg <= 4)%Z ->
     let s := Incl_Settings.run presses (Incl_Settings.initial cfg) in
     0.5 <= Incl_Settings._ball_speed s <= 3.0 /\
     (0 <= Incl_Settings._ai_difficulty s <= 4)%Z /\
     0.5 <= Config.ball_speed (Incl_Settings.game_config s) <= 3.0 /\
     (0 <= Config.ai_difficulty (Incl_Settings.game_config s) <= 4)%Z) /\
  (0.5 <= Config.ball_speed Config.default <= 3.0 /\
   (0 <= Config.ai_difficulty Config.default <= 4)%Z) /\
  (forall RAND_MAX cosf sinf (w : Root_Window.t),
     Root_Window.reachable RAND_MAX cosf sinf w ->
     0.5 <= Root_Settings._ball_speed (Root_Window.settings w) <= 3.0 /\
     (0 <= Root_Settings._ai_difficulty (Root_Window.settings w) <= 4)%Z) /\
  (forall RAND_MAX cosf sinf (cfg : Config.t) (ds : list Z)
          (inputs : list (input.Buttons * Q)) (w : Incl_Window.t),
     0.5 <= Config.ball_speed cfg <= 3.0 ->
     (0 <= Config.ai_difficulty cfg <= 4)%Z ->
     Incl_Window.steps RAND_MAX cosf sinf inputs (Incl_Window.initial cfg ds)
       = Some w ->
     let s := Incl_Window.settings w in
     0.5 <= Incl_Settings._ball_speed s <= 3.0 /\
     (0 <= Incl_Settings._ai_difficulty s <= 4)%Z /\
     0.5 <= Config.ball_speed (Incl_Settings.game_config s) <= 3.0 /\
     (0 <= Config.ai_difficulty (Incl_Settings.game_config s) <= 4)%Z).
Proof.
  split; [|split; [|split; [|split; [|split; [|split]]]]].
  - intros uninit. cbv zeta.
    destruct (root_run_in_range presses (Root_Settings.initial uninit))
      as [A B].
    { split; [split; discriminate|split; discriminate]. }
    split; [exact A|]. split; [exact B|].
    intros Hne.
    destruct (exists_last Hne) as (l & b & ->).
    unfold Root_Settings.run. rewrite foldl_snoc.
    split; reflexivity.
  - intros s0 Hb Ha. apply root_run_in_range. split; assumption.
  - intros s0 Hb Ha. apply incl_statics_run. split; assumption.
  - intros cfg Hb Ha. cbv zeta.
    apply incl_run_in_range.
    unfold incl_in_range, Incl_Settings.initial. cbn. auto.
  - split; [split; discriminate|split; discriminate].
  - intros RAND_MAX cosf sinf w (uninit & ds & inputs & H).
    apply (root_steps_settings _ _ _ _ _ _ H).
    split; [split; discriminate|split; discriminate].
  - intros RAND_MAX cosf sinf cfg ds inputs w Hb Ha H. cbv zeta.
    apply (incl_steps_settings _ _ _ _ _ _ H).
    unfold incl_in_range, Incl_Window.initial. cbn. auto.
Qed.

(** The theorem at one press of Right followed by twelve of Left on the
    ball-speed row: the setting ends at its lower bound. *)
Lemma settings_stay_in_range_witness :
  let presses :=
    Scenario.pressed input.BUTTON_RIGHT_ARROW ::
    repeat (Scenario.pressed input.BUTTON_LEFT_ARROW) 12 in
  let s := Incl_Settings.run presses (Incl_Settings.initial Config.default) in
  (0.5 <= Config.ball_speed Config.default <= 3.0 /\
   (0 <= Config.ai_difficulty Config.default <= 4)%Z) /\
  presses <> [] /\
  0.5 <= Incl_Settings._ball_speed s <= 3.0 /\
  (0 <= Incl_Settings._ai_difficulty s <= 4)%Z /\
  Incl_Settings._ball_speed s == 0.5 /\
  Root_Settings.ball_speed
    (Root_Settings.run presses (Root_Settings.initial 0)) == 47.5.
Proof.
  intros presses s.
  destruct (settings_stay_in_range presses) as (R & _ & _ & I & D & _).
  split; [exact D|]. split; [discriminate|].
  destruct (I Config.default (proj1 D) (proj2 D)) as (A & B & _).
  split; [exact A|]. split; [exact B|].
  specialize (R 0%Z). cbv zeta in R. destruct R as (_ & _ & P).
  destruct (P ltac:(discriminate)) as [E _].
  split; [vm_compute; reflexivity|].
  rewrite E. vm_compute. reflexivity.
Defined.

(** ** The particle burst *)

Section BurstFacts.

Variable RAND_MAX : Z.
Variables cosf sinf : Q -> Q.

Lemma spawn_n_length (n : nat) (x_ y_ : Q) (b : ParticleBurst.t)
    (draws : list Z) :
  length (fst (ParticleBurst.spawn_n RAND_MAX cosf sinf n x_ y_ b draws))
  = n.
Proof using Type.
  revert draws. induction n as [|n IH]; intros draws; [reflexivity|].
  cbn. unfold Rand.bind at 1.
  destruct (ParticleBurst.spawn RAND_MAX cosf sinf x_ y_ b draws)
    as [p d1].
  unfold Rand.bind at 1. specialize (IH d1).
  destruct (ParticleBurst.spawn_n RAND_MAX cosf sinf n x_ y_ b d1)
    as [l d2].
  cbn in *. congruence.
Qed.

Lemma start_spec (x_ y_ : Q) (b : ParticleBurst.t) (draws : list Z) :
  settled b ->
  let b1 := fst (ParticleBurst.start RAND_MAX cosf sinf x_ y_ b draws) in
  settled b1 /\ ParticleBurst.active b1 = true /\
  length (ParticleBurst.particles b1) = 80%nat.
Proof using Type.
  intros (R & C & L). unfold ParticleBurst.start. rewrite R, C.
  change (negb true) with false. lazy beta iota.
  unfold Rand.bind, Rand.ret.
  pose proof (spawn_n_length (Z.to_nat 80) x_ y_ b draws) as Hl.
  destruct (ParticleBurst.spawn_n RAND_MAX cosf sinf
              (Z.to_nat 80) x_ y_ b draws) as [l d].
  unfold settled. cbn in *. repeat split; auto.
Qed.

Lemma update_settled (dt : Q) (b : ParticleBurst.t) :
  settled b -> settled (ParticleBurst.update dt b).
Proof using Type.
  unfold settled, ParticleBurst.update.
  destruct (negb (ParticleBurst.active b)); [auto|]. cbn. auto.
Qed.

Lemma update_exact_link (dt : Q) (b : ParticleBurst.t) :
  exact_link b -> exact_link (ParticleBurst.update dt b).
Proof using Type.
  unfold exact_link, ParticleBurst.update. intros H.
  destruct (ParticleBurst.active b) eqn:A; cbn [negb]; lazy beta iota zeta.
  - destruct (List.filter _ _) as [|p l]; cbn.
    + split; [discriminate|congruence].
    + split; [discriminate|reflexivity].
  - rewrite A. exact H.
Qed.

Lemma update_loose_link (dt : Q) (b : ParticleBurst.t) :
  loose_link b -> loose_link (ParticleBurst.update dt b).
Proof using Type.
  unfold loose_link, ParticleBurst.update. intros H.
  destruct (ParticleBurst.active b) eqn:A; cbn [negb]; lazy beta iota zeta.
  - destruct (List.filter _ _) as [|p l]; cbn; [discriminate|].
    intros _. discriminate.
  - rewrite A. exact H.
Qed.

Lemma run_invariant (src : Burst.Source) (ops : list Burst.Op)
    (b : ParticleBurst.t) (draws : list Z) :
  forallb (Burst.performs src) ops = true ->
  settled b -> loose_link b ->
  (src = Burst.Root -> exact_link b) ->
  let b' := fst (Burst.run RAND_MAX cosf sinf ops b draws) in
  settled b' /\ loose_link b' /\ (src = Burst.Root -> exact_link b').
Proof using Type.
  revert b draws. induction ops as [|o ops IH]; intros b draws Hp S L E.
  - cbn. auto.
  - cbn in Hp. apply andb_prop in Hp as [Ho Hp].
    cbn. unfold Rand.bind.
    destruct (Burst.step RAND_MAX cosf sinf o b draws) as [b1 d1] eqn:St.
    apply IH; [exact Hp| | |]; destruct o as [x_ y_|dt|]; cbn in St.
    + pose proof (start_spec x_ y_ b draws S) as H. cbv zeta in H.
      rewrite St in H. apply H.
    + inversion St. apply update_settled, S.
    + inversion St. exact S.
    + pose proof (start_spec x_ y_ b draws S) as (_ & A & Hl).
      rewrite St in A, Hl. cbn in A, Hl. intros _ Hn.
      rewrite Hn in Hl. discriminate.
    + inversion St. apply update_loose_link, L.
    + inversion St. intros F. discriminate.
    + pose proof (start_spec x_ y_ b draws S) as (_ & A & Hl).
      rewrite St in A, Hl. cbn in A, Hl. intros _. split; [|auto].
      intros _ Hn. rewrite Hn in Hl. discriminate.
    + inversion St. intros Hs. apply update_exact_link, E, Hs.
    + intros ->. discriminate.
Qed.

End BurstFacts.

Section BurstLife.

Variable RAND_MAX : Z.
Variables cosf sinf : Q -> Q.
Hypothesis RAND_MAX_pos : (0 < RAND_MAX)%Z.

Lemma rand_unit_spec (draws : list Z) :
  Forall (in_rand_range RAND_MAX) draws ->
  0 <= fst (Player.rand_unit RAND_MAX draws) <= 1 /\
  Forall (in_rand_range RAND_MAX) (snd (Player.rand_unit RAND_MAX draws)).
Proof using RAND_MAX_pos.
  intros H. unfold Player.rand_unit, Rand.bind, Rand.rand, Rand.ret.
  destruct draws as [|r rest]; cbn.
  - split; [|constructor].
    apply rand_unit_range; [exact RAND_MAX_pos|lia].
  - inversion H; subst. split; [|assumption].
    apply rand_unit_range; assumption.
Qed.

Lemma spawn_life (x_ y_ : Q) (b : ParticleBurst.t) (draws : list Z) :
  ParticleBurst.lifetime b = 1 ->
  Forall (in_rand_range RAND_MAX) draws ->
  0.5 <= Particle.life
           (fst (ParticleBurst.spawn RAND_MAX cosf sinf x_ y_ b draws))
      <= 1 /\
  Forall (in_rand_range RAND_MAX)
    (snd (ParticleBurst.spawn RAND_MAX cosf sinf x_ y_ b draws)).
Proof using RAND_MAX_pos.
  intros L H. unfold ParticleBurst.spawn, Rand.bind.
  destruct (rand_unit_spec draws H) as [_ H1].
  destruct (Player.rand_unit RAND_MAX draws) as [u d1]. cbn in H1.
  destruct (rand_unit_spec d1 H1) as [_ H2].
  destruct (Player.rand_unit RAND_MAX d1) as [v d2]. cbn in H2.
  destruct (rand_unit_spec d2 H2) as [W H3].
  destruct (Player.rand_unit RAND_MAX d2) as [w d3]. cbn in W, H3.
  cbn. rewrite L. split; [|exact H3]. lra.
Qed.

Lemma spawn_n_life (n : nat) (x_ y_ : Q) (b : ParticleBurst.t)
    (draws : list Z) :
  ParticleBurst.lifetime b = 1 ->
  Forall (in_rand_range RAND_MAX) draws ->
  Forall (fun p => 0.5 <= Particle.life p <= 1)
    (fst (ParticleBurst.spawn_n RAND_MAX cosf sinf n x_ y_ b draws)).
Proof using RAND_MAX_pos.
  intros L. revert draws.
  induction n as [|n IH]; intros draws H; [constructor|].
  cbn. unfold Rand.bind at 1.
  destruct (spawn_life x_ y_ b draws L H) as [Hp Hd].
  destruct (ParticleBurst.spawn RAND_MAX cosf sinf x_ y_ b draws)
    as [p d1].
  unfold Rand.bind at 1. specialize (IH d1 Hd).
  destruct (ParticleBurst.spawn_n RAND_MAX cosf sinf n x_ y_ b d1)
    as [l d2].
  cbn in *. constructor; assumption.
Qed.

End BurstLife.

(** A burst that is not active ignores [update]. *)
Lemma updates_inactive (dts : list Q) (b : ParticleBurst.t) :
  ParticleBurst.active b = false -> Burst.updates dts b = b.
Proof.
  revert b. induction dts as [|dt dts IH]; intros b A; [reflexivity|].
  cbn. unfold ParticleBurst.update at 2. rewrite A. cbn. apply IH, A.
Qed.

Lemma updates_exact_link (dts : list Q) (b : ParticleBurst.t) :
  exact_link b -> exact_link (Burst.updates dts b).
Proof.
  revert b. induction dts as [|dt dts IH]; intros b H; [exact H|].
  change (Burst.updates (dt :: dts) b)
    with (Burst.updates dts (ParticleBurst.update dt b)).
  apply IH, update_exact_link, H.
Qed.

(** One update by at least the life of every particle finishes the
    burst. *)
Lemma update_finishes (dt : Q) (b : ParticleBurst.t) :
  Forall (fun p => Particle.life p <= dt) (ParticleBurst.particles b) ->
  ParticleBurst.finished (ParticleBurst.update dt b) = true.
Proof.
  intros H. unfold ParticleBurst.finished, ParticleBurst.update.
  destruct (ParticleBurst.active b) eqn:A; cbn [negb];
    [|rewrite A; reflexivity].
  lazy beta iota zeta.
  assert (E : List.filter (fun p => negb (ParticleBurst.dead p))
                (List.map (ParticleBurst.advance dt)
                          (ParticleBurst.particles b)) = []).
  { induction H as [|p l Hp _ IH]; [reflexivity|].
    cbn [List.map List.filter].
    assert (D : ParticleBurst.dead (ParticleBurst.advance dt p) = true).
    { unfold ParticleBurst.dead. apply leb_true. cbn. lra. }
    rewrite D. exact IH. }
  rewrite E. reflexivity.
Qed.

(** ** The burst inside the main loops *)

Section WindowBurst.

Variable RAND_MAX : Z.
Variables cosf sinf : Q -> Q.

Lemma burst_stays (src : Burst.Source) (b : ParticleBurst.t) :
  burst_moved RAND_MAX cosf sinf src b b.
Proof using Type. exists [], []. split; reflexivity. Qed.

Lemma root_update_players_burst (bt : input.Buttons) (dt : Q) (d : Z)
    (w : Root_Window.t) :
  Root_Window.particle_burst (Root_Window.update_players RAND_MAX bt dt d w)
  = Root_Window.particle_burst w /\
  Root_Window.in_celebration (Root_Window.update_players RAND_MAX bt dt d w)
  = Root_Window.in_celebration w.
Proof using Type.
  unfold Root_Window.update_players.
  destruct (Root_Player.step _ _ _ _ _ _ _ _) as [p1 d1].
  destruct (Root_Player.step _ _ _ _ _ _ _ _) as [p2 d2].
  split; reflexivity.
Qed.

Lemma root_main_menu_burst (bt : input.Buttons) (w : Root_Window.t) :
  Root_Window.particle_burst (Root_Window.main_menu bt w) =
  Root_Window.particle_burst w.
Proof using Type.
  unfold Root_Window.main_menu.
  repeat match goal with
         | |- context [if ?c then _ else _] => destruct c
         end; reflexivity.
Qed.

Lemma root_play_or_celebrate_burst (bt : input.Buttons) (dt : Q)
    (w w' : Root_Window.t) :
  Root_Window.play_or_celebrate RAND_MAX cosf sinf bt dt w = Some w' ->
  burst_moved RAND_MAX cosf sinf Burst.Root (Root_Window.particle_burst w)
    (Root_Window.particle_burst w').
Proof using Type.
  unfold Root_Window.play_or_celebrate.
  destruct (negb (Root_Window.in_celebration w)).
  - set (w1 := Root_Window.update_players RAND_MAX bt dt _ w).
    assert (E : Root_Window.particle_burst w1 = Root_Window.particle_burst w)
      by apply root_update_players_burst.
    clearbody w1.
    destruct (Root_BallController.update dt _ _) as [[c ps]|]; [|discriminate].
    destruct (BallController.scored c).
    + cbn -[ParticleBurst.start]. rewrite E.
      destruct (ParticleBurst.start RAND_MAX cosf sinf _ _ _ _)
        as [pb d] eqn:St.
      intros H. inversion H; subst. cbn.
      exists [Burst.Start (Vector2.x (BallController.pos c))
                          (Vector2.y (BallController.pos c))],
             (Root_Window.draws w1).
      split; [reflexivity|].
      cbn. unfold Rand.bind, Rand.ret. rewrite St. reflexivity.
    + intros H. inversion H; subst. cbn. rewrite E. apply burst_stays.
  - cbn -[ParticleBurst.update FlashEffect.update].
    destruct (_ && _); intros H; inversion H; subst; cbn;
      (exists [Burst.Update dt], []; split; reflexivity).
Qed.

Lemma root_frame_burst (bt : input.Buttons) (dt : Q)
    (w w' : Root_Window.t) :
  Root_Window.frame RAND_MAX cosf sinf bt dt w = Some w' ->
  burst_moved RAND_MAX cosf sinf Burst.Root (Root_Window.particle_burst w)
    (Root_Window.particle_burst w').
Proof using Type.
  unfold Root_Window.frame.
  destruct (Root_Settings.menu_state (Root_Window.settings w)).
  - intros H. inversion H; subst. rewrite root_main_menu_burst.
    apply burst_stays.
  - intros H. inversion H; subst. apply burst_stays.
  - unfold Root_Window.playing.
    destruct (Root_Window.play_or_celebrate _ _ _ _ _ _) as [w1|] eqn:P;
      [|discriminate].
    apply root_play_or_celebrate_burst in P.
    intros H. inversion H; subst.
    assert (E : Root_Window.particle_burst
                  (if Root_Window.in_celebration w1
                   then Root_Window.update_players RAND_MAX bt dt
                          AIDifficulty.Medium w1
                   else w1) = Root_Window.particle_burst w1).
    { destruct (Root_Window.in_celebration w1); [|reflexivity].
      apply root_update_players_burst. }
    destruct (input.is_pressed bt input.BUTTON_ENTER); cbn; rewrite E;
      exact P.
  - intros H. inversion H; subst. apply burst_stays.
Qed.

Lemma run_app (ops1 ops2 : list Burst.Op) (b : ParticleBurst.t)
    (ds : list Z) :
  Burst.run RAND_MAX cosf sinf (ops1 ++ ops2) b ds =
  let (b1, d1) := Burst.run RAND_MAX cosf sinf ops1 b ds in
  Burst.run RAND_MAX cosf sinf ops2 b1 d1.
Proof using Type.
  revert b ds. induction ops1 as [|o ops1 IH]; intros b ds; [reflexivity|].
  cbn. unfold Rand.bind.
  destruct (Burst.step RAND_MAX cosf sinf o b ds) as [b1 d1]. apply IH.
Qed.

Lemma burst_moved_deactivate (b b' : ParticleBurst.t) :
  burst_moved RAND_MAX cosf sinf Burst.Incl b b' ->
  burst_moved RAND_MAX cosf sinf Burst.Incl b (Burst.deactivate b').
Proof using Type.
  intros (ops & ds & Hp & ->).
  exists (ops ++ [Burst.Deactivate]), ds. split.
  - rewrite forallb_app, Hp. reflexivity.
  - rewrite run_app.
    destruct (Burst.run RAND_MAX cosf sinf ops b ds) as [b1 d1]. reflexivity.
Qed.

Lemma incl_update_players_burst (bt : input.Buttons) (dt : Q) (d : Z)
    (w : Incl_Window.t) :
  Incl_Window.particle_burst (Incl_Window.update_players RAND_MAX bt dt d w)
  = Incl_Window.particle_burst w.
Proof using Type.
  unfold Incl_Window.update_players.
  destruct (Incl_Player.step _ _ _ _ _ _ _ _) as [p1 d1].
  destruct (Incl_Player.step _ _ _ _ _ _ _ _) as [p2 d2].
  reflexivity.
Qed.

Lemma incl_main_menu_burst (bt : input.Buttons) (w : Incl_Window.t) :
  Incl_Window.particle_burst (Incl_Window.main_menu bt w) =
  Incl_Window.particle_burst w.
Proof using Type.
  unfold Incl_Window.main_menu.
  repeat match goal with
         | |- context [if ?c then _ else _] => destruct c
         end; reflexivity.
Qed.

Lemma incl_countdown_burst (dt : Q) (w : Incl_Window.t) :
  Incl_Window.particle_burst (Incl_Window.countdown dt w) =
  Incl_Window.particle_burst w.
Proof using Type.
  unfold Incl_Window.countdown. cbv zeta.
  repeat match goal with
         | |- context [if ?c then _ else _] => destruct c
         end; reflexivity.
Qed.

Lemma incl_pause_menu_burst (bt : input.Buttons) (w : Incl_Window.t) :
  Incl_Window.particle_burst (Incl_Window.pause_menu bt w) =
  Incl_Window.particle_burst w.
Proof using Type.
  unfold Incl_Window.pause_menu.
  repeat match goal with
         | |- context [if ?c then _ else _] => destruct c
         end; reflexivity.
Qed.

Lemma incl_match_clock_burst (dt : Q) (w : Incl_Window.t) :
  Incl_Window.particle_burst (Incl_Window.match_clock dt w) =
  Incl_Window.particle_burst w.
Proof using Type.
  unfold Incl_Window.match_clock. cbv zeta.
  repeat match goal with
         | |- context [if ?c then _ else _] => destruct c
         end; reflexivity.
Qed.

Lemma incl_pause_keys_burst (bt : input.Buttons) (w : Incl_Window.t) :
  Incl_Window.particle_burst (Incl_Window.pause_keys bt w) =
    Incl_Window.particle_burst w \/
  Incl_Window.particle_burst (Incl_Window.pause_keys bt w) =
    Burst.deactivate (Incl_Window.particle_burst w).
Proof using Type.
  unfold Incl_Window.pause_keys. cbv zeta.
  repeat match goal with
         | |- context [if ?c then _ else _] => destruct c
         end; (left; reflexivity) || (right; reflexivity).
Qed.

Lemma incl_celebrate_burst (bt : input.Buttons) (dt : Q)
    (w : Incl_Window.t) :
  Incl_Window.particle_burst (Incl_Window.celebrate RAND_MAX bt dt w) =
  ParticleBurst.update dt (Incl_Window.particle_burst w).
Proof using Type.
  unfold Incl_Window.celebrate. cbv zeta.
  rewrite incl_update_players_burst.
  destruct (_ && _); reflexivity.
Qed.

Lemma incl_play_burst (bt : input.Buttons) (dt : Q)
    (w w' : Incl_Window.t) (skip : bool) :
  Incl_Window.play RAND_MAX cosf sinf bt dt w = Some (w', skip) ->
  burst_moved RAND_MAX cosf sinf Burst.Incl (Incl_Window.particle_burst w)
    (Incl_Window.particle_burst w').
Proof using Type.
  unfold Incl_Window.play.
  match goal with
  | |- match ?X with _ => _ end = _ -> _ => destruct X as [w1|] eqn:U
  end; [|discriminate].
  assert (E1 : Incl_Window.particle_burst w1 = Incl_Window.particle_burst w).
  { destruct (negb (Incl_Window.time_up_state w)).
    - destruct (Incl_BallController.update dt _ _) as [[c ps]|];
        [|discriminate].
      inversion U; subst. cbn. apply incl_update_players_burst.
    - inversion U; subst. reflexivity. }
  clear U. rewrite <- E1.
  set (w2 := Incl_Window.match_clock dt w1).
  assert (E2 : Incl_Window.particle_burst w2 = Incl_Window.particle_burst w1)
    by apply incl_match_clock_burst.
  clearbody w2. rewrite <- E2. clear E1 E2.
  destruct (Incl_Window.time_up_state w2) eqn:T.
  - cbv zeta.
    destruct (Incl_Window.time_up_delay _ >=? 2.5).
    + intros H. inversion H; subst. apply burst_stays.
    + cbn -[ParticleBurst.start]. rewrite T. cbn -[ParticleBurst.start].
      intros H. inversion H; subst. apply burst_stays.
  - cbv zeta. cbn -[ParticleBurst.start]. rewrite T.
    cbn -[ParticleBurst.start].
    destruct (BallController.scored _).
    + destruct (ParticleBurst.start RAND_MAX cosf sinf _ _ _ _)
        as [pb d] eqn:St.
      intros H. inversion H; subst. cbn.
      eexists [Burst.Start _ _], _.
      split; [reflexivity|].
      cbn. unfold Rand.bind, Rand.ret. cbn in St. rewrite St. reflexivity.
    + intros H. inversion H; subst. apply burst_stays.
Qed.

Lemma incl_frame_burst (bt : input.Buttons) (dt : Q)
    (w w' : Incl_Window.t) :
  Incl_Window.frame RAND_MAX cosf sinf bt dt w = Some w' ->
  burst_moved RAND_MAX cosf sinf Burst.Incl (Incl_Window.particle_burst w)
    (Incl_Window.particle_burst w').
Proof using Type.
  unfold Incl_Window.frame.
  destruct (Incl_Window.menu_state w).
  - intros H. inversion H; subst. rewrite incl_main_menu_burst.
    apply burst_stays.
  - intros H. inversion H; subst. apply burst_stays.
  - unfold Incl_Window.playing.
    match goal with
    | |- match ?X with _ => _ end = _ -> _ =>
        destruct X as [[w1 skip]|] eqn:U
    end; [|discriminate].
    assert (M : burst_moved RAND_MAX cosf sinf Burst.Incl
                  (Incl_Window.particle_burst w)
                  (Incl_Window.particle_burst w1)).
    { destruct (Incl_Window.in_countdown w).
      { inversion U; subst. rewrite incl_countdown_burst.
        apply burst_stays. }
      destruct (Incl_Window.in_celebration w).
      { inversion U; subst. rewrite incl_celebrate_burst.
        exists [Burst.Update dt], []. split; reflexivity. }
      destruct (Incl_Window.confirm_modal w).
      { inversion U; subst. rewrite incl_pause_menu_burst.
        apply burst_stays. }
      eapply incl_play_burst. exact U. }
    destruct skip; intros H; inversion H; subst; [exact M|].
    destruct (incl_pause_keys_burst bt w1) as [-> | ->]; [exact M|].
    apply burst_moved_deactivate, M.
  - intros H. inversion H; subst. apply burst_stays.
Qed.

End WindowBurst.

Section WindowInvariant.

Variable RAND_MAX : Z.
Variables cosf sinf : Q -> Q.

Lemma burst_moved_inv (src : Burst.Source) (b b' : ParticleBurst.t) :
  burst_moved RAND_MAX cosf sinf src b b' ->
  burst_inv src b -> burst_inv src b'.
Proof using Type.
  intros (ops & ds & Hp & ->) (S & L & E).
  apply run_invariant; assumption.
Qed.

Lemma initial_burst_inv (src : Burst.Source) :
  burst_inv src ParticleBurst.initial.
Proof using Type.
  split; [repeat split|]. split.
  - intros F. discriminate.
  - intros _. split; [discriminate|]. intros F. exfalso. apply F.
    reflexivity.
Qed.

Lemma root_steps_inv (inputs : list (input.Buttons * Q))
    (w w' : Root_Window.t) :
  Root_Window.steps RAND_MAX cosf sinf inputs w = Some w' ->
  burst_inv Burst.Root (Root_Window.particle_burst w) ->
  burst_inv Burst.Root (Root_Window.particle_burst w').
Proof using Type.
  revert w. induction inputs as [|[bt dt] rest IH]; intros w H I.
  - inversion H; subst. exact I.
  - cbn in H. destruct (Root_Window.running w).
    + destruct (Root_Window.frame RAND_MAX cosf sinf bt dt w) as [w1|] eqn:F;
        [|discriminate].
      apply (IH w1 H).
      eapply burst_moved_inv; [|exact I].
      eapply root_frame_burst, F.
    + inversion H; subst. exact I.
Qed.

Lemma incl_steps_inv (inputs : list (input.Buttons * Q))
    (w w' : Incl_Window.t) :
  Incl_Window.steps RAND_MAX cosf sinf inputs w = Some w' ->
  burst_inv Burst.Incl (Incl_Window.particle_burst w) ->
  burst_inv Burst.Incl (Incl_Window.particle_burst w').
Proof using Type.
  revert w. induction inputs as [|[bt dt] rest IH]; intros w H I.
  - inversion H; subst. exact I.
  - cbn in H. destruct (Incl_Window.running w).
    + destruct (Incl_Window.frame RAND_MAX cosf sinf bt dt w) as [w1|] eqn:F;
        [|discriminate].
      apply (IH w1 H).
      eapply burst_moved_inv; [|exact I].
      eapply incl_frame_burst, F.
    + inversion H; subst. exact I.
Qed.

Lemma root_reachable_inv (w : Root_Window.t) :
  Root_Window.reachable RAND_MAX cosf sinf w ->
  burst_inv Burst.Root (Root_Window.particle_burst w).
Proof using Type.
  intros (uninit & ds & inputs & H).
  eapply root_steps_inv; [exact H|]. apply initial_burst_inv.
Qed.

Lemma incl_reachable_inv (w : Incl_Window.t) :
  Incl_Window.reachable RAND_MAX cosf sinf w ->
  burst_inv Burst.Incl (Incl_Window.particle_burst w).
Proof using Type.
  intros (cfg & ds & inputs & H).
  eapply incl_steps_inv; [exact H|]. apply initial_burst_inv.
Qed.

End WindowInvariant.

(** C6 as stated fails in [src/include/game.hpp].  In the session
    [Scenario.pause_during_celebration], run from the window as [init]
    leaves it with the default configuration, a goal starts the burst
    and the Restart entry of the pause menu, chosen while the
    celebration runs, clears [active] and keeps the particles: the
    program is then in a state where [finished()] is true and 80
    particles remain. *)
Lemma finished_with_particles_left :
  exists w,
    Incl_Window.steps Scenario.RAND_MAX Scenario.cos_poly Scenario.sin_poly
      Scenario.pause_during_celebration (Incl_Window.initial Config.default [])
    = Some w /\
    Incl_Window.reachable Scenario.RAND_MAX Scenario.cos_poly
      Scenario.sin_poly w /\
    ParticleBurst.finished (Incl_Window.particle_burst w) = true /\
    length (ParticleBurst.particles (Incl_Window.particle_burst w)) = 80%nat /\
    ~ (ParticleBurst.finished (Incl_Window.particle_burst w) = true <->
       ParticleBurst.particles (Incl_Window.particle_burst w) = []).
Proof.
  destruct (Incl_Window.steps Scenario.RAND_MAX Scenario.cos_poly
              Scenario.sin_poly Scenario.pause_during_celebration
              (Incl_Window.initial Config.default [])) as [w|] eqn:E;
    [|vm_compute in E; discriminate].
  exists w. split; [reflexivity|].
  split; [exists Config.default, [], Scenario.pause_during_celebration;
          exact E|].
  assert (F : ParticleBurst.finished (Incl_Window.particle_burst w) = true).
  { vm_compute in E. inversion E. reflexivity. }
  assert (L : length (ParticleBurst.particles (Incl_Window.particle_burst w))
              = 80%nat).
  { vm_compute in E. inversion E. reflexivity. }
  split; [exact F|]. split; [exact L|].
  intros [H _]. rewrite (H F) in L. discriminate.
Qed.

(** C6, amended.  [finished()] returns the negation of [active].  In
    every state the program of [src/game.hpp] can reach, whose main loop
    only calls [start] and [update] on the burst, [finished()] is true
    exactly when no particle remains.  In every state the program of
    [src/include/game.hpp] can reach, whose pause menu also clears
    [active] directly, no particle remaining implies [finished()], but
    not the converse.  In both, the burst keeps [count = 80] and
    [lifetime = 1.0]; right after [start] it holds 80 particles and is
    not finished; from then on, under any updates, it is finished
    exactly when no particle is left; and one update by a [dt] that is
    at least the life of every particle finishes it.  When [rand()]
    returns values in [[0, RAND_MAX]] every particle's life lies in
    [[0.5, 1]], so that one update by 1 or more finishes the burst.
    (Over several updates each life is reduced tick by tick, and a
    particle goes in the update that brings its life to 0 or below.) *)
Theorem burst_finished_spec (RAND_MAX : Z) (cosf sinf : Q -> Q) :
  (forall b, ParticleBurst.finished b = negb (ParticleBurst.active b)) /\
  (forall w, Root_Window.reachable RAND_MAX cosf sinf w ->
     let b := Root_Window.particle_burst w in
     (ParticleBurst.finished b = true <-> ParticleBurst.particles b = [])) /\
  (forall w, Incl_Window.reachable RAND_MAX cosf sinf w ->
     let b := Incl_Window.particle_burst w in
     ParticleBurst.particles b = [] -> ParticleBurst.finished b = true) /\
  (forall b x_ y_ draws,
     (exists w, Root_Window.reachable RAND_MAX cosf sinf w /\
                b = Root_Window.particle_burst w) \/
     (exists w, Incl_Window.reachable RAND_MAX cosf sinf w /\
                b = Incl_Window.particle_burst w) ->
     let b1 := fst (ParticleBurst.start RAND_MAX cosf sinf x_ y_ b draws) in
     ParticleBurst.count b = 80%Z /\ ParticleBurst.lifetime b = 1 /\
     length (ParticleBurst.particles b1) = 80%nat /\
     ParticleBurst.finished b1 = false /\
     (forall dts,
        ParticleBurst.finished (Burst.updates dts b1) = true <->
        ParticleBurst.particles (Burst.updates dts b1) = []) /\
     (forall dt,
        Forall (fun p => Particle.life p <= dt)
               (ParticleBurst.particles b1) ->
        ParticleBurst.finished (ParticleBurst.update dt b1) = true) /\
     ((0 < RAND_MAX)%Z ->
      Forall (fun r => (0 <= r <= RAND_MAX)%Z) draws ->
      Forall (fun p => 0.5 <= Particle.life p <= 1)
             (ParticleBurst.particles b1) /\
      forall dt, 1 <= dt ->
        ParticleBurst.finished (ParticleBurst.update dt b1) = true)).
Proof.
  split; [reflexivity|]. split; [|split].
  - intros w Hr. cbv zeta.
    destruct (root_reachable_inv _ _ _ _ Hr) as (_ & _ & E).
    specialize (E eq_refl). unfold exact_link in E.
    unfold ParticleBurst.finished.
    destruct (ParticleBurst.active (Root_Window.particle_burst w)); cbn.
    + split; [discriminate|]. intros Hn. exfalso.
      apply (proj1 E eq_refl Hn).
    + split; [|reflexivity]. intros _.
      destruct (ParticleBurst.particles (Root_Window.particle_burst w))
        as [|p l]; [reflexivity|].
      exfalso. assert (F : false = true) by (apply E; discriminate).
      discriminate.
  - intros w Hr. cbv zeta. intros Hn.
    destruct (incl_reachable_inv _ _ _ _ Hr) as (_ & L & _).
    unfold loose_link in L. unfold ParticleBurst.finished.
    destruct (ParticleBurst.active (Incl_Window.particle_burst w));
      [|reflexivity].
    exfalso. apply (L eq_refl Hn).
  - intros b x_ y_ draws Hr. cbv zeta.
    assert (S : settled b).
    { destruct Hr as [(w & Hr & ->) | (w & Hr & ->)].
      - apply (root_reachable_inv _ _ _ _ Hr).
      - apply (incl_reachable_inv _ _ _ _ Hr). }
    destruct (start_spec RAND_MAX cosf sinf x_ y_ b draws S)
      as (S1 & A1 & Hl).
    destruct S as (R & C & L).
    split; [exact C|]. split; [exact L|]. split; [exact Hl|].
    split; [unfold ParticleBurst.finished; rewrite A1; reflexivity|].
    split.
    { intros dts.
      assert (X : exact_link
                    (fst (ParticleBurst.start RAND_MAX cosf sinf x_ y_ b
                            draws))).
      { unfold exact_link. rewrite A1. split; [|reflexivity].
        intros _ Hn. rewrite Hn in Hl. discriminate. }
      apply (updates_exact_link dts) in X. unfold exact_link in X.
      unfold ParticleBurst.finished.
      destruct (ParticleBurst.active (Burst.updates dts _)); cbn.
      - split; [discriminate|]. intros Hn. exfalso.
        apply (proj1 X eq_refl Hn).
      - split; [|reflexivity]. intros _.
        destruct (ParticleBurst.particles (Burst.updates dts _))
          as [|p l]; [reflexivity|].
        exfalso. assert (F : false = true) by (apply X; discriminate).
        discriminate. }
    split; [intros dt; apply update_finishes|].
    intros HM Hd.
    assert (Hlife : Forall (fun p => 0.5 <= Particle.life p <= 1)
              (ParticleBurst.particles
                 (fst (ParticleBurst.start RAND_MAX cosf sinf x_ y_ b
                         draws)))).
    { unfold ParticleBurst.start. rewrite R, C.
      change (negb true) with false. lazy beta iota.
      unfold Rand.bind, Rand.ret.
      pose proof (spawn_n_life RAND_MAX cosf sinf HM (Z.to_nat 80) x_ y_ b
                    draws L Hd) as Hs.
      destruct (ParticleBurst.spawn_n RAND_MAX cosf sinf (Z.to_nat 80)
                  x_ y_ b draws) as [l d].
      exact Hs. }
    split; [exact Hlife|].
    intros dt Hdt. apply update_finishes.
    eapply Forall_impl; [exact Hlife|]. cbn. intros p Hp. lra.
Qed.

(** The theorem at a burst started from the window as constructed, when
    [rand()] returns 0 throughout: every life is 0.5, and one update of
    0.5 finishes the burst. *)
Lemma burst_finished_spec_witness :
  let w := Root_Window.initial 0 [] in
  let b1 :=
    fst (ParticleBurst.start Scenario.RAND_MAX Scenario.cos_poly
           Scenario.sin_poly 81.2 0 (Root_Window.particle_burst w) []) in
  (Root_Window.reachable Scenario.RAND_MAX Scenario.cos_poly
     Scenario.sin_poly w /\
   (0 < Scenario.RAND_MAX)%Z /\
   Forall (fun r => (0 <= r <= Scenario.RAND_MAX)%Z) [] /\
   Forall (fun p => Particle.life p <= 0.5) (ParticleBurst.particles b1)) /\
  (ParticleBurst.finished (Root_Window.particle_burst w) = true <->
   ParticleBurst.particles (Root_Window.particle_burst w) = []) /\
  ParticleBurst.finished b1 = false /\
  ParticleBurst.finished (ParticleBurst.update 0.5 b1) = true.
Proof.
  intros w b1.
  assert (Hr : Root_Window.reachable Scenario.RAND_MAX Scenario.cos_poly
                 Scenario.sin_poly w).
  { exists 0%Z, [], []. reflexivity. }
  assert (HM : (0 < Scenario.RAND_MAX)%Z) by reflexivity.
  assert (Hd : Forall (fun r => (0 <= r <= Scenario.RAND_MAX)%Z) [])
    by constructor.
  destruct (burst_finished_spec Scenario.RAND_MAX Scenario.cos_poly
              Scenario.sin_poly) as (_ & HR & _ & H).
  destruct (H (Root_Window.particle_burst w) 81.2 0 []
              (or_introl (ex_intro _ w (conj Hr eq_refl))))
    as (_ & _ & _ & Hnf & _ & Hfin & _).
  assert (Hlt : Forall (fun p => Particle.life p <= 0.5)
                  (ParticleBurst.particles b1)).
  { apply List.Forall_forall. intros p Hin.
    unfold b1 in Hin. vm_compute in Hin.
    repeat (destruct Hin as [<- | Hin]; [vm_compute; discriminate|]).
    destruct Hin. }
  split; [exact (conj Hr (conj HM (conj Hd Hlt)))|].
  split; [exact (HR w Hr)|].
  split; [exact Hnf|].
  apply Hfin. exact Hlt.
Defined.

(** * Further properties of the sources *)

(** ** Rectangles and the pixel buffer *)





Lemma foldl_map {A B C : Type} (f : A -> B -> A) (g : C -> B) (l : list C)
    (a : A) :
  foldl f a (List.map g l) = foldl (fun acc x => f acc (g x)) a l.
Proof. revert a. induction l as [|x l IH]; intros a; cbn; [reflexivity|apply IH]. Qed.

Lemma paint_app (color : Z) (l1 l2 : list Z) (px : list Z) :
  Pixels.paint color (l1 ++ l2) px =
  Pixels.paint color l2 (Pixels.paint color l1 px).
Proof. unfold Pixels.paint. apply foldl_app. Qed.

Lemma fill_row_paint (x0 x1 yy w color : Z) (px : list Z) :
  render.fill_row x0 x1 yy w color px =
  Pixels.paint color (Pixels.row_indices x0 x1 yy w) px.
Proof.
  unfold render.fill_row, Pixels.paint, Pixels.row_indices.
  rewrite foldl_map. reflexivity.
Qed.

Lemma rows_paint (x0 x1 w color : Z) (ys : list Z) (px : list Z) :
  foldl (fun acc yy => render.fill_row x0 x1 yy w color acc) px ys =
  Pixels.paint color
    (concat (List.map (fun yy => Pixels.row_indices x0 x1 yy w) ys)) px.
Proof.
  revert px. induction ys as [|yy ys IH]; intros px; [reflexivity|].
  cbn [foldl List.map concat]. rewrite IH, paint_app, fill_row_paint.
  reflexivity.
Qed.

Lemma paint_length (color : Z) (l : list Z) (px : list Z) :
  length (Pixels.paint color l px) = length px.
Proof.
  revert px. induction l as [|i l IH]; intros px; [reflexivity|].
  cbn. unfold Pixels.paint in IH. rewrite IH. apply length_insert.
Qed.

Lemma paint_lookup (color : Z) (l : list Z) (px : list Z) (n : nat) :
  Pixels.paint color l px !! n = px !! n \/
  Pixels.paint color l px !! n = Some color.
Proof.
  revert px. induction l as [|i l IH]; intros px; [left; reflexivity|].
  cbn. destruct (IH (<[Z.to_nat i := color]> px)) as [E | E];
    unfold Pixels.paint in *; [|right; exact E].
  rewrite E. destruct (decide (Z.to_nat i = n)) as [<- | N].
  - destruct (decide (Z.to_nat i < length px)%nat) as [L | L].
    + right. apply list_lookup_insert_eq. exact L.
    + left. rewrite list_insert_ge by lia. reflexivity.
  - left. apply list_lookup_insert_ne. exact N.
Qed.

Lemma paint_lookup_out (color : Z) (l : list Z) (px : list Z) (n : nat) :
  (forall i, In i l -> Z.to_nat i <> n) ->
  Pixels.paint color l px !! n = px !! n.
Proof.
  revert px. induction l as [|i l IH]; intros px H; [reflexivity|].
  cbn. unfold Pixels.paint in IH. rewrite IH.
  - apply list_lookup_insert_ne, H. left. reflexivity.
  - intros j Hj. apply H. right. exact Hj.
Qed.

Lemma paint_lookup_in (color : Z) (l : list Z) (px : list Z) (i : Z) :
  In i l -> (Z.to_nat i < length px)%nat ->
  Pixels.paint color l px !! Z.to_nat i = Some color.
Proof.
  revert px. induction l as [|j l IH]; intros px H L; [destruct H|].
  cbn. destruct (paint_lookup color l (<[Z.to_nat j := color]> px)
                   (Z.to_nat i)) as [E | E];
    unfold Pixels.paint in *; [|exact E].
  destruct H as [-> | H].
  - rewrite E. apply list_lookup_insert_eq. exact L.
  - apply IH; [exact H|]. rewrite length_insert. exact L.
Qed.

Lemma in_rect_indices (x0 y0 x1 y1 w i : Z) :
  In i (Pixels.rect_indices x0 y0 x1 y1 w) <->
  exists xx yy, i = (xx + yy * w)%Z /\ (x0 <= xx < x1)%Z /\ (y0 <= yy < y1)%Z.
Proof.
  unfold Pixels.rect_indices, Pixels.row_indices.
  rewrite in_concat. split.
  - intros (r & Hr & Hi). apply in_map_iff in Hr as (yy & <- & Hy).
    apply in_map_iff in Hi as (xx & <- & Hx).
    apply list_elem_of_In, elem_of_seqZ in Hx, Hy.
    exists xx, yy. repeat split; lia.
  - intros (xx & yy & -> & Hx & Hy).
    exists (List.map (fun xx => (xx + yy * w)%Z) (seqZ x0 (x1 - x0))). split.
    + apply in_map_iff. exists yy. split; [reflexivity|].
      apply list_elem_of_In, elem_of_seqZ. lia.
    + apply in_map_iff. exists xx. split; [reflexivity|].
      apply list_elem_of_In, elem_of_seqZ. lia.
Qed.

Lemma in_touched (x0 y0 x1 y1 : Z) (rs : render.RenderState) (i : Z) :
  (0 <= render.width rs)%Z -> (0 <= render.height rs)%Z ->
  In i (Pixels.touched x0 y0 x1 y1 rs) ->
  exists xx yy, i = (xx + yy * render.width rs)%Z /\
    (0 <= xx < render.width rs)%Z /\ (0 <= yy < render.height rs)%Z /\
    (x0 <= xx < x1)%Z /\ (y0 <= yy < y1)%Z.
Proof.
  intros Hw Hh H. unfold Pixels.touched in H.
  apply in_rect_indices in H as (xx & yy & -> & Hx & Hy).
  exists xx, yy. split; [reflexivity|].
  revert Hx Hy. unfold utils.clampZ. rewrite !Z.gtb_ltb.
  repeat match goal with
         | |- context [(?a <? ?b)%Z] => destruct (Z.ltb_spec a b)
         end; lia.
Qed.

Lemma touched_in (x0 y0 x1 y1 : Z) (rs : render.RenderState) (xx yy : Z) :
  (0 <= xx < render.width rs)%Z -> (0 <= yy < render.height rs)%Z ->
  (x0 <= xx < x1)%Z -> (y0 <= yy < y1)%Z ->
  In (xx + yy * render.width rs)%Z (Pixels.touched x0 y0 x1 y1 rs).
Proof.
  intros Hx Hy Hx' Hy'. unfold Pixels.touched.
  apply in_rect_indices. exists xx, yy. split; [reflexivity|].
  unfold utils.clampZ. rewrite !Z.gtb_ltb.
  repeat match goal with
         | |- context [(?a <? ?b)%Z] => destruct (Z.ltb_spec a b)
         end; lia.
Qed.

Lemma render_rect_pixels_paint (x0 y0 x1 y1 color : Z)
    (rs : render.RenderState) :
  render.render_rect_pixels x0 y0 x1 y1 color rs =
  match render.memory rs with
  | None => rs
  | Some m =>
      render.mkRenderState
        (Some (Pixels.paint color (Pixels.touched x0 y0 x1 y1 rs) m))
        (render.width rs) (render.height rs)
  end.
Proof.
  unfold render.render_rect_pixels. destruct (render.memory rs); [|reflexivity].
  cbv zeta. rewrite rows_paint. reflexivity.
Qed.

(** X2.  [render_rect_pixels] stays inside the buffer: for a viewport of
    non-negative width and height, whatever corners it is asked for,
    every index it writes lies in [[0, width * height)]; the buffer it
    leaves is the old one with [color] at those indices, and width,
    height and buffer size are as before. *)
Theorem render_rect_pixels_in_bounds (x0 y0 x1 y1 color : Z)
    (rs : render.RenderState) :
  (0 <= render.width rs)%Z -> (0 <= render.height rs)%Z ->
  (forall i, In i (Pixels.touched x0 y0 x1 y1 rs) ->
     (0 <= i < render.width rs * render.height rs)%Z) /\
  (forall m, render.memory rs = Some m ->
     render.memory (render.render_rect_pixels x0 y0 x1 y1 color rs) =
     Some (Pixels.paint color (Pixels.touched x0 y0 x1 y1 rs) m)) /\
  (render.memory rs = None ->
     render.render_rect_pixels x0 y0 x1 y1 color rs = rs) /\
  Pixels.shape (render.render_rect_pixels x0 y0 x1 y1 color rs) =
  Pixels.shape rs.
Proof.
  intros Hw Hh. rewrite render_rect_pixels_paint.
  split; [|split; [|split]].
  - intros i Hi.
    apply in_touched in Hi as (xx & yy & -> & Hx & Hy & _); [|lia|lia].
    nia.
  - intros m E. rewrite E. reflexivity.
  - intros E. rewrite E. reflexivity.
  - unfold Pixels.shape. destruct (render.memory rs) eqn:E; cbn.
    + rewrite paint_length. reflexivity.
    + rewrite E. reflexivity.
Qed.

(** The theorem on a 4 x 3 viewport asked for a rectangle that sticks
    out on every side: the twelve pixels are written, nothing else. *)
Lemma render_rect_pixels_in_bounds_witness :
  let rs := render.mkRenderState (Some (repeat 0%Z 12)) 4 3 in
  ((0 <= render.width rs)%Z /\ (0 <= render.height rs)%Z) /\
  forall i, In i (Pixels.touched (-5) (-5) 9 9 rs) -> (0 <= i < 12)%Z.
Proof.
  intros rs. split; [split; discriminate|].
  destruct (render_rect_pixels_in_bounds (-5) (-5) 9 9 7 rs) as (B & _);
    [discriminate|discriminate|].
  exact B.
Defined.

Lemma rect_pixel (x0 y0 x1 y1 color : Z)
    (rs : render.RenderState) (x_ y_ : Z) :
  Pixels.allocated rs ->
  (0 <= x_ < render.width rs)%Z -> (0 <= y_ < render.height rs)%Z ->
  Pixels.pixel x_ y_ (render.render_rect_pixels x0 y0 x1 y1 color rs) =
  if ((x0 <=? x_) && (x_ <? x1) && (y0 <=? y_) && (y_ <? y1))%Z
  then Some color else Pixels.pixel x_ y_ rs.
Proof.
  intros (Hw & Hh & m & Em & Lm) Hx Hy.
  rewrite render_rect_pixels_paint. unfold Pixels.pixel. rewrite Em. cbn.
  destruct ((x0 <=? x_) && (x_ <? x1) && (y0 <=? y_) && (y_ <? y1))%Z eqn:C.
  - apply andb_prop in C as [C C4]. apply andb_prop in C as [C C3].
    apply andb_prop in C as [C1 C2].
    apply paint_lookup_in.
    + apply touched_in; lia.
    + nia.
  - apply paint_lookup_out. intros i Hi E.
    apply in_touched in Hi as (xx & yy & -> & Hxx & Hyy & Bx & By);
      [|lia|lia].
    assert (E' : (xx + yy * render.width rs = x_ + y_ * render.width rs)%Z)
      by nia.
    assert (yy = y_) by nia. subst yy.
    assert (xx = x_) by lia. subst xx.
    assert (F : ((x0 <=? x_) && (x_ <? x1) && (y0 <=? y_) && (y_ <? y1))%Z
                = true).
    { rewrite !andb_true_iff. repeat split; lia. }
    congruence.
Qed.

(** X3.  Which pixels [render_rect_pixels] paints: in a buffer of
    [width * height] pixels, the pixel of column [x_] and row [y_] of the
    viewport becomes [color] when [x0 <= x_ < x1] and [y0 <= y_ < y1]
    (left and top edges included, right and bottom edges excluded), and
    keeps its value otherwise. *)
Theorem render_rect_pixels_pixel (x0 y0 x1 y1 color : Z)
    (rs : render.RenderState) (x_ y_ : Z) :
  Pixels.allocated rs ->
  (0 <= x_ < render.width rs)%Z -> (0 <= y_ < render.height rs)%Z ->
  Pixels.pixel x_ y_ (render.render_rect_pixels x0 y0 x1 y1 color rs) =
  if ((x0 <=? x_) && (x_ <? x1) && (y0 <=? y_) && (y_ <? y1))%Z
  then Some color else Pixels.pixel x_ y_ rs.
Proof. apply rect_pixel. Qed.

(** The theorem on a 4 x 3 viewport: the pixel at column 1 of row 2 is
    painted by the rectangle [[1, 3) x [2, 9)]. *)
Lemma render_rect_pixels_pixel_witness :
  let rs := render.mkRenderState (Some (repeat 0%Z 12)) 4 3 in
  (Pixels.allocated rs /\ (0 <= 1 < render.width rs)%Z /\
   (0 <= 2 < render.height rs)%Z) /\
  Pixels.pixel 1 2 (render.render_rect_pixels 1 2 3 9 7 rs) = Some 7%Z.
Proof.
  intros rs.
  assert (A : Pixels.allocated rs).
  { split; [discriminate|]. split; [discriminate|].
    exists (repeat 0%Z 12). split; reflexivity. }
  split; [split; [exact A|split; split; (discriminate || reflexivity)]|].
  apply (render_rect_pixels_pixel 1 2 3 9 7 rs 1 2 A);
    split; (discriminate || reflexivity).
Defined.

(** ** Drawing calls only paint *)

Lemma only_paints_refl (color : Z) (rs : render.RenderState) :
  Pixels.only_paints color rs rs.
Proof.
  split; [reflexivity|]. destruct (render.memory rs); [|exact I].
  intros n. left. reflexivity.
Qed.

Lemma only_paints_trans (color : Z) (a b c : render.RenderState) :
  Pixels.only_paints color a b -> Pixels.only_paints color b c ->
  Pixels.only_paints color a c.
Proof.
  intros [S1 P1] [S2 P2]. split; [congruence|].
  destruct (render.memory a), (render.memory b), (render.memory c);
    try contradiction; try exact I.
  intros n. destruct (P2 n) as [E | E]; [|right; exact E].
  rewrite E. apply P1.
Qed.

Lemma only_paints_foldl {A : Type} (color : Z)
    (f : render.RenderState -> A -> render.RenderState) (l : list A) :
  (forall rs x, Pixels.only_paints color rs (f rs x)) ->
  forall rs, Pixels.only_paints color rs (foldl f rs l).
Proof.
  intros Hf. induction l as [|x l IH]; intros rs; cbn.
  - apply only_paints_refl.
  - eapply only_paints_trans; [apply Hf|apply IH].
Qed.

Lemma render_rect_pixels_only_paints (x0 y0 x1 y1 color : Z)
    (rs : render.RenderState) :
  Pixels.only_paints color rs (render.render_rect_pixels x0 y0 x1 y1 color rs).
Proof.
  rewrite render_rect_pixels_paint. unfold Pixels.only_paints, Pixels.shape.
  destruct (render.memory rs) eqn:E; cbn.
  - split; [rewrite paint_length; reflexivity|]. intros n. apply paint_lookup.
  - rewrite E. split; [reflexivity|exact I].
Qed.

Lemma render_rect_only_paints (x y half_x half_y : Q) (color : Z)
    (rs : render.RenderState) :
  Pixels.only_paints color rs (render.render_rect x y half_x half_y color rs).
Proof.
  unfold render.render_rect.
  destruct ((render.height rs =? 0) || (render.width rs =? 0))%Z.
  - apply only_paints_refl.
  - apply render_rect_pixels_only_paints.
Qed.

Lemma draw_glyph_only_paints (glyph : list Z) (cx cy pixel_size : Q)
    (color : Z) (rs : render.RenderState) :
  Pixels.only_paints color rs (font.draw_glyph glyph cx cy pixel_size color rs).
Proof.
  unfold font.draw_glyph. cbv zeta.
  apply only_paints_foldl. intros rs1 ry.
  apply only_paints_foldl. intros rs2 rx.
  destruct (Z.testbit _ 0).
  - apply render_rect_only_paints.
  - apply only_paints_refl.
Qed.

Lemma glyph_index_bounds (c : Z) :
  (0 <= Root_render.glyph_index c < 37)%Z /\
  (0 <= Incl_render.glyph_index c < 41)%Z.
Proof.
  pose proof (glyph_check_all c) as H. unfold glyph_check in H.
  rewrite !andb_true_iff in H.
  destruct H as [[[[[H1 H2] H3] H4] _] _]. lia.
Qed.

Lemma root_glyph_only_paints (c : Z) (cx cy pixel_size : Q) (color : Z)
    (rs : render.RenderState) :
  exists rs', Root_render.render_glyph_5x7 c cx cy pixel_size color rs = Some rs'
              /\ Pixels.only_paints color rs rs'.
Proof.
  unfold Root_render.render_glyph_5x7.
  destruct ((render.height rs =? 0) || (render.width rs =? 0))%Z.
  { exists rs. split; [reflexivity|apply only_paints_refl]. }
  cbv zeta. destruct (glyph_index_bounds c) as [B _].
  destruct (Z.ltb_spec (Root_render.glyph_index c) 0); [lia|].
  destruct (Root_render.FONT_5x7 !! Z.to_nat (Root_render.glyph_index c))
    as [g|] eqn:E.
  - eexists. split; [reflexivity|apply draw_glyph_only_paints].
  - apply lookup_ge_None in E. cbn in E. lia.
Qed.

Lemma incl_glyph_only_paints (c : Z) (cx cy pixel_size : Q) (color : Z)
    (rs : render.RenderState) :
  exists rs', Incl_render.render_glyph_5x7 c cx cy pixel_size color rs = Some rs'
              /\ Pixels.only_paints color rs rs'.
Proof.
  unfold Incl_render.render_glyph_5x7.
  destruct ((render.height rs =? 0) || (render.width rs =? 0))%Z.
  { exists rs. split; [reflexivity|apply only_paints_refl]. }
  cbv zeta. destruct (glyph_index_bounds c) as [_ B].
  destruct (Z.ltb_spec (Incl_render.glyph_index c) 0); [lia|].
  destruct (Incl_render.FONT_5x7 !! Z.to_nat (Incl_render.glyph_index c))
    as [g|] eqn:E.
  - eexists. split; [reflexivity|apply draw_glyph_only_paints].
  - apply lookup_ge_None in E. cbn in E. lia.
Qed.

Lemma render_text_with_only_paints
    (glyph : Z -> Q -> Q -> Q -> Z -> render.RenderState ->
             option render.RenderState)
    (color : Z) :
  (forall c cx cy ps rs, exists rs',
      glyph c cx cy ps color rs = Some rs' /\ Pixels.only_paints color rs rs') ->
  forall s cx cy ps spacing rs, exists rs',
    font.render_text_with glyph s cx cy ps spacing color rs = Some rs' /\
    Pixels.only_paints color rs rs'.
Proof.
  intros Hg s cx cy ps spacing rs. unfold font.render_text_with.
  destruct s as [|c0 s0].
  { exists rs. split; [reflexivity|apply only_paints_refl]. }
  cbv zeta. generalize (c0 :: s0) at 1 2 3 4 as s. intros s.
  generalize (seqZ 0 (Z.of_nat (length s))) as l. intros l.
  assert (G : forall rs1, Pixels.only_paints color rs rs1 ->
    exists rs', foldl (fun acc i =>
        match acc with
        | None => None
        | Some rs2 =>
            glyph (nth (Z.to_nat i) s 0%Z)
              (cx - (Float.of_int (Z.of_nat (length s)) * (5 * ps) +
                     (Float.of_int (Z.of_nat (length s)) - 1) * spacing) * 0.5 +
               5 * ps * 0.5 + Float.of_int i * (5 * ps + spacing))
              cy ps color rs2
        end) (Some rs1) l = Some rs' /\ Pixels.only_paints color rs rs').
  { induction l as [|i l IH]; intros rs1 H1; cbn.
    - exists rs1. split; [reflexivity|exact H1].
    - destruct (Hg (nth (Z.to_nat i) s 0%Z)
                  (cx - (Float.of_int (Z.of_nat (length s)) * (5 * ps) +
                     (Float.of_int (Z.of_nat (length s)) - 1) * spacing) * 0.5 +
                   5 * ps * 0.5 + Float.of_int i * (5 * ps + spacing))
                  cy ps rs1) as (rs2 & E & P).
      rewrite E. apply IH. eapply only_paints_trans; [exact H1|exact P]. }
  apply G, only_paints_refl.
Qed.

(** X4.  [render_text] of either file, on any string (any [char] values, also
    negative ones and ones the table has no glyph for), at any position
    and size: it never reads outside [FONT_5x7], it keeps the width, the
    height and the size of the buffer, and every pixel is afterwards what
    it was or [color].  With no buffer it leaves the state as it is. *)
Theorem render_text_only_paints (s : list Z) (cx cy pixel_size spacing : Q)
    (color : Z) (rs : render.RenderState) :
  (exists rs', Root_render.render_text s cx cy pixel_size spacing color rs
               = Some rs' /\ Pixels.only_paints color rs rs' /\
               (render.memory rs = None -> rs' = rs)) /\
  (exists rs', Incl_render.render_text s cx cy pixel_size spacing color rs
               = Some rs' /\ Pixels.only_paints color rs rs' /\
               (render.memory rs = None -> rs' = rs)).
Proof.
  assert (N : forall rs', Pixels.only_paints color rs rs' ->
                          render.memory rs = None -> rs' = rs).
  { intros rs' [S P] E. unfold Pixels.shape in S. rewrite E in S, P.
    destruct rs as [m w h], rs' as [m' w' h']. cbn in *.
    destruct m' as [m'|]; [contradiction|]. subst m. congruence. }
  split.
  - destruct (render_text_with_only_paints Root_render.render_glyph_5x7 color
                (fun c cx cy ps rs => root_glyph_only_paints c cx cy ps color rs)
                s cx cy pixel_size spacing rs) as (rs' & E & P).
    exists rs'. split; [exact E|]. split; [exact P|apply N, P].
  - destruct (render_text_with_only_paints Incl_render.render_glyph_5x7 color
                (fun c cx cy ps rs => incl_glyph_only_paints c cx cy ps color rs)
                s cx cy pixel_size spacing rs) as (rs' & E & P).
    exists rs'. split; [exact E|]. split; [exact P|apply N, P].
Qed.

Lemma fill_length (color : Z) (l : list nat) (px : list Z) :
  length (foldl (fun acc i => <[i := color]> acc) px l) = length px.
Proof.
  revert px. induction l as [|i l IH]; intros px; [reflexivity|].
  cbn. rewrite IH. apply length_insert.
Qed.

Lemma fill_lookup (color : Z) (l : list nat) (px : list Z) (n : nat) :
  foldl (fun acc i => <[i := color]> acc) px l !! n = px !! n \/
  foldl (fun acc i => <[i := color]> acc) px l !! n = Some color.
Proof.
  revert px. induction l as [|i l IH]; intros px; [left; reflexivity|].
  cbn. destruct (IH (<[i := color]> px)) as [E | E]; [|right; exact E].
  rewrite E. destruct (decide (i = n)) as [<- | N].
  - destruct (decide (i < length px)%nat) as [L | L].
    + right. apply list_lookup_insert_eq. exact L.
    + left. rewrite list_insert_ge by lia. reflexivity.
  - left. apply list_lookup_insert_ne. exact N.
Qed.

Lemma fill_lookup_in (color : Z) (l : list nat) (px : list Z) (n : nat) :
  In n l -> (n < length px)%nat ->
  foldl (fun acc i => <[i := color]> acc) px l !! n = Some color.
Proof.
  revert px. induction l as [|j l IH]; intros px H L; [destruct H|].
  cbn. destruct (fill_lookup color l (<[j := color]> px) n) as [E | E];
    [|exact E].
  destruct H as [-> | H].
  - rewrite E. apply list_lookup_insert_eq. exact L.
  - apply IH; [exact H|]. rewrite length_insert. exact L.
Qed.

(** X5.  [clear_screen] on a buffer of [width * height] pixels: every pixel of
    the viewport is [color] afterwards, whatever it was, and width,
    height and buffer size are as before; a later rectangle then shows on
    that background, so the pixel at column [x_] of row [y_] is the
    rectangle's colour inside it and [color] outside. *)
Theorem clear_screen_spec (color : Z) (rs : render.RenderState)
    (x_ y_ : Z) (x0 y0 x1 y1 c : Z) :
  Pixels.allocated rs ->
  (0 <= x_ < render.width rs)%Z -> (0 <= y_ < render.height rs)%Z ->
  Pixels.pixel x_ y_ (render.clear_screen color rs) = Some color /\
  Pixels.shape (render.clear_screen color rs) = Pixels.shape rs /\
  Pixels.pixel x_ y_
    (render.render_rect_pixels x0 y0 x1 y1 c (render.clear_screen color rs)) =
  Some (if ((x0 <=? x_) && (x_ <? x1) && (y0 <=? y_) && (y_ <? y1))%Z
        then c else color).
Proof.
  intros A Hx Hy. pose proof A as (Hw & Hh & m & Em & Lm).
  assert (P : Pixels.pixel x_ y_ (render.clear_screen color rs) = Some color).
  { unfold Pixels.pixel, render.clear_screen. rewrite Em. cbn.
    apply fill_lookup_in.
    - apply in_seq. nia.
    - nia. }
  assert (S : Pixels.shape (render.clear_screen color rs) = Pixels.shape rs).
  { unfold Pixels.shape, render.clear_screen. rewrite Em. cbn.
    rewrite fill_length. reflexivity. }
  split; [exact P|]. split; [exact S|].
  assert (A' : Pixels.allocated (render.clear_screen color rs)).
  { unfold Pixels.allocated, render.clear_screen. rewrite Em. cbn.
    split; [exact Hw|]. split; [exact Hh|].
    eexists. split; [reflexivity|]. rewrite fill_length. exact Lm. }
  assert (W : render.width (render.clear_screen color rs) = render.width rs).
  { unfold render.clear_screen. rewrite Em. reflexivity. }
  assert (H : render.height (render.clear_screen color rs) = render.height rs).
  { unfold render.clear_screen. rewrite Em. reflexivity. }
  rewrite rect_pixel by (rewrite ?W, ?H; assumption).
  rewrite P. destruct ((x0 <=? x_) && (x_ <? x1) && (y0 <=? y_) && (y_ <? y1))%Z;
    reflexivity.
Qed.

(** The theorem on a 4 x 3 viewport holding other values. *)
Lemma clear_screen_spec_witness :
  let rs := render.mkRenderState (Some (repeat 9%Z 12)) 4 3 in
  (Pixels.allocated rs /\ (0 <= 3 < render.width rs)%Z /\
   (0 <= 2 < render.height rs)%Z) /\
  Pixels.pixel 3 2 (render.clear_screen 5 rs) = Some 5%Z.
Proof.
  intros rs.
  assert (A : Pixels.allocated rs).
  { split; [discriminate|]. split; [discriminate|].
    exists (repeat 9%Z 12). split; reflexivity. }
  split; [split; [exact A|split; split; (discriminate || reflexivity)]|].
  apply (clear_screen_spec 5 rs 3 2 0 0 0 0 0 A);
    split; (discriminate || reflexivity).
Defined.

(** ** Keyboard input *)

Lemma poll_fold (kb : list (Z * input.Key)) (k : input.Key) (d0 : bool)
    (msgs : list Keys.Msg) (b : input.Buttons) (acc : option bool) :
  match acc with
  | Some d => b k = input.mkButtonState d true
  | None => b k = input.mkButtonState d0 false
  end ->
  match foldl (fun acc message =>
             match Keys.find kb (Keys.to_i32 (Keys.wParam message)) with
             | Some k' => if decide (k = k') then Some (Keys.key_down message)
                          else acc
             | None => acc
             end) acc msgs with
  | Some d =>
      foldl (fun b message => Keys.process_button kb message b) b msgs k =
      input.mkButtonState d true
  | None =>
      foldl (fun b message => Keys.process_button kb message b) b msgs k =
      input.mkButtonState d0 false
  end.
Proof.
  revert b acc. induction msgs as [|m msgs IH]; intros b acc H; cbn.
  - exact H.
  - apply IH. unfold Keys.process_button.
    destruct (Keys.find kb (Keys.to_i32 (Keys.wParam m))) as [k'|];
      [|exact H].
    unfold Keys.set_button. destruct (decide (k = k')) as [E | N].
    + reflexivity.
    + exact H.
Qed.

(** X6.  One frame of keyboard input, for the key map of either file: after
    the reset and the queue's messages, a key is changed exactly when
    some message of the queue maps to it; it is down as its last such
    message says, or as it was before when there is none; it is pressed
    exactly when its last message is a key-down (so a key held from an
    earlier frame is down but not pressed, and the repeated key-down of a
    held key presses it again) and released exactly when its last message
    is a key-up.  A message whose code the map does not hold changes
    nothing; the codes [src/game.hpp] maps are mapped to the same keys
    by [src/include/game.hpp], which maps three more (F11, P and
    Escape). *)
Theorem poll_spec (kb : list (Z * input.Key)) (msgs : list Keys.Msg)
    (b : input.Buttons) (k : input.Key) :
  let b' := Keys.poll kb msgs b in
  let last := Keys.last_for kb k msgs in
  input.is_changed b' k = (if last is Some _ then true else false) /\
  input.is_down b' k = (if last is Some d then d else input.is_down b k) /\
  input.is_pressed b' k = (if last is Some true then true else false) /\
  input.is_released b' k = (if last is Some false then true else false) /\
  (forall message,
     Keys.find kb (Keys.to_i32 (Keys.wParam message)) = None ->
     Keys.process_button kb message b = b) /\
  (forall code,
     Keys.find Keys.Incl_kb code =
     match Keys.find Keys.Root_kb code with
     | Some k' => Some k'
     | None =>
         if (code =? 0x7A)%Z then Some input.BUTTON_F11
         else if (code =? 0x50)%Z then Some input.BUTTON_PAUSE
         else if (code =? 0x1B)%Z then Some input.BUTTON_ESC
         else None
     end).
Proof.
  cbv zeta. unfold Keys.poll, Keys.last_for.
  assert (K : forall code,
     Keys.find Keys.Incl_kb code =
     match Keys.find Keys.Root_kb code with
     | Some k' => Some k'
     | None =>
         if (code =? 0x7A)%Z then Some input.BUTTON_F11
         else if (code =? 0x50)%Z then Some input.BUTTON_PAUSE
         else if (code =? 0x1B)%Z then Some input.BUTTON_ESC
         else None
     end).
  { intros code. unfold Keys.Incl_kb, Keys.Root_kb, Keys.find.
    rewrite !(Z.eqb_sym code).
    repeat match goal with
           | |- context [(?c =? code)%Z] => destruct (c =? code)%Z
           end; reflexivity. }
  pose proof (poll_fold kb k (input.is_down_ (b k)) msgs
                (Keys.reset_changed b) None eq_refl) as H.
  unfold input.is_pressed, input.is_released, input.is_changed, input.is_down.
  assert (U : forall m,
             Keys.find kb (Keys.to_i32 (Keys.wParam m)) = None ->
             Keys.process_button kb m b = b).
  { intros m E. unfold Keys.process_button. rewrite E. reflexivity. }
  destruct (foldl _ None msgs) as [d|]; rewrite H; cbn.
  - destruct d; repeat (split; [reflexivity|]); (split; [exact U|exact K]).
  - rewrite !andb_false_r. repeat (split; [reflexivity|]).
    split; [exact U|exact K].
Qed.

(** ** The paddle: keys, friction and the computer player *)

Lemma trunc_bounds (a : Q) :
  (0 <= a -> inject_Z (Float.trunc a) <= a /\ a < inject_Z (Float.trunc a) + 1) /\
  (a <= 0 -> a <= inject_Z (Float.trunc a) /\ inject_Z (Float.trunc a) - 1 < a).
Proof.
  destruct a as [n d]. unfold Float.trunc, Qle, Qlt. cbn.
  pose proof (Z.quot_rem' n (Z.pos d)) as E.
  split; intros H.
  - assert (Hn : (0 <= n)%Z) by lia.
    pose proof (Z.rem_bound_pos n (Z.pos d) Hn ltac:(lia)) as R.
    set (q := (n ÷ Z.pos d)%Z) in *. set (r := Z.rem n (Z.pos d)) in *.
    clearbody q r. clear H Hn. subst n. split; nia.
  - assert (Hn : (n <= 0)%Z) by lia.
    pose proof (Z.rem_bound_pos_neg n (Z.pos d) ltac:(lia) Hn) as R.
    set (q := (n ÷ Z.pos d)%Z) in *. set (r := Z.rem n (Z.pos d)) in *.
    clearbody q r. clear H Hn. subst n. split; nia.
Qed.

Lemma fmod_200 (a : Q) :
  (0 <= a -> 0 <= Float.fmod a 200 /\ Float.fmod a 200 < 200) /\
  (a <= 0 -> -200 < Float.fmod a 200 /\ Float.fmod a 200 <= 0) /\
  Float.fmod a 200 == a - 200 * inject_Z (Float.trunc (a / 200)).
Proof.
  unfold Float.fmod.
  destruct (trunc_bounds (a / 200)) as [P N].
  assert (E : a == (a / 200) * 200) by field.
  set (q := a / 200) in *. clearbody q.
  set (t := inject_Z (Float.trunc q)) in *. clearbody t.
  split; [|split].
  - intros H. assert (Hq : 0 <= q) by lra. specialize (P Hq). lra.
  - intros H. assert (Hq : q <= 0) by lra. specialize (N Hq). lra.
  - ring.
Qed.

Lemma between_is_zero (t : Z) :
  -1 < inject_Z t -> inject_Z t < 1 -> t = 0%Z.
Proof.
  intros A B.
  change (-1) with (inject_Z (-1)) in A. change 1 with (inject_Z 1) in B.
  rewrite <- Zlt_Qlt in A, B. lia.
Qed.

(** X7.  The fold of [predict_ball], for every projected height: the result
    lies between the walls, in [[-50, 50]]; it is the height itself
    shifted by a multiple of 200, or its mirror image [100 - y] shifted by
    a multiple of 200, which is where a ball bouncing between the two
    walls would be; a height between the walls is returned as it is, one
    bounce off the top wall gives [100 - y] and one bounce off the bottom
    wall [-100 - y]. *)
Theorem fold_y_reflects (proj_y : Q) :
  -50 <= Player.fold_y proj_y <= 50 /\
  (exists n : Z,
     Player.fold_y proj_y == proj_y - 200 * inject_Z n \/
     Player.fold_y proj_y == 100 - proj_y + 200 * inject_Z n) /\
  (-50 <= proj_y <= 50 -> Player.fold_y proj_y == proj_y) /\
  (50 <= proj_y <= 150 -> Player.fold_y proj_y == 100 - proj_y) /\
  (-150 <= proj_y <= -50 -> Player.fold_y proj_y == -100 - proj_y).
Proof.
  unfold Player.fold_y. cbv zeta.
  change (2 * (Player.TOP - Player.BOTTOM)) with 200.
  change (Player.TOP - Player.BOTTOM) with 100.
  change Player.BOTTOM with (-50). change Player.TOP with 50.
  destruct (fmod_200 (proj_y - -50)) as (P & N & E).
  set (t := Float.trunc ((proj_y - -50) / 200)) in *.
  set (c := Float.fmod (proj_y - -50) 200) in *. clearbody c.
  assert (S : inject_Z (t - 1) == inject_Z t - 1).
  { unfold Zminus. rewrite inject_Z_plus. reflexivity. }
  assert (Hc : -200 < c < 200).
  { destruct (Qlt_le_dec (proj_y - -50) 0) as [L | L].
    - destruct N as [N1 N2]; [lra|]. lra.
    - destruct P as [P1 P2]; [lra|]. lra. }
  split; [|split; [|split; [|split]]].
  - repeat float_case; lra.
  - float_case; float_case.
    + exists (t - 1)%Z. left. rewrite S. lra.
    + exists (t - 1)%Z. right. rewrite S. lra.
    + exists t. left. lra.
    + exists t. right. lra.
  - intros H. destruct P as [P1 P2]; [lra|].
    assert (T : t = 0%Z) by (apply between_is_zero; lra).
    rewrite T in E. change (inject_Z 0) with 0 in E.
    repeat float_case; lra.
  - intros H. destruct P as [P1 P2]; [lra|].
    assert (T : (t = 0 \/ t = 1)%Z).
    { assert (A : -1 < inject_Z t) by lra.
      assert (B : inject_Z t < 2) by lra.
      change (-1) with (inject_Z (-1)) in A. change 2 with (inject_Z 2) in B.
      rewrite <- Zlt_Qlt in A, B. lia. }
    destruct T as [T | T]; rewrite T in E;
      [change (inject_Z 0) with 0 in E | change (inject_Z 1) with 1 in E];
      repeat float_case; lra.
  - intros H. destruct N as [N1 N2]; [lra|].
    assert (T : t = 0%Z) by (apply between_is_zero; lra).
    rewrite T in E. change (inject_Z 0) with 0 in E.
    repeat float_case; lra.
Qed.

Lemma rand_snd (s : list Z) : snd (Rand.rand s) = drop 1 s.
Proof. destruct s; reflexivity. Qed.

Lemma perturb_draws (RAND_MAX level : Z) (final_y target_y : Q)
    (s : list Z) :
  exists n : nat,
    snd (Player.perturb RAND_MAX level final_y target_y s) = drop n s /\
    (n = 0 \/ n = 2)%nat /\
    (level <> 1%Z -> level <> 2%Z -> n = 0%nat).
Proof.
  unfold Player.perturb, Player.rand_unit, Rand.bind, Rand.ret.
  destruct (Z.eqb_spec level 1).
  { exists 2%nat. split; [|split; [right; reflexivity|contradiction]].
    pose proof (rand_snd s) as E1. destruct (Rand.rand s) as [r1 s1].
    pose proof (rand_snd s1) as E2. destruct (Rand.rand s1) as [r2 s2].
    cbn in *. subst. rewrite drop_drop. reflexivity. }
  destruct (Z.eqb_spec level 2).
  { exists 2%nat. split; [|split; [right; reflexivity|contradiction]].
    pose proof (rand_snd s) as E1. destruct (Rand.rand s) as [r1 s1].
    pose proof (rand_snd s1) as E2. destruct (Rand.rand s1) as [r2 s2].
    cbn in *. subst. rewrite drop_drop. reflexivity. }
  exists 0%nat. destruct (level =? 3)%Z; cbn; auto.
Qed.

Lemma predict_ball_draws (RAND_MAX : Z) (ball_vel ball_pos : Vector2.t)
    (paddle_x target_y : Q) (level : Z) (s : list Z) :
  exists n : nat,
    snd (Player.predict_ball RAND_MAX ball_vel ball_pos paddle_x target_y
           level s) = drop n s /\
    (n = 0 \/ n = 2)%nat /\
    (level <> 1%Z -> level <> 2%Z -> n = 0%nat).
Proof.
  unfold Player.predict_ball.
  destruct (Player.will_predict ball_vel paddle_x);
    [|exists 0%nat; cbn; auto].
  cbv zeta. destruct (_ >? 0); [|exists 0%nat; cbn; auto].
  apply perturb_draws.
Qed.

Lemma follow_ball_step (target_y paddle_y : Q) (c : PlayerController.t)
    (ddp : Q) :
  exists k : Z, (-1 <= k <= 1)%Z /\
    Player.follow_ball target_y paddle_y c ddp ==
    ddp + inject_Z k * PlayerController.ddp_speed c /\
    (5 < target_y - paddle_y -> k = 1%Z) /\
    (target_y - paddle_y < -5 -> k = (-1)%Z) /\
    (-5 <= target_y - paddle_y <= 5 -> k = 0%Z).
Proof.
  unfold Player.follow_ball, PlayerController.move_down,
    PlayerController.move_up. cbv zeta.
  float_case; [|float_case].
  - exists 1%Z. split; [lia|]. split; [unfold inject_Z; ring|].
    repeat split; intros; try reflexivity; lra.
  - exists (-1)%Z. split; [lia|]. split; [unfold inject_Z; ring|].
    repeat split; intros; try reflexivity; lra.
  - exists 0%Z. split; [lia|]. split; [unfold inject_Z; ring|].
    repeat split; intros; try reflexivity; lra.
Qed.

Lemma smash_ball_step (dist_x target_y paddle_y : Q) (ball_vel : Vector2.t)
    (c : PlayerController.t) (ddp : Q) :
  exists k : Z, (-1 <= k <= 1)%Z /\
    Player.smash_ball dist_x target_y paddle_y ball_vel c ddp ==
    ddp + inject_Z k * PlayerController.ddp_speed c /\
    (5 < target_y - paddle_y -> (0 <= k)%Z) /\
    (target_y - paddle_y < -5 -> (k <= 0)%Z).
Proof.
  unfold Player.smash_ball, PlayerController.move_down,
    PlayerController.move_up, Float.fabsf. cbv zeta.
  destruct (dist_x <=? 10).
  2:{ exists 0%Z. split; [lia|]. split; [unfold inject_Z; ring|split; lia]. }
  destruct (Qabs (target_y - paddle_y) <? 1) eqn:D.
  - apply ltb_true in D.
    assert (A : -1 < target_y - paddle_y < 1).
    { revert D. apply Qabs_case; intros; lra. }
    destruct (Vector2.y ball_vel >? 0).
    + exists 1%Z. split; [lia|]. split; [unfold inject_Z; ring|].
      split; intros; [lia|lra].
    + exists (-1)%Z. split; [lia|]. split; [unfold inject_Z; ring|].
      split; intros; [lra|lia].
  - destruct (target_y - paddle_y >? 0) eqn:G;
      [apply ltb_true in G | apply ltb_false in G]; cbn [Z.gtb Z.compare].
    + exists 1%Z. split; [lia|]. split; [unfold inject_Z; ring|].
      split; intros; [lia|lra].
    + exists (-1)%Z. split; [lia|]. split; [unfold inject_Z; ring|].
      split; intros; [lra|lia].
Qed.

Lemma smash_then_follow (dist_x target_y paddle_y : Q)
    (ball_vel : Vector2.t) (c : PlayerController.t) (ddp : Q) :
  exists k : Z, (-2 <= k <= 2)%Z /\
    Player.follow_ball target_y paddle_y c
      (Player.smash_ball dist_x target_y paddle_y ball_vel c ddp) ==
    ddp + inject_Z k * PlayerController.ddp_speed c.
Proof.
  destruct (smash_ball_step dist_x target_y paddle_y ball_vel c ddp)
    as (k1 & B1 & E1 & _).
  destruct (follow_ball_step target_y paddle_y c
              (Player.smash_ball dist_x target_y paddle_y ball_vel c ddp))
    as (k2 & B2 & E2 & _).
  exists (k1 + k2)%Z. split; [lia|].
  rewrite E2, E1, inject_Z_plus. ring.
Qed.

(** X8.  What the computer player may do in one call of [run_ai_mode], for
    every difficulty value (the main loop casts any integer to the
    enumeration): the acceleration it returns is the one it was given
    plus [k * ddp_speed] for a whole [k] between -2 and 2, between -1 and
    1 at Easy; it takes no value from [rand()] except at Hard and
    VeryHard, where it takes none or two; a difficulty outside the
    enumeration, or a ball that is not strictly on the paddle's side of
    the centre line, leaves the acceleration as it was; and at Easy and
    Medium a ball on the paddle's side more than 5 units below it (above
    it) makes the paddle accelerate downwards (upwards). *)
Theorem run_ai_mode_effort (RAND_MAX : Z) (ball_pos ball_vel : Vector2.t)
    (ddp : Q) (difficulty : Z) (p : Player.t) (s : list Z) :
  let out := Player.run_ai_mode RAND_MAX ball_pos ball_vel ddp difficulty p s in
  let c := Player.controller p in
  let self_x := Vector2.x (PlayerController.pos c) in
  let self_y := Vector2.y (PlayerController.pos c) in
  let same_side :=
    (0 < self_x /\ 0 < Vector2.x ball_pos) \/
    (self_x < 0 /\ Vector2.x ball_pos < 0) in
  (exists k : Z,
     (-2 <= k <= 2)%Z /\
     fst out == ddp + inject_Z k * PlayerController.ddp_speed c /\
     (difficulty = AIDifficulty.Easy -> (-1 <= k <= 1)%Z) /\
     (difficulty = AIDifficulty.Easy \/ difficulty = AIDifficulty.Medium ->
      same_side ->
      (5 < Vector2.y ball_pos - self_y -> (1 <= k)%Z) /\
      (Vector2.y ball_pos - self_y < -5 -> (k <= -1)%Z))) /\
  (exists n : nat,
     snd out = drop n s /\ (n = 0 \/ n = 2)%nat /\
     (difficulty <> AIDifficulty.Hard ->
      difficulty <> AIDifficulty.VeryHard -> n = 0%nat)) /\
  ((difficulty < 0 \/ 4 < difficulty)%Z -> out = (ddp, s)) /\
  (~ same_side -> out = (ddp, s)).
Proof.
  cbv zeta. unfold Player.run_ai_mode. cbv zeta.
  set (c := Player.controller p).
  set (sx := Vector2.x (PlayerController.pos c)).
  set (sy := Vector2.y (PlayerController.pos c)).
  assert (Z0 : exists k : Z, (-2 <= k <= 2)%Z /\
            ddp == ddp + inject_Z k * PlayerController.ddp_speed c /\
            (-1 <= k <= 1)%Z /\ k = 0%Z).
  { exists 0%Z. split; [lia|]. split; [unfold inject_Z; ring|].
    split; [lia|reflexivity]. }
  destruct (negb ((sx >? 0) && (Vector2.x ball_pos >? 0) ||
                  (sx <? 0) && (Vector2.x ball_pos <? 0))) eqn:Side.
  { assert (NS : ~ ((0 < sx /\ 0 < Vector2.x ball_pos) \/
                    (sx < 0 /\ Vector2.x ball_pos < 0))).
    { apply negb_true_iff, orb_false_iff in Side as [S1 S2].
      apply andb_false_iff in S1, S2.
      intros [[A B] | [A B]].
      - destruct S1 as [S1 | S1]; apply ltb_false in S1; lra.
      - destruct S2 as [S2 | S2]; apply ltb_false in S2; lra. }
    unfold Rand.ret. cbn [fst snd].
    split; [|split; [|split]].
    - destruct Z0 as (k & B & E & B1 & K0). exists k.
      split; [exact B|]. split; [exact E|]. split; [intros _; exact B1|].
      intros _ SS. contradiction.
    - exists 0%nat. auto.
    - reflexivity.
    - reflexivity. }
  assert (SS : (0 < sx /\ 0 < Vector2.x ball_pos) \/
               (sx < 0 /\ Vector2.x ball_pos < 0)).
  { apply negb_false_iff, orb_true_iff in Side as [S1 | S1];
      apply andb_true_iff in S1 as [A B];
      apply ltb_true in A, B; [left|right]; split; assumption. }
  unfold AIDifficulty.Easy, AIDifficulty.Medium, AIDifficulty.Hard,
    AIDifficulty.VeryHard, AIDifficulty.Unbeatable.
  destruct (Z.eqb_spec difficulty 0) as [D0 | D0].
  { unfold Rand.ret. cbn [fst snd].
    destruct (follow_ball_step (Vector2.y ball_pos) sy c ddp)
      as (k & B & E & Up & Dn & _).
    split; [|split; [|split]].
    - exists k. split; [lia|]. split; [exact E|]. split; [intros _; exact B|].
      intros _ _. split; intros H; [rewrite Up by exact H|rewrite Dn by exact H];
        lia.
    - exists 0%nat. auto.
    - intros [H | H]; lia.
    - intros H. contradiction. }
  destruct (Z.eqb_spec difficulty 1) as [D1 | D1].
  { unfold Rand.ret. cbn [fst snd].
    destruct (smash_ball_step (Float.fabsf (sx - Vector2.x ball_pos))
                (Vector2.y ball_pos) sy ball_vel c ddp)
      as (k1 & B1 & E1 & Up1 & Dn1).
    destruct (follow_ball_step (Vector2.y ball_pos) sy c
                (Player.smash_ball (Float.fabsf (sx - Vector2.x ball_pos))
                   (Vector2.y ball_pos) sy ball_vel c ddp))
      as (k2 & B2 & E2 & Up2 & Dn2 & _).
    split; [|split; [|split]].
    - exists (k1 + k2)%Z. split; [lia|].
      split; [rewrite E2, E1, inject_Z_plus; ring|].
      split; [intros H; lia|].
      intros _ _. split; intros H.
      + specialize (Up1 H). rewrite (Up2 H). lia.
      + specialize (Dn1 H). rewrite (Dn2 H). lia.
    - exists 0%nat. auto.
    - intros [H | H]; lia.
    - intros H. contradiction. }
  assert (P : forall level,
    (difficulty <> 2%Z -> difficulty <> 3%Z -> level <> 1%Z /\ level <> 2%Z) ->
    let out :=
      (draw target_y <- Player.predict_ball RAND_MAX ball_vel ball_pos sx
                          (Vector2.y ball_pos) level;
       Rand.ret
         (Player.follow_ball target_y sy c
            (Player.smash_ball (Float.fabsf (sx - Vector2.x ball_pos))
               target_y sy ball_vel c ddp))) s in
    (exists k : Z, (-2 <= k <= 2)%Z /\
       fst out == ddp + inject_Z k * PlayerController.ddp_speed c) /\
    (exists n : nat, snd out = drop n s /\ (n = 0 \/ n = 2)%nat /\
       (difficulty <> 2%Z -> difficulty <> 3%Z -> n = 0%nat))).
  { intros level HL. cbv zeta. unfold Rand.bind, Rand.ret.
    destruct (predict_ball_draws RAND_MAX ball_vel ball_pos sx
                (Vector2.y ball_pos) level s) as (n & En & Bn & Zn).
    destruct (Player.predict_ball RAND_MAX ball_vel ball_pos sx
                (Vector2.y ball_pos) level s) as [ty s1].
    cbn [fst snd] in *. split.
    - apply smash_then_follow.
    - exists n. split; [exact En|]. split; [exact Bn|].
      intros A B. destruct (HL A B). auto. }
  assert (Fin : forall out : Q * list Z,
    (exists k : Z, (-2 <= k <= 2)%Z /\
       fst out == ddp + inject_Z k * PlayerController.ddp_speed c) /\
    (exists n : nat, snd out = drop n s /\ (n = 0 \/ n = 2)%nat /\
       (difficulty <> 2%Z -> difficulty <> 3%Z -> n = 0%nat)) ->
    (0 <= difficulty <= 4)%Z ->
    (exists k : Z,
       (-2 <= k <= 2)%Z /\
       fst out == ddp + inject_Z k * PlayerController.ddp_speed c /\
       (difficulty = 0%Z -> (-1 <= k <= 1)%Z) /\
       (difficulty = 0%Z \/ difficulty = 1%Z ->
        (0 < sx /\ 0 < Vector2.x ball_pos) \/
        (sx < 0 /\ Vector2.x ball_pos < 0) ->
        (5 < Vector2.y ball_pos - sy -> (1 <= k)%Z) /\
        (Vector2.y ball_pos - sy < -5 -> (k <= -1)%Z))) /\
    (exists n : nat,
       snd out = drop n s /\ (n = 0 \/ n = 2)%nat /\
       (difficulty <> 2%Z -> difficulty <> 3%Z -> n = 0%nat)) /\
    ((difficulty < 0 \/ 4 < difficulty)%Z -> out = (ddp, s)) /\
    (~ ((0 < sx /\ 0 < Vector2.x ball_pos) \/
        (sx < 0 /\ Vector2.x ball_pos < 0)) -> out = (ddp, s))).
  { intros out [(k & B & E) N] R. split; [|split; [exact N|split]].
    - exists k. split; [exact B|]. split; [exact E|].
      split; [intros H; lia|]. intros [H | H]; lia.
    - intros [H | H]; lia.
    - intros H. contradiction. }
  destruct (Z.eqb_spec difficulty 2) as [D2 | D2].
  { apply Fin; [|lia]. apply P. intros H; contradiction. }
  destruct (Z.eqb_spec difficulty 3) as [D3 | D3].
  { apply Fin; [|lia]. apply P. intros _ H; contradiction. }
  destruct (Z.eqb_spec difficulty 4) as [D4 | D4].
  { apply Fin; [|lia]. apply P. intros _ _. split; discriminate. }
  unfold Rand.ret. cbn [fst snd].
  split; [|split; [|split]].
  - destruct Z0 as (k & B & E & B1 & K0). exists k.
    split; [exact B|]. split; [exact E|]. split; [intros _; exact B1|].
    intros [H | H]; lia.
  - exists 0%nat. auto.
  - reflexivity.
  - reflexivity.
Qed.

(** ** The ball and the paddles between the walls *)

Lemma bounce_walls_inside (b : BallController.t) :
  0 <= BallController.size b <= 50 ->
  Field.ball_inside (BallController.bounce_walls b).
Proof.
  intros H. unfold Field.ball_inside, BallController.bounce_walls.
  repeat (float_case; cbn in * ); lra.
Qed.

Lemma same_paddle_refl (p : Player.t) : Field.same_paddle p p.
Proof. repeat split. Qed.

Lemma same_paddles_refl (ps : Players.t) : Field.same_paddles ps ps.
Proof. split; apply same_paddle_refl. Qed.

Lemma same_paddles_modify (q : Players.Id) (f : Player.t -> Player.t)
    (ps : Players.t) :
  (forall p, Field.same_paddle p (f p)) ->
  Field.same_paddles ps (Players.modify q f ps).
Proof.
  intros Hf. destruct q; split; cbn; try apply Hf; apply same_paddle_refl.
Qed.

Lemma same_paddles_trans (a b c : Players.t) :
  Field.same_paddles a b -> Field.same_paddles b c -> Field.same_paddles a c.
Proof.
  unfold Field.same_paddles, Field.same_paddle.
  intros [(A1 & A2 & A3 & A4 & A5 & A6) (B1 & B2 & B3 & B4 & B5 & B6)]
         [(C1 & C2 & C3 & C4 & C5 & C6) (D1 & D2 & D3 & D4 & D5 & D6)].
  repeat split; congruence.
Qed.

(** What [add_collision] of either file keeps, for a ball whose two
    pointers are set: it returns, the ball's height is the one the wall
    tests left, and size, pointers and the paddles are as before. *)
Lemma root_add_collision_keeps (pid : Players.Id) (b : BallController.t)
    (ps : Players.t) :
  Field.linked b ->
  exists b' ps',
    Root_BallController.add_collision pid b ps = Some (b', ps') /\
    Vector2.y (BallController.pos b') =
    Vector2.y (BallController.pos (BallController.bounce_walls b)) /\
    BallController.size b' = BallController.size b /\
    Field.linked b' /\ Field.same_paddles ps ps'.
Proof.
  intros [L1 L2]. unfold Root_BallController.add_collision. cbv zeta.
  destruct (bounce_walls_keeps b) as (K1 & K2 & K3 & K4 & K5 & K6).
  cbv zeta in *. set (b0 := BallController.bounce_walls b) in *.
  rewrite K1, K2, L1, L2.
  destruct (_ >? 80).
  { do 2 eexists. split; [reflexivity|]. cbn.
    split; [reflexivity|]. split; [exact K5|]. split; [split; cbn; congruence|].
    apply (same_paddles_modify Players.P1). intros p. repeat split. }
  destruct (_ <? -80).
  { do 2 eexists. split; [reflexivity|]. cbn.
    split; [reflexivity|]. split; [exact K5|]. split; [split; cbn; congruence|].
    apply (same_paddles_modify Players.P2). intros p. repeat split. }
  destruct (BallController.overlaps _ _ _ _ b0).
  - do 2 eexists. split; [reflexivity|]. cbn.
    split; [reflexivity|]. split; [exact K5|]. split; [split; cbn; congruence|].
    apply same_paddles_refl.
  - do 2 eexists. split; [reflexivity|].
    split; [reflexivity|]. split; [exact K5|]. split; [split; cbn; congruence|].
    apply same_paddles_refl.
Qed.

Lemma incl_add_collision_keeps (pid : Players.Id) (b : BallController.t)
    (ps : Players.t) :
  Field.linked b ->
  exists b' ps',
    Incl_BallController.add_collision (Some pid) b ps = Some (b', ps') /\
    Vector2.y (BallController.pos b') =
    Vector2.y (BallController.pos (BallController.bounce_walls b)) /\
    BallController.size b' = BallController.size b /\
    Field.linked b' /\ Field.same_paddles ps ps'.
Proof.
  intros [L1 L2]. unfold Incl_BallController.add_collision. cbv zeta.
  destruct (bounce_walls_keeps b) as (K1 & K2 & K3 & K4 & K5 & K6).
  cbv zeta in *. set (b0 := BallController.bounce_walls b) in *.
  rewrite K1, K2, L1, L2.
  destruct (_ >? 80).
  { do 2 eexists. split; [reflexivity|]. cbn.
    split; [reflexivity|]. split; [exact K5|]. split; [split; cbn; congruence|].
    apply (same_paddles_modify Players.P1). intros p. repeat split. }
  destruct (_ <? -80).
  { do 2 eexists. split; [reflexivity|]. cbn.
    split; [reflexivity|]. split; [exact K5|]. split; [split; cbn; congruence|].
    apply (same_paddles_modify Players.P2). intros p. repeat split. }
  destruct (BallController.overlaps _ _ _ _ b0).
  - do 2 eexists. split; [reflexivity|]. cbn.
    split; [reflexivity|]. split; [exact K5|].
    split; [split; cbn; congruence|].
    apply same_paddles_modify. intros p. repeat split.
  - do 2 eexists. split; [reflexivity|].
    split; [reflexivity|]. split; [exact K5|]. split; [split; cbn; congruence|].
    apply same_paddles_refl.
Qed.

Lemma ball_inside_after (b b' : BallController.t) :
  0 <= BallController.size b <= 50 ->
  Vector2.y (BallController.pos b') =
  Vector2.y (BallController.pos (BallController.bounce_walls b)) ->
  BallController.size b' = BallController.size b ->
  Field.ball_inside b'.
Proof.
  intros H Ey Es. pose proof (bounce_walls_inside b H) as I.
  destruct (bounce_walls_keeps b) as (_ & _ & _ & _ & K5 & _).
  unfold Field.ball_inside in *. cbv zeta in K5.
  rewrite Ey, Es. rewrite K5 in I. exact I.
Qed.

Lemma root_update_keeps (dt : Q) (b : BallController.t) (ps : Players.t) :
  Field.linked b -> 0 <= BallController.size b <= 50 ->
  (BallController.scored b = true -> Field.ball_inside b) ->
  exists b' ps',
    Root_BallController.update dt b ps = Some (b', ps') /\
    Field.ball_inside b' /\
    BallController.size b' = BallController.size b /\
    Field.linked b' /\ Field.same_paddles ps ps'.
Proof.
  intros L Hs Hin. unfold Root_BallController.update.
  destruct (BallController.scored b) eqn:S.
  { exists b, ps. split; [reflexivity|]. split; [apply Hin; reflexivity|].
    split; [reflexivity|]. split; [exact L|apply same_paddles_refl]. }
  cbv zeta. set (bp := BallController.update_physics dt b).
  assert (Lp : Field.linked bp) by exact L.
  assert (Sp : BallController.size bp = BallController.size b) by reflexivity.
  destruct Lp as [Lp1 Lp2]. rewrite Lp1.
  destruct (root_add_collision_keeps Players.P1 bp ps (conj Lp1 Lp2))
    as (b1 & ps1 & E1 & Y1 & Z1 & L1 & P1).
  rewrite E1.
  assert (I1 : Field.ball_inside b1).
  { apply (ball_inside_after bp); [rewrite Sp; exact Hs|exact Y1|exact Z1]. }
  destruct (BallController.scored b1).
  { exists b1, ps1. split; [reflexivity|]. split; [exact I1|].
    split; [congruence|]. split; [exact L1|exact P1]. }
  destruct L1 as [L11 L12]. rewrite L12.
  destruct (root_add_collision_keeps Players.P2 b1 ps1 (conj L11 L12))
    as (b2 & ps2 & E2 & Y2 & Z2 & L2 & P2).
  exists b2, ps2. split; [exact E2|].
  split; [apply (ball_inside_after b1); [|exact Y2|exact Z2];
          rewrite Z1, Sp; exact Hs|].
  split; [congruence|]. split; [exact L2|].
  eapply same_paddles_trans; eassumption.
Qed.

Lemma incl_update_keeps (dt : Q) (b : BallController.t) (ps : Players.t) :
  Field.linked b -> 0 <= BallController.size b <= 50 ->
  (BallController.scored b = true -> Field.ball_inside b) ->
  exists b' ps',
    Incl_BallController.update dt b ps = Some (b', ps') /\
    Field.ball_inside b' /\
    BallController.size b' = BallController.size b /\
    Field.linked b' /\ Field.same_paddles ps ps'.
Proof.
  intros L Hs Hin. unfold Incl_BallController.update.
  destruct (BallController.scored b) eqn:S.
  { exists b, ps. split; [reflexivity|]. split; [apply Hin; reflexivity|].
    split; [reflexivity|]. split; [exact L|apply same_paddles_refl]. }
  cbv zeta. set (bp := BallController.update_physics dt b).
  assert (Lp : Field.linked bp) by exact L.
  assert (Sp : BallController.size bp = BallController.size b) by reflexivity.
  destruct Lp as [Lp1 Lp2]. rewrite Lp1.
  destruct (incl_add_collision_keeps Players.P1 bp ps (conj Lp1 Lp2))
    as (b1 & ps1 & E1 & Y1 & Z1 & L1 & P1).
  rewrite E1.
  assert (I1 : Field.ball_inside b1).
  { apply (ball_inside_after bp); [rewrite Sp; exact Hs|exact Y1|exact Z1]. }
  destruct (BallController.scored b1).
  { exists b1, ps1. split; [reflexivity|]. split; [exact I1|].
    split; [congruence|]. split; [exact L1|exact P1]. }
  destruct L1 as [L11 L12]. rewrite L12.
  destruct (incl_add_collision_keeps Players.P2 b1 ps1 (conj L11 L12))
    as (b2 & ps2 & E2 & Y2 & Z2 & L2 & P2).
  exists b2, ps2. split; [exact E2|].
  split; [apply (ball_inside_after b1); [|exact Y2|exact Z2];
          rewrite Z1, Sp; exact Hs|].
  split; [congruence|]. split; [exact L2|].
  eapply same_paddles_trans; eassumption.
Qed.

(** X9.  One tick of a ball in play whose two pointers are set, in either
    file: [update] dereferences no null pointer, and afterwards the ball
    does not reach past the walls at [y = 50] and [y = -50], whatever its
    speed and the length of the tick; its size is unchanged, and the
    paddles are as before but for [score] and [pulse_timer]. *)
Theorem ball_update_inside (dt : Q) (b : BallController.t)
    (ps : Players.t) :
  BallController.scored b = false ->
  Field.linked b ->
  0 <= BallController.size b <= 50 ->
  (exists b' ps',
     Root_BallController.update dt b ps = Some (b', ps') /\
     Field.ball_inside b' /\
     BallController.size b' = BallController.size b /\
     Field.same_paddles ps ps') /\
  (exists b' ps',
     Incl_BallController.update dt b ps = Some (b', ps') /\
     Field.ball_inside b' /\
     BallController.size b' = BallController.size b /\
     Field.same_paddles ps ps').
Proof.
  intros S L H. split.
  - destruct (root_update_keeps dt b ps L H) as (b' & ps' & E & I & Z & _ & P).
    { rewrite S. discriminate. }
    exists b', ps'. auto.
  - destruct (incl_update_keeps dt b ps L H) as (b' & ps' & E & I & Z & _ & P).
    { rewrite S. discriminate. }
    exists b', ps'. auto.
Qed.

(** The theorem on a fast ball just below the top wall, for a tick of a
    tenth of a second. *)
Lemma ball_update_inside_witness :
  let b := Scenario.ball_at 0 48 95 400 in
  (BallController.scored b = false /\ Field.linked b /\
   0 <= BallController.size b <= 50) /\
  exists b' ps',
    Root_BallController.update 0.1 b Scenario.root_players = Some (b', ps') /\
    Field.ball_inside b'.
Proof.
  intros b.
  assert (H : 0 <= BallController.size b <= 50) by (split; discriminate).
  split; [split; [reflexivity|split; [split; reflexivity|exact H]]|].
  destruct (ball_update_inside 0.1 b Scenario.root_players eq_refl
              (conj eq_refl eq_refl) H) as [(b' & ps' & E & I & _) _].
  exists b', ps'. split; [exact E|exact I].
Defined.

Lemma add_collision_inside (p : Player.t) :
  0 <= Player.height p <= 50 ->
  Field.paddle_inside (Player.add_collision p).
Proof.
  intros H. unfold Field.paddle_inside, Player.add_collision. cbv zeta.
  repeat (float_case; cbn in * ); lra.
Qed.

Lemma root_step_inside (RAND_MAX : Z) (bt : input.Buttons) (dt : Q)
    (ball_pos ball_vel : Vector2.t) (difficulty : Z) (p : Player.t)
    (s : list Z) :
  0 <= Player.height p <= 50 ->
  Field.paddle_inside
    (fst (Root_Player.step RAND_MAX bt dt ball_pos ball_vel difficulty p s)).
Proof.
  intros H. unfold Root_Player.step, Rand.bind, Rand.ret.
  pose proof (drive_height RAND_MAX bt dt ball_pos ball_vel difficulty p s)
    as Hh.
  destruct (Player.drive RAND_MAX bt dt ball_pos ball_vel difficulty p s)
    as [q s']. cbn [fst] in *.
  apply add_collision_inside. rewrite Hh. exact H.
Qed.

Lemma incl_step_inside (RAND_MAX : Z) (bt : input.Buttons) (dt : Q)
    (ball_pos ball_vel : Vector2.t) (difficulty : Z) (p : Player.t)
    (s : list Z) :
  0 <= Player.height p <= 50 ->
  Field.paddle_inside
    (fst (Incl_Player.step RAND_MAX bt dt ball_pos ball_vel difficulty p s)).
Proof.
  intros H. unfold Incl_Player.step, Rand.bind, Rand.ret.
  pose proof (drive_height RAND_MAX bt dt ball_pos ball_vel difficulty p s)
    as Hh.
  destruct (Player.drive RAND_MAX bt dt ball_pos ball_vel difficulty p s)
    as [q s']. cbn [fst] in *.
  assert (I : Field.paddle_inside (Player.add_collision q))
    by (apply add_collision_inside; rewrite Hh; exact H).
  destruct (Player.pulse_timer (Player.add_collision q) >? 0); exact I.
Qed.



(** ** The flash *)

Lemma flash_updates_inactive (dts : list Q) (f : FlashEffect.t) :
  FlashEffect.active f = false ->
  foldl (fun f dt => FlashEffect.update dt f) f dts = f.
Proof.
  revert f. induction dts as [|dt dts IH]; intros f A; [reflexivity|].
  cbn. unfold FlashEffect.update at 2. rewrite A. cbn. apply IH, A.
Qed.

Lemma elapsed_nonneg (dts : list Q) :
  Forall (fun dt => 0 <= dt) dts -> 0 <= Burst.elapsed dts.
Proof.
  induction 1 as [|dt dts H _ IH]; cbn; [discriminate|].
  unfold Burst.elapsed in IH. lra.
Qed.

Lemma flash_fades_from (dts : list Q) (f : FlashEffect.t) :
  0 <= FlashEffect.fade_speed f ->
  Forall (fun dt => 0 <= dt) dts ->
  FlashEffect.active f = true -> 0 < FlashEffect.alpha f ->
  let f' := foldl (fun f dt => FlashEffect.update dt f) f dts in
  let rest := FlashEffect.alpha f - FlashEffect.fade_speed f * Burst.elapsed dts in
  FlashEffect.fade_speed f' = FlashEffect.fade_speed f /\
  FlashEffect.renderer f' = FlashEffect.renderer f /\
  (0 < rest -> FlashEffect.active f' = true /\ FlashEffect.alpha f' == rest) /\
  (rest <= 0 -> FlashEffect.active f' = false /\ FlashEffect.alpha f' = 0).
Proof.
  intros Hs Hd. revert f Hs.
  induction Hd as [|dt dts Hdt Hd IH]; intros f Hs A Ha; cbv zeta.
  - cbn. split; [reflexivity|]. split; [reflexivity|]. split; intros H.
    + split; [exact A|ring].
    + lra.
  - cbn [foldl]. pose proof (elapsed_nonneg dts Hd) as Hn.
    change (Burst.elapsed (dt :: dts)) with (dt + Burst.elapsed dts).
    assert (U : FlashEffect.update dt f =
                if FlashEffect.alpha f - dt * FlashEffect.fade_speed f <=? 0
                then FlashEffect.mk (FlashEffect.renderer f) 0 false
                       (FlashEffect.fade_speed f)
                else FlashEffect.mk (FlashEffect.renderer f)
                       (FlashEffect.alpha f - dt * FlashEffect.fade_speed f)
                       (FlashEffect.active f) (FlashEffect.fade_speed f)).
    { unfold FlashEffect.update. rewrite A. reflexivity. }
    rewrite U. clear U.
    destruct (FlashEffect.alpha f - dt * FlashEffect.fade_speed f <=? 0)
      eqn:C; [apply leb_true in C | apply leb_false in C].
    + rewrite flash_updates_inactive by reflexivity. cbn.
      split; [reflexivity|]. split; [reflexivity|].
      assert (P : 0 <= FlashEffect.fade_speed f * Burst.elapsed dts).
      { apply Qmult_le_0_compat; assumption. }
      split; intros H; [lra|split; reflexivity].
    + specialize (IH (FlashEffect.mk (FlashEffect.renderer f)
                        (FlashEffect.alpha f - dt * FlashEffect.fade_speed f)
                        (FlashEffect.active f) (FlashEffect.fade_speed f))
                     Hs A C).
      cbv zeta in IH. cbn [FlashEffect.fade_speed FlashEffect.alpha
                           FlashEffect.renderer] in IH.
      destruct IH as (I1 & I2 & I3 & I4).
      split; [exact I1|]. split; [exact I2|]. split; intros H.
      * destruct I3 as [J1 J2]; [lra|]. split; [exact J1|].
        rewrite J2. ring.
      * apply I4. lra.
Qed.

(** X11.  A flash from [start] on, updated with ticks of non-negative
    length, for a non-negative [fade_speed], after any number of ticks:
    [alpha] lies in [[0, 1]]; the flash is finished exactly when [alpha]
    is 0; and [fade_speed] is the one it had.  A further tick never
    raises [alpha]; it finishes the flash when [dt * fade_speed] is at
    least the [alpha] left; and it changes nothing once the flash is
    finished. *)
Theorem flash_fades (dts : list Q) (f : FlashEffect.t) :
  0 <= FlashEffect.fade_speed f ->
  Forall (fun dt => 0 <= dt) dts ->
  let f' := foldl (fun f dt => FlashEffect.update dt f)
                  (FlashEffect.start f) dts in
  0 <= FlashEffect.alpha f' <= 1 /\
  (FlashEffect.finished f' = true <-> FlashEffect.alpha f' == 0) /\
  FlashEffect.fade_speed f' = FlashEffect.fade_speed f /\
  (forall dt, 0 <= dt ->
     let f'' := FlashEffect.update dt f' in
     FlashEffect.alpha f'' <= FlashEffect.alpha f' /\
     (FlashEffect.alpha f' <= dt * FlashEffect.fade_speed f ->
      FlashEffect.finished f'' = true) /\
     (FlashEffect.finished f' = true -> f'' = f')).
Proof.
  intros Hs Hd. cbv zeta.
  destruct (flash_fades_from dts (FlashEffect.start f) Hs Hd eq_refl eq_refl)
    as (Sp & _ & I3 & I4).
  cbn [FlashEffect.start FlashEffect.alpha FlashEffect.fade_speed] in Sp, I3, I4.
  pose proof (elapsed_nonneg dts Hd) as Hn.
  assert (P : 0 <= FlashEffect.fade_speed f * Burst.elapsed dts).
  { apply Qmult_le_0_compat; assumption. }
  set (f' := foldl (fun f dt => FlashEffect.update dt f)
                   (FlashEffect.start f) dts) in *.
  assert (R : (FlashEffect.active f' = true /\ 0 < FlashEffect.alpha f' <= 1)
              \/ (FlashEffect.active f' = false /\ FlashEffect.alpha f' = 0)).
  { destruct (Qlt_le_dec 0 (1 - FlashEffect.fade_speed f * Burst.elapsed dts))
      as [L | L].
    - left. destruct (I3 L) as [A E]. split; [exact A|]. rewrite E. lra.
    - right. apply I4, L. }
  clearbody f'. unfold FlashEffect.finished.
  split; [destruct R as [[_ R]|[_ R]]; [lra|rewrite R; split; discriminate]|].
  split.
  { destruct R as [[A R]|[A R]]; rewrite A; cbn.
    - split; [discriminate|]. intros E. lra.
    - split; [intros _; rewrite R; reflexivity|reflexivity]. }
  split; [exact Sp|].
  intros dt Hdt. unfold FlashEffect.update.
  destruct R as [[A R]|[A R]]; rewrite A; cbn [negb].
  - rewrite Sp.
    destruct (FlashEffect.alpha f' - dt * FlashEffect.fade_speed f <=? 0)
      eqn:C; [apply leb_true in C|apply leb_false in C]; cbn.
    + split; [lra|]. split; [reflexivity|discriminate].
    + assert (0 <= dt * FlashEffect.fade_speed f)
        by (apply Qmult_le_0_compat; assumption).
      split; [lra|]. split; [intros H1; lra|discriminate].
  - split; [apply Qle_refl|].
    split; [intros _; rewrite A; reflexivity|intros _; reflexivity].
Qed.

(** The theorem on the flash of the window, after ticks of 0.1, 0.1 and
    0.2 seconds. *)
Lemma flash_fades_witness :
  let f := FlashEffect.mk true 0 false 3 in
  (0 <= FlashEffect.fade_speed f /\
   Forall (fun dt => 0 <= dt) [0.1; 0.1; 0.2]) /\
  0 <= FlashEffect.alpha
         (foldl (fun f dt => FlashEffect.update dt f) (FlashEffect.start f)
                [0.1; 0.1; 0.2]) <= 1.
Proof.
  intros f.
  assert (H : Forall (fun dt => 0 <= dt) [0.1; 0.1; 0.2])
    by (repeat constructor; discriminate).
  assert (S : 0 <= FlashEffect.fade_speed f) by discriminate.
  split; [split; [exact S|exact H]|].
  destruct (flash_fades [0.1; 0.1; 0.2] f S H) as [R _]. exact R.
Defined.

(** ** What the main loop of src/game.hpp keeps *)

Ltac root_proj :=
  cbn [Root_Window.settings Root_Window.menu_index Root_Window.players
       Root_Window.ball Root_Window.particle_burst Root_Window.flash
       Root_Window.in_celebration Root_Window.celebration_time
       Root_Window.running Root_Window.draws
       Root_Window.set_settings Root_Window.set_menu_index
       Root_Window.set_players Root_Window.set_ball
       Root_Window.set_particle_burst Root_Window.set_flash
       Root_Window.set_in_celebration Root_Window.set_celebration_time
       Root_Window.set_running Root_Window.set_draws
       Root_Window.set_menu_state
       Root_Settings.settings_index Root_Settings._ball_speed
       Root_Settings._paddle_speed Root_Settings._paddle_damping
       Root_Settings._ai_difficulty Root_Settings.ball_speed
       Root_Settings.paddle_speed Root_Settings.paddle_damping
       Root_Settings.ai_difficulty Root_Settings.menu_state
       Players.player1 Players.player2 Ball.controller Ball.color] in *.

Lemma field_weaken (P Q : Prop) (ball : Ball.t) (ps : Players.t) :
  (Q -> P) -> Kept.field P ball ps -> Kept.field Q ball ps.
Proof. intros H (A & B). split; [auto|exact B]. Qed.

Lemma paddle_inside_same (p q : Player.t) :
  Field.same_paddle p q -> Field.paddle_inside p -> Field.paddle_inside q.
Proof.
  intros (C & _ & _ & _ & H & _). unfold Field.paddle_inside.
  rewrite C, H. auto.
Qed.

Lemma paddle_inside_reset (p : Player.t) :
  Field.paddle_inside p -> Field.paddle_inside (Player.reset p).
Proof. unfold Field.paddle_inside. cbn. intros [H _]. lra. Qed.

Lemma ball_inside_reset (b : Ball.t) :
  Field.ball_inside (Ball.controller b) ->
  Field.ball_inside (Ball.controller (Ball.reset b)).
Proof. unfold Field.ball_inside. cbn. intros [H _]. lra. Qed.

Lemma root_update_players_spec (RAND_MAX : Z) (bt : input.Buttons) (dt : Q)
    (d : Z) (w : Root_Window.t) :
  Field.paddle_inside (Players.player1 (Root_Window.players w)) ->
  Field.paddle_inside (Players.player2 (Root_Window.players w)) ->
  exists p1 p2 ds,
    Root_Window.update_players RAND_MAX bt dt d w =
    Root_Window.set_draws ds
      (Root_Window.set_players (Players.mk p1 p2) w) /\
    Field.paddle_inside p1 /\ Field.paddle_inside p2.
Proof.
  intros [H1 _] [H2 _]. unfold Root_Window.update_players. cbv zeta.
  pose proof (root_step_inside RAND_MAX bt dt
    (BallController.pos (Ball.controller (Root_Window.ball w)))
    (BallController.vel (Ball.controller (Root_Window.ball w))) d
    (Players.player1 (Root_Window.players w)) (Root_Window.draws w) H1) as I1.
  destruct (Root_Player.step _ _ _ _ _ _ _ _) as [p1 d1].
  pose proof (root_step_inside RAND_MAX bt dt
    (BallController.pos (Ball.controller (Root_Window.ball w)))
    (BallController.vel (Ball.controller (Root_Window.ball w))) d
    (Players.player2 (Root_Window.players w)) d1 H2) as I2.
  destruct (Root_Player.step _ _ _ _ _ _ _ _) as [p2 d2].
  exists p1, p2, d2. split; [reflexivity|]. split; assumption.
Qed.

Lemma root_play_or_celebrate_kept (RAND_MAX : Z) (cosf sinf : Q -> Q)
    (bt : input.Buttons) (dt : Q) (w : Root_Window.t) :
  Kept.field True (Root_Window.ball w) (Root_Window.players w) ->
  exists w1,
    Root_Window.play_or_celebrate RAND_MAX cosf sinf bt dt w = Some w1 /\
    Kept.field True (Root_Window.ball w1) (Root_Window.players w1) /\
    Root_Window.settings w1 = Root_Window.settings w /\
    Root_Window.menu_index w1 = Root_Window.menu_index w.
Proof.
  intros (L & B & P1 & P2). specialize (L I).
  unfold Root_Window.play_or_celebrate.
  destruct (negb (Root_Window.in_celebration w)).
  - destruct (root_update_players_spec RAND_MAX bt dt
                (Root_Settings.ai_difficulty (Root_Window.settings w)) w P1 P2)
      as (p1 & p2 & ds & E & I1 & I2).
    cbv zeta. rewrite E. root_proj.
    destruct (root_update_keeps dt (Ball.controller (Root_Window.ball w))
                (Players.mk p1 p2) L (proj1 B) (fun _ => B))
      as (c & ps & U & Bc & Zc & Lc & [S1 S2]).
    rewrite U.
    assert (F : Kept.field True (Ball.mk c (Ball.color (Root_Window.ball w)))
                  ps).
    { split; [intros _; exact Lc|]. split; [exact Bc|].
      split; [exact (paddle_inside_same _ _ S1 I1)|
              exact (paddle_inside_same _ _ S2 I2)]. }
    destruct (BallController.scored c).
    + destruct (ParticleBurst.start _ _ _ _ _ _ _) as [pb d].
      eexists. split; [reflexivity|]. root_proj. auto.
    + eexists. split; [reflexivity|]. root_proj. auto.
  - cbv zeta. root_proj.
    destruct (_ && _).
    + eexists. split; [reflexivity|]. root_proj.
      split; [|split; reflexivity].
      split; [intros _; exact L|]. split; [apply ball_inside_reset, B|].
      split; apply paddle_inside_reset; assumption.
    + eexists. split; [reflexivity|]. root_proj.
      split; [|split; reflexivity].
      split; [intros _; exact L|]. auto.
Qed.

Lemma root_playing_kept (RAND_MAX : Z) (cosf sinf : Q -> Q)
    (bt : input.Buttons) (dt : Q) (w : Root_Window.t) :
  Kept.field True (Root_Window.ball w) (Root_Window.players w) ->
  exists w1 m,
    Root_Window.playing RAND_MAX cosf sinf bt dt w = Some w1 /\
    Kept.field True (Root_Window.ball w1) (Root_Window.players w1) /\
    Root_Window.settings w1 =
    Root_Window.settings (Root_Window.set_menu_state m w) /\
    Root_Window.menu_index w1 = Root_Window.menu_index w.
Proof.
  intros F. unfold Root_Window.playing.
  destruct (root_play_or_celebrate_kept RAND_MAX cosf sinf bt dt w F)
    as (w1 & E & F1 & S1 & M1).
  rewrite E.
  assert (G : exists w2,
    (if Root_Window.in_celebration w1
     then Root_Window.update_players RAND_MAX bt dt AIDifficulty.Medium w1
     else w1) = w2 /\
    Kept.field True (Root_Window.ball w2) (Root_Window.players w2) /\
    Root_Window.settings w2 = Root_Window.settings w /\
    Root_Window.menu_index w2 = Root_Window.menu_index w).
  { destruct (Root_Window.in_celebration w1).
    - destruct F1 as (L & B & P1 & P2).
      destruct (root_update_players_spec RAND_MAX bt dt AIDifficulty.Medium
                  w1 P1 P2) as (p1 & p2 & ds & U & I1 & I2).
      rewrite U. eexists. split; [reflexivity|]. root_proj.
      split; [|split; assumption]. split; [exact L|]. auto.
    - exists w1. auto. }
  destruct G as (w2 & -> & F2 & S2 & M2). cbv zeta.
  destruct (input.is_pressed bt input.BUTTON_ENTER).
  - exists (Root_Window.set_menu_state MENU_MAIN w2), MENU_MAIN.
    split; [reflexivity|]. root_proj. rewrite S2.
    split; [exact F2|]. split; [reflexivity|exact M2].
  - exists w2, (Root_Settings.menu_state (Root_Window.settings w)).
    split; [reflexivity|]. split; [exact F2|]. split; [|exact M2].
    rewrite S2. root_proj. destruct (Root_Window.settings w). reflexivity.
Qed.

Ltac fm_bound :=
  match goal with
  | |- context [fmax ?a ?b] =>
      let E := fresh "E" in
      destruct (fmax_spec a b) as (? & ? & [E | E]); rewrite E in *; lra
  | |- context [fmin ?a ?b] =>
      let E := fresh "E" in
      destruct (fmin_spec a b) as (? & ? & [E | E]); rewrite E in *; lra
  end.

Lemma root_values_frame (bt : input.Buttons) (s : Root_Settings.t) :
  Kept.root_values s -> Kept.root_values (Root_Settings.frame bt s).
Proof.
  intros (I & B & P & D & A & _).
  unfold Root_Settings.n_labels in I.
  unfold Root_Settings.frame.
  set (s1 := Root_Settings.nav_down bt (Root_Settings.nav_up bt s)).
  assert (N : (0 <= Root_Settings.settings_index s1 < 5)%Z /\
              Root_Settings._ball_speed s1 = Root_Settings._ball_speed s /\
              Root_Settings._paddle_speed s1 = Root_Settings._paddle_speed s /\
              Root_Settings._paddle_damping s1 =
              Root_Settings._paddle_damping s /\
              Root_Settings._ai_difficulty s1 =
              Root_Settings._ai_difficulty s).
  { unfold s1, Root_Settings.nav_down, Root_Settings.nav_up,
      Root_Settings.n_labels.
    destruct (_ || _); destruct (_ || _); cbn;
      repeat match goal with
             | |- context [(?a <? ?c)%Z] => destruct (Z.ltb_spec a c)
             | |- context [(?a >=? ?c)%Z] =>
                 rewrite (Z.geb_leb a c); destruct (Z.leb_spec c a)
             end; cbn; repeat split; try reflexivity; lia. }
  clearbody s1. destruct N as (I1 & E1 & E2 & E3 & E4).
  rewrite <- E1 in B. rewrite <- E2 in P. rewrite <- E3 in D.
  rewrite <- E4 in A. clear E1 E2 E3 E4 I s.
  set (s2 := Root_Settings.press_left bt s1).
  assert (L : (0 <= Root_Settings.settings_index s2 < 5)%Z /\
              0.5 <= Root_Settings._ball_speed s2 <= 3 /\
              0.5 <= Root_Settings._paddle_speed s2 <= 3 /\
              0.8 <= Root_Settings._paddle_damping s2 <= 2 /\
              (0 <= Root_Settings._ai_difficulty s2 <= 4)%Z).
  { unfold s2, Root_Settings.press_left.
    destruct (input.is_pressed bt input.BUTTON_LEFT_ARROW); [|auto].
    repeat match goal with
           | |- context [(?a =? ?c)%Z] => destruct (a =? c)%Z
           end; cbn; repeat split; try lia; try tauto;
      try fm_bound. }
  clearbody s2. clear I1 B P D A s1. destruct L as (I & B & P & D & A).
  set (s3 := Root_Settings.press_right bt s2).
  assert (R : (0 <= Root_Settings.settings_index s3 < 5)%Z /\
              0.5 <= Root_Settings._ball_speed s3 <= 3 /\
              0.5 <= Root_Settings._paddle_speed s3 <= 3 /\
              0.8 <= Root_Settings._paddle_damping s3 <= 2 /\
              (0 <= Root_Settings._ai_difficulty s3 <= 4)%Z).
  { unfold s3, Root_Settings.press_right.
    destruct (input.is_pressed bt input.BUTTON_RIGHT_ARROW); [|auto].
    repeat match goal with
           | |- context [(?a =? ?c)%Z] => destruct (a =? c)%Z
           end; cbn; repeat split; try lia; try tauto;
      try fm_bound. }
  clearbody s3. clear I B P D A s2. destruct R as (I & B & P & D & A).
  unfold Root_Settings.press_enter, Root_Settings.publish, Kept.root_values,
    Root_Settings.n_labels.
  destruct (input.is_pressed bt input.BUTTON_ENTER);
    [destruct (_ =? _)%Z|]; cbn; repeat split; try lia; try tauto; lra.
Qed.

Lemma root_values_menu_state (m : MenuState) (w : Root_Window.t) :
  Kept.root_values (Root_Window.settings w) ->
  Kept.root_values (Root_Window.settings (Root_Window.set_menu_state m w)).
Proof. intros H. exact H. Qed.

Lemma root_start_match_kept (ai2 : bool) (w : Root_Window.t) :
  Kept.root_cursors w -> Kept.root_values (Root_Window.settings w) ->
  Kept.root_field (Root_Window.start_match ai2 w) /\
  Kept.root_cursors (Root_Window.start_match ai2 w) /\
  Kept.root_values (Root_Window.settings (Root_Window.start_match ai2 w)).
Proof.
  intros C V. split; [|split; [exact C|exact V]].
  unfold Kept.root_field, Kept.field, Field.linked, Field.ball_inside,
    Field.paddle_inside, Root_Window.start_match. cbn.
  repeat split; discriminate.
Qed.

Lemma root_main_menu_kept (bt : input.Buttons) (w : Root_Window.t) :
  Kept.root_field w -> Kept.root_cursors w ->
  Kept.root_values (Root_Window.settings w) ->
  Root_Settings.menu_state (Root_Window.settings w) = MENU_MAIN ->
  Kept.root_field (Root_Window.main_menu bt w) /\
  Kept.root_cursors (Root_Window.main_menu bt w) /\
  Kept.root_values (Root_Window.settings (Root_Window.main_menu bt w)).
Proof.
  intros F C V M. unfold Root_Window.main_menu.
  set (w1 := if input.is_pressed bt input.BUTTON_UP_ARROW ||
                input.is_pressed bt input.BUTTON_UP then _ else w).
  assert (H1 : Kept.root_field w1 /\ Kept.root_cursors w1 /\
               Kept.root_values (Root_Window.settings w1) /\
               Root_Settings.menu_state (Root_Window.settings w1) = MENU_MAIN).
  { unfold w1. destruct (_ || _); [|auto]. cbv zeta.
    split; [exact F|]. split; [|split; [exact V|exact M]].
    unfold Kept.root_cursors, Root_Window.n_items in *. root_proj.
    destruct (Z.ltb_spec (Root_Window.menu_index w - 1) 0); lia. }
  clearbody w1. clear F C V M. destruct H1 as (F & C & V & M).
  cbv zeta.
  set (w2 := if input.is_pressed bt input.BUTTON_DOWN_ARROW ||
                input.is_pressed bt input.BUTTON_DOWN then _ else w1).
  assert (H2 : Kept.root_field w2 /\ Kept.root_cursors w2 /\
               Kept.root_values (Root_Window.settings w2) /\
               Root_Settings.menu_state (Root_Window.settings w2) = MENU_MAIN).
  { unfold w2. destruct (_ || _); [|auto]. cbv zeta.
    split; [exact F|]. split; [|split; [exact V|exact M]].
    unfold Kept.root_cursors, Root_Window.n_items in *. root_proj.
    rewrite Z.geb_leb.
    destruct (Z.leb_spec 4 (Root_Window.menu_index w1 + 1)); lia. }
  clearbody w2. clear F C V M w1. destruct H2 as (F & C & V & M).
  destruct (input.is_pressed bt input.BUTTON_ENTER); [|auto].
  destruct (_ =? 0)%Z; [apply root_start_match_kept; assumption|].
  destruct (_ =? 1)%Z; [apply root_start_match_kept; assumption|].
  assert (G : forall m, m <> MENU_PLAYING ->
            Kept.root_field (Root_Window.set_menu_state m w2)).
  { intros m Hm. unfold Kept.root_field in *. root_proj.
    destruct F as (_ & F). split; [intros E; contradiction|exact F]. }
  destruct (_ =? 2)%Z; [split; [apply G; discriminate|auto]|].
  destruct (_ =? 3)%Z; auto.
Qed.

Lemma root_settings_frame_menu (bt : input.Buttons) (s : Root_Settings.t) :
  Root_Settings.menu_state (Root_Settings.frame bt s) = MENU_MAIN \/
  Root_Settings.menu_state (Root_Settings.frame bt s) =
  Root_Settings.menu_state s.
Proof.
  unfold Root_Settings.frame, Root_Settings.publish. cbn.
  assert (N : Root_Settings.menu_state
                (Root_Settings.press_right bt
                   (Root_Settings.press_left bt
                      (Root_Settings.nav_down bt (Root_Settings.nav_up bt s))))
              = Root_Settings.menu_state s).
  { unfold Root_Settings.press_right, Root_Settings.press_left,
      Root_Settings.nav_down, Root_Settings.nav_up.
    repeat match goal with
           | |- context [if ?c then _ else _] => destruct c
           end; reflexivity. }
  unfold Root_Settings.press_enter.
  destruct (input.is_pressed bt input.BUTTON_ENTER);
    [destruct (_ =? _)%Z|]; cbn; auto.
Qed.

Lemma root_frame_kept (RAND_MAX : Z) (cosf sinf : Q -> Q)
    (bt : input.Buttons) (dt : Q) (w : Root_Window.t) :
  Kept.root_field w -> Kept.root_cursors w ->
  Kept.root_values (Root_Window.settings w) ->
  exists w',
    Root_Window.frame RAND_MAX cosf sinf bt dt w = Some w' /\
    Kept.root_field w' /\ Kept.root_cursors w' /\
    Kept.root_values (Root_Window.settings w').
Proof.
  intros F C V. unfold Root_Window.frame.
  destruct (Root_Settings.menu_state (Root_Window.settings w)) eqn:M.
  - eexists. split; [reflexivity|]. apply root_main_menu_kept; assumption.
  - eexists. split; [reflexivity|]. root_proj.
    split; [|split; [exact C|apply root_values_frame, V]].
    unfold Kept.root_field in *. root_proj.
    destruct F as (L & F). split; [|exact F].
    intros E. exfalso.
    destruct (root_settings_frame_menu bt (Root_Window.settings w))
      as [E' | E']; rewrite E' in E; [|rewrite M in E]; discriminate.
  - assert (F1 : Kept.field True (Root_Window.ball w) (Root_Window.players w)).
    { destruct F as (L & F). split; [intros _; apply L; exact M|exact F]. }
    destruct (root_playing_kept RAND_MAX cosf sinf bt dt w F1)
      as (w1 & m & E & F2 & S & Mi).
    exists w1. split; [exact E|].
    split; [eapply field_weaken; [|exact F2]; auto|].
    split; [unfold Kept.root_cursors in *; rewrite Mi; exact C|].
    rewrite S. exact V.
  - exists w. auto.
Qed.

Lemma root_steps_kept (RAND_MAX : Z) (cosf sinf : Q -> Q)
    (inputs : list (input.Buttons * Q)) (w : Root_Window.t) :
  Kept.root_field w -> Kept.root_cursors w ->
  Kept.root_values (Root_Window.settings w) ->
  exists w',
    Root_Window.steps RAND_MAX cosf sinf inputs w = Some w' /\
    Kept.root_field w' /\ Kept.root_cursors w' /\
    Kept.root_values (Root_Window.settings w').
Proof.
  revert w. induction inputs as [|[bt dt] rest IH]; intros w F C V.
  - exists w. auto.
  - cbn. destruct (Root_Window.running w); [|exists w; auto].
    destruct (root_frame_kept RAND_MAX cosf sinf bt dt w F C V)
      as (w1 & E & F1 & C1 & V1).
    rewrite E. apply IH; assumption.
Qed.

Lemma root_initial_kept (uninit : Z) (ds : list Z) :
  Kept.root_field (Root_Window.initial uninit ds) /\
  Kept.root_cursors (Root_Window.initial uninit ds) /\
  Kept.root_values (Root_Window.settings (Root_Window.initial uninit ds)).
Proof.
  unfold Kept.root_field, Kept.field, Kept.root_cursors, Kept.root_values,
    Field.ball_inside, Field.paddle_inside. cbn.
  repeat split; try discriminate; try lia.
Qed.

(** ** What the main loop of src/include/game.hpp keeps *)

Lemma round_to_between (v : Q) (lo hi : Z) :
  inject_Z lo / 10 <= v <= inject_Z hi / 10 ->
  inject_Z lo / 10 <= utils.round_to v 1 <= inject_Z hi / 10.
Proof.
  intros [L H].
  assert (E1 : inject_Z lo / 10 * 10 == inject_Z lo) by field.
  assert (E2 : inject_Z hi / 10 * 10 == inject_Z hi) by field.
  set (a := inject_Z lo / 10) in *. set (b := inject_Z hi / 10) in *.
  destruct (round_to_range v lo hi) as [A B]; [lra|]. lra.
Qed.

Lemma round_to_08_2 (v : Q) :
  0.8 <= v <= 2 -> 0.8 <= utils.round_to v 1 <= 2.
Proof.
  intros H. destruct (round_to_between v 8 20) as [A B].
  - split; [apply Qle_trans with 0.8|apply Qle_trans with 2];
      try apply H; discriminate.
  - split; [apply Qle_trans with (inject_Z 8 / 10)|
            apply Qle_trans with (inject_Z 20 / 10)];
      try assumption; discriminate.
Qed.

Lemma round_to_05_3 (v : Q) :
  0.5 <= v <= 3 -> 0.5 <= utils.round_to v 1 <= 3.
Proof.
  intros H. destruct (round_to_between v 5 30) as [A B].
  - split; [apply Qle_trans with 0.5|apply Qle_trans with 3];
      try apply H; discriminate.
  - split; [apply Qle_trans with (inject_Z 5 / 10)|
            apply Qle_trans with (inject_Z 30 / 10)];
      try assumption; discriminate.
Qed.

Lemma round_to_0_1 (v : Q) :
  0 <= v <= 1 -> 0 <= utils.round_to v 1 <= 1.
Proof.
  intros H. destruct (round_to_between v 0 10) as [A B].
  - split; [apply Qle_trans with 0|apply Qle_trans with 1];
      try apply H; discriminate.
  - split; [apply Qle_trans with (inject_Z 0 / 10)|
            apply Qle_trans with (inject_Z 10 / 10)];
      try assumption; discriminate.
Qed.

Lemma round_to_step (v d lo hi : Q) (zlo zhi : Z) :
  lo <= v <= hi ->
  inject_Z zlo / 10 <= lo + d -> hi + d <= inject_Z zhi / 10 ->
  inject_Z zlo / 10 <= utils.round_to (v + d) 1 <= inject_Z zhi / 10.
Proof.
  intros H L U. apply round_to_between. lra.
Qed.

Lemma q_of_tenths (n : Z) (q : Q) :
  q * 10 == inject_Z n -> inject_Z n / 10 == q.
Proof. intros H. rewrite <- H. field. Qed.

Lemma left_in_range (v lo hi : Q) (zlo zhi : Z) :
  lo * 10 == inject_Z (zlo + 1) -> hi * 10 == inject_Z zhi ->
  lo <= v <= hi ->
  lo <= fmax lo (utils.round_to (v - 0.1) 1) <= hi.
Proof.
  intros El Eh H.
  destruct (round_to_between (v - 0.1) zlo zhi) as [A B].
  { rewrite inject_Z_plus in El. change (inject_Z 1) with 1 in El.
    assert (E1 : inject_Z zlo / 10 * 10 == inject_Z zlo) by field.
    assert (E2 : inject_Z zhi / 10 * 10 == inject_Z zhi) by field.
    set (a := inject_Z zlo / 10) in *. set (b := inject_Z zhi / 10) in *.
    lra. }
  rewrite (q_of_tenths zhi hi Eh) in B.
  destruct (fmax_spec lo (utils.round_to (v - 0.1) 1)) as (X & Y & [E | E]);
    rewrite E in *; lra.
Qed.

Lemma right_in_range (v lo hi top : Q) (zlo zhi : Z) :
  lo * 10 == inject_Z zlo -> hi * 10 == inject_Z (zhi - 1) -> top == hi ->
  lo <= v <= hi ->
  lo <= fmin top (utils.round_to (v + 0.1) 1) <= hi.
Proof.
  intros El Eh Et H.
  destruct (round_to_between (v + 0.1) zlo zhi) as [A B].
  { unfold Zminus in Eh. rewrite inject_Z_plus in Eh.
    rewrite inject_Z_opp in Eh. change (inject_Z 1) with 1 in Eh.
    assert (E1 : inject_Z zlo / 10 * 10 == inject_Z zlo) by field.
    assert (E2 : inject_Z zhi / 10 * 10 == inject_Z zhi) by field.
    set (a := inject_Z zlo / 10) in *. set (b := inject_Z zhi / 10) in *.
    lra. }
  rewrite (q_of_tenths zlo lo El) in A.
  destruct (fmin_spec top (utils.round_to (v + 0.1) 1)) as (X & Y & [E | E]);
    rewrite E in *; lra.
Qed.

Lemma left_speed (v : Q) :
  0.5 <= v <= 3 -> 0.5 <= fmax 0.5 (utils.round_to (v - 0.1) 1) <= 3.
Proof. apply (left_in_range v 0.5 3 4 30); reflexivity. Qed.

Lemma right_speed (v : Q) :
  0.5 <= v <= 3 -> 0.5 <= fmin 3.0 (utils.round_to (v + 0.1) 1) <= 3.
Proof. apply (right_in_range v 0.5 3 3.0 5 31); reflexivity. Qed.

Lemma left_damping (v : Q) :
  0.8 <= v <= 2 -> 0.8 <= fmax 0.8 (utils.round_to (v - 0.1) 1) <= 2.
Proof. apply (left_in_range v 0.8 2 7 20); reflexivity. Qed.

Lemma right_damping (v : Q) :
  0.8 <= v <= 2 -> 0.8 <= fmin 2.0 (utils.round_to (v + 0.1) 1) <= 2.
Proof. apply (right_in_range v 0.8 2 2.0 8 21); reflexivity. Qed.

Lemma left_volume (v : Q) :
  0 <= v <= 1 ->
  0 <= utils.round_to (fmax 0.0 (utils.round_to (v - 0.1) 1)) 1 <= 1.
Proof.
  intros H. apply round_to_0_1.
  pose proof (left_in_range v 0.0 1 (-1) 10 eq_refl eq_refl) as L.
  assert (H' : 0.0 <= v <= 1) by lra. specialize (L H'). lra.
Qed.

Lemma right_volume (v : Q) :
  0 <= v <= 1 ->
  0 <= utils.round_to (fmin 1.0 (utils.round_to (v + 0.1) 1)) 1 <= 1.
Proof.
  intros H. apply round_to_0_1.
  apply (right_in_range v 0 1 1.0 0 11); try reflexivity. exact H.
Qed.

Lemma incl_values_nav (bt : input.Buttons) (s : Incl_Settings.t) :
  Kept.incl_values s ->
  Kept.incl_values (Incl_Settings.nav_down bt (Incl_Settings.nav_up bt s)).
Proof.
  unfold Kept.incl_values, Incl_Settings.nav_down, Incl_Settings.nav_up,
    Incl_Settings.n_labels.
  intros (I & R). 
  destruct (_ || _); destruct (_ || _); cbn;
    repeat match goal with
           | |- context [(?a <? ?c)%Z] => destruct (Z.ltb_spec a c)
           | |- context [(?a >=? ?c)%Z] =>
               rewrite (Z.geb_leb a c); destruct (Z.leb_spec c a)
           end; cbn; (split; [lia|exact R]).
Qed.

Lemma incl_values_left (bt : input.Buttons) (s : Incl_Settings.t) :
  Kept.incl_values s -> Kept.incl_values (Incl_Settings.press_left bt s).
Proof.
  unfold Kept.incl_values, Kept.config_in_range, Incl_Settings.press_left.
  intros (I & B & P & D & G & A & C1 & C2 & C3 & C4 & C5 & C6 & C7).
  destruct (input.is_pressed bt input.BUTTON_LEFT_ARROW); [|tauto].
  cbv zeta.
  repeat match goal with
         | |- context [(?a =? ?c)%Z] => destruct (a =? c)%Z
         end; cbn.
  - pose proof (left_speed _ B). tauto.
  - pose proof (left_speed _ P). tauto.
  - pose proof (left_damping _ D). tauto.
  - assert ((0 <= Z.max 0 (Incl_Settings._ai_difficulty s - 1) <= 4)%Z) by lia.
    tauto.
  - tauto.
  - pose proof (left_volume _ C6). tauto.
  - pose proof (left_volume _ C7). tauto.
  - assert ((5 <= Incl_Settings.u16_wrap
                    (Z.max 5 (Incl_Settings._game_duration_secs s - 1))
             <= 600)%Z).
    { unfold Incl_Settings.u16_wrap. rewrite Z.mod_small; lia. }
    tauto.
  - tauto.
Qed.

Lemma incl_values_right (bt : input.Buttons) (s : Incl_Settings.t) :
  Kept.incl_values s -> Kept.incl_values (Incl_Settings.press_right bt s).
Proof.
  unfold Kept.incl_values, Kept.config_in_range, Incl_Settings.press_right.
  intros (I & B & P & D & G & A & C1 & C2 & C3 & C4 & C5 & C6 & C7).
  destruct (input.is_pressed bt input.BUTTON_RIGHT_ARROW); [|tauto].
  cbv zeta.
  repeat match goal with
         | |- context [(?a =? ?c)%Z] => destruct (a =? c)%Z
         end; cbn.
  - pose proof (right_speed _ B). tauto.
  - pose proof (right_speed _ P). tauto.
  - pose proof (right_damping _ D). tauto.
  - assert ((0 <= Z.min 4 (Incl_Settings._ai_difficulty s + 1) <= 4)%Z) by lia.
    tauto.
  - tauto.
  - pose proof (right_volume _ C6). tauto.
  - pose proof (right_volume _ C7). tauto.
  - assert ((5 <= Incl_Settings.u16_wrap
                    (Z.min 600 (Incl_Settings._game_duration_secs s + 1))
             <= 600)%Z).
    { unfold Incl_Settings.u16_wrap. rewrite Z.mod_small; lia. }
    tauto.
  - tauto.
Qed.

Lemma incl_values_enter (bt : input.Buttons) (s : Incl_Settings.t) :
  Kept.incl_values s -> Kept.incl_values (Incl_Settings.press_enter bt s).
Proof.
  unfold Kept.incl_values, Kept.config_in_range, Incl_Settings.press_enter.
  intros (I & B & P & D & G & A & C1 & C2 & C3 & C4 & C5 & C6 & C7).
  assert (Gq : 5 <= Float.of_int (Incl_Settings._game_duration_secs s) <= 600).
  { unfold Float.of_int. change 5 with (inject_Z 5).
    change 600 with (inject_Z 600). rewrite <- !Zle_Qle. exact G. }
  destruct (input.is_pressed bt input.BUTTON_ENTER).
  - destruct (_ =? _)%Z; [|tauto]. cbn.
    pose proof (round_to_05_3 _ (round_to_05_3 _ B)).
    pose proof (round_to_05_3 _ (round_to_05_3 _ P)).
    pose proof (round_to_08_2 _ (round_to_08_2 _ D)).
    pose proof (round_to_0_1 _ C6). pose proof (round_to_0_1 _ C7).
    tauto.
  - cbn. tauto.
Qed.

Lemma incl_values_frame (bt : input.Buttons) (s : Incl_Settings.t) :
  Kept.incl_values s -> Kept.incl_values (Incl_Settings.frame bt s).
Proof.
  intros H. unfold Incl_Settings.frame.
  apply incl_values_enter, incl_values_right, incl_values_left,
    incl_values_nav, H.
Qed.

Ltac incl_proj :=
  cbn [Incl_Window.settings Incl_Window.menu_index Incl_Window.players
       Incl_Window.ball Incl_Window.particle_burst Incl_Window.flash
       Incl_Window.running Incl_Window.game_running Incl_Window.paused
       Incl_Window.confirm_modal Incl_Window.paused_index
       Incl_Window.in_countdown Incl_Window.countdown_time
       Incl_Window.countdown_value Incl_Window.game_time_elapsed
       Incl_Window.game_timer_active Incl_Window.time_up_state
       Incl_Window.time_up_delay Incl_Window.tick_timer
       Incl_Window.in_celebration Incl_Window.celebration_time
       Incl_Window.draws
       Incl_Window.set_settings Incl_Window.set_menu_index
       Incl_Window.set_players Incl_Window.set_ball
       Incl_Window.set_particle_burst Incl_Window.set_flash
       Incl_Window.set_running Incl_Window.set_game_running
       Incl_Window.set_paused Incl_Window.set_confirm_modal
       Incl_Window.set_paused_index Incl_Window.set_in_countdown
       Incl_Window.set_countdown_time Incl_Window.set_countdown_value
       Incl_Window.set_game_time_elapsed Incl_Window.set_game_timer_active
       Incl_Window.set_time_up_state Incl_Window.set_time_up_delay
       Incl_Window.set_tick_timer Incl_Window.set_in_celebration
       Incl_Window.set_celebration_time Incl_Window.set_draws
       Incl_Window.set_menu_state Incl_Window.menu_state
       Incl_Window.game_config
       Incl_Settings.settings_index Incl_Settings._ball_speed
       Incl_Settings._paddle_speed Incl_Settings._paddle_damping
       Incl_Settings._game_duration_secs Incl_Settings._ai_difficulty
       Incl_Settings.game_config Incl_Settings.menu_state
       Players.player1 Players.player2 Ball.controller Ball.color] in *.

Lemma incl_step_refl (w : Incl_Window.t) : Kept.incl_step w w.
Proof.
  split; [reflexivity|]. split; [|auto].
  exists (Incl_Window.menu_state w). destruct w as [s]. destruct s.
  reflexivity.
Qed.

Lemma incl_step_trans (a b c : Incl_Window.t) :
  Kept.incl_step a b -> Kept.incl_step b c -> Kept.incl_step a c.
Proof.
  intros (M1 & (m1 & S1) & P1) (M2 & (m2 & S2) & P2).
  split; [congruence|]. split; [|auto].
  exists m2. rewrite S2. incl_proj. rewrite S1. incl_proj. reflexivity.
Qed.

Lemma incl_update_players_spec (RAND_MAX : Z) (bt : input.Buttons) (dt : Q)
    (d : Z) (w : Incl_Window.t) :
  Field.paddle_inside (Players.player1 (Incl_Window.players w)) ->
  Field.paddle_inside (Players.player2 (Incl_Window.players w)) ->
  exists p1 p2 ds,
    Incl_Window.update_players RAND_MAX bt dt d w =
    Incl_Window.set_draws ds
      (Incl_Window.set_players (Players.mk p1 p2) w) /\
    Field.paddle_inside p1 /\ Field.paddle_inside p2.
Proof.
  intros [H1 _] [H2 _]. unfold Incl_Window.update_players. cbv zeta.
  pose proof (incl_step_inside RAND_MAX bt dt
    (BallController.pos (Ball.controller (Incl_Window.ball w)))
    (BallController.vel (Ball.controller (Incl_Window.ball w))) d
    (Players.player1 (Incl_Window.players w)) (Incl_Window.draws w) H1) as I1.
  destruct (Incl_Player.step _ _ _ _ _ _ _ _) as [p1 d1].
  pose proof (incl_step_inside RAND_MAX bt dt
    (BallController.pos (Ball.controller (Incl_Window.ball w)))
    (BallController.vel (Ball.controller (Incl_Window.ball w))) d
    (Players.player2 (Incl_Window.players w)) d1 H2) as I2.
  destruct (Incl_Player.step _ _ _ _ _ _ _ _) as [p2 d2].
  exists p1, p2, d2. split; [reflexivity|]. split; assumption.
Qed.

Lemma incl_countdown_kept (dt : Q) (w : Incl_Window.t) :
  Incl_Window.ball (Incl_Window.countdown dt w) = Incl_Window.ball w /\
  Incl_Window.players (Incl_Window.countdown dt w) = Incl_Window.players w /\
  Incl_Window.settings (Incl_Window.countdown dt w) = Incl_Window.settings w /\
  Incl_Window.menu_index (Incl_Window.countdown dt w) =
  Incl_Window.menu_index w /\
  Incl_Window.paused_index (Incl_Window.countdown dt w) =
  Incl_Window.paused_index w.
Proof.
  unfold Incl_Window.countdown. cbv zeta.
  repeat match goal with
         | |- context [if ?c then _ else _] => destruct c
         end; repeat split; reflexivity.
Qed.

Lemma incl_celebrate_kept (RAND_MAX : Z) (bt : input.Buttons) (dt : Q)
    (w : Incl_Window.t) :
  Kept.field True (Incl_Window.ball w) (Incl_Window.players w) ->
  let w' := Incl_Window.celebrate RAND_MAX bt dt w in
  Kept.field True (Incl_Window.ball w') (Incl_Window.players w') /\
  Incl_Window.settings w' = Incl_Window.settings w /\
  Incl_Window.menu_index w' = Incl_Window.menu_index w /\
  Incl_Window.paused_index w' = Incl_Window.paused_index w.
Proof.
  intros (L & B & P1 & P2). cbv zeta. unfold Incl_Window.celebrate.
  cbv zeta. incl_proj.
  match goal with
  | |- context [Incl_Window.update_players _ _ _ _ ?x] => set (w1 := x)
  end.
  assert (H : Kept.field True (Incl_Window.ball w1) (Incl_Window.players w1)
              /\ Incl_Window.settings w1 = Incl_Window.settings w /\
              Incl_Window.menu_index w1 = Incl_Window.menu_index w /\
              Incl_Window.paused_index w1 = Incl_Window.paused_index w).
  { unfold w1. destruct (_ && _); incl_proj.
    - split; [|auto]. split; [exact L|].
      split; [apply ball_inside_reset, B|].
      split; apply paddle_inside_reset; assumption.
    - split; [|auto]. split; [exact L|]. auto. }
  clearbody w1. destruct H as ((L1 & B1 & Q1 & Q2) & S & M & I).
  destruct (incl_update_players_spec RAND_MAX bt dt AIDifficulty.Medium w1
              Q1 Q2) as (p1 & p2 & ds & E & I1 & I2).
  rewrite E. incl_proj. split; [|auto]. split; [exact L1|]. auto.
Qed.

Lemma incl_pause_menu_kept (bt : input.Buttons) (w : Incl_Window.t) :
  let w' := Incl_Window.pause_menu bt w in
  Incl_Window.ball w' = Incl_Window.ball w /\
  Incl_Window.players w' = Incl_Window.players w /\
  Incl_Window.settings w' = Incl_Window.settings w /\
  Incl_Window.menu_index w' = Incl_Window.menu_index w /\
  ((0 <= Incl_Window.paused_index w < 3)%Z ->
   (0 <= Incl_Window.paused_index w' < 3)%Z).
Proof.
  cbv zeta. unfold Incl_Window.pause_menu, Incl_Window.n_paused. cbv zeta.
  destruct (_ || _); destruct (_ || _); incl_proj;
    repeat (split; [reflexivity|]); intros H; try exact H;
    apply Z.mod_pos_bound; lia.
Qed.

Lemma incl_match_clock_kept (dt : Q) (w : Incl_Window.t) :
  let w' := Incl_Window.match_clock dt w in
  Incl_Window.ball w' = Incl_Window.ball w /\
  Incl_Window.players w' = Incl_Window.players w /\
  Incl_Window.settings w' = Incl_Window.settings w /\
  Incl_Window.menu_index w' = Incl_Window.menu_index w /\
  Incl_Window.paused_index w' = Incl_Window.paused_index w.
Proof.
  cbv zeta. unfold Incl_Window.match_clock. cbv zeta.
  repeat match goal with
         | |- context [if ?c then _ else _] => destruct c
         end; repeat split; reflexivity.
Qed.

Lemma incl_step_of_eq (w w' : Incl_Window.t) :
  Incl_Window.settings w' = Incl_Window.settings w ->
  Incl_Window.menu_index w' = Incl_Window.menu_index w ->
  Incl_Window.paused_index w' = Incl_Window.paused_index w ->
  Kept.incl_step w w'.
Proof.
  intros S M P. destruct (incl_step_refl w) as (_ & (m & E) & _).
  split; [exact M|]. split; [exists m; rewrite S; exact E|].
  rewrite P. auto.
Qed.

Lemma incl_play_kept (RAND_MAX : Z) (cosf sinf : Q -> Q)
    (bt : input.Buttons) (dt : Q) (w : Incl_Window.t) :
  Kept.field True (Incl_Window.ball w) (Incl_Window.players w) ->
  exists w1 skip,
    Incl_Window.play RAND_MAX cosf sinf bt dt w = Some (w1, skip) /\
    Kept.field True (Incl_Window.ball w1) (Incl_Window.players w1) /\
    Kept.incl_step w w1.
Proof.
  intros F. unfold Incl_Window.play.
  match goal with
  | |- exists _ _, match ?X with _ => _ end = _ /\ _ =>
      assert (S1 : exists w1,
        X = Some w1 /\
        Kept.field True (Incl_Window.ball w1) (Incl_Window.players w1) /\
        Incl_Window.settings w1 = Incl_Window.settings w /\
        Incl_Window.menu_index w1 = Incl_Window.menu_index w /\
        Incl_Window.paused_index w1 = Incl_Window.paused_index w)
  end.
  { destruct (negb (Incl_Window.time_up_state w)); [|exists w; auto].
    destruct F as (L & B & P1 & P2). specialize (L I).
    destruct (incl_update_players_spec RAND_MAX bt dt
                (Config.ai_difficulty (Incl_Window.game_config w)) w P1 P2)
      as (p1 & p2 & ds & E & I1 & I2).
    cbv zeta. rewrite E. incl_proj.
    destruct (incl_update_keeps dt (Ball.controller (Incl_Window.ball w))
                (Players.mk p1 p2) L (proj1 B) (fun _ => B))
      as (c & ps & U & Bc & Zc & Lc & [Q1 Q2]).
    rewrite U. eexists. split; [reflexivity|]. incl_proj.
    split; [|auto]. split; [intros _; exact Lc|]. split; [exact Bc|].
    split; [exact (paddle_inside_same _ _ Q1 I1)|
            exact (paddle_inside_same _ _ Q2 I2)]. }
  destruct S1 as (w1 & E1 & F1 & A1 & A2 & A3). rewrite E1. clear E1.
  destruct (incl_match_clock_kept dt w1) as (K1 & K2 & K3 & K4 & K5).
  cbv zeta in K1, K2, K3, K4, K5. cbv zeta.
  set (w2 := Incl_Window.match_clock dt w1) in *. clearbody w2.
  rewrite <- K1, <- K2 in F1. rewrite <- K3 in A1. rewrite <- K4 in A2.
  rewrite <- K5 in A3. clear K1 K2 K3 K4 K5 w1.
  assert (St : Kept.incl_step w w2) by (apply incl_step_of_eq; assumption).
  assert (Fin : forall w3 : Incl_Window.t,
    exists w4 skip,
      (if negb (Incl_Window.time_up_state w3) &&
          BallController.scored (Ball.controller (Incl_Window.ball w3))
       then
         let w5 := Incl_Window.set_celebration_time 0
                     (Incl_Window.set_in_celebration true w3) in
         let (pb, d) :=
           ParticleBurst.start RAND_MAX cosf sinf
             (Vector2.x (BallController.pos
                           (Ball.controller (Incl_Window.ball w3))))
             (Vector2.y (BallController.pos
                           (Ball.controller (Incl_Window.ball w3))))
             (Incl_Window.particle_burst w5) (Incl_Window.draws w5) in
         Some (Incl_Window.set_flash (FlashEffect.start (Incl_Window.flash w5))
                 (Incl_Window.set_draws d
                    (Incl_Window.set_particle_burst pb w5)), false)
       else Some (w3, false)) = Some (w4, skip) /\
      Incl_Window.ball w4 = Incl_Window.ball w3 /\
      Incl_Window.players w4 = Incl_Window.players w3 /\
      Incl_Window.settings w4 = Incl_Window.settings w3 /\
      Incl_Window.menu_index w4 = Incl_Window.menu_index w3 /\
      Incl_Window.paused_index w4 = Incl_Window.paused_index w3).
  { intros w3. destruct (_ && _).
    - cbv zeta. destruct (ParticleBurst.start _ _ _ _ _ _ _) as [pb d].
      do 2 eexists. split; [reflexivity|]. incl_proj. auto.
    - do 2 eexists. split; [reflexivity|]. auto. }
  destruct (Incl_Window.time_up_state w2) eqn:T.
  - destruct (Incl_Window.time_up_delay _ >=? 2.5).
    + do 2 eexists. split; [reflexivity|]. incl_proj.
      split; [exact F1|].
      eapply incl_step_trans; [exact St|].
      split; [reflexivity|]. split; [|auto]. exists MENU_MAIN. reflexivity.
    + destruct (Fin (Incl_Window.set_time_up_delay
                       (Incl_Window.time_up_delay w2 + dt) w2))
        as (w4 & skip & E & B4 & P4 & S4 & M4 & I4).
      exists w4, skip. split; [exact E|].
      rewrite B4, P4. incl_proj. split; [exact F1|].
      eapply incl_step_trans; [exact St|]. apply incl_step_of_eq; assumption.
  - destruct (Fin w2) as (w4 & skip & E & B4 & P4 & S4 & M4 & I4).
    exists w4, skip. split; [exact E|].
    rewrite B4, P4. split; [exact F1|].
    eapply incl_step_trans; [exact St|]. apply incl_step_of_eq; assumption.
Qed.

Lemma field_reset_objects (w : Incl_Window.t) :
  Kept.field True (Incl_Window.ball w) (Incl_Window.players w) ->
  Kept.field True (Incl_Window.ball (Incl_Window.reset_objects w))
    (Incl_Window.players (Incl_Window.reset_objects w)).
Proof.
  intros (L & B & P1 & P2). unfold Incl_Window.reset_objects. incl_proj.
  split; [intros _; exact (L I)|]. split; [apply ball_inside_reset, B|].
  split; apply paddle_inside_reset; assumption.
Qed.

Lemma incl_pause_keys_kept (bt : input.Buttons) (w : Incl_Window.t) :
  Kept.field True (Incl_Window.ball w) (Incl_Window.players w) ->
  Kept.field True (Incl_Window.ball (Incl_Window.pause_keys bt w))
    (Incl_Window.players (Incl_Window.pause_keys bt w)) /\
  Kept.incl_step w (Incl_Window.pause_keys bt w).
Proof.
  intros F. unfold Incl_Window.pause_keys.
  set (w1 := if input.is_pressed bt input.BUTTON_ESC then _ else w).
  assert (H1 : Kept.field True (Incl_Window.ball w1) (Incl_Window.players w1)
               /\ Kept.incl_step w w1).
  { unfold w1. destruct (input.is_pressed bt input.BUTTON_ESC).
    - split; [exact F|]. apply incl_step_of_eq; reflexivity.
    - split; [exact F|apply incl_step_refl]. }
  clearbody w1. destruct H1 as [F1 S1]. cbv zeta.
  assert (G : forall w2,
            Kept.field True (Incl_Window.ball w2) (Incl_Window.players w2) ->
            Kept.incl_step w1 w2 ->
            Kept.field True (Incl_Window.ball w2) (Incl_Window.players w2) /\
            Kept.incl_step w w2).
  { intros w2 F2 S2. split; [exact F2|].
    eapply incl_step_trans; eassumption. }
  destruct (Incl_Window.confirm_modal w1); [|apply G; [exact F1|apply incl_step_refl]].
  destruct (_ || _); [|apply G; [exact F1|apply incl_step_refl]].
  destruct (_ =? 0)%Z.
  { apply G; [exact F1|apply incl_step_of_eq; reflexivity]. }
  destruct (_ =? 1)%Z.
  { apply G.
    - pose proof (field_reset_objects w1 F1) as (L & B & P1 & P2).
      unfold Incl_Window.restart, Incl_Window.stop_effects. cbv zeta.
      incl_proj. split; [exact L|]. split; [exact B|].
      split; [exact P1|exact P2].
    - split; [reflexivity|]. split; [exists MENU_PLAYING; reflexivity|auto]. }
  destruct (_ =? 2)%Z.
  { apply G.
    - pose proof (field_reset_objects w1 F1) as (L & B & P1 & P2).
      unfold Incl_Window.to_main_menu, Incl_Window.stop_effects. cbv zeta.
      incl_proj. split; [exact L|]. split; [exact B|].
      split; [exact P1|exact P2].
    - split; [reflexivity|]. split; [exists MENU_MAIN; reflexivity|auto]. }
  apply G; [exact F1|apply incl_step_refl].
Qed.

Lemma incl_playing_kept (RAND_MAX : Z) (cosf sinf : Q -> Q)
    (bt : input.Buttons) (dt : Q) (w : Incl_Window.t) :
  Kept.field True (Incl_Window.ball w) (Incl_Window.players w) ->
  exists w',
    Incl_Window.playing RAND_MAX cosf sinf bt dt w = Some w' /\
    Kept.field True (Incl_Window.ball w') (Incl_Window.players w') /\
    Kept.incl_step w w'.
Proof.
  intros F. unfold Incl_Window.playing.
  match goal with
  | |- exists _, match ?X with _ => _ end = _ /\ _ =>
      assert (S1 : exists w1 skip,
        X = Some (w1, skip) /\
        Kept.field True (Incl_Window.ball w1) (Incl_Window.players w1) /\
        Kept.incl_step w w1)
  end.
  { destruct (Incl_Window.in_countdown w).
    { destruct (incl_countdown_kept dt w) as (B & P & S & M & I).
      do 2 eexists. split; [reflexivity|]. rewrite B, P.
      split; [exact F|apply incl_step_of_eq; assumption]. }
    destruct (Incl_Window.in_celebration w).
    { destruct (incl_celebrate_kept RAND_MAX bt dt w F) as (F1 & S & M & I).
      do 2 eexists. split; [reflexivity|].
      split; [exact F1|apply incl_step_of_eq; assumption]. }
    destruct (Incl_Window.confirm_modal w).
    { destruct (incl_pause_menu_kept bt w) as (B & P & S & M & I).
      cbv zeta in B, P, S, M, I.
      do 2 eexists. split; [reflexivity|]. rewrite B, P.
      split; [exact F|].
      destruct (incl_step_refl w) as (_ & (m & E) & _).
      split; [exact M|]. split; [exists m; rewrite S; exact E|exact I]. }
    apply incl_play_kept, F. }
  destruct S1 as (w1 & skip & E & F1 & St). rewrite E.
  destruct skip.
  - exists w1. auto.
  - destruct (incl_pause_keys_kept bt w1 F1) as [F2 S2].
    eexists. split; [reflexivity|]. split; [exact F2|].
    eapply incl_step_trans; eassumption.
Qed.

Lemma incl_settings_frame_spec (bt : input.Buttons) (s : Incl_Settings.t) :
  (Incl_Settings.menu_state (Incl_Settings.frame bt s) = MENU_MAIN \/
   Incl_Settings.menu_state (Incl_Settings.frame bt s) =
   Incl_Settings.menu_state s) /\
  ((0 <= Incl_Settings.settings_index s < 9)%Z ->
   (0 <= Incl_Settings.settings_index (Incl_Settings.frame bt s) < 9)%Z).
Proof.
  unfold Incl_Settings.frame.
  set (s1 := Incl_Settings.nav_down bt (Incl_Settings.nav_up bt s)).
  assert (N : Incl_Settings.menu_state s1 = Incl_Settings.menu_state s /\
              ((0 <= Incl_Settings.settings_index s < 9)%Z ->
               (0 <= Incl_Settings.settings_index s1 < 9)%Z)).
  { unfold s1, Incl_Settings.nav_down, Incl_Settings.nav_up,
      Incl_Settings.n_labels.
    destruct (_ || _); destruct (_ || _); cbn;
      repeat match goal with
             | |- context [(?a <? ?c)%Z] => destruct (Z.ltb_spec a c)
             | |- context [(?a >=? ?c)%Z] =>
                 rewrite (Z.geb_leb a c); destruct (Z.leb_spec c a)
             end; cbn; (split; [reflexivity|lia]). }
  clearbody s1. destruct N as [N1 N2]. rewrite <- N1.
  set (s2 := Incl_Settings.press_right bt (Incl_Settings.press_left bt s1)).
  assert (R : Incl_Settings.menu_state s2 = Incl_Settings.menu_state s1 /\
              Incl_Settings.settings_index s2 =
              Incl_Settings.settings_index s1).
  { unfold s2, Incl_Settings.press_right, Incl_Settings.press_left.
    cbv zeta.
    repeat match goal with
           | |- context [if ?c then _ else _] => destruct c
           end; split; reflexivity. }
  clearbody s2. destruct R as [R1 R2]. rewrite <- R1, <- R2 in *.
  unfold Incl_Settings.press_enter.
  destruct (input.is_pressed bt input.BUTTON_ENTER);
    [destruct (_ =? _)%Z|]; cbn; auto.
Qed.

Lemma incl_start_match_kept (ai2 : bool) (w : Incl_Window.t) :
  Kept.incl_cursors w ->
  Kept.incl_field (Incl_Window.start_match ai2 w) /\
  Kept.incl_cursors (Incl_Window.start_match ai2 w) /\
  exists m, Incl_Window.settings (Incl_Window.start_match ai2 w) =
            Incl_Window.settings (Incl_Window.set_menu_state m w).
Proof.
  intros C. split; [|split; [exact C|exists MENU_PLAYING; reflexivity]].
  unfold Kept.incl_field, Kept.field, Field.linked, Field.ball_inside,
    Field.paddle_inside, Incl_Window.start_match. cbn.
  repeat split; discriminate.
Qed.

Lemma incl_main_menu_kept (bt : input.Buttons) (w : Incl_Window.t) :
  Kept.incl_field w -> Kept.incl_cursors w ->
  Incl_Window.menu_state w = MENU_MAIN ->
  Kept.incl_field (Incl_Window.main_menu bt w) /\
  Kept.incl_cursors (Incl_Window.main_menu bt w) /\
  exists m, Incl_Window.settings (Incl_Window.main_menu bt w) =
            Incl_Window.settings (Incl_Window.set_menu_state m w).
Proof.
  intros F C M. unfold Incl_Window.main_menu.
  destruct (incl_step_refl w) as (_ & S0 & _).
  set (w1 := if input.is_pressed bt input.BUTTON_UP_ARROW ||
                input.is_pressed bt input.BUTTON_UP then _ else w).
  assert (H1 : Kept.incl_field w1 /\ Kept.incl_cursors w1 /\
               Incl_Window.settings w1 = Incl_Window.settings w).
  { unfold w1. destruct (_ || _); [|auto]. cbv zeta.
    split; [exact F|]. split; [|reflexivity].
    unfold Kept.incl_cursors, Incl_Window.n_items in *. incl_proj.
    destruct (Z.ltb_spec (Incl_Window.menu_index w - 1) 0); lia. }
  clearbody w1. clear F C. destruct H1 as (F & C & S1).
  cbv zeta.
  set (w2 := if input.is_pressed bt input.BUTTON_DOWN_ARROW ||
                input.is_pressed bt input.BUTTON_DOWN then _ else w1).
  assert (H2 : Kept.incl_field w2 /\ Kept.incl_cursors w2 /\
               Incl_Window.settings w2 = Incl_Window.settings w).
  { unfold w2. destruct (_ || _); [|auto]. cbv zeta.
    split; [exact F|]. split; [|exact S1].
    unfold Kept.incl_cursors, Incl_Window.n_items in *. incl_proj.
    rewrite Z.geb_leb.
    destruct (Z.leb_spec 4 (Incl_Window.menu_index w1 + 1)); lia. }
  clearbody w2. clear F C S1 w1. destruct H2 as (F & C & S).
  assert (St : forall ai2,
            Kept.incl_field (Incl_Window.start_match ai2 w2) /\
            Kept.incl_cursors (Incl_Window.start_match ai2 w2) /\
            exists m, Incl_Window.settings (Incl_Window.start_match ai2 w2) =
                      Incl_Window.settings (Incl_Window.set_menu_state m w)).
  { intros ai2. destruct (incl_start_match_kept ai2 w2 C) as (A & B & m & E).
    split; [exact A|]. split; [exact B|]. exists m. rewrite E.
    incl_proj. rewrite S. reflexivity. }
  assert (Same : exists m, Incl_Window.settings w2 =
                           Incl_Window.settings (Incl_Window.set_menu_state m w)).
  { destruct S0 as (m & E). exists m. rewrite S. exact E. }
  destruct (input.is_pressed bt input.BUTTON_ENTER); [|auto].
  destruct (_ =? 0)%Z; [apply St|].
  destruct (_ =? 1)%Z; [apply St|].
  destruct (_ =? 2)%Z.
  { split; [|split].
    - unfold Kept.incl_field in *. incl_proj. destruct F as (_ & F).
      split; [intros E; discriminate|exact F].
    - exact C.
    - exists MENU_SETTINGS. incl_proj. rewrite S. reflexivity. }
  destruct (_ =? 3)%Z; auto.
Qed.

Lemma incl_values_menu_state (m : MenuState) (s s' : Incl_Settings.t)
    (w : Incl_Window.t) :
  s = Incl_Window.settings w ->
  s' = Incl_Window.settings (Incl_Window.set_menu_state m w) ->
  (Kept.incl_values s -> Kept.incl_values s') /\
  Incl_Settings.settings_index s' = Incl_Settings.settings_index s.
Proof. intros -> ->. split; [intros H; exact H|reflexivity]. Qed.

Lemma incl_frame_kept (RAND_MAX : Z) (cosf sinf : Q -> Q)
    (bt : input.Buttons) (dt : Q) (w : Incl_Window.t) :
  Kept.incl_field w -> Kept.incl_cursors w ->
  exists w',
    Incl_Window.frame RAND_MAX cosf sinf bt dt w = Some w' /\
    Kept.incl_field w' /\ Kept.incl_cursors w' /\
    (Kept.incl_values (Incl_Window.settings w) ->
     Kept.incl_values (Incl_Window.settings w')).
Proof.
  intros F C. unfold Incl_Window.frame.
  destruct (Incl_Window.menu_state w) eqn:M.
  - destruct (incl_main_menu_kept bt w F C M) as (F1 & C1 & m & E).
    eexists. split; [reflexivity|]. split; [exact F1|]. split; [exact C1|].
    rewrite E. intros H. exact H.
  - eexists. split; [reflexivity|]. incl_proj.
    destruct (incl_settings_frame_spec bt (Incl_Window.settings w))
      as [Ms Is].
    split; [|split; [|apply incl_values_frame]].
    + unfold Kept.incl_field in *. incl_proj.
      destruct F as (_ & F). split; [|exact F].
      intros E. exfalso.
      change (Incl_Settings.menu_state
                (Incl_Settings.frame bt (Incl_Window.settings w)) =
              MENU_PLAYING) in E.
      change (Incl_Settings.menu_state (Incl_Window.settings w) =
              MENU_SETTINGS) in M.
      destruct Ms as [E' | E']; rewrite E' in E; [|rewrite M in E];
        discriminate.
    + unfold Kept.incl_cursors, Incl_Settings.n_labels in *. incl_proj.
      destruct C as (C1 & C2 & C3). auto.
  - assert (F1 : Kept.field True (Incl_Window.ball w) (Incl_Window.players w)).
    { destruct F as (L & F). split; [intros _; apply L; exact M|exact F]. }
    destruct (incl_playing_kept RAND_MAX cosf sinf bt dt w F1)
      as (w1 & E & F2 & Mi & (m & S) & Pi).
    exists w1. split; [exact E|].
    split; [eapply field_weaken; [|exact F2]; auto|].
    destruct (incl_values_menu_state m _ _ w eq_refl S) as [V I].
    split; [|exact V].
    unfold Kept.incl_cursors, Incl_Window.n_paused in *.
    destruct C as (C1 & C2 & C3). rewrite Mi, I. auto.
  - exists w. auto.
Qed.

Lemma incl_steps_kept (RAND_MAX : Z) (cosf sinf : Q -> Q)
    (inputs : list (input.Buttons * Q)) (w : Incl_Window.t) :
  Kept.incl_field w -> Kept.incl_cursors w ->
  exists w',
    Incl_Window.steps RAND_MAX cosf sinf inputs w = Some w' /\
    Kept.incl_field w' /\ Kept.incl_cursors w' /\
    (Kept.incl_values (Incl_Window.settings w) ->
     Kept.incl_values (Incl_Window.settings w')).
Proof.
  revert w. induction inputs as [|[bt dt] rest IH]; intros w F C.
  - exists w. auto.
  - cbn. destruct (Incl_Window.running w); [|exists w; auto].
    destruct (incl_frame_kept RAND_MAX cosf sinf bt dt w F C)
      as (w1 & E & F1 & C1 & V1).
    rewrite E. destruct (IH w1 F1 C1) as (w2 & E2 & F2 & C2 & V2).
    exists w2. split; [exact E2|]. split; [exact F2|]. split; [exact C2|].
    intros V. apply V2, V1, V.
Qed.

Lemma incl_initial_kept (cfg : Config.t) (ds : list Z) :
  Kept.incl_field (Incl_Window.initial cfg ds) /\
  Kept.incl_cursors (Incl_Window.initial cfg ds).
Proof.
  unfold Kept.incl_field, Kept.field, Kept.incl_cursors,
    Field.ball_inside, Field.paddle_inside. cbn.
  repeat split; try discriminate; try lia.
Qed.

Lemma incl_initial_values (cfg : Config.t) (ds : list Z) :
  Kept.config_in_range cfg ->
  Kept.incl_values (Incl_Window.settings (Incl_Window.initial cfg ds)).
Proof.
  intros C. pose proof C as (C1 & C2 & C3 & C4 & C5 & C6 & C7).
  unfold Kept.incl_values. cbn.
  split; [unfold Incl_Settings.n_labels; lia|].
  split; [exact C3|]. split; [exact C1|]. split; [exact C2|].
  split; [|split; [exact C5|exact C]].
  assert (T : (5 <= Float.trunc (Config.game_duration_secs cfg) <= 600)%Z).
  { destruct (trunc_bounds (Config.game_duration_secs cfg)) as [P _].
    destruct P as [P1 P2]; [lra|].
    set (t := Float.trunc (Config.game_duration_secs cfg)) in *.
    assert (A : inject_Z 4 < inject_Z t).
    { change (inject_Z 4) with 4. lra. }
    assert (B : inject_Z t <= inject_Z 600).
    { change (inject_Z 600) with 600. lra. }
    rewrite <- Zlt_Qlt in A. rewrite <- Zle_Qle in B. lia. }
  unfold Incl_Settings.u16_wrap. rewrite Z.mod_small; lia.
Qed.

(** ** The main loops as a whole *)

(** X12.  Neither main loop ever dereferences a null player pointer: from the
    window as constructed, whatever the uninitialised difficulty, the
    configuration loaded, the values [rand()] returns, the keys and the
    length of each tick, every iteration runs to its end, and it leaves
    both player pointers of the ball set whenever a match is on, which
    is what [Ball::update] relies on when it reads the two scores to draw
    them. *)
Theorem main_loops_run (RAND_MAX : Z) (cosf sinf : Q -> Q)
    (inputs : list (input.Buttons * Q)) :
  (forall (uninit : Z) (ds : list Z),
     exists w, Root_Window.steps RAND_MAX cosf sinf inputs
                 (Root_Window.initial uninit ds) = Some w /\
               (Root_Settings.menu_state (Root_Window.settings w)
                = MENU_PLAYING ->
                Field.linked (Ball.controller (Root_Window.ball w)))) /\
  (forall (cfg : Config.t) (ds : list Z),
     exists w, Incl_Window.steps RAND_MAX cosf sinf inputs
                 (Incl_Window.initial cfg ds) = Some w /\
               (Incl_Window.menu_state w = MENU_PLAYING ->
                Field.linked (Ball.controller (Incl_Window.ball w)))).
Proof.
  split.
  - intros uninit ds.
    destruct (root_initial_kept uninit ds) as (F & C & V).
    destruct (root_steps_kept RAND_MAX cosf sinf inputs _ F C V)
      as (w & E & (L & _) & _).
    exists w. split; [exact E|exact L].
  - intros cfg ds.
    destruct (incl_initial_kept cfg ds) as (F & C).
    destruct (incl_steps_kept RAND_MAX cosf sinf inputs _ F C)
      as (w & E & (L & _) & _).
    exists w. split; [exact E|exact L].
Qed.

(** X13.  One iteration of either main loop, from a state in which the
    ball and the two paddles do not reach past the walls at [y = 50]
    and [y = -50], the ball's player pointers are set if a match is on,
    the cursors and the settings are within their bounds, the paddles
    have the height [init] gives them, and the speeds, frictions,
    accelerations, the ball's [pos.x] and [dt] are of size at most a
    million (so that no operation on them leaves the range of [float]):
    the iteration returns, ball and paddles are between the walls
    again, and the pointers are set if a match is on. *)
Theorem objects_stay_between_walls (RAND_MAX : Z) (cosf sinf : Q -> Q)
    (bt : input.Buttons) (dt : Q) :
  (forall w : Root_Window.t,
     Kept.root_field w -> Kept.root_cursors w ->
     Kept.root_values (Root_Window.settings w) ->
     Kept.moderate (Root_Window.ball w) (Root_Window.players w) dt ->
     exists w',
       Root_Window.frame RAND_MAX cosf sinf bt dt w = Some w' /\
       Field.ball_inside (Ball.controller (Root_Window.ball w')) /\
       Field.paddle_inside (Players.player1 (Root_Window.players w')) /\
       Field.paddle_inside (Players.player2 (Root_Window.players w')) /\
       (Root_Settings.menu_state (Root_Window.settings w') = MENU_PLAYING ->
        Field.linked (Ball.controller (Root_Window.ball w')))) /\
  (forall w : Incl_Window.t,
     Kept.incl_field w -> Kept.incl_cursors w ->
     Kept.incl_values (Incl_Window.settings w) ->
     Kept.moderate (Incl_Window.ball w) (Incl_Window.players w) dt ->
     exists w',
       Incl_Window.frame RAND_MAX cosf sinf bt dt w = Some w' /\
       Field.ball_inside (Ball.controller (Incl_Window.ball w')) /\
       Field.paddle_inside (Players.player1 (Incl_Window.players w')) /\
       Field.paddle_inside (Players.player2 (Incl_Window.players w')) /\
       (Incl_Window.menu_state w' = MENU_PLAYING ->
        Field.linked (Ball.controller (Incl_Window.ball w')))).
Proof.
  split.
  - intros w F C V _.
    destruct (root_frame_kept RAND_MAX cosf sinf bt dt w F C V)
      as (w' & E & (L & B & P1 & P2) & _).
    exists w'. auto.
  - intros w F C _ _.
    destruct (incl_frame_kept RAND_MAX cosf sinf bt dt w F C)
      as (w' & E & (L & B & P1 & P2) & _).
    exists w'. auto.
Qed.

(** X14.  In every state either program can reach, each menu cursor is an
    index into its list: the main menu's into its 4 entries, the Settings
    screen's into its 5 rows ([src/game.hpp]) or 9 rows
    ([src/include/game.hpp]), and the pause menu's into its 3 entries. *)
Theorem cursors_stay_in_lists (RAND_MAX : Z) (cosf sinf : Q -> Q) :
  (forall w, Root_Window.reachable RAND_MAX cosf sinf w ->
     (0 <= Root_Window.menu_index w < 4)%Z /\
     (0 <= Root_Settings.settings_index (Root_Window.settings w) < 5)%Z) /\
  (forall w, Incl_Window.reachable RAND_MAX cosf sinf w ->
     (0 <= Incl_Window.menu_index w < 4)%Z /\
     (0 <= Incl_Settings.settings_index (Incl_Window.settings w) < 9)%Z /\
     (0 <= Incl_Window.paused_index w < 3)%Z).
Proof.
  split.
  - intros w (uninit & ds & inputs & E).
    destruct (root_initial_kept uninit ds) as (F & C & V).
    destruct (root_steps_kept RAND_MAX cosf sinf inputs _ F C V)
      as (w' & E' & _ & C' & (I & _)).
    rewrite E in E'. inversion E'; subst. split; [exact C'|exact I].
  - intros w (cfg & ds & inputs & E).
    destruct (incl_initial_kept cfg ds) as (F & C).
    destruct (incl_steps_kept RAND_MAX cosf sinf inputs _ F C)
      as (w' & E' & _ & (C1 & C2 & C3) & _).
    rewrite E in E'. inversion E'; subst. auto.
Qed.

(** X15.  The values a match is played with.  In every state [src/game.hpp]
    can reach, the paddle-speed setting lies in [[0.5, 3]] and the
    friction setting in [[0.8, 2]], and the values handed to the game lie
    in [[47.5, 285]] (ball speed), [[800, 4800]] (paddle speed) and
    [[6.4, 16]] (friction).  In every state [src/include/game.hpp]
    reaches from a configuration within the bounds, the settings and the
    configuration stay within them: speeds in [[0.5, 3]], friction in
    [[0.8, 2]], match duration in [[5, 600]] seconds, difficulty in
    [[0, 4]] and the two volumes in [[0, 1]]; the default configuration
    is within the bounds. *)
Theorem match_values_stay_in_range (RAND_MAX : Z) (cosf sinf : Q -> Q) :
  (forall w, Root_Window.reachable RAND_MAX cosf sinf w ->
     Kept.root_values (Root_Window.settings w)) /\
  (forall cfg ds inputs w,
     Kept.config_in_range cfg ->
     Incl_Window.steps RAND_MAX cosf sinf inputs (Incl_Window.initial cfg ds)
       = Some w ->
     Kept.incl_values (Incl_Window.settings w)) /\
  Kept.config_in_range Config.default.
Proof.
  split; [|split].
  - intros w (uninit & ds & inputs & E).
    destruct (root_initial_kept uninit ds) as (F & C & V).
    destruct (root_steps_kept RAND_MAX cosf sinf inputs _ F C V)
      as (w' & E' & _ & _ & V').
    rewrite E in E'. inversion E'; subst. exact V'.
  - intros cfg ds inputs w Hc E.
    destruct (incl_initial_kept cfg ds) as (F & C).
    destruct (incl_steps_kept RAND_MAX cosf sinf inputs _ F C)
      as (w' & E' & _ & _ & V').
    rewrite E in E'. inversion E'; subst.
    apply V', incl_initial_values, Hc.
  - unfold Kept.config_in_range. cbn.
    repeat split; try discriminate; lia.
Qed.

(** ** What the Settings screen of src/game.hpp hands to the game *)

Lemma root_frame_idle (bt : input.Buttons) (s : Root_Settings.t) :
  Buttons.idle bt ->
  Root_Settings.frame bt s = Root_Settings.publish s.
Proof.
  intros H. unfold Root_Settings.frame, Root_Settings.nav_up,
    Root_Settings.nav_down, Root_Settings.press_left,
    Root_Settings.press_right, Root_Settings.press_enter.
  rewrite !H. reflexivity.
Qed.

Lemma root_run_snoc (bs : list input.Buttons) (bt : input.Buttons)
    (s : Root_Settings.t) :
  Root_Settings.run (bs ++ [bt]) s =
  Root_Settings.frame bt (Root_Settings.run bs s).
Proof. unfold Root_Settings.run. rewrite foldl_app. reflexivity. Qed.

Lemma root_run_idle (bs : list input.Buttons) (s : Root_Settings.t) :
  Forall Buttons.idle bs ->
  Root_Settings._ball_speed (Root_Settings.run bs s) =
  Root_Settings._ball_speed s /\
  Root_Settings._paddle_speed (Root_Settings.run bs s) =
  Root_Settings._paddle_speed s /\
  Root_Settings._paddle_damping (Root_Settings.run bs s) =
  Root_Settings._paddle_damping s /\
  Root_Settings._ai_difficulty (Root_Settings.run bs s) =
  Root_Settings._ai_difficulty s /\
  Root_Settings.menu_state (Root_Settings.run bs s) =
  Root_Settings.menu_state s /\
  Root_Settings.settings_index (Root_Settings.run bs s) =
  Root_Settings.settings_index s.
Proof.
  intros H. revert s. induction H as [|bt bs Hb _ IH]; intros s.
  - repeat split.
  - cbn. rewrite (root_frame_idle bt s Hb).
    destruct (IH (Root_Settings.publish s)) as (A & B & C & D & E & F).
    unfold Root_Settings.run in *. rewrite A, B, C, D, E, F.
    repeat split.
Qed.

(** X16.  What the Settings screen of [src/game.hpp] hands to the game.  Once
    the screen has run for at least one iteration, the four values the
    game uses are the settings scaled: ball speed by 95, paddle speed by
    1600, friction by 8, and the difficulty as it is.  The loop starts
    with ball speed 95, paddle speed 1600 and friction 11, while the
    friction setting starts at 1.4: so opening the screen and touching
    nothing leaves the two speeds as they were but changes the friction
    from 11 to 11.2, and gives the difficulty, until then uninitialised,
    the value 1. *)
Theorem settings_screen_hands_over (uninit : Z) (bs : list input.Buttons) :
  bs <> [] ->
  let s0 := Root_Settings.initial uninit in
  let s := Root_Settings.run bs s0 in
  Root_Settings.ball_speed s = Root_Settings._ball_speed s * 95 /\
  Root_Settings.paddle_speed s = Root_Settings._paddle_speed s * 1600 /\
  Root_Settings.paddle_damping s = Root_Settings._paddle_damping s * 8 /\
  Root_Settings.ai_difficulty s = Root_Settings._ai_difficulty s /\
  Root_Settings.ai_difficulty s0 = uninit /\
  (Forall Buttons.idle bs ->
   Root_Settings.ball_speed s == Root_Settings.ball_speed s0 /\
   Root_Settings.paddle_speed s == Root_Settings.paddle_speed s0 /\
   Root_Settings.paddle_damping s0 == 11 /\
   Root_Settings.paddle_damping s == 11.2 /\
   Root_Settings.ai_difficulty s = 1%Z).
Proof.
  intros Hne. cbv zeta.
  destruct (exists_last Hne) as (bs' & bt & ->).
  rewrite root_run_snoc.
  set (s1 := Root_Settings.run bs' (Root_Settings.initial uninit)).
  split; [reflexivity|]. split; [reflexivity|]. split; [reflexivity|].
  split; [reflexivity|]. split; [reflexivity|].
  intros Hi. apply Forall_app in Hi as [Hi Hb].
  inversion Hb as [|? ? Hbt _]; subst.
  rewrite (root_frame_idle bt s1 Hbt).
  destruct (root_run_idle bs' (Root_Settings.initial uninit) Hi)
    as (A & B & C & D & _).
  fold s1 in A, B, C, D.
  unfold Root_Settings.publish. cbn.
  rewrite A, B, C, D. cbn. repeat split; reflexivity.
Qed.

(** The theorem on one iteration of the screen with no key touched. *)
Lemma settings_screen_hands_over_witness :
  [Scenario.no_buttons] <> [] /\
  Root_Settings.paddle_damping
    (Root_Settings.run [Scenario.no_buttons] (Root_Settings.initial 7)) =
  Root_Settings._paddle_damping
    (Root_Settings.run [Scenario.no_buttons] (Root_Settings.initial 7)) * 8.
Proof.
  assert (H : [Scenario.no_buttons] <> []) by discriminate.
  split; [exact H|].
  apply (settings_screen_hands_over 7 [Scenario.no_buttons] H).
Defined.

(** ** Pause and countdown in src/include/game.hpp *)

Lemma incl_pause_keys_idle (bt : input.Buttons) (w : Incl_Window.t) :
  input.is_pressed bt input.BUTTON_ESC = false ->
  input.is_pressed bt input.BUTTON_ENTER = false ->
  input.is_pressed bt input.BUTTON_PAUSE = false ->
  Incl_Window.pause_keys bt w = w.
Proof.
  intros E1 E2 E3. unfold Incl_Window.pause_keys. rewrite E1, E2, E3.
  cbn. destruct (Incl_Window.confirm_modal w); reflexivity.
Qed.

(** X17.  With the pause menu on screen (no countdown, no celebration) and
    neither Escape, Enter nor P going down, an iteration of the loop
    freezes the match: players, ball, scores, match clock, effects and
    the values [rand()] will return are as they were; the only thing
    that may change is the pause menu's cursor, which stays within the
    three entries. *)
Theorem pause_freezes_match (RAND_MAX : Z) (cosf sinf : Q -> Q)
    (bt : input.Buttons) (dt : Q) (w : Incl_Window.t) :
  Incl_Window.menu_state w = MENU_PLAYING ->
  Incl_Window.in_countdown w = false ->
  Incl_Window.in_celebration w = false ->
  Incl_Window.confirm_modal w = true ->
  input.is_pressed bt input.BUTTON_ESC = false ->
  input.is_pressed bt input.BUTTON_ENTER = false ->
  input.is_pressed bt input.BUTTON_PAUSE = false ->
  exists i : Z,
    Incl_Window.frame RAND_MAX cosf sinf bt dt w =
    Some (Incl_Window.set_paused_index i w) /\
    (i = Incl_Window.paused_index w \/ (0 <= i < 3)%Z) /\
    (input.is_pressed bt input.BUTTON_UP_ARROW = false ->
     input.is_pressed bt input.BUTTON_UP = false ->
     input.is_pressed bt input.BUTTON_DOWN_ARROW = false ->
     input.is_pressed bt input.BUTTON_DOWN = false ->
     i = Incl_Window.paused_index w).
Proof.
  intros M Cd Ce Cm E1 E2 E3.
  unfold Incl_Window.frame. rewrite M. unfold Incl_Window.playing.
  rewrite Cd, Ce, Cm. rewrite incl_pause_keys_idle by assumption.
  unfold Incl_Window.pause_menu, Incl_Window.n_paused.
  destruct (input.is_pressed bt input.BUTTON_UP_ARROW ||
            input.is_pressed bt input.BUTTON_UP) eqn:U;
    destruct (input.is_pressed bt input.BUTTON_DOWN_ARROW ||
              input.is_pressed bt input.BUTTON_DOWN) eqn:D; incl_proj.
  - eexists. split; [reflexivity|]. split.
    + right. apply Z.mod_pos_bound. lia.
    + intros A B. rewrite A, B in U. discriminate.
  - eexists. split; [reflexivity|]. split.
    + right. apply Z.mod_pos_bound. lia.
    + intros A B. rewrite A, B in U. discriminate.
  - eexists. split; [reflexivity|]. split.
    + right. apply Z.mod_pos_bound. lia.
    + intros _ _ A B. rewrite A, B in D. discriminate.
  - exists (Incl_Window.paused_index w). split; [|auto].
    destruct w. reflexivity.
Qed.

(** The theorem on a match paused right after its countdown, with no
    key touched. *)
Lemma pause_freezes_match_witness :
  let w := Incl_Window.set_confirm_modal true
             (Incl_Window.set_in_countdown false
                (Incl_Window.start_match true
                   (Incl_Window.initial Config.default []))) in
  (Incl_Window.menu_state w = MENU_PLAYING /\
   Incl_Window.in_countdown w = false /\
   Incl_Window.in_celebration w = false /\
   Incl_Window.confirm_modal w = true /\
   input.is_pressed Scenario.no_buttons input.BUTTON_ESC = false /\
   input.is_pressed Scenario.no_buttons input.BUTTON_ENTER = false /\
   input.is_pressed Scenario.no_buttons input.BUTTON_PAUSE = false) /\
  exists i : Z,
    Incl_Window.frame Scenario.RAND_MAX Scenario.cos_poly Scenario.sin_poly
      Scenario.no_buttons 0.016 w =
    Some (Incl_Window.set_paused_index i w).
Proof.
  intros w. split; [repeat split|].
  destruct (pause_freezes_match Scenario.RAND_MAX Scenario.cos_poly
              Scenario.sin_poly Scenario.no_buttons 0.016 w
              eq_refl eq_refl eq_refl eq_refl eq_refl eq_refl eq_refl)
    as (i & E & _).
  exists i. exact E.
Defined.





(** ** Rounding to tenths *)

Lemma lroundf_near (a : Q) :
  a - (1 # 2) <= inject_Z (Float.lroundf a) <= a + (1 # 2).
Proof.
  unfold Float.lroundf. destruct (Qle_bool 0 a).
  - pose proof (Qfloor_le (a + (1 # 2))) as F.
    pose proof (Qlt_floor (a + (1 # 2))) as G.
    rewrite inject_Z_plus in G. change (inject_Z 1) with 1 in G. lra.
  - pose proof (Qle_ceiling (a - (1 # 2))) as F.
    pose proof (Qceiling_lt (a - (1 # 2))) as G.
    unfold Zminus in G. rewrite inject_Z_plus, inject_Z_opp in G.
    change (inject_Z 1) with 1 in G. lra.
Qed.

Lemma lroundf_of_int (a : Q) (n : Z) :
  a == inject_Z n -> Float.lroundf a = n.
Proof.
  intros E. apply Z.le_antisymm.
  - apply lroundf_le. rewrite E. apply Qle_refl.
  - apply lroundf_ge. rewrite E. apply Qle_refl.
Qed.

Lemma round_to_tenths (v : Q) :
  utils.round_to v 1 * 10 == inject_Z (Float.lroundf (v * 10)).
Proof.
  unfold utils.round_to, Float.round. change (inject_Z (10 ^ 1)) with 10.
  field.
Qed.

Lemma round_to_fixed (v : Q) (n : Z) :
  v * 10 == inject_Z n -> utils.round_to v 1 == v.
Proof.
  intros E. pose proof (round_to_tenths v) as T.
  rewrite (lroundf_of_int (v * 10) n E) in T. lra.
Qed.

(** X19.  [utils::round_to(value, 1)]: the result is a whole number of tenths,
    the nearest to [value], so within 0.05 of it; a value that is a whole
    number of tenths is returned as it is, hence rounding twice is
    rounding once; and what [save_to_file] writes is not changed by
    saving again. *)
Theorem round_to_spec (v : Q) (c : Config.t) :
  let r := utils.round_to v 1 in
  r * 10 == inject_Z (Float.lroundf (v * 10)) /\
  v - 0.05 <= r <= v + 0.05 /\
  (forall n : Z, v * 10 == inject_Z n -> r == v) /\
  utils.round_to r 1 == r /\
  (let c1 := Config.save_to_file c in
   let c2 := Config.save_to_file c1 in
   Config.paddle_speed c2 == Config.paddle_speed c1 /\
   Config.paddle_damping c2 == Config.paddle_damping c1 /\
   Config.ball_speed c2 == Config.ball_speed c1 /\
   Config.music_volume c2 == Config.music_volume c1 /\
   Config.sfx_volume c2 == Config.sfx_volume c1 /\
   Config.game_duration_secs c2 = Config.game_duration_secs c1 /\
   Config.ai_difficulty c2 = Config.ai_difficulty c1 /\
   Config.audio_enabled c2 = Config.audio_enabled c1).
Proof.
  cbv zeta.
  assert (I : forall u, utils.round_to (utils.round_to u 1) 1 ==
                        utils.round_to u 1).
  { intros u. apply (round_to_fixed _ (Float.lroundf (u * 10))).
    apply round_to_tenths. }
  split; [apply round_to_tenths|]. split.
  - pose proof (round_to_tenths v) as T.
    pose proof (lroundf_near (v * 10)) as N. lra.
  - split; [intros n E; apply (round_to_fixed v n E)|].
    split; [apply I|]. cbn. repeat split; apply I.
Qed.

(** ** The sound pool *)



(** ** The colour of a paddle that has just been hit *)

Lemma land_shifted_small (a b n : Z) :
  (0 <= n)%Z -> (0 <= b < 2 ^ n)%Z -> Z.land (Z.shiftl a n) b = 0%Z.
Proof.
  intros Hn Hb. apply Z.bits_inj'. intros i Hi.
  rewrite Z.land_spec, Z.bits_0.
  destruct (Z.lt_ge_cases i n) as [L | L].
  - rewrite Z.shiftl_spec_low by exact L. reflexivity.
  - rewrite <- (Z.mod_small b (2 ^ n)) by exact Hb.
    rewrite Z.mod_pow2_bits_high by lia. apply andb_false_r.
Qed.

Lemma pack_channels (r g b : Z) :
  (0 <= r < 256)%Z -> (0 <= g < 256)%Z -> (0 <= b < 256)%Z ->
  Z.lor (Z.lor (Z.shiftl r 16) (Z.shiftl g 8)) b =
  (r * 65536 + g * 256 + b)%Z.
Proof.
  intros Hr Hg Hb.
  assert (E1 : Z.lor (Z.shiftl r 16) (Z.shiftl g 8) = (r * 65536 + g * 256)%Z).
  { pose proof (Z.add_lor_land (Z.shiftl r 16) (Z.shiftl g 8)) as A.
    rewrite land_shifted_small in A.
    - rewrite !Z.shiftl_mul_pow2 in A by lia.
      rewrite !Z.shiftl_mul_pow2 by lia.
      change (2 ^ 16)%Z with 65536%Z in *. change (2 ^ 8)%Z with 256%Z in *.
      lia.
    - lia.
    - rewrite Z.shiftl_mul_pow2 by lia. change (2 ^ 8)%Z with 256%Z.
      change (2 ^ 16)%Z with 65536%Z. lia. }
  rewrite E1.
  pose proof (Z.add_lor_land (r * 65536 + g * 256) b) as A.
  replace (r * 65536 + g * 256)%Z with (Z.shiftl (r * 256 + g) 8) in A at 2.
  - rewrite land_shifted_small in A; [lia|lia|].
    change (2 ^ 8)%Z with 256%Z. lia.
  - rewrite Z.shiftl_mul_pow2 by lia. change (2 ^ 8)%Z with 256%Z. lia.
Qed.

Lemma channel_range (x : Z) : (0 <= Z.land x 255 < 256)%Z.
Proof.
  change 255%Z with (Z.ones 8). rewrite Z.land_ones by lia.
  apply Z.mod_pos_bound. reflexivity.
Qed.

Lemma channels_of_pack (r g b : Z) :
  (0 <= r < 256)%Z -> (0 <= g < 256)%Z -> (0 <= b < 256)%Z ->
  let x := (r * 65536 + g * 256 + b)%Z in
  Z.land (Z.shiftr x 16) 255 = r /\ Z.land (Z.shiftr x 8) 255 = g /\
  Z.land x 255 = b.
Proof.
  intros Hr Hg Hb. cbv zeta.
  change 255%Z with (Z.ones 8). rewrite !Z.land_ones by lia.
  rewrite !Z.shiftr_div_pow2 by lia.
  change (2 ^ 16)%Z with 65536%Z. change (2 ^ 8)%Z with 256%Z.
  repeat split; Z.div_mod_to_equations; lia.
Qed.

Lemma trunc_of_int (a : Q) (n : Z) : a == inject_Z n -> Float.trunc a = n.
Proof.
  intros E. destruct (trunc_bounds a) as [P N].
  assert (S1 : inject_Z (Float.trunc a + 1) == inject_Z (Float.trunc a) + 1).
  { rewrite inject_Z_plus. reflexivity. }
  assert (S2 : inject_Z (n + 1) == inject_Z n + 1).
  { rewrite inject_Z_plus. reflexivity. }
  destruct (Z.le_gt_cases 0 n) as [L | L].
  - assert (L' : inject_Z 0 <= inject_Z n) by (rewrite <- Zle_Qle; exact L).
    change (inject_Z 0) with 0 in L'.
    destruct P as [P1 P2]; [lra|].
    assert (A1 : inject_Z (Float.trunc a) <= inject_Z n) by lra.
    assert (A2 : inject_Z n < inject_Z (Float.trunc a + 1)) by lra.
    rewrite <- Zle_Qle in A1. rewrite <- Zlt_Qlt in A2. lia.
  - assert (L' : inject_Z n < inject_Z 0) by (rewrite <- Zlt_Qlt; lia).
    change (inject_Z 0) with 0 in L'.
    destruct N as [N1 N2]; [lra|].
    assert (A1 : inject_Z n <= inject_Z (Float.trunc a)) by lra.
    assert (A2 : inject_Z (Float.trunc a) < inject_Z (n + 1)) by lra.
    rewrite <- Zle_Qle in A1. rewrite <- Zlt_Qlt in A2. lia.
Qed.

Lemma lighten_channel (r : Z) (t : Q) :
  (0 <= r < 256)%Z -> 0 <= t <= 1 ->
  let r' := Float.to_u8 (Float.of_int r + Float.of_int (255 - r) * t) in
  (r <= r' < 256)%Z /\ (t == 0 -> r' = r) /\ (t == 1 -> r' = 255%Z).
Proof.
  intros Hr Ht. cbv zeta. unfold Float.to_u8, Float.of_int.
  set (v := inject_Z r + inject_Z (255 - r) * t).
  assert (Hq : 0 <= inject_Z (255 - r)).
  { change 0 with (inject_Z 0). rewrite <- Zle_Qle. lia. }
  assert (Hr0 : 0 <= inject_Z r).
  { change 0 with (inject_Z 0). rewrite <- Zle_Qle. lia. }
  assert (E255 : inject_Z r + inject_Z (255 - r) == 255).
  { rewrite <- inject_Z_plus. replace (r + (255 - r))%Z with 255%Z by lia.
    reflexivity. }
  assert (Hv : inject_Z r <= v <= 255).
  { unfold v. set (q := inject_Z (255 - r)) in *. clearbody q.
    split; nra. }
  assert (B : (r <= Float.trunc v <= 255)%Z).
  { destruct (trunc_bounds v) as [[P1 P2] _]; [lra|].
    assert (A1 : inject_Z (Float.trunc v) <= inject_Z 255).
    { change (inject_Z 255) with 255. lra. }
    assert (A2 : inject_Z r < inject_Z (Float.trunc v + 1)).
    { rewrite inject_Z_plus. change (inject_Z 1) with 1. lra. }
    rewrite <- Zle_Qle in A1. rewrite <- Zlt_Qlt in A2. lia. }
  rewrite Z.mod_small by lia.
  split; [lia|]. split; intros E.
  - apply trunc_of_int. unfold v. rewrite E. ring.
  - apply trunc_of_int. unfold v. rewrite E.
    change (inject_Z 255) with 255. lra.
Qed.

(** X21.  [lighten_color] for an intensity in [[0, 1]], which is what the
    pulse timer gives: each of the three channels of the result lies
    between the channel of the colour given and 255, so the paddle only
    gets lighter; the top byte of the result is clear; at intensity 0 the
    result is the colour without its top byte, and at intensity 1 it is
    white. *)
Theorem lighten_color_spec (c : Z) (intensity : Q) :
  0 <= intensity <= 1 ->
  let c' := Incl_Player.lighten_color c intensity in
  let channel (k x : Z) := Z.land (Z.shiftr x k) 0xFF in
  (channel 16 c <= channel 16 c' <= 255)%Z /\
  (channel 8 c <= channel 8 c' <= 255)%Z /\
  (channel 0 c <= channel 0 c' <= 255)%Z /\
  (0 <= c' < 2 ^ 24)%Z /\
  (intensity == 0 -> c' = Z.land c 0xFFFFFF) /\
  (intensity == 1 -> c' = 0xFFFFFF%Z).
Proof.
  intros Ht. cbv zeta. unfold Incl_Player.lighten_color. cbv zeta.
  rewrite Z.shiftr_0_r.
  pose proof (channel_range (Z.shiftr c 16)) as Hr.
  pose proof (channel_range (Z.shiftr c 8)) as Hg.
  pose proof (channel_range c) as Hb.
  set (r := Z.land (Z.shiftr c 16) 255) in *.
  set (g := Z.land (Z.shiftr c 8) 255) in *.
  set (b := Z.land c 255) in *.
  destruct (lighten_channel r intensity Hr Ht) as (Br & Zr & Or).
  destruct (lighten_channel g intensity Hg Ht) as (Bg & Zg & Og).
  destruct (lighten_channel b intensity Hb Ht) as (Bb & Zb & Ob).
  cbv zeta in *.
  set (r' := Float.to_u8 (Float.of_int r + Float.of_int (255 - r) * intensity))
    in *.
  set (g' := Float.to_u8 (Float.of_int g + Float.of_int (255 - g) * intensity))
    in *.
  set (b' := Float.to_u8 (Float.of_int b + Float.of_int (255 - b) * intensity))
    in *.
  rewrite (pack_channels r' g' b') by lia.
  destruct (channels_of_pack r' g' b') as (C1 & C2 & C3); try lia.
  cbv zeta in C1, C2, C3. rewrite Z.shiftr_0_r, C1, C2, C3.
  split; [lia|]. split; [lia|]. split; [lia|].
  split; [change (2 ^ 24)%Z with 16777216%Z; lia|]. split; intros E.
  - rewrite (Zr E), (Zg E), (Zb E). unfold r, g, b.
    change 255%Z with (Z.ones 8). change 16777215%Z with (Z.ones 24).
    rewrite !Z.land_ones by lia. rewrite !Z.shiftr_div_pow2 by lia.
    change (2 ^ 16)%Z with 65536%Z. change (2 ^ 8)%Z with 256%Z.
    change (2 ^ 24)%Z with 16777216%Z.
    Z.div_mod_to_equations. lia.
  - rewrite (Or E), (Og E), (Ob E). reflexivity.
Qed.

(** The theorem on the blue of the right paddle, half-way through the
    pulse. *)
Lemma lighten_color_spec_witness :
  0 <= 0.5 <= 1 /\
  (0 <= Incl_Player.lighten_color 0x004DABF7 0.5 < 2 ^ 24)%Z.
Proof.
  assert (H : 0 <= 0.5 <= 1) by (split; discriminate).
  split; [exact H|].
  apply (lighten_color_spec 0x004DABF7 0.5 H).
Defined.

(** ** Time up in src/include/game.hpp *)

(** X22.  Once the time of a match is up (no countdown, celebration or pause
    menu on), an iteration runs neither [Player::update] nor
    [Ball::update] and starts no celebration, whether or not the ball has
    scored: it adds [dt] to the delay, and when the delay has reached
    2.5 s it returns to the main menu and clears the time-up state,
    skipping the keys of the pause menu for that iteration.  Until then
    the keys of the pause menu are all that acts, so with neither Escape,
    Enter nor P going down only the delay changes. *)
Theorem time_up_ends_match (RAND_MAX : Z) (cosf sinf : Q -> Q)
    (bt : input.Buttons) (dt : Q) (w : Incl_Window.t) :
  Incl_Window.menu_state w = MENU_PLAYING ->
  Incl_Window.in_countdown w = false ->
  Incl_Window.in_celebration w = false ->
  Incl_Window.confirm_modal w = false ->
  Incl_Window.time_up_state w = true ->
  let delay := Incl_Window.time_up_delay w + dt in
  let w1 := Incl_Window.set_time_up_delay delay w in
  exists w',
    Incl_Window.frame RAND_MAX cosf sinf bt dt w = Some w' /\
    (2.5 <= delay ->
     w' = Incl_Window.set_time_up_state false
            (Incl_Window.set_menu_state MENU_MAIN w1)) /\
    (delay < 2.5 -> w' = Incl_Window.pause_keys bt w1) /\
    (delay < 2.5 ->
     input.is_pressed bt input.BUTTON_ESC = false ->
     input.is_pressed bt input.BUTTON_ENTER = false ->
     input.is_pressed bt input.BUTTON_PAUSE = false ->
     w' = w1).
Proof.
  intros M Cd Ce Cm T. cbv zeta.
  unfold Incl_Window.frame. rewrite M. unfold Incl_Window.playing.
  rewrite Cd, Ce, Cm. unfold Incl_Window.play. rewrite T. cbn [negb].
  assert (K : Incl_Window.match_clock dt w = w).
  { unfold Incl_Window.match_clock. rewrite T, Cm, Cd.
    rewrite !andb_false_r. reflexivity. }
  cbv zeta. rewrite K, T. incl_proj.
  destruct (Incl_Window.time_up_delay w + dt >=? 2.5) eqn:D;
    [apply leb_true in D | apply leb_false in D].
  - eexists. split; [reflexivity|]. incl_proj.
    split; [intros _; reflexivity|]. split; intros H; lra.
  - incl_proj. rewrite T. cbn [negb andb].
    eexists. split; [reflexivity|].
    split; [intros H; lra|]. split; [intros _; reflexivity|].
    intros _ E1 E2 E3. apply incl_pause_keys_idle; assumption.
Qed.

(** The theorem on a match whose time has just run out, with no key
    touched. *)
Lemma time_up_ends_match_witness :
  let w := Incl_Window.set_time_up_state true
             (Incl_Window.set_in_countdown false
                (Incl_Window.start_match true
                   (Incl_Window.initial Config.default []))) in
  (Incl_Window.menu_state w = MENU_PLAYING /\
   Incl_Window.in_countdown w = false /\
   Incl_Window.in_celebration w = false /\
   Incl_Window.confirm_modal w = false /\
   Incl_Window.time_up_state w = true) /\
  exists w',
    Incl_Window.frame Scenario.RAND_MAX Scenario.cos_poly Scenario.sin_poly
      Scenario.no_buttons 3 w = Some w' /\
    Incl_Window.menu_state w' = MENU_MAIN.
Proof.
  intros w. split; [repeat split|].
  destruct (time_up_ends_match Scenario.RAND_MAX Scenario.cos_poly
              Scenario.sin_poly Scenario.no_buttons 3 w
              eq_refl eq_refl eq_refl eq_refl eq_refl)
    as (w' & E & A & _).
  exists w'. split; [exact E|]. rewrite A by discriminate. reflexivity.
Defined.

(** ** The particles of a burst from update to update *)

Lemma left_of_refl (l : list Particle.t) : Flight.left_of l l.
Proof.
  induction l as [|p l IH]; constructor; [|exact IH].
  split; [reflexivity|apply Qle_refl].
Qed.

Lemma left_of_trans (l1 l2 l3 : list Particle.t) :
  Flight.left_of l1 l2 -> Flight.left_of l2 l3 -> Flight.left_of l1 l3.
Proof.
  intros H. revert l3.
  induction H as [|p q l l' O H IH|p l l' H IH]; intros l3 K.
  - exact K.
  - inversion K as [|q' r m m' O' K'|q' m m' K']; subst.
    + apply Flight.left_keep; [|apply IH, K'].
      destruct O as [V1 L1], O' as [V2 L2]. split; [congruence|].
      eapply Qle_trans; [exact L2|exact L1].
    + apply Flight.left_drop, IH, K'.
  - apply Flight.left_drop, IH, K.
Qed.

Lemma left_of_length (l l' : list Particle.t) :
  Flight.left_of l l' -> (length l' <= length l)%nat.
Proof. induction 1; cbn; lia. Qed.

(** One update of an active burst: the particles it leaves. *)
Lemma update_particles (dt : Q) (b : ParticleBurst.t) :
  ParticleBurst.active b = true ->
  ParticleBurst.particles (ParticleBurst.update dt b)
    = Flight.after dt (ParticleBurst.particles b) /\
  Flight.linked (ParticleBurst.update dt b).
Proof.
  intros A. unfold ParticleBurst.update, Flight.linked. rewrite A.
  cbn [negb]. lazy beta iota zeta.
  assert (E : List.filter (fun p => negb (ParticleBurst.dead p))
                (List.map (ParticleBurst.advance dt)
                          (ParticleBurst.particles b))
              = Flight.after dt (ParticleBurst.particles b)).
  { unfold Flight.after.
    induction (ParticleBurst.particles b) as [|p l IH]; [reflexivity|].
    cbn [List.map List.filter].
    assert (T : negb (ParticleBurst.dead (ParticleBurst.advance dt p))
                = (dt <? Particle.life p)).
    { unfold ParticleBurst.dead. cbn [ParticleBurst.advance Particle.life].
      destruct (dt <? Particle.life p) eqn:C;
        [apply ltb_true in C|apply ltb_false in C].
      - apply negb_true_iff, leb_false. lra.
      - apply negb_false_iff, leb_true. lra. }
    rewrite T. destruct (dt <? Particle.life p); cbn [List.map];
      rewrite IH; reflexivity. }
  rewrite E. cbn [ParticleBurst.particles ParticleBurst.active
                  ParticleBurst.set_particles].
  split; [reflexivity|].
  destruct (Flight.after dt (ParticleBurst.particles b)); reflexivity.
Qed.

Lemma after_left_of (dt : Q) (l : list Particle.t) :
  0 <= dt ->
  Flight.left_of l (Flight.after dt l) /\
  Forall (fun p => 0 < Particle.life p) (Flight.after dt l).
Proof.
  intros Hdt. unfold Flight.after.
  induction l as [|p l [IH1 IH2]]; [split; constructor|].
  cbn [List.filter].
  destruct (dt <? Particle.life p) eqn:C;
    [apply ltb_true in C|apply ltb_false in C]; cbn [List.map].
  - split.
    + apply Flight.left_keep; [|exact IH1].
      split; [reflexivity|]. cbn. lra.
    + constructor; [cbn; lra|exact IH2].
  - split; [apply Flight.left_drop, IH1|exact IH2].
Qed.

(** What any number of updates keeps. *)
Lemma updates_keep (dts : list Q) (b : ParticleBurst.t) :
  Forall (fun dt => 0 <= dt) dts ->
  Flight.linked b ->
  Forall (fun p => 0 < Particle.life p) (ParticleBurst.particles b) ->
  let b' := Burst.updates dts b in
  Flight.linked b' /\
  Forall (fun p => 0 < Particle.life p) (ParticleBurst.particles b') /\
  Flight.left_of (ParticleBurst.particles b) (ParticleBurst.particles b').
Proof.
  intros Hd. revert b. induction Hd as [|dt dts Hdt Hd IH]; intros b L P.
  - cbn. split; [exact L|]. split; [exact P|apply left_of_refl].
  - cbv zeta.
    change (Burst.updates (dt :: dts) b)
      with (Burst.updates dts (ParticleBurst.update dt b)).
    destruct (ParticleBurst.active b) eqn:A.
    + destruct (update_particles dt b A) as [E L1].
      destruct (after_left_of dt (ParticleBurst.particles b) Hdt) as [K1 K2].
      rewrite <- E in K1, K2.
      destruct (IH _ L1 K2) as (I1 & I2 & I3). cbv zeta in I1, I2, I3.
      split; [exact I1|]. split; [exact I2|].
      eapply left_of_trans; [exact K1|exact I3].
    + assert (U : ParticleBurst.update dt b = b).
      { unfold ParticleBurst.update. rewrite A. reflexivity. }
      rewrite U. apply IH; assumption.
Qed.

(** X23.  [ParticleBurst::update] on an active burst, for ticks none of
    which is negative.  One update leaves exactly the particles whose
    life exceeds [dt], in their order, each at [pos + vel * dt] and with
    [life - dt].  After any further updates: the burst is active exactly
    when a particle is left; every particle left has a positive life;
    the particles left are some of the original ones, in their order,
    each with its velocity and with no more life than it had; and once
    the burst is inactive an update changes nothing. *)
Theorem burst_updates_keep (dt : Q) (dts : list Q) (b : ParticleBurst.t) :
  ParticleBurst.active b = true ->
  Forall (fun d => 0 <= d) (dt :: dts) ->
  let b' := Burst.updates (dt :: dts) b in
  ParticleBurst.particles (ParticleBurst.update dt b)
    = Flight.after dt (ParticleBurst.particles b) /\
  Flight.linked b' /\
  Forall (fun p => 0 < Particle.life p) (ParticleBurst.particles b') /\
  Flight.left_of (ParticleBurst.particles b) (ParticleBurst.particles b') /\
  (length (ParticleBurst.particles b')
   <= length (ParticleBurst.particles b))%nat /\
  (forall d, ParticleBurst.active b' = false ->
             ParticleBurst.update d b' = b').
Proof.
  intros A Hd. cbv zeta.
  change (Burst.updates (dt :: dts) b)
    with (Burst.updates dts (ParticleBurst.update dt b)).
  inversion Hd as [|? ? Hdt Hd']; subst.
  destruct (update_particles dt b A) as [E L1].
  destruct (after_left_of dt (ParticleBurst.particles b) Hdt) as [K1 K2].
  rewrite <- E in K1, K2.
  destruct (updates_keep dts _ Hd' L1 K2) as (I1 & I2 & I3).
  cbv zeta in I1, I2, I3.
  assert (K : Flight.left_of (ParticleBurst.particles b)
                (ParticleBurst.particles
                   (Burst.updates dts (ParticleBurst.update dt b))))
    by (eapply left_of_trans; [exact K1|exact I3]).
  split; [exact E|]. split; [exact I1|]. split; [exact I2|].
  split; [exact K|]. split; [apply left_of_length, K|].
  intros d Az.
  set (b' := Burst.updates dts (ParticleBurst.update dt b)) in *.
  clearbody b'. unfold ParticleBurst.update. rewrite Az. reflexivity.
Qed.

(** The theorem on a burst of three particles updated by the ticks 1/4,
    1/4 and 1/2. *)
Lemma burst_updates_keep_witness :
  let b := ParticleBurst.set_particles
             [Particle.mk (Vector2.mk 0 0) (Vector2.mk 30 (-40)) 2;
              Particle.mk (Vector2.mk 0 0) (Vector2.mk 10 10) (1 # 2);
              Particle.mk (Vector2.mk 5 5) (Vector2.mk (-60) 0) (3 # 2)]
             true ParticleBurst.initial in
  let b' := Burst.updates [1 # 4; 1 # 4; 1 # 2] b in
  (ParticleBurst.active b = true /\
   Forall (fun d => 0 <= d) [1 # 4; 1 # 4; 1 # 2]) /\
  (length (ParticleBurst.particles b') <= 3)%nat /\
  Forall (fun p => 0 < Particle.life p) (ParticleBurst.particles b').
Proof.
  intros b b'.
  assert (Hd : Forall (fun d => 0 <= d) [1 # 4; 1 # 4; 1 # 2])
    by (repeat constructor; discriminate).
  split; [split; [reflexivity|exact Hd]|].
  destruct (burst_updates_keep (1 # 4) [1 # 4; 1 # 2] b eq_refl Hd)
    as (_ & _ & P & _ & N & _).
  split; [exact N|exact P].
Defined.

(** ** The flash on the window *)

Lemma flash_grey (f : FlashEffect.t) :
  0 < FlashEffect.alpha f <= 1 ->
  exists r, (76 <= r <= 255)%Z /\ FlashEffect.color f = (r * 65793)%Z.
Proof.
  intros [A0 A1]. unfold FlashEffect.color. cbv zeta.
  unfold Float.to_u8.
  set (v := 255 * (0.3 + 0.7 * FlashEffect.alpha f)).
  assert (V : (153 # 2) < v <= 255) by (unfold v; lra).
  destruct (trunc_bounds v) as [P _].
  destruct P as [P1 P2]; [lra|].
  set (t := Float.trunc v) in *.
  assert (T1 : (75 < t)%Z).
  { rewrite Zlt_Qlt. rewrite <- Qplus_lt_l with (z := 1) in P2.
    change (inject_Z 75) with 75. lra. }
  assert (T2 : (t <= 255)%Z).
  { rewrite Zle_Qle. change (inject_Z 255) with 255. lra. }
  exists t. split; [lia|].
  rewrite Z.mod_small by lia.
  rewrite pack_channels by lia. lia.
Qed.

(** X24.  [FlashEffect::render] on an allocated window of positive
    size, for a running flash: it draws the rectangle of half-size
    100 x 100 world units around the origin in one colour, and nothing
    else.  When the window is at most twice as wide as it is high,
    every pixel of the window gets that colour; when it is wider than
    that by two pixels or more, the first column keeps what it held, so
    the flash no longer covers the window.  For [alpha] in (0, 1] the
    colour is a grey [r * 0x010101] with [r] between 76 and 255. *)
Theorem flash_covers_window (f : FlashEffect.t) (rs : render.RenderState) :
  Pixels.allocated rs ->
  (0 < render.width rs)%Z -> (0 < render.height rs)%Z ->
  FlashEffect.active f = true -> FlashEffect.renderer f = true ->
  let rs' := FlashEffect.render f rs in
  Pixels.only_paints (FlashEffect.color f) rs rs' /\
  (forall x_ y_ : Z,
     (0 <= x_ < render.width rs)%Z -> (0 <= y_ < render.height rs)%Z ->
     (render.width rs <= 2 * render.height rs)%Z ->
     Pixels.pixel x_ y_ rs' = Some (FlashEffect.color f)) /\
  (forall y_ : Z,
     (0 <= y_ < render.height rs)%Z ->
     (2 * render.height rs + 2 <= render.width rs)%Z ->
     Pixels.pixel 0 y_ rs' = Pixels.pixel 0 y_ rs) /\
  (0 < FlashEffect.alpha f <= 1 ->
   exists r, (76 <= r <= 255)%Z /\ FlashEffect.color f = (r * 65793)%Z).
Proof.
  intros Al Hw Hh A R rs'. subst rs'.
  unfold FlashEffect.render. rewrite A, R. cbn [negb orb].
  split; [apply render_rect_only_paints|].
  split; [|split; [|apply flash_grey]].
  - intros x_ y_ Hx Hy Hwh. unfold render.render_rect.
    assert (Z0 : ((render.height rs =? 0) || (render.width rs =? 0))%Z
                 = false).
    { apply orb_false_iff; split; apply Z.eqb_neq; lia. }
    rewrite Z0. cbv zeta. unfold Float.of_int.
    rewrite rect_pixel by assumption.
    assert (QW : inject_Z (render.width rs)
                 <= 2 * inject_Z (render.height rs)).
    { change 2 with (inject_Z 2). rewrite <- inject_Z_mult.
      rewrite <- Zle_Qle. exact Hwh. }
    assert (QH : 0 < inject_Z (render.height rs)).
    { change 0 with (inject_Z 0). rewrite <- Zlt_Qlt. exact Hh. }
    assert (QW0 : 0 < inject_Z (render.width rs)).
    { change 0 with (inject_Z 0). rewrite <- Zlt_Qlt. exact Hw. }
    set (W := inject_Z (render.width rs)) in *.
    set (H := inject_Z (render.height rs)) in *.
    assert (X0 : (Float.lroundf (0 * (H * 0.01) + W * 0.5
                                 - 100 * (H * 0.01)) <= 0)%Z).
    { apply lroundf_le. change (inject_Z 0) with 0. lra. }
    assert (X1 : (render.width rs
                  <= Float.lroundf (0 * (H * 0.01) + W * 0.5
                                    + 100 * (H * 0.01)))%Z).
    { apply lroundf_ge. fold W. lra. }
    assert (Y0 : (Float.lroundf (0 * (H * 0.01) + H * 0.5
                                 - 100 * (H * 0.01)) <= 0)%Z).
    { apply lroundf_le. change (inject_Z 0) with 0. lra. }
    assert (Y1 : (render.height rs
                  <= Float.lroundf (0 * (H * 0.01) + H * 0.5
                                    + 100 * (H * 0.01)))%Z).
    { apply lroundf_ge. fold H. lra. }
    replace (_ && _ && _ && _)%bool with true; [reflexivity|].
    symmetry.
    repeat (apply andb_true_iff; split);
      [apply Z.leb_le|apply Z.ltb_lt|apply Z.leb_le|apply Z.ltb_lt]; lia.
  - intros y_ Hy Hwh. unfold render.render_rect.
    assert (Z0 : ((render.height rs =? 0) || (render.width rs =? 0))%Z
                 = false).
    { apply orb_false_iff; split; apply Z.eqb_neq; lia. }
    rewrite Z0. cbv zeta. unfold Float.of_int.
    rewrite rect_pixel by (assumption || lia).
    assert (QW : 2 * inject_Z (render.height rs) + 2
                 <= inject_Z (render.width rs)).
    { change 2 with (inject_Z 2).
      rewrite <- inject_Z_mult, <- inject_Z_plus.
      rewrite <- Zle_Qle. exact Hwh. }
    set (W := inject_Z (render.width rs)) in *.
    set (H := inject_Z (render.height rs)) in *.
    assert (X0 : (1 <= Float.lroundf (0 * (H * 0.01) + W * 0.5
                                      - 100 * (H * 0.01)))%Z).
    { apply lroundf_ge. change (inject_Z 1) with 1. lra. }
    replace (_ && _ && _ && _)%bool with false; [reflexivity|].
    symmetry. rewrite !andb_false_iff. left. left. left.
    apply Z.leb_gt. lia.
Qed.

(** The theorem on a window of 4 x 3 pixels and a flash just started. *)
Lemma flash_covers_window_witness :
  let rs := render.mkRenderState (Some (repeat 0%Z 12)) 4 3 in
  let f := FlashEffect.start (FlashEffect.mk true 0 false 3) in
  Pixels.allocated rs /\
  Pixels.pixel 3 2 (FlashEffect.render f rs) = Some (FlashEffect.color f).
Proof.
  intros rs f.
  assert (Al : Pixels.allocated rs).
  { split; [cbn; lia|]. split; [cbn; lia|].
    exists (repeat 0%Z 12). split; reflexivity. }
  split; [exact Al|].
  destruct (flash_covers_window f rs Al eq_refl eq_refl eq_refl eq_refl)
    as (_ & C & _).
  apply C; cbn; lia.
Defined.
